(* ===== verification/_CoqProject ===== *)
-Q . S2P
Overview.v
Prelude.v
Json.v
Sha256.v
Binding.v
BindingM2.v
Frame.v
Authority.v
Receipt.v
Trace.v
Bridge.v
Capability.v
Sqlite.v
Integrity.v
Archives.v
Store.v
StoreFacts.v
StoreVerify.v
StoreTxn.v
Will.v
Warrant.v
Effects.v
EffectsIrr.v
EffectsRev.v
Csh.v
Kernel.v
KernelFacts.v
ExecuteFacts.v
Reconcile.v
EffectTrail.v
Founding.v
Session.v
NamespaceGov.v
Decision.v
Witness.v
Amendment.v
Scale.v
Transport.v
Endpoints.v
Evidence.v
CkCanon.v
SmhProjection.v
SmhLedger.v
Auditing.v
