(* ===== verification/Overview.v ===== *)
(** * A verification development for the Unified Governance Kernel (UGK)

    The program (Python, under [src/ugk], with its store-management tools under [src/tools/smh])
    is a governance kernel: every operation an application wants to perform goes through
    [GovernanceKernel.execute], which decides whether the operation is declared and authorised,
    records the decision as a receipt in an append-only hash chain, runs the effect and records
    how it ended.  This development models that program part by part as executable definitions
    and proves what makes each part correct and what their composition guarantees.

    ** The parts of the program and how they interact

    - Serialisation and commitments: canonical JSON, SHA-256, Unicode composition and the
      commitment scheme M2 ([storage/binding.py], [storage/binding_m2.py]).  Everything above
      hashes through them.
    - The constitutional frame: regime, epochs, policies, keys, lineage and namespace root
      ([invariants.py], [freshness.py], [governance/policy.py], [authority/*.py], [lineage.py],
      [namespace.py]).  A receipt commits to the frame it was written under.
    - Receipts and their store ([storage/store.py], [integrity/*], [scope.py]): a SQLite table of
      linked receipts, with transactions, migration, pruning and verifiers.
    - Warrants, intents and the finality layer ([governance/warrant.py], [intent.py], [will.py],
      [csh.py]): their own stores, read by the kernel.
    - The kernel ([kernel.py] with [schema.py], [ops.py], [governance/governor.py]): [execute], the
      trails of external effects, reconciliation and compensation, sessions, continuations,
      snapshots, founding, finality.  Its state is the receipt store plus what is attached to it.
    - Clients of the kernel: namespace ownership ([namespace_governance.py]), amendments
      ([amendment.py], [successor.py]), receipt decisions and witnesses ([decision.py],
      [witness.py]), the scale lane ([scale/*.py]), the transport ([transport/*.py]), the audit
      session ([storage/audit.py]).
    - Beside the kernel: capability evidence ([cgp/*.py], [authority/capability_evidence.py]), the
      authority checks ([authority/a1_verifier.py], [rho_hardened.py]), and the external ledger and
      projection registry of the store-management tools ([tools/smh/*.py]).

    ** The files

    A file models the sources named with it; its definitions keep the names of the Python ones.

    - [Prelude]: results and exceptions, the state monad and its notations, text and list lemmas,
      the hint database [ugk].  [Json]: Python values, [json.dumps]/[json.loads] and their round
      trip.  [Sha256]: SHA-256 as a function on bytes.
    - [Binding], [BindingM2]: canonical JSON, digests, the receipt root and inclusion proofs.
    - [Frame], [Authority]: the frame, the graph of signed delegations and its paths.
    - [Receipt], [Trace], [Bridge], [Capability]: the receipt and its body commitment, the decision
      vector, bridge bindings, the capability dispatcher and policy.
    - [Sqlite]: one connection (implicit transaction, savepoints, commit, faults).  [Integrity]:
      verification levels, preflight validation, the mutation block.  [Archives]: table shapes and
      their fingerprint, scopes, authority models.
    - [Store]: the class [UGKReceiptStore], its state (connection, in-memory frontier, depth of the
      governed transaction, environment) and every operation.  [StoreFacts], [StoreVerify],
      [StoreTxn]: what a write guarantees, reading back and verifying, atomicity.
    - [Will], [Warrant], [Csh]: intents and coverage, decision warrants, attestation and finality.
    - [Effects], [EffectsIrr], [EffectsRev]: the detectors of effects left in doubt.
    - [Kernel]: the state of [GovernanceKernel], the writers of each receipt and [execute].
      [KernelFacts]: the specification of a call (the receipts each outcome leaves) and the
      refinement.  [ExecuteFacts]: order of admission and effect, retry bound, detection.
    - [Reconcile], [EffectTrail], [Founding], [Session]: the rest of [kernel.py] and the conformance
      verifiers of the effect trail ([conformance/effect_trail_integrity_gate.py]).
    - [NamespaceGov], [Decision], [Witness], [Amendment], [Scale], [Transport], [Endpoints],
      [Auditing]: the clients.
    - [Evidence], [CkCanon], [SmhProjection], [SmhLedger]: the parts beside the kernel.

    ** How state and operations correspond

    Stateful code is a function in the monad [M S A] of [Prelude]: it maps a state to a result, or
    an exception, and the state left behind, so that what a failing operation leaves is part of
    every definition.  Pure fallible code returns [result exn A]; an exception is its class and
    the fixed part of its message.  The kernel's state carries the receipt store's state, whose
    connection ([Sqlite.conn]) holds the database seen by the writer, the durable database and the
    stack of savepoints; a list of faults says which commits fail.  The caches and the default
    authority graph that Python keeps at module level are the fields of [Store.env].

    - A Python [str] is its UTF-8 bytes; a float is its printed form; an integer is [Z], with the
      64-bit bounds of SQLite where a column has them.
    - A dictionary is an association list in insertion order ([Json.dict_set]); sets are [gset] or
      lists without repetition where the code sorts them.
    - Gates and effects given to the kernel are functions of the kernel state; the effect may write.
    - SQLite's rows come in insertion order.

    ** What is assumed, and where

    SHA-256 is the concrete function.  Statements that bind a commitment to its contents assume
    [no_collision] of the byte strings they compare, no more.  Ed25519, Unicode composition,
    case folding, the DDL interpreter of SQLite, the manifest of a deployment and the text of an
    exception are classes ([Ed25519], [Unicode], [Casing], [Engine], [Deployment],
    [Transport.ExnText]); where a law is needed it is a class
    of its own ([Ed25519Laws], [UnicodeLaws]) with an instance on which the witnesses compute.

    ** What the groups of theorems show

    - Commitments: the receipt root and the body hash determine what was committed
      ([H_r_binds_leaves], [h_body_commits_body]); openings are complete and binding ([Witness]);
      canonical bytes read back, do not depend on insertion order and commit ([CkCanon]).
    - Store: a write extends the chain by one linked receipt; honest writes keep the store verified
      when read back; governed transactions are all or nothing; the audit session attests what was
      written ([StoreFacts], [StoreVerify], [StoreTxn], [Auditing]).
    - Kernel: [execute] refines a specification that names the receipts each outcome may leave; an
      effect runs at most once and only after its admission is durable; a call is admitted exactly
      under the declared conditions; terminals are retried a bounded number of times; what is left
      in doubt is reported, reconciled exactly and compensated at most once; the trail of every run
      passes the conformance verifiers ([KernelFacts], [ExecuteFacts], [Reconcile], [EffectTrail]).
    - Life cycle: a ceremony leaves an active kernel whose frame, finality state and files are
      determined by what it found (with a quorum on a fresh directory that holds the governor's
      key pair, without one where key files are missing), and hydration reproduces it; a deferred
      call resumes as captured in every later state of the chain until its horizon, and in none
      once it has been resumed, unless it is deferred anew; a closed session's summary is sound
      ([Founding], [Session]).
    - Clients: namespace ownership is, name by name, a run of a small machine; amendments are
      admitted exactly when signed and lineal, and an accepted ledger chains from a known genesis
      record to the live frame; the scale lane reorders only what its oracle clears, by conditions
      stated exactly, and commits exactly what the admission lets pass when its turn comes; the
      broker passes a request to the kernel as it is and relays the answer, and a nonce executes
      once; finality is a quorum, of whatever epochs, and two conflicting finalities share a
      validator.
    - Beside the kernel: the evidence map and the authority checks accept exactly what they are
      meant to; a mint always leaves one receipt, in memory and in the file of the ledger, which
      read back verifies; the head of the ledger commits to all of it.

    Each file ends with what computing with the model showed where the code falls short of its
    documentation, as examples or theorems.

    ** Fuel and bounds

    Recursion that is not structural carries fuel, and the fuel is proved or chosen enough:
    the reader of JSON has the length of its text (every call consumes a character); the coverage
    closure has one more round than there are products to add ([closure_terminates]); the search
    for warrant cycles has one more step than there are warrants; an authority walk has as many
    steps as edges; the Merkle levels have the number of leaves; the scheduler makes as many
    passes as the batch is long.  [lineage_from] keeps the bound of the code, and a terminal
    receipt is attempted [MAX_OUTCOME_WRITE_ATTEMPTS] (three) times.

    ** Not modelled

    - Threads and processes: the store serialises writers under one lock, and the model has one
      writer.  Aliasing of dictionaries a caller keeps after handing them over.
    - The rendering by [str] or [repr] of containers, and case folding beyond the class: arguments
      of the definitions that use them.  Lone surrogates; digits other than ASCII in [int()].
    - The charter and amendment records are modelled at the types they are declared with; a
      stored field of another type is refused where Python would go on.
    - A batch of the scale lane gives each candidate one identifier.
    - Of the genesis directory: that it is there, missing, or missing with its parent, and the
      contents of its files; writing one of them does not fail.
    - Of the ledger gate: the demonstrations on synthetic records that follow the acceptance of
      the ledger.
    - The JSON envelope and HTTP server of the RPC server: glue over methods that are modelled.
    - The registries of prose ([cgp/esa/registry.py], [adr.py], the text of [invariants.py]), the
      command line, the generators of documentation, posture reports: no state and no decision
      beyond the operations they call.
    - The conformance gates, the headless runner, the laboratories and the release, review and
      proof tools: scenarios and scripts over the repository; the verifiers that two gates contain
      are modelled.  [vendor/ed25519.py] is third-party code; [migration/abletools.py] reads the
      files of another program. *)
