(* ===== verification/Prelude.v ===== *)
(** The prelude: results and exceptions, the state monad and its notations, hexadecimal and text
    helpers of the Python strings the program handles, list and option lemmas, the hint database [ugk]. *)
From Stdlib Require Export ZArith String Ascii Lia List.
From Stdlib Require Import DecimalString DecimalZ.
From Stdlib Require Export Sorted Permutation.
From stdpp Require Export base list strings option gmap.

Declare Scope ugk_scope.
Delimit Scope ugk_scope with ugk.
Open Scope string_scope.
Open Scope Z_scope.
Open Scope list_scope.
Open Scope ugk_scope.

#[global] Set Default Goal Selector "1".

(** * Results and exceptions *)

(** A Python computation that returns [A] or raises an exception of type [E]. *)
Inductive result (E A : Type) : Type :=
| Ok (a : A)
| Err (e : E).
Arguments Ok {E A} a.
Arguments Err {E A} e.

Definition rbind {E A B} (m : result E A) (k : A -> result E B) : result E B :=
  match m with Ok a => k a | Err e => Err e end.

Definition rmap {E A B} (f : A -> B) (m : result E A) : result E B :=
  match m with Ok a => Ok (f a) | Err e => Err e end.

Definition is_ok {E A} (m : result E A) : bool :=
  match m with Ok _ => true | Err _ => false end.

Notation "'let*' x ':=' m 'in' k" := (rbind m (fun x => k))
  (at level 10, x name, m at level 100, k at level 200)
  : ugk_scope.
Notation "'let*' ' p ':=' m 'in' k" := (rbind m (fun p => k))
  (at level 10, p strict pattern, m at level 100, k at level 200) : ugk_scope.
Notation "'guard*' b 'else' e 'in' k" := (if b then k else Err e)
  (at level 10, b at level 100, e at level 100, k at level 200) : ugk_scope.
Notation "'let?' x ':=' m 'in' k" := (option_bind _ _ (fun x => k) m)
  (at level 10, x name, m at level 100, k at level 200)
  : ugk_scope.

Lemma rbind_ok {E A B} (m : result E A) (k : A -> result E B) b :
  rbind m k = Ok b -> exists a, m = Ok a /\ k a = Ok b.
Proof. destruct m as [a|e]; simpl; [eauto | discriminate]. Qed.

(** Unlike [injection], these never reduce the two results. *)
Lemma Ok_inj {E A} (a b : A) : @Ok E A a = Ok b -> a = b.
Proof. by intros [= ->]. Qed.
Lemma Err_inj {E A} (a b : E) : @Err E A a = Err b -> a = b.
Proof. by intros [= ->]. Qed.
Lemma Some_inj' {A} (a b : A) : Some a = Some b -> a = b.
Proof. by intros [= ->]. Qed.

Lemma rbind_err {E A B} (m : result E A) (k : A -> result E B) e :
  rbind m k = Err e -> m = Err e \/ exists a, m = Ok a /\ k a = Err e.
Proof. destruct m as [a|e']; simpl; [eauto | intros [= ->]; auto]. Qed.

(** The classes of the exceptions the modelled code raises, with their
    message (its fixed part, the token the callers match on). *)
Inductive exn_class :=
| ValueError | TypeError | KeyError | RuntimeError | PermissionError_
| NonCanonical | InvariantViolation | ProtocolErrorC | GateRefusalC
| UndeclaredOpC | KernelInternalOpC | GovernanceNotFoundedC
| ReadOnlyViolation | TransactionCommitErrorC | OperationalError
| BaseExceptionC | OracleRefusalC | ExternalEffectNotPerformedC | TerminalWriteExhaustedC
| ReconciliationRefusedC | CompensationRefusedC | GovernorSignatureRequiredC
| WarrantStoreErrorC | NamespaceErrorC | CanonErrorC | SmhErrorC
| OtherError.

Record exn := Exn { exn_cls : exn_class; exn_msg : string }.

#[export] Instance exn_class_eq_dec : EqDecision exn_class.
Proof. solve_decision. Defined.
#[export] Instance exn_eq_dec : EqDecision exn.
Proof. solve_decision. Defined.
#[export] Instance result_eq_dec {E A} `{EqDecision E, EqDecision A} :
  EqDecision (result E A).
Proof. solve_decision. Defined.

(** * Stateful computations *)

(** A Python computation that reads and writes [S] and returns [A] or raises;
    what it changed before raising stays changed. *)
Definition M (S A : Type) : Type := S -> result exn A * S.

Definition sret {S A} (a : A) : M S A := fun s => (Ok a, s).
Definition sraise {S A} (e : exn) : M S A := fun s => (Err e, s).
Definition slift {S A} (r : result exn A) : M S A := fun s => (r, s).
Definition sbind {S A B} (m : M S A) (k : A -> M S B) : M S B := fun s =>
  match m s with
  | (Ok a, s') => k a s'
  | (Err e, s') => (Err e, s')
  end.
Definition sget {S A} (f : S -> A) : M S A := fun s => (Ok (f s), s).
Definition smod {S} (f : S -> S) : M S unit := fun s => (Ok tt, f s).

Notation "'let!' x ':=' m 'in' k" := (sbind m (fun x => k))
  (at level 10, x name, m at level 100, k at level 200) : ugk_scope.
Notation "'let!' ' p ':=' m 'in' k" := (sbind m (fun p => k))
  (at level 10, p strict pattern, m at level 100, k at level 200) : ugk_scope.
Notation "'guard!' b 'else' e 'in' k" := (if b then k else sraise e)
  (at level 10, b at level 100, e at level 100, k at level 200) : ugk_scope.

Lemma sbind_ok {S A B} (m : M S A) (k : A -> M S B) s b s' :
  sbind m k s = (Ok b, s') -> exists a s1, m s = (Ok a, s1) /\ k a s1 = (Ok b, s').
Proof. unfold sbind. destruct (m s) as [[a|e] s1]; [eauto|by intros [= ]]. Qed.

Lemma slift_ok {S A} (r : result exn A) (s : S) a s' :
  slift r s = (Ok a, s') -> r = Ok a /\ s' = s.
Proof. by intros [= -> ->]. Qed.

Lemma pair_ok {A B} (a a' : A) (b b' : B) : (a, b) = (a', b') -> a = a' /\ b = b'.
Proof. by intros [= -> ->]. Qed.

(** * Tactics *)

(** Case analysis on the scrutinee of every [match]/[if] of the goal. *)
Ltac case_goal :=
  match goal with
  | |- context [match ?x with _ => _ end] =>
      lazymatch x with context [match _ with _ => _ end] => fail | _ => idtac end;
      let E := fresh "E" in destruct x eqn:E
  end.

(** The same on a hypothesis. *)
Ltac case_hyp H :=
  match type of H with
  | context [match ?x with _ => _ end] =>
      lazymatch x with context [match _ with _ => _ end] => fail | _ => idtac end;
      let E := fresh "E" in destruct x eqn:E
  end.

(** Decompose a successful monadic computation into its successful steps. *)
Ltac inv_ok :=
  repeat match goal with
  | H : Ok _ = Ok _ |- _ => apply Ok_inj in H
  | H : Err _ = Err _ |- _ => apply Err_inj in H
  | H : Ok _ = Err _ |- _ => discriminate H
  | H : Err _ = Ok _ |- _ => discriminate H
  | H : Some _ = None |- _ => discriminate H
  | H : None = Some _ |- _ => discriminate H
  | H : rbind _ _ = Ok _ |- _ =>
      let a := fresh "a" in let Ha := fresh "Ha" in
      apply rbind_ok in H as (a & Ha & H)
  | H : (if ?b then _ else Err _) = Ok _ |- _ =>
      let Hb := fresh "Hb" in destruct b eqn:Hb; [ | discriminate H]
  | H : (if ?b then Err _ else _) = Ok _ |- _ =>
      let Hb := fresh "Hb" in destruct b eqn:Hb; [discriminate H | ]
  | H : (let '_ := ?x in _) = Ok _ |- _ => destruct x
  end.

(** * Hint database *)
Create HintDb ugk.

(** * Strings *)

#[global] Arguments String.append : simpl nomatch.

Definition str_eqb (a b : string) : bool := bool_decide (a = b).

Lemma str_eqb_spec a b : str_eqb a b = true <-> a = b.
Proof. unfold str_eqb. apply bool_decide_eq_true. Qed.

Lemma str_eqb_refl a : str_eqb a a = true.
Proof. by apply str_eqb_spec. Qed.

Lemma str_eqb_false a b : str_eqb a b = false <-> a <> b.
Proof. apply bool_decide_eq_false. Qed.

Definition mem_str (a : string) (l : list string) : bool :=
  existsb (str_eqb a) l.

Lemma mem_str_spec a l : mem_str a l = true <-> a ∈ l.
Proof.
  unfold mem_str. rewrite existsb_exists, list_elem_of_In. split.
  - intros (x & Hx & ->%str_eqb_spec). done.
  - intros H. exists a. split; [done | apply str_eqb_refl].
Qed.

Lemma mem_str_false a l : mem_str a l = false <-> a ∉ l.
Proof. rewrite <- mem_str_spec. destruct (mem_str a l); naive_solver. Qed.

#[export] Hint Resolve str_eqb_refl : ugk.

Lemma string_app_assoc (a b c : string) : ((a ++ b) ++ c = a ++ (b ++ c))%string.
Proof. induction a as [|x a IH]; simpl; [done | by rewrite IH]. Qed.

Lemma string_app_nil_r (a : string) : (a ++ "" = a)%string.
Proof. induction a as [|x a IH]; simpl; [done | by rewrite IH]. Qed.

Lemma string_app_length (a b : string) :
  String.length (a ++ b)%string = (String.length a + String.length b)%nat.
Proof. induction a as [|x a IH]; simpl; [done | by rewrite IH]. Qed.

Lemma string_app_inj (a b c d : string) :
  String.length a = String.length c -> (a ++ b = c ++ d)%string -> a = c /\ b = d.
Proof.
  revert c. induction a as [|x a IH]; intros [|y c]; simpl; try done.
  intros [= Hl] [= -> H]. by destruct (IH c Hl H) as [-> ->].
Qed.

Lemma string_app_inv_l (a b c : string) : (a ++ b = a ++ c)%string -> b = c.
Proof. intros H. by apply string_app_inj in H as [_ ->]. Qed.

Lemma string_app_inv_r (a b c : string) : (a ++ c = b ++ c)%string -> a = b.
Proof.
  intros H. assert (String.length a = String.length b).
  { apply (f_equal String.length) in H. rewrite !string_app_length in H. lia. }
  by apply string_app_inj in H as [-> _].
Qed.

Fixpoint concat_str (l : list string) : string :=
  match l with [] => "" | s :: l' => s +:+ concat_str l' end.

(** [sep.join(l)]. *)
Fixpoint join (sep : string) (l : list string) : string :=
  match l with
  | [] => ""
  | [s] => s
  | s :: l' => s +:+ sep +:+ join sep l'
  end.

(** Number of bytes as [Z]. *)
Definition slen (s : string) : Z := Z.of_nat (String.length s).

Fixpoint starts_with (p s : string) : bool :=
  match p, s with
  | EmptyString, _ => true
  | String a p', String b s' => if Ascii.eqb a b then starts_with p' s' else false
  | _, _ => false
  end.

Lemma starts_with_app p s : starts_with p (p +:+ s) = true.
Proof. induction p as [|a p IH]; simpl; [done | by rewrite Ascii.eqb_refl]. Qed.

Lemma starts_with_spec p s : starts_with p s = true <-> exists t, s = p +:+ t.
Proof.
  split.
  - revert s. induction p as [|a p IH]; simpl; intros s H; [by exists s|].
    destruct s as [|b s]; [done|]. destruct (Ascii.eqb_spec a b) as [->|]; [|done].
    destruct (IH s H) as [t ->]. by exists t.
  - intros [t ->]. apply starts_with_app.
Qed.

(** * Lower-case hexadecimal ([bytes.hex]) *)

Definition hex_digit (n : N) : ascii :=
  ascii_of_N (if (n <? 10)%N then 48 + n else 87 + n)%N.

Fixpoint hex (s : string) : string :=
  match s with
  | EmptyString => ""
  | String c s' =>
      String (hex_digit (N_of_ascii c / 16))
        (String (hex_digit (N_of_ascii c mod 16)) (hex s'))
  end.

Definition hex_val (c : ascii) : option N :=
  let n := N_of_ascii c in
  if ((48 <=? n) && (n <=? 57))%N then Some (n - 48)%N
  else if ((97 <=? n) && (n <=? 102))%N then Some (n - 87)%N
  else if ((65 <=? n) && (n <=? 70))%N then Some (n - 55)%N
  else None.

(** [bytes.fromhex], without embedded whitespace. *)
Fixpoint unhex (s : string) : option string :=
  match s with
  | EmptyString => Some ""
  | String a (String b s') =>
      match hex_val a, hex_val b, unhex s' with
      | Some x, Some y, Some t => Some (String (ascii_of_N (16 * x + y)) t)
      | _, _, _ => None
      end
  | _ => None
  end.

Lemma hex_byte_inv c :
  hex_val (hex_digit (N_of_ascii c / 16)) = Some (N_of_ascii c / 16)%N /\
  hex_val (hex_digit (N_of_ascii c mod 16)) = Some (N_of_ascii c mod 16)%N /\
  ascii_of_N (16 * (N_of_ascii c / 16) + N_of_ascii c mod 16) = c.
Proof. destruct c as [[] [] [] [] [] [] [] []]; vm_compute; auto. Qed.

Lemma unhex_hex s : unhex (hex s) = Some s.
Proof.
  induction s as [|c s IH]; [done|].
  destruct (hex_byte_inv c) as (H1 & H2 & H3).
  cbn [hex unhex]. by rewrite H1, H2, IH, H3.
Qed.

#[export] Instance hex_inj : Inj (=) (=) hex.
Proof.
  intros a b H. apply (f_equal unhex) in H. rewrite !unhex_hex in H. by injection H.
Qed.

Lemma hex_length s : String.length (hex s) = (2 * String.length s)%nat.
Proof. induction s as [|c s IH]; simpl; [done | rewrite IH; lia]. Qed.

(** * Decimal rendering ([str(int)]) *)

Definition str_of_Z (z : Z) : string := NilZero.string_of_int (Z.to_int z).

Definition Z_of_str (s : string) : option Z :=
  option_map Z.of_int (NilZero.int_of_string s).

Lemma Z_of_str_of_Z z : Z_of_str (str_of_Z z) = Some z.
Proof.
  unfold Z_of_str, str_of_Z. rewrite NilZero.isi; [simpl; by rewrite DecimalZ.of_to|..].
  all: destruct z as [|p|p]; simpl; try discriminate;
    intros H; injection H as H;
    pose proof (DecimalPos.Unsigned.to_uint_nonnil p); congruence.
Qed.

#[export] Instance str_of_Z_inj : Inj (=) (=) str_of_Z.
Proof.
  intros a b H. apply (f_equal Z_of_str) in H. rewrite !Z_of_str_of_Z in H.
  by injection H.
Qed.

(** ASCII white space, as [str.split] and [int] skip it. *)
Definition py_space (c : ascii) : bool :=
  let n := N_of_ascii c in
  (((9 <=? n) && (n <=? 13)) || ((28 <=? n) && (n <=? 32)))%N.

Fixpoint lstrip (s : string) : string :=
  match s with String c s' => if py_space c then lstrip s' else s | EmptyString => "" end.
Fixpoint rstrip (s : string) : string :=
  match s with
  | EmptyString => ""
  | String c s' =>
      match rstrip s' with
      | EmptyString => if py_space c then "" else String c ""
      | t => String c t
      end
  end.
Definition strip (s : string) : string := lstrip (rstrip s).

(** The length of the white space character at the head of a UTF-8 text; 0 if there is none. *)
Definition space_len (s : string) : nat :=
  let code c := N_of_ascii c in
  match s with
  | String a s1 =>
      if py_space a then 1
      else match s1 with
      | String b s2 =>
          if (code a =? 194)%N then if ((code b =? 133) || (code b =? 160))%N then 2 else 0
          else match s2 with
          | String c _ =>
              let p := (code b * 256 + code c)%N in
              if (code a =? 225)%N then if (p =? 0x9A80)%N then 3 else 0
              else if (code a =? 226)%N then
                if (((0x8080 <=? p) && (p <=? 0x808A)) || (p =? 0x80A8) || (p =? 0x80A9)
                    || (p =? 0x80AF) || (p =? 0x819F))%N then 3 else 0
              else if (code a =? 227)%N then if (p =? 0x8080)%N then 3 else 0
              else 0
          | EmptyString => 0
          end
      | EmptyString => 0
      end
  | EmptyString => 0
  end%nat.

Fixpoint drop_spaces (fuel : nat) (s : string) : string :=
  match fuel, space_len s with
  | O, _ | _, O => s
  | S fuel, n => drop_spaces fuel (String.substring n (String.length s - n) s)
  end.
Definition text_lstrip (s : string) : string := drop_spaces (String.length s) s.
Fixpoint text_rstrip (s : string) : string :=
  match s with
  | EmptyString => ""
  | String a s' => if str_eqb (text_lstrip s) "" then "" else String a (text_rstrip s')
  end.
(** [str.strip] on text. *)
Definition text_strip (s : string) : string := text_rstrip (text_lstrip s).

(** [int(s, 16)] succeeds: white space around, a sign, a [0x] prefix, single underscores
    between digits.  (Decimal digits of other scripts, which Python takes too, are refused.) *)
Fixpoint hex_digits (after_digit : bool) (s : string) : bool :=
  match s with
  | EmptyString => after_digit
  | String c s' =>
      match hex_val c with
      | Some _ => hex_digits true s'
      | None => Ascii.eqb c "_" && after_digit && negb (str_eqb s' "") && hex_digits false s'
      end
  end.
Definition hex_unsigned (s : string) : bool :=
  match s with
  | String "0" (String "x" t) | String "0" (String "X" t) =>
      match t with String "_" t' => hex_digits false t' | _ => hex_digits false t end
  | _ => hex_digits false s
  end.
Definition int16_ok (s : string) : bool :=
  match text_strip s with
  | String "+" t | String "-" t => hex_unsigned t
  | t => hex_unsigned t
  end.

(** [len] of text counts characters: the bytes that do not continue one. *)
Fixpoint char_len (s : string) : nat :=
  match s with
  | EmptyString => 0
  | String c s' => let n := N_of_ascii c in
      ((if ((128 <=? n) && (n <? 192))%N then 0 else 1) + char_len s')%nat
  end.

(** [bytes.fromhex]: ASCII white space is skipped between bytes. *)
Definition hex_space (c : ascii) : bool :=
  let n := N_of_ascii c in ((n =? 32) || (9 <=? n) && (n <=? 13))%N.
Fixpoint fromhex (s : string) : option string :=
  match s with
  | EmptyString => Some ""
  | String a s1 =>
      if hex_space a then fromhex s1
      else match s1 with
           | String b s2 =>
               match hex_val a, hex_val b, fromhex s2 with
               | Some x, Some y, Some t => Some (String (ascii_of_N (16 * x + y)) t)
               | _, _, _ => None
               end
           | EmptyString => None
           end
  end.

Fixpoint str_forallb (f : ascii -> bool) (s : string) : bool :=
  match s with EmptyString => true | String c s' => f c && str_forallb f s' end.
Fixpoint str_existsb (f : ascii -> bool) (s : string) : bool :=
  match s with EmptyString => false | String c s' => f c || str_existsb f s' end.

(** Strings of hex digits.  A hex digit is one character, is no white space, sign,
    separator or prefix mark. *)
Definition is_hex (c : ascii) : bool := match hex_val c with Some _ => true | None => false end.
Lemma is_hex_plain c : is_hex c = true ->
  negb (hex_space c || py_space c || Ascii.eqb c "x" || Ascii.eqb c "X" || Ascii.eqb c "_" ||
        Ascii.eqb c "+" || Ascii.eqb c "-" || (128 <=? N_of_ascii c)%N) = true.
Proof. destruct c as [[] [] [] [] [] [] [] []]; vm_compute; auto. Qed.

Lemma hex_is_hex s : str_forallb is_hex (hex s) = true.
Proof.
  induction s as [|c s IH]; [done|]. destruct (hex_byte_inv c) as (H1 & H2 & _).
  cbn [hex str_forallb]. unfold is_hex at 1 2. by rewrite H1, H2, IH.
Qed.

Lemma hex_no_space c s : is_hex c = true -> space_len (String c s) = 0%nat.
Proof.
  intros Hc. apply is_hex_plain in Hc. rewrite negb_true_iff, !orb_false_iff in Hc.
  destruct Hc as [[[[[[[_ Hs] _] _] _] _] _] Hn]. apply N.leb_gt in Hn.
  cbn [space_len]. rewrite Hs. destruct s as [|b s]; [done|].
  assert (Hne : forall n, (128 <= n)%N -> (N_of_ascii c =? n)%N = false) by (intros n ?; apply N.eqb_neq; lia).
  rewrite !Hne by lia. by destruct s.
Qed.
Lemma hex_lstrip s : str_forallb is_hex s = true -> text_lstrip s = s.
Proof.
  intros H. unfold text_lstrip. destruct s as [|c s]; [done|]. cbn [str_forallb] in H.
  apply andb_true_iff in H as [Hc _]. cbn [String.length drop_spaces]. by rewrite hex_no_space.
Qed.
Lemma hex_strip s : str_forallb is_hex s = true -> text_strip s = s.
Proof.
  intros H. unfold text_strip. rewrite (hex_lstrip s H).
  induction s as [|c s IH]; [done|]. pose proof (hex_lstrip _ H) as Hl. cbn [text_rstrip].
  rewrite Hl. cbn [str_eqb]. cbn [str_forallb] in H. apply andb_true_iff in H as [_ H].
  by rewrite (IH H).
Qed.

Lemma hex_digits_hex b s : str_forallb is_hex s = true -> s <> "" -> hex_digits b s = true.
Proof.
  revert b. induction s as [|c s IH]; intros b H Hne; [done|]. cbn [str_forallb] in H.
  apply andb_true_iff in H as [Hc H]. cbn [hex_digits]. unfold is_hex in Hc.
  destruct (hex_val c); [|done]. destruct s as [|c' s]; [done|]. by apply IH.
Qed.

Lemma hex_char_len s : str_forallb is_hex s = true -> char_len s = String.length s.
Proof.
  induction s as [|c s IH]; [done|]. cbn [str_forallb char_len String.length]. intros [Hc H]%andb_true_iff.
  apply is_hex_plain in Hc. rewrite negb_true_iff, !orb_false_iff in Hc. destruct Hc as [_ Hn].
  rewrite Hn, IH by done. done.
Qed.

Lemma hex_int16 s : str_forallb is_hex s = true -> s <> "" -> int16_ok s = true.
Proof.
  intros H Hne. unfold int16_ok. rewrite (hex_strip s H).
  assert (Hd : hex_unsigned s = true).
  { pose proof (hex_digits_hex false s H Hne) as Hd. destruct s as [|c [|c' s]]; [done| |].
    - revert Hd. by destruct c as [[] [] [] [] [] [] [] []].
    - cbn [str_forallb] in H. apply andb_true_iff in H as [Hc [Hc' _]%andb_true_iff].
      revert Hd Hc. destruct c as [[] [] [] [] [] [] [] []]; intros Hd Hc; (exact Hd || discriminate Hc || clear Hc).
      revert Hd Hc'. destruct c' as [[] [] [] [] [] [] [] []]; intros Hd Hc; (exact Hd || discriminate Hc). }
  destruct s as [|c s]; [done|]. cbn [str_forallb] in H. apply andb_true_iff in H as [Hc _].
  revert Hd. by destruct c as [[] [] [] [] [] [] [] []].
Qed.

(** A digest written in hex is read back. *)
Lemma hexdigest_reads s : String.length s = 32%nat ->
  char_len (hex s) = 64%nat /\ int16_ok (hex s) = true.
Proof.
  intros Hl. pose proof (hex_is_hex s) as Hh. split.
  - by rewrite hex_char_len, hex_length, Hl.
  - apply hex_int16; [done|]. destruct s; [done|]. by intros ?.
Qed.

Lemma fromhex_hex s : fromhex (hex s) = Some s.
Proof.
  induction s as [|c s IH]; [done|]. destruct (hex_byte_inv c) as (H1 & H2 & H3). cbn [hex fromhex].
  assert (Hs : hex_space (hex_digit (N_of_ascii c / 16)) = false).
  { assert (Hh : is_hex (hex_digit (N_of_ascii c / 16)) = true) by (unfold is_hex; by rewrite H1).
    apply is_hex_plain in Hh. rewrite negb_true_iff, !orb_false_iff in Hh. apply Hh. }
  by rewrite Hs, H1, H2, IH, H3.
Qed.

(** The digits of an integer literal, single underscores allowed between them. *)
Fixpoint digits (after_digit : bool) (acc : Z) (s : string) : option Z :=
  match s with
  | EmptyString => if after_digit then Some acc else None
  | String c s' =>
      let n := Z.of_N (N_of_ascii c) in
      if (48 <=? n) && (n <=? 57) then digits true (10 * acc + (n - 48)) s'
      else if (n =? 95) && after_digit then
        match s' with
        | EmptyString => None
        | _ => digits false acc s'
        end
      else None
  end.

(** [int(s)] on a string; [None] is the ValueError. *)
Definition py_int_str (s : string) : option Z :=
  match strip s with
  | String "-" t => option_map Z.opp (digits false 0 t)
  | String "+" t => digits false 0 t
  | t => digits false 0 t
  end.

Example py_int_str_ok :
  map py_int_str ["1027"; " -12 "; "+7"; "1_000"; "_1"; "1_"; "1__0"; ""; "4x"; "007"]
  = [Some 1027; Some (-12); Some 7; Some 1000; None; None; None; None; None; Some 7].
Proof. reflexivity. Qed.

(** * Stable insertion sort by a string key ([sorted(..., key=...)]) *)
Section sort.
Context {A : Type} (key : A -> string).

Fixpoint insert_by (x : A) (l : list A) : list A :=
  match l with
  | [] => [x]
  | y :: l' => if String.leb (key x) (key y) then x :: l else y :: insert_by x l'
  end.

Fixpoint sort_by (l : list A) : list A :=
  match l with [] => [] | x :: l' => insert_by x (sort_by l') end.

Definition key_le (x y : A) : Prop := String.leb (key x) (key y) = true.

Lemma insert_by_perm x l : Permutation (insert_by x l) (x :: l).
Proof.
  induction l as [|y l IH]; simpl; [done|]. case_goal; [done|].
  by rewrite IH, Permutation_swap.
Qed.

Lemma sort_by_perm l : Permutation (sort_by l) l.
Proof. induction l as [|x l IH]; simpl; [done|]. by rewrite insert_by_perm, IH. Qed.

Lemma sort_by_length l : length (sort_by l) = length l.
Proof. by rewrite sort_by_perm. Qed.

Lemma leb_false_sym a b : String.leb a b = false -> String.leb b a = true.
Proof. intros H. destruct (String.leb_total a b); congruence. Qed.

Lemma insert_by_sorted x l : Sorted key_le l -> Sorted key_le (insert_by x l).
Proof.
  induction 1 as [|y l Hs IH Hd]; simpl; [auto|].
  destruct (String.leb (key x) (key y)) eqn:E; [by repeat constructor|].
  constructor; [done|]. apply leb_false_sym in E.
  destruct Hd; simpl; [by constructor|]. case_goal; by constructor.
Qed.

Lemma sort_by_sorted l : Sorted key_le (sort_by l).
Proof. induction l; simpl; [constructor | by apply insert_by_sorted]. Qed.

Lemma sort_by_id l : Sorted key_le l -> sort_by l = l.
Proof.
  induction 1 as [|y l Hs IH Hd]; simpl; [done|]. rewrite IH.
  destruct Hd as [|z l Hyz]; simpl; [done|]. unfold key_le in Hyz. by rewrite Hyz.
Qed.

Lemma sort_by_idemp l : sort_by (sort_by l) = sort_by l.
Proof. apply sort_by_id, sort_by_sorted. Qed.
End sort.

Lemma leb_trans a b c :
  String.leb a b = true -> String.leb b c = true -> String.leb a c = true.
Proof.
  revert b c. induction a as [|x a IH]; intros [|y b] [|z c]; try done.
  unfold String.leb in *. simpl.
  unfold Ascii.compare.
  destruct (N.compare_spec (N_of_ascii x) (N_of_ascii y));
  destruct (N.compare_spec (N_of_ascii y) (N_of_ascii z));
  destruct (N.compare_spec (N_of_ascii x) (N_of_ascii z)); try done; try lia.
  apply IH.
Qed.

(** Two sorted lists with distinct keys and the same elements are equal. *)
Lemma sorted_perm_unique {A} (key : A -> string) (l k : list A) :
  NoDup (map key l) -> Sorted (key_le key) l -> Sorted (key_le key) k ->
  Permutation l k -> l = k.
Proof.
  intros Hnd Hl Hk Hp.
  apply Sorted_StronglySorted in Hl; [|intros ???; apply leb_trans].
  apply Sorted_StronglySorted in Hk; [|intros ???; apply leb_trans].
  revert k Hk Hp Hnd. induction Hl as [|x l Hl IH Hx]; intros k Hk Hp Hnd.
  - by apply Permutation_nil in Hp as ->.
  - destruct Hk as [|y k Hk Hy]; [by apply Permutation_sym, Permutation_nil in Hp|].
    assert (x = y) as <-.
    { assert (x ∈ y :: k) as Hin by (rewrite <- Hp; left).
      apply elem_of_cons in Hin as [|Hin]; [done|].
      assert (y ∈ x :: l) as Hin2 by (rewrite Hp; left).
      apply elem_of_cons in Hin2 as [|Hin2]; [done|].
      rewrite Forall_forall in Hx, Hy. specialize (Hx _ Hin2). specialize (Hy _ Hin).
      exfalso. simpl in Hnd. apply NoDup_cons in Hnd as [Hn _]. apply Hn.
      rewrite (String.leb_antisym _ _ Hx Hy). apply list_elem_of_fmap_2. done. }
    f_equal. apply Permutation_cons_inv in Hp.
    simpl in Hnd. apply NoDup_cons in Hnd as [_ Hnd]. eauto.
Qed.

Lemma sort_by_perm_eq {A} (key : A -> string) (l k : list A) :
  NoDup (map key l) -> Permutation l k -> sort_by key l = sort_by key k.
Proof.
  intros Hnd Hp. apply (sorted_perm_unique key); try apply sort_by_sorted.
  - by rewrite (sort_by_perm key l).
  - by rewrite !sort_by_perm.
Qed.

(** Sorting commutes with maps that keep the key. *)
Lemma insert_by_map {A B} (f : A -> B) (ka : A -> string) (kb : B -> string) x l :
  (forall a, kb (f a) = ka a) ->
  insert_by kb (f x) (map f l) = map f (insert_by ka x l).
Proof.
  intros H. induction l as [|y l IH]; simpl; [done|].
  rewrite !H, IH. by case_goal.
Qed.

Lemma sort_by_map {A B} (f : A -> B) (ka : A -> string) (kb : B -> string) l :
  (forall a, kb (f a) = ka a) -> sort_by kb (map f l) = map f (sort_by ka l).
Proof.
  intros H. induction l as [|x l IH]; simpl; [done|].
  by rewrite IH, (insert_by_map f ka kb).
Qed.

(** [sorted(l)] on strings. *)
Definition sorted_str (l : list string) : list string := sort_by id l.

Lemma sorted_str_perm l : Permutation (sorted_str l) l.
Proof. apply sort_by_perm. Qed.

(** * Joining on a separator *)

Definition lacks (c : ascii) (s : string) : Prop :=
  forall d, d ∈ list_ascii_of_string s -> d <> c.

Lemma lacks_cons c x s : lacks c (String x s) <-> x <> c /\ lacks c s.
Proof.
  unfold lacks. simpl. split.
  - intros H. split; [apply H; left|]. intros d Hd. apply H. by right.
  - intros [Hx H] d [->|Hd]%elem_of_cons; auto.
Qed.

Lemma lacks_cut c a b r1 r2 : lacks c a -> lacks c b ->
  (a +:+ String c r1 = b +:+ String c r2)%string -> a = b /\ r1 = r2.
Proof.
  revert b. induction a as [|x a IH]; intros [|y b] Ha Hb H; simpl in H;
    rewrite ?lacks_cons in *; injection H; intros; subst; try tauto.
  destruct Ha as [_ Ha], Hb as [_ Hb].
  match goal with Heq : _ +:+ _ = _ |- _ => by destruct (IH b Ha Hb Heq) as [-> ->] end.
Qed.

(** A separator whose first character occurs in no field is unambiguous. *)
Lemma join_inj c sep l k :
  length l = length k -> Forall (lacks c) l -> Forall (lacks c) k ->
  join (String c sep) l = join (String c sep) k -> l = k.
Proof.
  intros Hlen Hl. revert k Hlen. induction Hl as [|a l Ha Hl IH]; intros [|b k] Hlen Hk H;
    try done. apply Forall_cons in Hk as [Hb Hk]. simpl in Hlen.
  destruct l as [|a2 l], k as [|b2 k]; simpl in Hlen; try lia.
  - simpl in H. by subst.
  - change (a +:+ String c (sep +:+ join (String c sep) (a2 :: l)) =
            b +:+ String c (sep +:+ join (String c sep) (b2 :: k))) in H.
    apply lacks_cut in H as [-> H]; [|done|done].
    apply string_app_inv_l in H. f_equal. apply IH; [simpl; lia|done|done].
Qed.
