(* ===== verification/Json.v ===== *)
(** Python values that reach the kernel's serialisers, and the [json] module of
    Python's standard library as the source uses it: [json.dumps] with the
    options of the three canonical encoders of the code base, a reader, and the
    round trip that makes each encoder injective up to key order. *)
From Stdlib Require Import DecimalString.
From S2P Require Import Prelude.

(** * Python values

    Strings are UTF-8 byte strings (code-point order and byte order agree), a
    float is its [repr], [PObj] is any value [json] cannot serialise. *)
Inductive pyval :=
| PNone
| PBool (b : bool)
| PInt (z : Z)
| PFloat (r : string)
| PStr (s : string)
| PList (l : list pyval)
| PTuple (l : list pyval)
| PDict (d : list (string * pyval))
| PObj.

Section pyval_ind.
Context (P : pyval -> Prop).
Hypothesis HNone : P PNone.
Hypothesis HBool : forall b, P (PBool b).
Hypothesis HInt : forall z, P (PInt z).
Hypothesis HFloat : forall r, P (PFloat r).
Hypothesis HStr : forall s, P (PStr s).
Hypothesis HList : forall l, Forall P l -> P (PList l).
Hypothesis HTuple : forall l, Forall P l -> P (PTuple l).
Hypothesis HDict : forall d, Forall (fun kv => P (snd kv)) d -> P (PDict d).
Hypothesis HObj : P PObj.

Fixpoint pyval_ind' (v : pyval) : P v :=
  match v with
  | PNone => HNone
  | PBool b => HBool b
  | PInt z => HInt z
  | PFloat r => HFloat r
  | PStr s => HStr s
  | PList l =>
      HList l ((fix go l : Forall P l :=
        match l with
        | [] => Forall_nil_2 _
        | v :: l' => Forall_cons_2 _ _ _ (pyval_ind' v) (go l')
        end) l)
  | PTuple l =>
      HTuple l ((fix go l : Forall P l :=
        match l with
        | [] => Forall_nil_2 _
        | v :: l' => Forall_cons_2 _ _ _ (pyval_ind' v) (go l')
        end) l)
  | PDict d =>
      HDict d ((fix go d : Forall (fun kv => P (snd kv)) d :=
        match d with
        | [] => Forall_nil_2 _
        | kv :: d' => Forall_cons_2 _ _ _ (pyval_ind' (snd kv)) (go d')
        end) d)
  | PObj => HObj
  end.
End pyval_ind.

(** Python dictionaries keep insertion order; assignment replaces in place. *)
Fixpoint dict_set {V} (k : string) (v : V) (d : list (string * V)) :
    list (string * V) :=
  match d with
  | [] => [(k, v)]
  | (k', v') :: d' => if str_eqb k k' then (k', v) :: d' else (k', v') :: dict_set k v d'
  end.

Fixpoint dict_get {V} (k : string) (d : list (string * V)) : option V :=
  match d with
  | [] => None
  | (k', v) :: d' => if str_eqb k k' then Some v else dict_get k d'
  end.

Definition dict_of_list {V} (l : list (string * V)) : list (string * V) :=
  foldl (fun d kv => dict_set (fst kv) (snd kv) d) [] l.

(** * Escaping *)

Definition dq : ascii := "034".
Definition bsl : ascii := "092".
Definition quote (s : string) : string := String dq (s +:+ String dq "").

Definition hex4 (n : N) : string :=
  String (hex_digit (n / 4096)) (String (hex_digit (n / 256 mod 16))
    (String (hex_digit (n / 16 mod 16)) (String (hex_digit (n mod 16)) ""))).

Definition u_escape (n : N) : string := String bsl (String "u" (hex4 n)).

(** [json.encoder.ESCAPE_DCT]. *)
Definition esc_char (c : ascii) : string :=
  let n := N_of_ascii c in
  (if n =? 34 then String bsl (String dq "")
   else if n =? 92 then String bsl (String bsl "")
   else if n =? 10 then String bsl "n"
   else if n =? 13 then String bsl "r"
   else if n =? 9 then String bsl "t"
   else if n =? 8 then String bsl "b"
   else if n =? 12 then String bsl "f"
   else if n <? 32 then u_escape n
   else String c "")%N.

Fixpoint esc_utf8 (s : string) : string :=
  match s with
  | EmptyString => ""
  | String c s' => esc_char c +:+ esc_utf8 s'
  end.

Definition is_cont (n : N) : bool := ((128 <=? n) && (n <? 192))%N.

(** [ESCAPE_ASCII]: every code point outside [ -~] becomes [\uXXXX], astral
    code points a surrogate pair.  [None] on bytes that are not UTF-8, which no
    Python [str] (without lone surrogates) encodes to. *)
Definition esc_cp (n : N) : string :=
  if (n <? 65536)%N then u_escape n
  else (u_escape (55296 + (n - 65536) / 1024) +:+
        u_escape (56320 + (n - 65536) mod 1024))%N.

Fixpoint esc_ascii (s : string) : option string :=
  match s with
  | EmptyString => Some ""
  | String c s1 =>
      let n := N_of_ascii c in
      if (n <? 128)%N then
        let? t := esc_ascii s1 in
        Some ((if (n =? 127)%N then u_escape n else esc_char c) +:+ t)
      else match s1 with
      | String c1 s2 =>
          let n1 := N_of_ascii c1 in
          if negb (is_cont n1) then None else
          if ((194 <=? n) && (n <? 224))%N then
            let? t := esc_ascii s2 in
            Some (esc_cp ((n - 192) * 64 + (n1 - 128)) +:+ t)
          else match s2 with
          | String c2 s3 =>
              let n2 := N_of_ascii c2 in
              if negb (is_cont n2) then None else
              if ((224 <=? n) && (n <? 240))%N then
                let cp := ((n - 224) * 4096 + (n1 - 128) * 64 + (n2 - 128))%N in
                if ((cp <? 2048) || ((55296 <=? cp) && (cp <? 57344)))%N then None else
                let? t := esc_ascii s3 in Some (esc_cp cp +:+ t)
              else match s3 with
              | String c3 s4 =>
                  let n3 := N_of_ascii c3 in
                  if negb (is_cont n3) then None else
                  let cp := ((n - 240) * 262144 + (n1 - 128) * 4096
                             + (n2 - 128) * 64 + (n3 - 128))%N in
                  if ((n <? 240) || (cp <? 65536) || (1114112 <=? cp))%N then None else
                  let? t := esc_ascii s4 in Some (esc_cp cp +:+ t)
              | EmptyString => None
              end
          | EmptyString => None
          end
      | EmptyString => None
      end
  end.

(** * [json.dumps] *)

Record json_style := JsonStyle {
  item_sep : string;
  key_sep : string;
  ensure_ascii : bool;
  allow_nan : bool;
  sort_keys : bool;
}.

Definition float_char (c : ascii) : bool :=
  let n := N_of_ascii c in
  (((48 <=? n) && (n <=? 57)) || (n =? 45) || (n =? 43) || (n =? 46)
   || (n =? 101) || (n =? 69))%N.
Definition float_mark (c : ascii) : bool :=
  let n := N_of_ascii c in ((n =? 46) || (n =? 101) || (n =? 69))%N.

Definition num_start (s : string) : bool :=
  match s with
  | String c _ => let n := N_of_ascii c in
      (((48 <=? n) && (n <=? 57)) || (n =? 45))%N
  | EmptyString => false
  end.

(** The [repr] of a finite float; [NaN] and the infinities are not. *)
Definition float_finite (r : string) : bool :=
  num_start r && str_forallb float_char r && str_existsb float_mark r.

Fixpoint sequence {E A} (l : list (result E A)) : result E (list A) :=
  match l with
  | [] => Ok []
  | m :: l' => let* a := m in let* r := sequence l' in Ok (a :: r)
  end.

Section dumps.
Context (st : json_style).

Definition dumps_str (s : string) : result exn string :=
  if ensure_ascii st then
    match esc_ascii s with
    | Some t => Ok (quote t)
    | None => Err (Exn ValueError "not a str")
    end
  else Ok (quote (esc_utf8 s)).

Definition dumps_member (kt : string * result exn string) : result exn string :=
  let* ek := dumps_str (fst kt) in
  let* t := snd kt in Ok (ek +:+ key_sep st +:+ t).

Fixpoint json_dumps (v : pyval) : result exn string :=
  match v with
  | PNone => Ok "null"
  | PBool true => Ok "true"
  | PBool false => Ok "false"
  | PInt z => Ok (str_of_Z z)
  | PFloat r =>
      if float_finite r || allow_nan st then Ok r
      else Err (Exn ValueError "Out of range float values are not JSON compliant")
  | PStr s => dumps_str s
  | PList l | PTuple l =>
      let* ts := sequence (map json_dumps l) in
      Ok ("[" +:+ join (item_sep st) ts +:+ "]")
  | PDict d =>
      let kts := map (fun kv => (fst kv, json_dumps (snd kv))) d in
      let kts := if sort_keys st then sort_by fst kts else kts in
      let* ts := sequence (map dumps_member kts) in
      Ok ("{" +:+ join (item_sep st) ts +:+ "}")
  | PObj => Err (Exn TypeError "Object is not JSON serializable")
  end.
End dumps.

(** The three canonical encoders' options. *)
Definition style_compact_utf8 : json_style :=
  JsonStyle "," ":" false false true.
Definition style_compact_ascii : json_style :=
  JsonStyle "," ":" true true true.
Definition style_default_sorted : json_style :=
  JsonStyle ", " ": " true true true.
Definition style_default : json_style :=
  JsonStyle ", " ": " true true false.

(** * [json.loads] *)

Definition is_ws (c : ascii) : bool :=
  let n := N_of_ascii c in ((n =? 32) || (n =? 9) || (n =? 10) || (n =? 13))%N.

Fixpoint skip_ws (s : string) : string :=
  match s with
  | String c s' => if is_ws c then skip_ws s' else s
  | EmptyString => ""
  end.

Definition unhex4 (a b c d : ascii) : option N :=
  match hex_val a, hex_val b, hex_val c, hex_val d with
  | Some x, Some y, Some z, Some w => Some (x * 4096 + y * 256 + z * 16 + w)%N
  | _, _, _, _ => None
  end.

Definition utf8_enc (n : N) : string :=
  (if n <? 128 then String (ascii_of_N n) ""
   else if n <? 2048 then
     String (ascii_of_N (192 + n / 64)) (String (ascii_of_N (128 + n mod 64)) "")
   else if n <? 65536 then
     String (ascii_of_N (224 + n / 4096))
       (String (ascii_of_N (128 + n / 64 mod 64))
         (String (ascii_of_N (128 + n mod 64)) ""))
   else
     String (ascii_of_N (240 + n / 262144))
       (String (ascii_of_N (128 + n / 4096 mod 64))
         (String (ascii_of_N (128 + n / 64 mod 64))
           (String (ascii_of_N (128 + n mod 64)) ""))))%N.

Definition unesc (c : ascii) : option ascii :=
  let n := N_of_ascii c in
  (if n =? 34 then Some dq else if n =? 92 then Some bsl
   else if n =? 47 then Some c
   else if n =? 110 then Some (ascii_of_N 10) else if n =? 114 then Some (ascii_of_N 13)
   else if n =? 116 then Some (ascii_of_N 9) else if n =? 98 then Some (ascii_of_N 8)
   else if n =? 102 then Some (ascii_of_N 12) else None)%N.

Definition cons_fst (p : string) (r : option (string * string)) :
    option (string * string) :=
  match r with Some (a, b) => Some (p +:+ a, b) | None => None end.

(** The body of a string after its opening quote; also the rest of the input. *)
Fixpoint parse_str (s : string) : option (string * string) :=
  match s with
  | EmptyString => None
  | String c s1 =>
      if Ascii.eqb c dq then Some ("", s1)
      else if Ascii.eqb c bsl then
        match s1 with
        | String "u" (String a (String b (String e (String f s6)))) =>
            match unhex4 a b e f with
            | None => None
            | Some n =>
                if ((55296 <=? n) && (n <? 56320))%N then
                  match s6 with
                  | String c7 (String "u" (String a' (String b' (String e' (String f' s12))))) =>
                      if negb (Ascii.eqb c7 bsl) then None else
                      match unhex4 a' b' e' f' with
                      | Some n' =>
                          if ((56320 <=? n') && (n' <? 57344))%N then
                            cons_fst (utf8_enc (65536 + (n - 55296) * 1024 + (n' - 56320)))
                              (parse_str s12)
                          else None
                      | None => None
                      end
                  | _ => None
                  end
                else cons_fst (utf8_enc n) (parse_str s6)
            end
        | String c1 s2 =>
            match unesc c1 with
            | Some x => cons_fst (String x "") (parse_str s2)
            | None => None
            end
        | EmptyString => None
        end
      else if (N_of_ascii c <? 32)%N then None
      else cons_fst (String c "") (parse_str s1)
  end.

Fixpoint span (f : ascii -> bool) (s : string) : string * string :=
  match s with
  | String c s' =>
      if f c then let '(a, b) := span f s' in (String c a, b) else ("", s)
  | EmptyString => ("", "")
  end.

Definition parse_num (s : string) : option (pyval * string) :=
  let '(lex, rest) := span float_char s in
  if str_existsb float_mark lex then
    if float_finite lex then Some (PFloat lex, rest) else None
  else match Z_of_str lex with Some z => Some (PInt z, rest) | None => None end.

Definition is_char (n : N) (c : ascii) : bool := N.eqb (N_of_ascii c) n.

Fixpoint parse_value (n : nat) (s : string) : option (pyval * string) :=
  match n with
  | O => None
  | S n =>
      match skip_ws s with
      | EmptyString => None
      | String c s1 =>
          if is_char 34 c then
            match parse_str s1 with Some (t, r) => Some (PStr t, r) | None => None end
          else if is_char 91 c then
            match skip_ws s1 with
            | String c' r => if is_char 93 c' then Some (PList [], r)
                else match parse_items n s1 with
                     | Some (l, r) => Some (PList l, r) | None => None end
            | EmptyString => None
            end
          else if is_char 123 c then
            match skip_ws s1 with
            | String c' r => if is_char 125 c' then Some (PDict [], r)
                else match parse_members n s1 with
                     | Some (l, r) => Some (PDict (dict_of_list l), r) | None => None end
            | EmptyString => None
            end
          else match c, s1 with
          | "n"%char, String "u" (String "l" (String "l" r)) => Some (PNone, r)
          | "t"%char, String "r" (String "u" (String "e" r)) => Some (PBool true, r)
          | "f"%char, String "a" (String "l" (String "s" (String "e" r))) =>
              Some (PBool false, r)
          | _, _ => parse_num (String c s1)
          end
      end
  end
with parse_items (n : nat) (s : string) : option (list pyval * string) :=
  match n with
  | O => None
  | S n =>
      match parse_value n s with
      | None => None
      | Some (v, r) =>
          match skip_ws r with
          | String c r' =>
              if is_char 93 c then Some ([v], r')
              else if is_char 44 c then
                match parse_items n r' with
                | Some (vs, r'') => Some (v :: vs, r'') | None => None end
              else None
          | EmptyString => None
          end
      end
  end
with parse_members (n : nat) (s : string) : option (list (string * pyval) * string) :=
  match n with
  | O => None
  | S n =>
      match skip_ws s with
      | String q s1 =>
          if negb (is_char 34 q) then None else
          match parse_str s1 with
          | None => None
          | Some (k, r) =>
              match skip_ws r with
              | String c r' =>
                  if negb (is_char 58 c) then None else
                  match parse_value n r' with
                  | None => None
                  | Some (v, r'') =>
                      match skip_ws r'' with
                      | String c2 r3 =>
                          if is_char 125 c2 then Some ([(k, v)], r3)
                          else if is_char 44 c2 then
                            match parse_members n r3 with
                            | Some (vs, r4) => Some ((k, v) :: vs, r4) | None => None end
                          else None
                      | EmptyString => None
                      end
                  end
              | EmptyString => None
              end
          end
      | EmptyString => None
      end
  end.

(** A text of [n] bytes nests at most [n] deep: that fuel suffices. *)
Definition json_loads (s : string) : option pyval :=
  match parse_value (String.length s) s with
  | Some (v, r) => match skip_ws r with EmptyString => Some v | _ => None end
  | None => None
  end.

(** The value [json.loads] gives back for [json.dumps v]: tuples as lists,
    dictionaries in key order. *)
Fixpoint canon (v : pyval) : pyval :=
  match v with
  | PList l | PTuple l => PList (map canon l)
  | PDict d => PDict (sort_by fst (map (fun kv => (fst kv, canon (snd kv))) d))
  | _ => v
  end.

(** A value Python can hold and [json] prints as a JSON text: the keys of a
    dictionary are distinct, a float is finite. *)
(** What reading gives back under a style: the printed key order decides. *)
Fixpoint read_form (sorted : bool) (v : pyval) : pyval :=
  match v with
  | PList l | PTuple l => PList (map (read_form sorted) l)
  | PDict d =>
      let d' := map (fun kv => (fst kv, read_form sorted (snd kv))) d in
      PDict (if sorted then sort_by fst d' else d')
  | v => v
  end.

Fixpoint pyval_ok (v : pyval) : bool :=
  match v with
  | PFloat r => float_finite r
  | PList l | PTuple l => forallb pyval_ok l
  | PDict d => bool_decide (NoDup (map fst d)) && forallb (fun kv => pyval_ok (snd kv)) d
  | _ => true
  end.

(** Dictionaries are equal whatever the insertion order. *)
Inductive py_eq : pyval -> pyval -> Prop :=
| py_eq_refl v : py_eq v v
| py_eq_sym v w : py_eq v w -> py_eq w v
| py_eq_trans u v w : py_eq u v -> py_eq v w -> py_eq u w
| py_eq_perm d d' : Permutation d d' -> py_eq (PDict d) (PDict d')
| py_eq_dict d1 k v w d2 : py_eq v w -> py_eq (PDict (d1 ++ (k, v) :: d2)) (PDict (d1 ++ (k, w) :: d2))
| py_eq_list l1 v w l2 : py_eq v w -> py_eq (PList (l1 ++ v :: l2)) (PList (l1 ++ w :: l2)).

Example loads_dumps_example :
  let v := PDict [("b", PList [PInt (-12); PFloat "1.5"; PTuple []]);
                  ("a", PStr (String (ascii_of_N 195) (String (ascii_of_N 169) "x"))); ("c", PDict [])] in
  (let* t := json_dumps style_default_sorted v in Ok (json_loads t)) = Ok (Some (canon v)).
Proof. vm_compute. reflexivity. Qed.

(** * Strings round-trip *)

Lemma parse_str_esc_char c r :
  parse_str (esc_char c +:+ r) = cons_fst (String c "") (parse_str r).
Proof. destruct c as [[] [] [] [] [] [] [] []]; reflexivity. Qed.

Lemma parse_str_esc_utf8 s rest :
  parse_str (esc_utf8 s +:+ String dq rest) = Some (s, rest).
Proof.
  induction s as [|c s IH]; [done|]. cbn [esc_utf8].
  by rewrite string_app_assoc, parse_str_esc_char, IH.
Qed.

Lemma hex_val_digit d : (d < 16)%N -> hex_val (hex_digit d) = Some d.
Proof.
  intros Hd. assert (d = 0 \/ d = 1 \/ d = 2 \/ d = 3 \/ d = 4 \/ d = 5 \/ d = 6 \/ d = 7
    \/ d = 8 \/ d = 9 \/ d = 10 \/ d = 11 \/ d = 12 \/ d = 13 \/ d = 14 \/ d = 15)%N
    as H by lia.
  repeat destruct H as [-> | H]; subst; reflexivity.
Qed.

Lemma unhex4_hex4 n : (n < 65536)%N ->
  unhex4 (hex_digit (n / 4096)) (hex_digit (n / 256 mod 16))
    (hex_digit (n / 16 mod 16)) (hex_digit (n mod 16)) = Some n.
Proof.
  intros Hn. unfold unhex4.
  rewrite !hex_val_digit by (lia || (apply N.mod_lt; lia) || (apply N.Div0.div_lt_upper_bound; lia)).
  f_equal.
  replace (n / 4096)%N with (n / 16 / 16 / 16)%N by (rewrite !N.Div0.div_div; done).
  replace (n / 256)%N with (n / 16 / 16)%N by (rewrite !N.Div0.div_div; done).
  pose proof (N.div_mod n 16). pose proof (N.div_mod (n / 16) 16).
  pose proof (N.div_mod (n / 16 / 16) 16). lia.
Qed.

Lemma parse_str_u_escape n r : (n < 65536)%N ->
  (n < 55296 \/ 57344 <= n)%N ->
  parse_str (u_escape n +:+ r) = cons_fst (utf8_enc n) (parse_str r).
Proof.
  intros Hn Hs. unfold u_escape, hex4. cbn -[N.div N.modulo hex_digit utf8_enc unhex4].
  rewrite unhex4_hex4 by done.
  destruct (N.leb_spec 55296 n); destruct (N.ltb_spec n 56320); cbn [andb]; try done; lia.
Qed.

Lemma parse_str_esc_cp n r : (n < 1114112)%N -> (n < 55296 \/ 57344 <= n)%N ->
  parse_str (esc_cp n +:+ r) = cons_fst (utf8_enc n) (parse_str r).
Proof.
  intros Hn Hs. unfold esc_cp. destruct (N.ltb_spec n 65536); [by apply parse_str_u_escape|].
  assert ((n - 65536) / 1024 < 1024)%N as Hq by (apply N.Div0.div_lt_upper_bound; lia).
  pose proof (N.mod_lt (n - 65536) 1024 ltac:(done)) as Hr.
  pose proof (N.div_mod (n - 65536) 1024 ltac:(done)) as Hqr.
  generalize dependent ((n - 65536) / 1024)%N. generalize dependent ((n - 65536) mod 1024)%N.
  intros lo Hlo hi Hhi Heq.
  rewrite string_app_assoc. unfold u_escape at 1, hex4.
  cbn -[N.div N.modulo N.add N.sub N.mul N.leb N.ltb hex_digit utf8_enc unhex4 u_escape].
  rewrite unhex4_hex4 by lia.
  destruct (N.leb_spec 55296 (55296 + hi)); [|lia].
  destruct (N.ltb_spec (55296 + hi) 56320); [|lia].
  unfold u_escape, hex4.
  cbn -[N.div N.modulo N.add N.sub N.mul N.leb N.ltb hex_digit utf8_enc unhex4].
  rewrite unhex4_hex4 by lia.
  destruct (N.leb_spec 56320 (56320 + lo)); [|lia].
  destruct (N.ltb_spec (56320 + lo) 57344); [|lia].
  cbn [andb]. do 2 f_equal. lia.
Qed.

Lemma cons_fst_some p a b : cons_fst p (Some (a, b)) = Some (p +:+ a, b).
Proof. done. Qed.

Lemma ascii_N_eq c n : N_of_ascii c = n -> ascii_of_N n = c.
Proof. intros <-. apply ascii_N_embedding. Qed.

Lemma is_cont_spec n : is_cont n = true -> (128 <= n < 192)%N.
Proof.
  unfold is_cont. rewrite andb_true_iff, N.leb_le, N.ltb_lt. lia.
Qed.

Ltac bool_to_prop :=
  repeat match goal with
  | H : negb _ = false |- _ => apply negb_false_iff in H
  | H : negb _ = true |- _ => apply negb_true_iff in H
  | H : is_cont _ = true |- _ => apply is_cont_spec in H
  | H : _ && _ = true |- _ => apply andb_true_iff in H as [? ?]
  | H : _ || _ = false |- _ => apply orb_false_iff in H as [? ?]
  | H : N.leb _ _ && N.ltb _ _ = false |- _ =>
      rewrite andb_false_iff, N.leb_gt, N.ltb_ge in H
  | H : N.ltb _ _ = true |- _ => apply N.ltb_lt in H
  | H : N.ltb _ _ = false |- _ => apply N.ltb_ge in H
  | H : N.leb _ _ = true |- _ => apply N.leb_le in H
  | H : N.leb _ _ = false |- _ => apply N.leb_gt in H
  end.

Lemma utf8_enc_2 c c1 : (194 <= N_of_ascii c < 224)%N -> (128 <= N_of_ascii c1 < 192)%N ->
  utf8_enc ((N_of_ascii c - 192) * 64 + (N_of_ascii c1 - 128)) =
  String c (String c1 "").
Proof.
  intros H H1. unfold utf8_enc.
  set (n := ((N_of_ascii c - 192) * 64 + (N_of_ascii c1 - 128))%N).
  assert (128 <= n < 2048)%N by lia.
  destruct (N.ltb_spec n 128); [lia|]. destruct (N.ltb_spec n 2048); [|lia].
  assert (n / 64 = N_of_ascii c - 192)%N as Hd.
  { symmetry. apply (N.div_unique _ _ _ (N_of_ascii c1 - 128)); lia. }
  assert (n mod 64 = N_of_ascii c1 - 128)%N as Hm.
  { symmetry. apply (N.mod_unique _ _ (N_of_ascii c - 192)); lia. }
  rewrite Hd, Hm. f_equal; [|f_equal]; apply ascii_N_eq; lia.
Qed.

Lemma utf8_enc_3 c c1 c2 cp :
  cp = ((N_of_ascii c - 224) * 4096 + (N_of_ascii c1 - 128) * 64 + (N_of_ascii c2 - 128))%N ->
  (224 <= N_of_ascii c < 240)%N -> (128 <= N_of_ascii c1 < 192)%N ->
  (128 <= N_of_ascii c2 < 192)%N -> (2048 <= cp)%N ->
  utf8_enc cp = String c (String c1 (String c2 "")).
Proof.
  intros Hcp H H1 H2 Hlo. unfold utf8_enc.
  assert (cp < 65536)%N by lia.
  destruct (N.ltb_spec cp 128); [lia|]. destruct (N.ltb_spec cp 2048); [lia|].
  destruct (N.ltb_spec cp 65536); [|lia].
  assert (cp / 64 = (N_of_ascii c - 224) * 64 + (N_of_ascii c1 - 128))%N as Hd.
  { symmetry. apply (N.div_unique _ _ _ (N_of_ascii c2 - 128)); lia. }
  assert (cp mod 64 = N_of_ascii c2 - 128)%N as Hm.
  { symmetry. apply (N.mod_unique _ _ ((N_of_ascii c - 224) * 64 + (N_of_ascii c1 - 128))); lia. }
  assert (cp / 4096 = N_of_ascii c - 224)%N as Hd2.
  { symmetry. apply (N.div_unique _ _ _ ((N_of_ascii c1 - 128) * 64 + (N_of_ascii c2 - 128))); lia. }
  assert (cp / 64 mod 64 = N_of_ascii c1 - 128)%N as Hm2.
  { rewrite Hd. symmetry. apply (N.mod_unique _ _ (N_of_ascii c - 224)); lia. }
  rewrite Hd2, Hm2, Hm. repeat f_equal; apply ascii_N_eq; lia.
Qed.

Lemma utf8_enc_4 c c1 c2 c3 cp :
  cp = ((N_of_ascii c - 240) * 262144 + (N_of_ascii c1 - 128) * 4096
        + (N_of_ascii c2 - 128) * 64 + (N_of_ascii c3 - 128))%N ->
  (240 <= N_of_ascii c)%N -> (128 <= N_of_ascii c1 < 192)%N ->
  (128 <= N_of_ascii c2 < 192)%N -> (128 <= N_of_ascii c3 < 192)%N -> (65536 <= cp)%N ->
  utf8_enc cp = String c (String c1 (String c2 (String c3 ""))).
Proof.
  intros Hcp H H1 H2 H3 Hlo. unfold utf8_enc.
  destruct (N.ltb_spec cp 128); [lia|]. destruct (N.ltb_spec cp 2048); [lia|].
  destruct (N.ltb_spec cp 65536); [lia|].
  assert (cp / 64 = (N_of_ascii c - 240) * 4096 + (N_of_ascii c1 - 128) * 64
                    + (N_of_ascii c2 - 128))%N as Hd.
  { symmetry. apply (N.div_unique _ _ _ (N_of_ascii c3 - 128)); lia. }
  assert (cp mod 64 = N_of_ascii c3 - 128)%N as Hm.
  { symmetry. apply (N.mod_unique _ _ ((N_of_ascii c - 240) * 4096
      + (N_of_ascii c1 - 128) * 64 + (N_of_ascii c2 - 128))); lia. }
  assert (cp / 4096 = (N_of_ascii c - 240) * 64 + (N_of_ascii c1 - 128))%N as Hd2.
  { symmetry. apply (N.div_unique _ _ _ ((N_of_ascii c2 - 128) * 64 + (N_of_ascii c3 - 128))); lia. }
  assert (cp / 64 mod 64 = N_of_ascii c2 - 128)%N as Hm2.
  { rewrite Hd. symmetry. apply (N.mod_unique _ _ ((N_of_ascii c - 240) * 64 + (N_of_ascii c1 - 128))); lia. }
  assert (cp / 262144 = N_of_ascii c - 240)%N as Hd3.
  { symmetry. apply (N.div_unique _ _ _ ((N_of_ascii c1 - 128) * 4096
      + (N_of_ascii c2 - 128) * 64 + (N_of_ascii c3 - 128))); lia. }
  assert (cp / 4096 mod 64 = N_of_ascii c1 - 128)%N as Hm3.
  { rewrite Hd2. symmetry. apply (N.mod_unique _ _ (N_of_ascii c - 240)); lia. }
  rewrite Hd3, Hm3, Hm2, Hm. repeat f_equal; apply ascii_N_eq; lia.
Qed.

Lemma parse_str_esc_ascii s t rest :
  esc_ascii s = Some t -> parse_str (t +:+ String dq rest) = Some (s, rest).
Proof.
  remember (String.length s) as n eqn:Hn. revert s t Hn.
  induction (lt_wf n) as [n _ IH]. intros s t -> H.
  assert (IH' : forall s' t', (String.length s' < String.length s)%nat ->
    esc_ascii s' = Some t' -> parse_str (t' +:+ String dq rest) = Some (s', rest)).
  { intros s' t' Hl. by eapply IH. }
  clear IH. destruct s as [|c s1]; simpl in H; [by injection H as <-|].
  case_hyp H; bool_to_prop.
  { destruct (esc_ascii s1) as [t1|] eqn:E1; simpl in H; [|done]. injection H as <-.
    rewrite string_app_assoc. specialize (IH' s1 t1 ltac:(simpl; lia) E1).
    destruct (N.eqb_spec (N_of_ascii c) 127) as [Hc|_].
    - rewrite Hc, parse_str_u_escape by lia. rewrite IH'. cbn.
      by rewrite <- (ascii_N_embedding c), Hc.
    - by rewrite parse_str_esc_char, IH'. }
  destruct s1 as [|c1 s2]; [done|].
  destruct (is_cont (N_of_ascii c1)) eqn:E1; simpl in H; [|done].
  case_hyp H; bool_to_prop.
  { destruct (esc_ascii s2) as [t1|] eqn:E2; simpl in H; [|done]. injection H as <-.
    specialize (IH' s2 t1 ltac:(simpl; lia) E2).
    rewrite string_app_assoc, parse_str_esc_cp, IH', utf8_enc_2 by lia. done. }
  destruct s2 as [|c2 s3]; [done|].
  destruct (is_cont (N_of_ascii c2)) eqn:E2; simpl in H; [|done].
  destruct ((224 <=? N_of_ascii c) && (N_of_ascii c <? 240))%N eqn:E3; bool_to_prop.
  { destruct (_ || _) eqn:E4 in H; [done|]; bool_to_prop.
    destruct (esc_ascii s3) as [t1|] eqn:E5; simpl in H; [|done]. injection H as <-.
    specialize (IH' s3 t1 ltac:(simpl; lia) E5).
    rewrite string_app_assoc, parse_str_esc_cp, IH', (utf8_enc_3 c c1 c2) by lia. done. }
  destruct s3 as [|c3 s4]; [done|].
  destruct (is_cont (N_of_ascii c3)) eqn:E4; simpl in H; [|done].
  destruct (_ || _) eqn:E5 in H; [done|]; bool_to_prop.
  destruct (esc_ascii s4) as [t1|] eqn:E6; simpl in H; [|done]. injection H as <-.
  specialize (IH' s4 t1 ltac:(simpl; lia) E6).
  rewrite string_app_assoc, parse_str_esc_cp, IH', (utf8_enc_4 c c1 c2 c3) by lia. done.
Qed.

(** * Numbers round-trip *)

(** What may follow a number without being read as part of it. *)
Definition no_num (rest : string) : Prop :=
  match rest with String c _ => float_char c = false | EmptyString => True end.

Lemma span_app f a rest : str_forallb f a = true ->
  match rest with String c _ => f c = false | EmptyString => True end ->
  span f (a +:+ rest) = (a, rest).
Proof.
  intros Ha Hr. induction a as [|c a IH]; simpl in *.
  - destruct rest as [|c rest]; simpl; [done|]. by rewrite Hr.
  - apply andb_true_iff in Ha as [-> Ha]. by rewrite IH.
Qed.

Definition int_char (c : ascii) : bool := float_char c && negb (float_mark c).

Lemma str_of_uint_chars u :
  str_forallb int_char (NilEmpty.string_of_uint u) = true.
Proof. induction u; simpl; try rewrite IHu; reflexivity. Qed.

Lemma nz_string_chars u :
  str_forallb int_char (NilZero.string_of_uint u) = true /\
  num_start (NilZero.string_of_uint u) = true.
Proof.
  destruct u; simpl; rewrite ?str_of_uint_chars; split; reflexivity.
Qed.

Lemma str_of_Z_chars z :
  str_forallb int_char (str_of_Z z) = true /\ num_start (str_of_Z z) = true.
Proof.
  unfold str_of_Z, NilZero.string_of_int.
  destruct (Z.to_int z) as [u|u]; [apply nz_string_chars|].
  cbn [str_forallb num_start]. rewrite (proj1 (nz_string_chars u)). split; reflexivity.
Qed.

Lemma str_forallb_impl (f g : ascii -> bool) s :
  (forall c, f c = true -> g c = true) -> str_forallb f s = true -> str_forallb g s = true.
Proof.
  intros H. induction s as [|c s IH]; simpl; [done|].
  rewrite !andb_true_iff. naive_solver.
Qed.

Lemma str_forallb_not_exists (f g : ascii -> bool) s :
  (forall c, f c = true -> g c = false) -> str_forallb f s = true -> str_existsb g s = false.
Proof.
  intros H. induction s as [|c s IH]; simpl; [done|].
  rewrite andb_true_iff, orb_false_iff. naive_solver.
Qed.

Lemma parse_num_int z rest : no_num rest ->
  parse_num (str_of_Z z +:+ rest) = Some (PInt z, rest).
Proof.
  intros Hr. destruct (str_of_Z_chars z) as [Hc _]. unfold parse_num.
  rewrite span_app; [|eapply str_forallb_impl; [|done]; unfold int_char|done].
  - rewrite (str_forallb_not_exists int_char), Z_of_str_of_Z; [done| |done].
    intros c. unfold int_char. rewrite andb_true_iff, negb_true_iff. tauto.
  - intros c. rewrite andb_true_iff. tauto.
Qed.

Lemma parse_num_float r rest : float_finite r = true -> no_num rest ->
  parse_num (r +:+ rest) = Some (PFloat r, rest).
Proof.
  intros Hf Hr. pose proof Hf as Hf'. unfold float_finite in Hf'.
  apply andb_true_iff in Hf' as [[_ Hc]%andb_true_iff Hm].
  unfold parse_num. by rewrite span_app, Hm, Hf.
Qed.

(** * Values round-trip *)

(** The characters a printed value starts with. *)
Definition val_start (c : ascii) : bool :=
  let n := N_of_ascii c in
  (((48 <=? n) && (n <=? 57)) || (n =? 45) || (n =? 34) || (n =? 91) || (n =? 123)
   || (n =? 110) || (n =? 116) || (n =? 102))%N.

Lemma val_start_facts c : val_start c = true ->
  is_ws c = false /\ is_char 93 c = false /\ is_char 125 c = false.
Proof. destruct c as [[] [] [] [] [] [] [] []]; vm_compute; auto. Qed.

Lemma num_start_val_start s : num_start s = true ->
  exists c s', s = String c s' /\ val_start c = true.
Proof.
  destruct s as [|c s]; [done|]. intros H. exists c, s. split; [done|].
  revert H. destruct c as [[] [] [] [] [] [] [] []]; vm_compute; auto.
Qed.

Lemma skip_ws_start c s : val_start c = true -> skip_ws (String c s) = String c s.
Proof. intros H. simpl. by destruct (val_start_facts c H) as [-> _]. Qed.

Definition all_ws (s : string) : bool := str_forallb is_ws s.

Lemma skip_ws_app w s : all_ws w = true -> skip_ws (w +:+ s) = skip_ws s.
Proof.
  unfold all_ws. induction w as [|c w IH]; simpl; [done|].
  rewrite andb_true_iff. intros [-> H]. by apply IH.
Qed.

Lemma parse_value_ws n w s : all_ws w = true ->
  parse_value n (w +:+ s) = parse_value n s.
Proof. intros H. destruct n; [done|]. simpl. by rewrite skip_ws_app. Qed.

Lemma parse_items_ws n w s : all_ws w = true ->
  parse_items n (w +:+ s) = parse_items n s.
Proof. intros H. destruct n; [done|]. simpl. by rewrite parse_value_ws. Qed.

Lemma parse_members_ws n w s : all_ws w = true ->
  parse_members n (w +:+ s) = parse_members n s.
Proof. intros H. destruct n; [done|]. simpl. by rewrite skip_ws_app. Qed.

(** The separators of a style: a comma, a colon, each followed by blanks. *)
Record style_seps (st : json_style) : Prop := {
  wf_item : exists w, item_sep st = ("," +:+ w) /\ all_ws w = true;
  wf_key : exists w, key_sep st = (":" +:+ w) /\ all_ws w = true;
}.

(** The styles of the canonical encoders sort the keys. *)
Record style_wf (st : json_style) : Prop := {
  wf_seps : style_seps st;
  wf_sorted : sort_keys st = true;
}.

Lemma read_form_canon v : read_form true v = canon v.
Proof.
  induction v as [|b|z|r|s|l IH|l IH|d IH|] using pyval_ind'; cbn [read_form canon]; try done.
  - f_equal. by apply map_ext_Forall.
  - f_equal. by apply map_ext_Forall.
  - do 2 f_equal. apply map_ext_Forall. eapply Forall_impl; [exact IH|].
    intros kv Hkv. cbn beta in Hkv |- *. by rewrite Hkv.
Qed.

Lemma sequence_cons {E A} (m : result E A) l ts :
  sequence (m :: l) = Ok ts ->
  exists t ts', m = Ok t /\ sequence l = Ok ts' /\ ts = t :: ts'.
Proof. simpl. intros H. inv_ok. subst. eauto. Qed.

Lemma dict_set_fresh {V} k (v : V) d : k ∉ map fst d -> dict_set k v d = d ++ [(k, v)].
Proof.
  induction d as [|[k' v'] d IH]; simpl; [done|].
  intros Hk. rewrite elem_of_cons in Hk.
  destruct (str_eqb k k') eqn:E; [apply str_eqb_spec in E; naive_solver|].
  rewrite IH; naive_solver.
Qed.

Lemma dict_of_list_id {V} (l : list (string * V)) :
  NoDup (map fst l) -> dict_of_list l = l.
Proof.
  intros Hnd. unfold dict_of_list.
  enough (forall acc, NoDup (map fst (acc ++ l)) ->
    foldl (fun d kv => dict_set (fst kv) (snd kv) d) acc l = acc ++ l) as H.
  { by rewrite (H []). }
  clear Hnd. induction l as [|[k v] l IH]; intros acc Hnd; simpl; [by rewrite app_nil_r|].
  rewrite dict_set_fresh.
  - rewrite IH; [by rewrite <- app_assoc|]. by rewrite <- app_assoc.
  - rewrite map_app in Hnd. apply NoDup_app in Hnd as (_ & Hd & _).
    intros Hin. eapply Hd; [exact Hin | left].
Qed.

Section roundtrip.
Context (st : json_style) (Hwf : style_seps st).

Lemma dumps_str_shape s t : dumps_str st s = Ok t -> exists b, t = quote b.
Proof.
  unfold dumps_str. destruct (ensure_ascii st).
  - destruct (esc_ascii s); naive_solver.
  - naive_solver.
Qed.

Lemma parse_str_dumps s b rest : dumps_str st s = Ok (quote b) ->
  parse_str (b +:+ String dq rest) = Some (s, rest).
Proof.
  unfold dumps_str. destruct (ensure_ascii st).
  - destruct (esc_ascii s) eqn:E; [|done].
    injection 1 as <-%string_app_inv_r. by apply parse_str_esc_ascii.
  - injection 1 as <-%string_app_inv_r. apply parse_str_esc_utf8.
Qed.

Lemma json_dumps_start v t : pyval_ok v = true -> json_dumps st v = Ok t ->
  exists c t', t = String c t' /\ val_start c = true.
Proof.
  destruct v as [|[]|z|r|s|l|l|d|]; simpl; intros Hok H; inv_ok; subst;
    try (by do 2 eexists).
  - apply num_start_val_start, str_of_Z_chars.
  - apply num_start_val_start. unfold float_finite in Hok.
    by apply andb_true_iff in Hok as [[? _]%andb_true_iff _].
  - apply dumps_str_shape in H as [b ->]. by do 2 eexists.
Qed.

(** The statement proved by induction on values. *)
Definition parses (v : pyval) : Prop :=
  pyval_ok v = true -> forall t, json_dumps st v = Ok t ->
  forall n rest, (String.length t <= n)%nat -> no_num rest ->
  parse_value n (t +:+ rest) = Some (read_form (sort_keys st) v, rest).

Lemma parse_items_dumps l ts n rest :
  Forall parses l -> l <> [] -> forallb pyval_ok l = true ->
  sequence (map (json_dumps st) l) = Ok ts ->
  (String.length (join (item_sep st) ts) < n)%nat ->
  parse_items n (join (item_sep st) ts +:+ "]" +:+ rest) = Some (map (read_form (sort_keys st)) l, rest).
Proof.
  destruct Hwf as [(w & Hsep & Hw) _]. intros HP.
  revert ts n. induction HP as [|v l Hv HP IH]; intros ts n Hne Hok Hs Hn; [done|].
  apply sequence_cons in Hs as (t & ts' & Ht & Hs & ->).
  simpl in Hok. apply andb_true_iff in Hok as [Hokv Hok].
  destruct n as [|n]; [lia|].
  destruct l as [|v2 l].
  - simpl in Hs. injection Hs as <-. simpl in Hn |- *.
    rewrite (Hv Hokv t Ht); [done|lia|done].
  - pose proof Hs as Hs'. apply sequence_cons in Hs' as (t2 & ts2 & _ & _ & ->).
    change (join (item_sep st) (t :: t2 :: ts2)) with
      (t +:+ item_sep st +:+ join (item_sep st) (t2 :: ts2)) in *.
    specialize (IH (t2 :: ts2) n ltac:(done) Hok Hs).
    set (J := join (item_sep st) (t2 :: ts2)) in *. simpl String.append in IH.
    rewrite !string_app_length, Hsep in Hn. simpl in Hn.
    rewrite !string_app_assoc, Hsep. simpl.
    rewrite (Hv Hokv t Ht); [|lia|done]. simpl.
    rewrite parse_items_ws by done. by rewrite IH by lia.
Qed.

Lemma parse_members_dumps d ts n rest :
  Forall (fun kv => parses (snd kv)) d -> d <> [] ->
  forallb (fun kv => pyval_ok (snd kv)) d = true ->
  sequence (map (fun kv => dumps_member st (fst kv, json_dumps st (snd kv))) d) = Ok ts ->
  (String.length (join (item_sep st) ts) < n)%nat ->
  parse_members n (join (item_sep st) ts +:+ "}" +:+ rest)
  = Some (map (fun kv => (fst kv, read_form (sort_keys st) (snd kv))) d, rest).
Proof.
  destruct Hwf as [(w & Hsep & Hw) (wk & Hk & Hwk)]. intros HP.
  revert ts n. induction HP as [|[k v] d Hv HP IH]; intros ts n Hne Hok Hs Hn; [done|].
  apply sequence_cons in Hs as (t & ts' & Ht & Hs & ->).
  unfold dumps_member in Ht. simpl in Ht, Hv. inv_ok. subst t.
  rename a into ek. rename a0 into tv.
  destruct (dumps_str_shape _ _ Ha) as [b ->].
  simpl in Hok. apply andb_true_iff in Hok as [Hokv Hok].
  destruct n as [|n]; [lia|].
  assert (Hmember : forall tail, no_num tail -> (String.length tv <= n)%nat ->
    parse_members (S n) ((quote b +:+ key_sep st +:+ tv) +:+ tail) =
    match skip_ws tail with
    | String c2 r3 =>
        if is_char 125 c2 then Some ([(k, read_form (sort_keys st) v)], r3)
        else if is_char 44 c2 then
          match parse_members n r3 with
          | Some (vs, r4) => Some ((k, read_form (sort_keys st) v) :: vs, r4) | None => None end
        else None
    | EmptyString => None
    end).
  { intros tail Htail Hl. unfold quote. simpl.
    rewrite !string_app_assoc. simpl.
    rewrite (parse_str_dumps _ _ _ Ha), Hk. simpl.
    rewrite parse_value_ws by done.
    rewrite (Hv Hokv tv Ha0 n tail) by done. done. }
  destruct d as [|kv2 d].
  - simpl in Hs. injection Hs as <-. cbn [join] in Hn |- *.
    rewrite !string_app_length in Hn. by rewrite Hmember by (done || lia).
  - pose proof Hs as Hs'. apply sequence_cons in Hs' as (t2 & ts2 & _ & _ & ->).
    set (t := (quote b +:+ key_sep st +:+ tv)%string) in *.
    assert (Ht : (String.length tv <= String.length t)%nat)
      by (unfold t; rewrite !string_app_length; lia).
    clearbody t.
    change (join (item_sep st) (t :: t2 :: ts2)) with
      (t +:+ item_sep st +:+ join (item_sep st) (t2 :: ts2)) in *.
    specialize (IH (t2 :: ts2) n ltac:(done) Hok Hs).
    set (J := join (item_sep st) (t2 :: ts2)) in *. simpl String.append in IH.
    rewrite !string_app_length, Hsep in Hn. simpl in Hn.
    rewrite !string_app_assoc, Hsep. rewrite Hmember by (done || lia). simpl.
    rewrite parse_members_ws by done. by rewrite IH by lia.
Qed.
End roundtrip.

Lemma parse_value_num n t rest : num_start t = true ->
  parse_value (S n) (t +:+ rest) = parse_num (t +:+ rest).
Proof.
  destruct t as [|c t]; [done|].
  destruct c as [[] [] [] [] [] [] [] []]; (discriminate || reflexivity).
Qed.

Lemma num_start_length t : num_start t = true -> (1 <= String.length t)%nat.
Proof. destruct t; simpl; [done|lia]. Qed.

Section roundtrip_thm.
Context (st : json_style) (Hwf : style_seps st).

Lemma parses_list l t n rest :
  Forall (parses st) l -> forallb pyval_ok l = true ->
  (let* ts := sequence (map (json_dumps st) l) in
   Ok ("[" +:+ join (item_sep st) ts +:+ "]")) = Ok t ->
  (String.length t <= n)%nat ->
  parse_value n (t +:+ rest) = Some (PList (map (read_form (sort_keys st)) l), rest).
Proof.
  intros HP Hok Ht Hn. inv_ok. subst t. rename a into ts.
  simpl in Hn |- *. destruct n as [|n]; [lia|].
  destruct l as [|v l].
  { simpl in Ha. injection Ha as <-. reflexivity. }
  assert (exists c r, join (item_sep st) ts = String c r /\ val_start c = true) as Hstart.
  { simpl in Hok. apply andb_true_iff in Hok as [Hokv _].
    apply sequence_cons in Ha as (t & ts' & Ht & _ & ->).
    destruct (json_dumps_start st v t Hokv Ht) as (c & r & -> & Hc).
    destruct ts'; simpl; eauto. }
  destruct Hstart as (c & r & Hj & Hc). rewrite string_app_length in Hn. simpl in Hn.
  pose proof (parse_items_dumps st Hwf (v :: l) ts n rest HP ltac:(done) Hok Ha ltac:(lia)) as Hp.
  rewrite string_app_assoc. rewrite Hj in Hp |- *. simpl.
  destruct (val_start_facts c Hc) as (-> & -> & _). simpl in Hp. by rewrite Hp.
Qed.

Lemma parses_dict d t n rest :
  Forall (fun kv => parses st (snd kv)) d -> pyval_ok (PDict d) = true ->
  json_dumps st (PDict d) = Ok t -> (String.length t <= n)%nat ->
  parse_value n (t +:+ rest) = Some (read_form (sort_keys st) (PDict d), rest).
Proof.
  intros HP Hok Ht Hn. cbn [json_dumps read_form pyval_ok] in *.
  apply andb_true_iff in Hok as [Hnd%bool_decide_eq_true Hok].
  set (order := fun d => if sort_keys st then sort_by fst d else d : list (string * pyval)).
  assert (Permutation (order d) d) as Hperm
    by (unfold order; destruct (sort_keys st); [apply sort_by_perm|done]).
  assert (forall {B} (f : string * pyval -> string * B), (forall kv, fst (f kv) = fst kv) ->
    (if sort_keys st then sort_by fst (map f d) else map f d) = map f (order d)) as Hmap.
  { intros B f Hf. unfold order. destruct (sort_keys st); [|done].
    by rewrite (sort_by_map _ fst fst). }
  rewrite Hmap in Ht by done. rewrite Hmap by done. rewrite map_map in Ht. clear Hmap.
  assert (Forall (fun kv => parses st (snd kv)) (order d)) as HP' by (by rewrite Hperm).
  assert (NoDup (map fst (order d))) as Hnd' by (by rewrite Hperm).
  assert (forallb (fun kv => pyval_ok (snd kv)) (order d) = true) as Hok'.
  { rewrite forallb_forall in Hok |- *. intros x Hx. apply Hok.
    eapply Permutation_in; [exact Hperm | done]. }
  clear HP Hnd Hok Hperm. revert HP' Hnd' Hok' Ht.
  generalize (order d). clear d order. intros d HP Hnd Hok Ht.
  inv_ok. subst t. rename a into ts.
  simpl in Hn |- *. destruct n as [|n]; [lia|].
  destruct d as [|[k v] d].
  { simpl in Ha. injection Ha as <-. reflexivity. }
  assert (exists r, join (item_sep st) ts = String dq r) as [r Hj].
  { apply sequence_cons in Ha as (t & ts' & Ht & _ & ->).
    unfold dumps_member in Ht. simpl in Ht. inv_ok. subst.
    destruct (dumps_str_shape _ _ _ Ha) as [b ->].
    destruct ts'; simpl; eauto. }
  rewrite string_app_length in Hn. simpl in Hn.
  pose proof (parse_members_dumps st Hwf ((k, v) :: d) ts n rest HP ltac:(done) Hok Ha
    ltac:(lia)) as Hp.
  rewrite string_app_assoc. rewrite Hj in Hp |- *.
  cbn [parse_value skip_ws]. change (is_ws "{") with false. cbn match.
  simpl in Hp |- *. rewrite Hp. rewrite dict_of_list_id; [done|].
  simpl. by rewrite map_map.
Qed.

Lemma json_dumps_parses v : parses st v.
Proof.
  induction v as [|b|z|r|s|l IH|l IH|d IH|] using pyval_ind'; intros Hok t Ht n rest Hn Hr.
  - injection Ht as <-. simpl in Hn. destruct n; [lia|]. reflexivity.
  - destruct b; injection Ht as <-; simpl in Hn; (destruct n; [lia|]); reflexivity.
  - injection Ht as <-. destruct (str_of_Z_chars z) as [_ Hz].
    pose proof (num_start_length _ Hz). destruct n; [lia|].
    rewrite parse_value_num by done. by apply parse_num_int.
  - simpl in Hok, Ht. rewrite Hok in Ht. injection Ht as <-.
    assert (num_start r = true) as Hz.
    { unfold float_finite in Hok. by apply andb_true_iff in Hok as [[? _]%andb_true_iff _]. }
    pose proof (num_start_length _ Hz). destruct n; [lia|].
    rewrite parse_value_num by done. by apply parse_num_float.
  - simpl in Ht. destruct (dumps_str_shape _ _ _ Ht) as [b ->].
    unfold quote in *. simpl in Hn. destruct n; [lia|]. simpl.
    rewrite string_app_assoc. simpl. by rewrite (parse_str_dumps st s b rest Ht).
  - by apply parses_list.
  - by apply parses_list.
  - by apply parses_dict.
  - done.
Qed.

(** Reading back what was printed, in the printed order of the keys. *)
Lemma json_loads_form v t :
  pyval_ok v = true -> json_dumps st v = Ok t ->
  json_loads t = Some (read_form (sort_keys st) v).
Proof.
  intros Hok Ht. unfold json_loads.
  pose proof (json_dumps_parses v Hok t Ht (String.length t) "" ltac:(done) I) as H.
  rewrite string_app_nil_r in H. by rewrite H.
Qed.
End roundtrip_thm.

Section sorted_thm.
Context (st : json_style) (Hwf : style_wf st).

(** A printed dictionary is read back whatever follows it. *)
Lemma parses_dict_canon d t n rest : pyval_ok (PDict d) = true ->
  json_dumps st (PDict d) = Ok t -> (String.length t <= n)%nat ->
  parse_value n (t +:+ rest) = Some (canon (PDict d), rest).
Proof.
  intros Hok Ht Hn. destruct Hwf as [Hseps Hs]. rewrite <- read_form_canon, <- Hs.
  apply parses_dict; try done. apply Forall_forall. intros x _. by apply json_dumps_parses.
Qed.

(** Reading back what was printed gives the canonical form of the value. *)
Lemma json_loads_dumps v t :
  pyval_ok v = true -> json_dumps st v = Ok t -> json_loads t = Some (canon v).
Proof.
  intros Hok Ht. destruct Hwf as [Hseps Hs].
  rewrite <- read_form_canon, <- Hs. by apply json_loads_form.
Qed.

(** Equal texts come from values equal up to key order and tuple/list. *)
Lemma json_dumps_inj v w t :
  pyval_ok v = true -> pyval_ok w = true ->
  json_dumps st v = Ok t -> json_dumps st w = Ok t -> canon v = canon w.
Proof.
  intros Hv Hw Htv Htw.
  pose proof (json_loads_dumps v t Hv Htv). pose proof (json_loads_dumps w t Hw Htw).
  congruence.
Qed.
End sorted_thm.

Lemma style_compact_utf8_wf : style_wf style_compact_utf8.
Proof. split; [split; exists ""; done|done]. Qed.
Lemma style_compact_ascii_wf : style_wf style_compact_ascii.
Proof. split; [split; exists ""; done|done]. Qed.
Lemma style_default_sorted_wf : style_wf style_default_sorted.
Proof. split; [split; exists " "; done|done]. Qed.
#[export] Hint Resolve style_compact_utf8_wf style_compact_ascii_wf
  style_default_sorted_wf : ugk.

(** * Printing does not see insertion order *)

Lemma forallb_perm {A} (f : A -> bool) l k : Permutation l k -> forallb f l = forallb f k.
Proof.
  induction 1 as [|x l k _ IH|x y l|l k m _ IH1 _ IH2]; simpl; [done|by rewrite IH| |congruence].
  by destruct (f x), (f y).
Qed.

Lemma py_eq_ok v w : py_eq v w -> pyval_ok v = pyval_ok w.
Proof.
  induction 1 as [| |u v w _ IH1 _ IH2|d d' Hp|d1 k v w d2 _ IH|l1 v w l2 _ IH];
    simpl; try congruence.
  - f_equal; [|by apply forallb_perm]. apply bool_decide_ext. by rewrite Hp.
  - rewrite !map_app, !forallb_app. simpl. by rewrite IH.
  - rewrite !forallb_app. simpl. by rewrite IH.
Qed.

Lemma json_dumps_py_eq st v w : sort_keys st = true ->
  py_eq v w -> pyval_ok v = true -> json_dumps st v = json_dumps st w.
Proof.
  intros Hst. induction 1 as [|v w Hvw IH|u v w Huv IH1 _ IH2|d d' Hp|d1 k v w d2 Hvw IH|l1 v w l2 Hvw IH];
    intros Hok.
  - done.
  - symmetry. apply IH. by rewrite (py_eq_ok _ _ Hvw).
  - rewrite IH1 by done. apply IH2. by rewrite <- (py_eq_ok _ _ Huv).
  - simpl in Hok |- *. rewrite Hst.
    apply andb_true_iff in Hok as [Hnd%bool_decide_eq_true _].
    rewrite (sort_by_perm_eq fst _ (map (fun kv => (fst kv, json_dumps st (snd kv))) d')).
    + done.
    + by rewrite map_map.
    + by apply Permutation_map.
  - simpl in Hok |- *. rewrite !map_app. simpl. rewrite IH; [done|].
    rewrite forallb_app in Hok. simpl in Hok.
    apply andb_true_iff in Hok as [_ [_ [? _]%andb_true_iff]%andb_true_iff]. done.
  - simpl in Hok |- *. rewrite !map_app. simpl. rewrite IH; [done|].
    rewrite forallb_app in Hok. simpl in Hok.
    apply andb_true_iff in Hok as [_ [? _]%andb_true_iff]. done.
Qed.

(** * Totality: every well-formed value without foreign objects prints *)

Fixpoint no_obj (v : pyval) : bool :=
  match v with
  | PObj => false
  | PList l | PTuple l => forallb no_obj l
  | PDict d => forallb (fun kv => no_obj (snd kv)) d
  | _ => true
  end.

Lemma sequence_ok {E A} (l : list (result E A)) :
  Forall (fun m => is_ok m = true) l -> is_ok (sequence l) = true.
Proof.
  induction 1 as [|[a|e] l Hm _ IH]; simpl in *; [done| |done].
  by destruct (sequence l).
Qed.

Lemma json_dumps_total st v : ensure_ascii st = false ->
  pyval_ok v = true -> no_obj v = true -> is_ok (json_dumps st v) = true.
Proof.
  intros Hst. assert (Hstr : forall s, dumps_str st s = Ok (quote (esc_utf8 s))).
  { intros s. unfold dumps_str. by rewrite Hst. }
  induction v as [|[]|z|r|s|l IH|l IH|d IH|] using pyval_ind'; intros Hok Hno; simpl; try done.
  - simpl in Hok. by rewrite Hok.
  - by rewrite Hstr.
  - enough (is_ok (sequence (map (json_dumps st) l)) = true) as H by by destruct (sequence _).
    apply sequence_ok, Forall_map. simpl in Hok, Hno. rewrite forallb_forall in Hok, Hno.
    rewrite Forall_forall in IH |- *. intros x Hx. pose proof Hx as Hx'.
    apply list_elem_of_In in Hx'. by apply IH; [|apply Hok|apply Hno].
  - enough (is_ok (sequence (map (json_dumps st) l)) = true) as H by by destruct (sequence _).
    apply sequence_ok, Forall_map. simpl in Hok, Hno. rewrite forallb_forall in Hok, Hno.
    rewrite Forall_forall in IH |- *. intros x Hx. pose proof Hx as Hx'.
    apply list_elem_of_In in Hx'. by apply IH; [|apply Hok|apply Hno].
  - set (kts := map _ d). set (kts' := if sort_keys st then _ else _).
    assert (Permutation kts' kts) as Hp
      by (unfold kts'; destruct (sort_keys st); [apply sort_by_perm|done]).
    enough (is_ok (sequence (map (dumps_member st) kts')) = true) as H by by destruct (sequence _).
    apply sequence_ok, Forall_map. rewrite Hp. unfold kts. apply Forall_map.
    simpl in Hok, Hno. apply andb_true_iff in Hok as [_ Hok].
    rewrite forallb_forall in Hok, Hno.
    rewrite Forall_forall in IH |- *. intros x Hx. pose proof Hx as Hx'.
    apply list_elem_of_In in Hx'. specialize (IH x Hx (Hok x Hx') (Hno x Hx')).
    unfold dumps_member. rewrite Hstr. simpl. by destruct (json_dumps st (snd x)).
Qed.
