(* ===== verification/Sha256.v ===== *)
(** SHA-256 ([hashlib.sha256]) as an executable function on byte strings.  The
    source treats it as a function of the bytes with a 32-byte digest; the
    properties of the development that need it to separate two inputs say so
    for the two inputs they compare. *)
From S2P Require Import Prelude.

Module Sha256.
Local Open Scope N_scope.

(** Big-endian words of a byte sequence whose length is a multiple of four. *)
Fixpoint words (b : list N) : list N :=
  match b with
  | a :: b :: c :: d :: r => (((a * 256 + b) * 256 + c) * 256 + d) :: words r
  | _ => []
  end.

Definition bytes_of_string (s : string) : list N :=
  map N_of_ascii (list_ascii_of_string s).

Definition hex_words (h : string) : list N :=
  match unhex h with Some b => words (bytes_of_string b) | None => [] end.

(** The round constants, eight to a row. *)
Definition K : list N := Eval vm_compute in hex_words
  ("428a2f9871374491b5c0fbcfe9b5dba53956c25b59f111f1923f82a4ab1c5ed5" +:+
   "d807aa9812835b01243185be550c7dc372be5d7480deb1fe9bdc06a7c19bf174" +:+
   "e49b69c1efbe47860fc19dc6240ca1cc2de92c6f4a7484aa5cb0a9dc76f988da" +:+
   "983e5152a831c66db00327c8bf597fc7c6e00bf3d5a7914706ca635114292967" +:+
   "27b70a852e1b21384d2c6dfc53380d13650a7354766a0abb81c2c92e92722c85" +:+
   "a2bfe8a1a81a664bc24b8b70c76c51a3d192e819d6990624f40e3585106aa070" +:+
   "19a4c1161e376c082748774c34b0bcb5391c0cb34ed8aa4a5b9cca4f682e6ff3" +:+
   "748f82ee78a5636f84c878148cc7020890befffaa4506cebbef9a3f7c67178f2").

Definition mask : N := 0xffffffff.
Definition add32 (a b : N) : N := N.land (a + b) mask.
Definition rotr (n x : N) : N :=
  N.lor (N.shiftr x n) (N.land (N.shiftl x (32 - n)) mask).

Definition big_sigma0 x := N.lxor (rotr 2 x) (N.lxor (rotr 13 x) (rotr 22 x)).
Definition big_sigma1 x := N.lxor (rotr 6 x) (N.lxor (rotr 11 x) (rotr 25 x)).
Definition small_sigma0 x := N.lxor (rotr 7 x) (N.lxor (rotr 18 x) (N.shiftr x 3)).
Definition small_sigma1 x := N.lxor (rotr 17 x) (N.lxor (rotr 19 x) (N.shiftr x 10)).
Definition ch x y z := N.lxor (N.land x y) (N.land (N.lxor x mask) z).
Definition maj x y z := N.lxor (N.land x y) (N.lxor (N.land x z) (N.land y z)).

Record hstate := HState { ha : N; hb : N; hc : N; hd : N; he : N; hf : N; hg : N; hh : N }.

Definition state_of (w : list N) : hstate :=
  HState (nth 0 w 0) (nth 1 w 0) (nth 2 w 0) (nth 3 w 0)
         (nth 4 w 0) (nth 5 w 0) (nth 6 w 0) (nth 7 w 0).

Definition init : hstate := Eval vm_compute in state_of (hex_words
  "6a09e667bb67ae853c6ef372a54ff53a510e527f9b05688c1f83d9ab5be0cd19").

(** One round with round constant [k] and schedule word [w]. *)
Definition round (s : hstate) (kw : N * N) : hstate :=
  let '(k, w) := kw in
  let t1 := add32 (add32 (add32 (hh s) (big_sigma1 (he s))) (ch (he s) (hf s) (hg s)))
                  (add32 k w) in
  let t2 := add32 (big_sigma0 (ha s)) (maj (ha s) (hb s) (hc s)) in
  HState (add32 t1 t2) (ha s) (hb s) (hc s) (add32 (hd s) t1) (he s) (hf s) (hg s).

(** The message schedule, newest word first. *)
Fixpoint extend (n : nat) (w : list N) : list N :=
  match n with
  | O => w
  | S n =>
      let x := add32 (add32 (small_sigma1 (nth 1 w 0)) (nth 6 w 0))
                     (add32 (small_sigma0 (nth 14 w 0)) (nth 15 w 0)) in
      extend n (x :: w)
  end.

Definition schedule (block : list N) : list N := rev (extend 48 (rev block)).

Definition add_state (s t : hstate) : hstate :=
  HState (add32 (ha s) (ha t)) (add32 (hb s) (hb t)) (add32 (hc s) (hc t))
         (add32 (hd s) (hd t)) (add32 (he s) (he t)) (add32 (hf s) (hf t))
         (add32 (hg s) (hg t)) (add32 (hh s) (hh t)).

Definition compress (s : hstate) (block : list N) : hstate :=
  add_state s (foldl round s (combine K (schedule block))).

Fixpoint blocks (n : nat) (w : list N) : list (list N) :=
  match n with O => [] | S n => firstn 16 w :: blocks n (skipn 16 w) end.

Fixpoint be_bytes (n : nat) (x : N) : list N :=
  match n with O => [] | S n => be_bytes n (x / 256) ++ [x mod 256] end.

Definition pad (m : list N) : list N :=
  let len := length m in
  let zeros := ((119 - (len mod 64)) mod 64)%nat in
  m ++ [128] ++ repeat 0 zeros ++ be_bytes 8 (8 * N.of_nat len).

Definition digest_words (s : hstate) : list N :=
  [ha s; hb s; hc s; hd s; he s; hf s; hg s; hh s].

Definition sha256 (s : string) : string :=
  let p := pad (bytes_of_string s) in
  let w := words p in
  let st := foldl compress init (blocks (Nat.div (length p) 64) w) in
  string_of_list_ascii (map ascii_of_N (concat (map (be_bytes 4) (digest_words st)))).
End Sha256.

Definition sha256 : string -> string := Sha256.sha256.
(** [hashlib.sha256(b).hexdigest()] *)
Definition sha256_hex (s : string) : string := hex (sha256 s).

Example sha256_abc :
  sha256_hex "abc" = "ba7816bf8f01cfea414140de5dae2223b00361a396177a9cb410ff61f20015ad".
Proof. vm_compute. reflexivity. Qed.

Example sha256_empty :
  sha256_hex "" = "e3b0c44298fc1c149afbf4c8996fb92427ae41e4649b934ca495991b7852b855".
Proof. vm_compute. reflexivity. Qed.

Example sha256_two_blocks :
  sha256_hex "abcdbcdecdefdefgefghfghighijhijkijkljklmklmnlmnomnopnopq"
  = "248d6a61d20638b8e5c026930c3e6039a33ce45964ff2167f6ecedd419db06c1".
Proof. vm_compute. reflexivity. Qed.

Lemma string_of_list_ascii_length l :
  String.length (string_of_list_ascii l) = length l.
Proof. induction l as [|c l IH]; simpl; [done | by rewrite IH]. Qed.

Lemma be_bytes_length n x : length (Sha256.be_bytes n x) = n.
Proof.
  revert x. induction n as [|n IH]; intros x; simpl; [done|].
  rewrite length_app, IH. simpl. lia.
Qed.

Lemma be_words_length l :
  length (concat (map (Sha256.be_bytes 4) l)) = (4 * length l)%nat.
Proof.
  induction l as [|x l IH]; [done|].
  cbn [map concat length]. rewrite length_app, be_bytes_length, IH. lia.
Qed.

Lemma sha256_length s : String.length (sha256 s) = 32%nat.
Proof.
  unfold sha256, Sha256.sha256. cbv zeta.
  etransitivity; [apply string_of_list_ascii_length|].
  etransitivity; [apply length_map|].
  apply be_words_length.
Qed.

Lemma sha256_hex_length s : String.length (sha256_hex s) = 64%nat.
Proof. unfold sha256_hex. by rewrite hex_length, sha256_length. Qed.

(** Proofs treat the digest as an opaque function; [vm_compute] still runs it. *)
#[global] Opaque sha256.
#[global] Arguments sha256 : simpl never.

(** * Collision freedom on the inputs a statement compares

    Properties that bind a commitment to its contents assume that the two
    computations they compare do not exhibit a SHA-256 collision: the digest
    separates the finitely many byte strings those computations hash. *)
Definition no_collision (l : list string) : Prop :=
  forall x y, x ∈ l -> y ∈ l -> sha256 x = sha256 y -> x = y.

Definition no_collisionb (l : list string) : bool :=
  let ds := map (fun x => (x, sha256 x)) l in
  forallb (fun p => forallb (fun q =>
    negb (str_eqb (snd p) (snd q)) || str_eqb (fst p) (fst q)) ds) ds.

Lemma no_collisionb_spec l : no_collisionb l = true -> no_collision l.
Proof.
  unfold no_collisionb. cbv zeta. rewrite forallb_forall. intros H x y Hx Hy Heq.
  apply list_elem_of_In in Hx, Hy.
  specialize (H _ (in_map (fun x => (x, sha256 x)) _ _ Hx)). rewrite forallb_forall in H.
  specialize (H _ (in_map (fun x => (x, sha256 x)) _ _ Hy)). simpl in H.
  apply orb_true_iff in H as [H|H].
  - apply negb_true_iff in H. rewrite Heq, str_eqb_refl in H. done.
  - by apply str_eqb_spec.
Qed.

Lemma no_collision_mono l k : (forall x, x ∈ l -> x ∈ k) -> no_collision k -> no_collision l.
Proof. intros H Hk x y Hx Hy. apply Hk; auto. Qed.
