(* ===== verification/Binding.v ===== *)
(** [ugk/storage/binding.py]: digests, canonical JSON, the DM-S-03 envelope, the
    identity hierarchy and the legend (the projection vocabulary that receipts
    are compressed with). *)
From S2P Require Import Prelude Json Sha256.

(** U+2016, the DM-S-03 field separator, in UTF-8. *)
Definition SEP : string := String "226" (String "128" (String "150" "")).
Definition DEFAULT_ALGORITHM_ID := "sha256".

Definition _digest (data algorithm_id : string) : result exn string :=
  if str_eqb algorithm_id "sha256" then Ok (sha256_hex data)
  else Err (Exn ValueError "binding: algorithm_id not enabled").

Definition content_hash (data : string) : result exn string :=
  _digest data DEFAULT_ALGORITHM_ID.

(** [canonical_json(obj)]: sorted keys, ASCII, default separators. *)
Definition canonical_json (obj : pyval) : result exn string :=
  json_dumps style_default_sorted obj.

Definition commit (canonical_bytes : string) : result exn string :=
  _digest canonical_bytes DEFAULT_ALGORITHM_ID.

(** ** DM-S-03 *)

Definition opt_field (s : string) : list string := if str_eqb s "" then [] else [s].

(** The fields of the envelope: nine always, three when not empty. *)
Definition dm_s03_fields (state_hash parent intent authority jurisdiction confidence
    session_id agent_id ts law_hash legend_hash intent_ref : string) : list string :=
  [state_hash; parent; intent; authority; jurisdiction; confidence; session_id;
   agent_id; ts] ++ opt_field law_hash ++ opt_field legend_hash ++ opt_field intent_ref.

Definition dm_s03 (state_hash parent intent authority jurisdiction confidence
    session_id agent_id ts law_hash legend_hash intent_ref algorithm_id : string) :
    result exn string :=
  _digest (join SEP (dm_s03_fields state_hash parent intent authority jurisdiction
    confidence session_id agent_id ts law_hash legend_hash intent_ref)) algorithm_id.

Definition state_hash (op_name inputs_repr algorithm_id : string) : result exn string :=
  _digest (op_name +:+ "|" +:+ inputs_repr) algorithm_id.

(** ** Identity hierarchy *)

Definition mosaic_id (governor_pubkey algorithm_id : string) : result exn string :=
  _digest governor_pubkey algorithm_id.

Definition canonical_dkn (phase_code governor_pubkey algorithm_id : string) :
    result exn string :=
  _digest (phase_code +:+ SEP +:+ governor_pubkey) algorithm_id.

Record SessionIdentity := {
  si_mosaic_root : string;
  si_phase_code : string;
  si_session_id : string;
  si_session_dkn : string;
  si_lineage : string * string;
}.

(** [fresh] is the identifier [uuid.uuid4] would give. *)
Definition spawn_session_identity (governor_pubkey phase_code : string)
    (session_id : option string) (fresh algorithm_id : string) :
    result exn SessionIdentity :=
  let* root := mosaic_id governor_pubkey algorithm_id in
  let sid := match session_id with
             | Some s => if str_eqb s "" then fresh else s
             | None => fresh
             end in
  let* dkn := _digest (root +:+ ":" +:+ phase_code +:+ ":" +:+ sid) algorithm_id in
  Ok {| si_mosaic_root := root; si_phase_code := phase_code; si_session_id := sid;
        si_session_dkn := dkn; si_lineage := (root, dkn) |}.

(** ** The legend *)

Record legend_entry := L {
  csil_id : Z;
  slug : string;
  render : string;
  tier : string;
}.

Definition _LEGEND_ENTRIES : list legend_entry :=
  [L 1001 "inv-ul-g-01" "UL-G-01" "invariant";
   L 1002 "inv-ul-s-01" "UL-S-01" "invariant";
   L 1003 "inv-ul-s-02" "UL-S-02" "invariant";
   L 1004 "inv-ul-s-03" "UL-S-03" "invariant";
   L 1005 "inv-ul-s-04" "UL-S-04" "invariant";
   L 1006 "inv-gk-s-01" "GK-S-01" "invariant";
   L 1007 "inv-gk-s-02" "GK-S-02" "invariant";
   L 1008 "inv-cm-gs-01" "CM-GS-01" "invariant";
   L 1009 "inv-cm-gs-02" "CM-GS-02" "invariant";
   L 1010 "inv-cm-op-01" "CM-OP-01" "invariant";
   L 1011 "inv-chc-s-01" "CHC-S-01" "invariant";
   L 1012 "inv-chc-s-02" "CHC-S-02" "invariant";
   L 1013 "inv-chc-s-03" "CHC-S-03" "invariant";
   L 1014 "inv-dm-s-01" "DM-S-01" "invariant";
   L 1015 "inv-dm-s-03" "DM-S-03" "invariant";
   L 1016 "inv-cr-s-01" "CR-S-01" "invariant";
   L 1017 "inv-cr-s-02" "CR-S-02" "invariant";
   L 1018 "inv-esa-s-01" "ESA-S-01" "invariant";
   L 1019 "inv-eh-s-01" "EH-S-01" "invariant";
   L 1020 "inv-eh-s-02" "EH-S-02" "invariant";
   L 1021 "inv-adv-s-01" "ADV-S-01" "invariant";
   L 1022 "inv-cm-dim-01" "CM-DIM-01" "invariant";
   L 1023 "inv-ctr-s-07" "CTR-S-07" "invariant";
   L 1024 "inv-ctr-s-01" "CTR-S-01" "invariant";
   L 1025 "inv-srsa-s-01" "SRSA-S-01" "invariant";
   L 1026 "inv-ul-l-01" "UL-L-01" "invariant";
   L 1027 "inv-legend-s-01" "LEGEND-S-01" "invariant";
   L 1028 "inv-legend-s-02" "LEGEND-S-02" "invariant";
   L 1029 "inv-legend-s-03" "LEGEND-S-03" "invariant";
   L 1030 "inv-legend-s-04" "LEGEND-S-04" "invariant";
   L 1031 "inv-dw-s-01" "DW-S-01" "invariant";
   L 1032 "inv-dw-s-02" "DW-S-02" "invariant";
   L 2001 "dim-cm-gs-01" "CM-GS-01" "dimension";
   L 2002 "dim-cm-op-01" "CM-OP-01" "dimension";
   L 2003 "dim-cm-dm-01" "CM-DM-01" "dimension";
   L 2004 "dim-cm-dep-01" "CM-DEP-01" "dimension";
   L 2005 "dim-cm-fm-01" "CM-FM-01" "dimension";
   L 2006 "dim-cm-st-01" "CM-ST-01" "dimension";
   L 2007 "dim-cm-br-01" "CM-BR-01" "dimension";
   L 2008 "dim-cm-sn-01" "CM-SN-01" "dimension";
   L 2009 "dim-cm-cr-01" "CM-CR-01" "dimension";
   L 2010 "dim-cm-gk-01" "CM-GK-01" "dimension";
   L 2011 "dim-cm-vs-01" "CM-VS-01" "dimension";
   L 2012 "dim-cm-ic-01" "CM-IC-01" "dimension";
   L 3001 "op-session-open" "session_open" "op";
   L 3002 "op-session-close" "session_close" "op";
   L 3003 "op-crp-evidence" "crp_evidence" "op";
   L 3004 "op-test-checkpoint" "test_checkpoint" "op";
   L 3005 "op-gate-admit" "gate_admit" "op";
   L 3006 "op-gate-refuse" "gate_refuse" "op";
   L 3007 "op-legend-seal" "legend_seal" "op";
   L 3008 "op-session-summary" "session_summary" "op";
   L 4001 "intent-orient" "orient" "vocab";
   L 4002 "intent-synthesize" "synthesize" "vocab";
   L 4003 "intent-verify" "verify" "vocab";
   L 4004 "intent-claim" "claim" "vocab";
   L 4005 "intent-transform" "transform" "vocab";
   L 4006 "intent-conform" "conform" "vocab";
   L 4007 "intent-annotate" "annotate" "vocab";
   L 4008 "intent-observe" "observe" "vocab";
   L 4009 "intent-resolve" "resolve" "vocab";
   L 4010 "intent-propose" "propose" "vocab";
   L 4011 "intent-evaluate" "evaluate" "vocab";
   L 4012 "intent-classify" "classify" "vocab";
   L 4013 "intent-derive" "derive" "vocab";
   L 4014 "intent-compare" "compare" "vocab";
   L 4015 "intent-define" "define" "vocab";
   L 4016 "intent-infer" "infer" "vocab";
   L 4017 "intent-enumerate" "enumerate" "vocab";
   L 4018 "meta-effective-authority" "effective_authority" "vocab";
   L 4019 "meta-latent-authority" "latent_authority" "vocab";
   L 4020 "meta-enabler-orientation" "enabler_orientation" "vocab";
   L 4021 "meta-phi-scalar" "phi_scalar" "vocab";
   L 4022 "meta-authority-model" "authority_model" "vocab";
   L 4023 "meta-constitutive-gate" "constitutive_gate" "vocab";
   L 4024 "meta-ceremonial-gate" "ceremonial_gate" "vocab";
   L 4025 "meta-probe-result" "constitutive_probe_result" "vocab";
   L 4026 "meta-posture-claim" "posture_claim" "vocab";
   L 4027 "meta-governance-posture" "governance_posture" "vocab";
   L 4028 "meta-posture-vector" "posture_vector" "vocab";
   L 6001 "csil-layer" "CSIL" "meta";
   L 6002 "gti-resolver" "GTI" "meta";
   L 6003 "csil-coordinate" "csil_coordinate" "meta";
   L 6004 "coordinate-shadowing" "coordinate_shadowing" "meta";
   L 6005 "semantic-topology" "semantic_topology" "meta";
   L 6006 "leg-ex-marker" "LEG-EX" "meta";
   L 4101 "juris-session" "session" "vocab";
   L 4102 "juris-corpus" "corpus" "vocab";
   L 4103 "juris-operator" "operator" "vocab";
   L 4104 "juris-system" "system" "vocab";
   L 4105 "juris-kernel" "kernel" "vocab";
   L 4301 "conf-high" "high" "vocab";
   L 4302 "conf-medium" "medium" "vocab";
   L 4303 "conf-low" "low" "vocab";
   L 5001 "status-uninitialized" "UNINITIALIZED" "status";
   L 5002 "status-active" "ACTIVE" "status";
   L 9001 "result-admit" "ADMIT" "warrant_result";
   L 9002 "result-refuse" "REFUSE" "warrant_result";
   L 9101 "analysis-auth-sufficient" "authority_tier_sufficient" "warrant_result";
   L 9102 "analysis-juris-valid" "jurisdiction_valid" "warrant_result";
   L 9103 "analysis-inv-satisfied" "invariant_satisfied" "warrant_result"].

Definition LEGEND_ENTRY_COUNT : Z := Z.of_nat (length _LEGEND_ENTRIES).

Definition LEGEND_BY_ID (id : Z) : option legend_entry :=
  find (fun e => csil_id e =? id) _LEGEND_ENTRIES.

Definition LEGEND_BY_SLUG (s : string) : option legend_entry :=
  find (fun e => str_eqb (slug e) s) _LEGEND_ENTRIES.

Definition LEGEND_BY_RENDER (r : string) : list legend_entry :=
  List.filter (fun e => str_eqb (render e) r) _LEGEND_ENTRIES.

(** A dictionary comprehension [{e["render"]: e["csil_id"] ...}]. *)
Definition compress_map (keep : legend_entry -> bool) : list (string * Z) :=
  dict_of_list (map (fun e => (render e, csil_id e)) (List.filter keep _LEGEND_ENTRIES)).

Definition _OP_TO_CSIL := compress_map (fun e => str_eqb (tier e) "op").
Definition _INTENT_TO_CSIL :=
  compress_map (fun e => str_eqb (tier e) "vocab" && starts_with "intent-" (slug e)).
Definition _JURIS_TO_CSIL :=
  compress_map (fun e => str_eqb (tier e) "vocab" && starts_with "juris-" (slug e)).
Definition _CONF_TO_CSIL :=
  compress_map (fun e => str_eqb (tier e) "vocab" && starts_with "conf-" (slug e)).

Definition FIELD_COMPRESS_MAPS : list (string * list (string * Z)) :=
  [("op", _OP_TO_CSIL); ("intent", _INTENT_TO_CSIL);
   ("jurisdiction", _JURIS_TO_CSIL); ("confidence", _CONF_TO_CSIL)].

(** [sorted(_LEGEND_ENTRIES, key=csil_id)] *)
Fixpoint insert_entry (e : legend_entry) (l : list legend_entry) : list legend_entry :=
  match l with
  | [] => [e]
  | e' :: l' => if csil_id e <=? csil_id e' then e :: l else e' :: insert_entry e l'
  end.

Definition entry_val (e : legend_entry) : pyval :=
  PDict [("csil_id", PInt (csil_id e)); ("slug", PStr (slug e));
         ("render", PStr (render e)); ("tier", PStr (tier e))].

Definition _legend_canonical : result exn string :=
  json_dumps style_compact_ascii
    (PList (map entry_val (foldr insert_entry [] _LEGEND_ENTRIES))).

Definition LEGEND_HASH : result exn string :=
  let* b := _legend_canonical in Ok (sha256_hex b).

(** * The legend *)

Lemma legend_ids_unique : NoDup (map csil_id _LEGEND_ENTRIES).
Proof. apply (bool_decide_unpack _). vm_compute. exact I. Qed.

(** A [csil_id] found by its number is the entry of that number. *)
Lemma LEGEND_BY_ID_spec id e :
  LEGEND_BY_ID id = Some e -> e ∈ _LEGEND_ENTRIES /\ csil_id e = id.
Proof.
  unfold LEGEND_BY_ID. intros H. apply find_some in H as [Hin Heq].
  split; [by apply list_elem_of_In|by apply Z.eqb_eq].
Qed.

(** Every identifier a compression map can produce expands to its term. *)
Definition maps_expand : bool :=
  forallb (fun fm => forallb (fun ri =>
    match LEGEND_BY_ID (snd ri) with
    | Some e => str_eqb (render e) (fst ri)
    | None => false
    end) (snd fm)) FIELD_COMPRESS_MAPS.

Lemma maps_expand_true : maps_expand = true.
Proof. vm_compute. reflexivity. Qed.

Lemma dict_get_in {V} k (v : V) d : dict_get k d = Some v -> In (k, v) d.
Proof.
  induction d as [|[k' v'] d IH]; simpl; [done|]. case_goal.
  - apply str_eqb_spec in E as ->. intros [= ->]. by left.
  - intros H. right. auto.
Qed.

Lemma compress_expand field m v id :
  dict_get field FIELD_COMPRESS_MAPS = Some m -> dict_get v m = Some id ->
  exists e, LEGEND_BY_ID id = Some e /\ render e = v.
Proof.
  intros Hf Hv. pose proof maps_expand_true as H. unfold maps_expand in H.
  rewrite forallb_forall in H. specialize (H _ (dict_get_in _ _ _ Hf)).
  simpl in H. rewrite forallb_forall in H. specialize (H _ (dict_get_in _ _ _ Hv)). simpl in H.
  destruct (LEGEND_BY_ID id) as [e|]; [|done]. exists e. split; [done|].
  by apply str_eqb_spec.
Qed.

(** * Properties *)

(** The legend of the source has the hash the repository publishes for it
    (codex/CODEX.md, amendment_ledger.json): the serialiser, the sort and the digest
    of the model compute the program's own constant. *)
Theorem LEGEND_HASH_value :
  LEGEND_HASH = Ok "db3c177d45ebac6c5b6d775ba292ebe41edadd0dca32b939ddbfbdaa212488e7".
Proof. vm_compute. reflexivity. Qed.

(** A field of the envelope in ASCII: no byte of the separator. *)
Definition plain_field (s : string) : Prop := lacks "226" s.

(** The DM-S-03 envelope binds its fields when the three optional ones are
    present and no field holds the separator. *)
Theorem dm_s03_binds sh p i a j c s g t law leg ref sh' p' i' a' j' c' s' g' t' law' leg' ref' h :
  dm_s03 sh p i a j c s g t law leg ref DEFAULT_ALGORITHM_ID = Ok h ->
  dm_s03 sh' p' i' a' j' c' s' g' t' law' leg' ref' DEFAULT_ALGORITHM_ID = Ok h ->
  Forall (fun x => x <> "") [law; leg; ref; law'; leg'; ref'] ->
  Forall plain_field [sh; p; i; a; j; c; s; g; t; law; leg; ref] ->
  Forall plain_field [sh'; p'; i'; a'; j'; c'; s'; g'; t'; law'; leg'; ref'] ->
  no_collision [join SEP (dm_s03_fields sh p i a j c s g t law leg ref);
                join SEP (dm_s03_fields sh' p' i' a' j' c' s' g' t' law' leg' ref')] ->
  [sh; p; i; a; j; c; s; g; t; law; leg; ref] =
  [sh'; p'; i'; a'; j'; c'; s'; g'; t'; law'; leg'; ref'].
Proof.
  unfold dm_s03, _digest. change (str_eqb DEFAULT_ALGORITHM_ID "sha256") with true.
  cbn match. intros H1%Ok_inj H2%Ok_inj Hne Hp1 Hp2 Hnc.
  assert (Hopt : forall x, x <> "" -> opt_field x = [x]).
  { intros x Hx. unfold opt_field. destruct (str_eqb x "") eqn:E; [|done].
    by apply str_eqb_spec in E. }
  repeat rewrite Forall_cons in Hne. destruct Hne as (?&?&?&?&?&?&_).
  unfold dm_s03_fields in *. rewrite !Hopt in * by done.
  rewrite <- H1 in H2. unfold sha256_hex in H2. apply hex_inj in H2. apply Hnc in H2;
    [|by right; left|by left].
  symmetry in H2. by apply join_inj in H2.
Qed.

Lemma dm_s03_binds_witness :
  [ "a"; "b"; "c"; "d"; "e"; "f"; "g"; "h"; "i"; "j"; "k"; "l"] =
  [ "a"; "b"; "c"; "d"; "e"; "f"; "g"; "h"; "i"; "j"; "k"; "l"].
Proof.
  eapply (dm_s03_binds "a" "b" "c" "d" "e" "f" "g" "h" "i" "j" "k" "l"
                       "a" "b" "c" "d" "e" "f" "g" "h" "i" "j" "k" "l").
  - reflexivity.
  - reflexivity.
  - repeat constructor; discriminate.
  - repeat constructor; intros d [-> | []%elem_of_nil]%elem_of_cons; discriminate.
  - repeat constructor; intros d [-> | []%elem_of_nil]%elem_of_cons; discriminate.
  - apply no_collisionb_spec. vm_compute. reflexivity.
Defined.

(** Where the envelope is ambiguous.  The optional fields are positional:
    a law hash without a legend hash and the same text as a legend hash
    without a law hash give one envelope, for all other fields. *)
Theorem dm_s03_optional_ambiguous sh p i a j c s g t x alg :
  dm_s03 sh p i a j c s g t x "" "" alg = dm_s03 sh p i a j c s g t "" x "" alg /\
  dm_s03 sh p i a j c s g t "" x "" alg = dm_s03 sh p i a j c s g t "" "" x alg.
Proof. unfold dm_s03, dm_s03_fields. by destruct x. Qed.
