(* ===== verification/BindingM2.v ===== *)
(** [ugk/storage/binding_m2.py]: canonicalisation functions, per-commitment
    hashes, the receipt Merkle root with inclusion proofs, the commitment
    minimality gate and the freshness boundary check. *)
From S2P Require Import Prelude Json Sha256.

(** [unicodedata.normalize("NFC", s)]: the Unicode tables are data of the Python
    installation; the model takes the function as an argument.  Its documented
    laws: it is idempotent and fixes ASCII text. *)
Class Unicode := nfc : string -> string.

Definition is_ascii_char (c : ascii) : bool := (N_of_ascii c <? 128)%N.
Definition is_ascii_str (s : string) : bool := str_forallb is_ascii_char s.

Class UnicodeLaws (U : Unicode) : Prop := {
  nfc_idem : forall s, nfc (nfc s) = nfc s;
  nfc_ascii : forall s, is_ascii_str s = true -> nfc s = s;
}.

(** An instance for concrete evaluations on ASCII text. *)
Definition nfc_id : Unicode := fun s => s.
Lemma nfc_id_laws : UnicodeLaws nfc_id.
Proof. split; done. Qed.

(** ** Domain separators, identifiers, tags *)
Definition DS_S := "UGK-CIS-c_s-v1".
Definition DS_C := "UGK-CIS-c_c-v1".
Definition DS_M := "UGK-CIS-c_m-v1".
Definition DS_J := "UGK-CIS-c_j-v1".
Definition DS_R := "UGK-RECEIPT-ROOT-v1".
Definition DS_LEAF := "UGK-MERKLE-LEAF-v1".
Definition DS_NODE := "UGK-MERKLE-NODE-v1".
Definition DS_SINGLELEAF := "UGK-MERKLE-SINGLE-v1".

Definition ID_C_S := "c_s.v1".
Definition ID_C_C := "c_c.v1".
Definition ID_C_M := "c_m.v1+sigma_0".
Definition ID_C_J := "c_j.v1".
Definition ID_ROOT := "root.v1".

Definition TAG_H_S := 1.
Definition TAG_H_C := 2.
Definition TAG_H_M := 3.
Definition TAG_H_J := 4.
Definition TAG_ID_P := 5.
Definition TAG_ID_SIGMA := 6.
Definition TAG_ID_PHI := 7.

Definition LEAF_NAME_BY_TAG : list (Z * string) :=
  [(TAG_H_S, "H_s"); (TAG_H_C, "H_c"); (TAG_H_M, "H_m"); (TAG_H_J, "H_j");
   (TAG_ID_P, "id_P"); (TAG_ID_SIGMA, "id_Sigma"); (TAG_ID_PHI, "id_Phi")].

(** [_sha256] of several parts. *)
Definition _sha256 (parts : list string) : string := sha256 (concat_str parts).

Section binding_m2.
Context {U : Unicode}.

Fixpoint normalize (v : pyval) : pyval :=
  match v with
  | PStr s => PStr (nfc s)
  | PDict d => PDict (dict_of_list (map (fun kv => (nfc (fst kv), normalize (snd kv))) d))
  | PList l | PTuple l => PList (map normalize l)
  | _ => v
  end.

Definition _canonical_json (obj : pyval) : result exn string :=
  json_dumps style_compact_utf8 (normalize obj).

(** [try: ... except (ValueError, TypeError) as e: raise NonCanonical(...)] *)
Definition wrap_noncanonical (fn : string) (m : result exn string) : result exn string :=
  match m with
  | Err (Exn ValueError _) | Err (Exn TypeError _) =>
      Err (Exn NonCanonical (fn +:+ " canonicalization failed"))
  | _ => m
  end.

Definition is_pystr (v : pyval) : bool := match v with PStr _ => true | _ => false end.
Definition is_pydict (v : pyval) : bool := match v with PDict _ => true | _ => false end.
Definition is_pylist (v : pyval) : bool := match v with PList _ => true | _ => false end.

Definition c_s (op_name inputs : pyval) : result exn string :=
  guard* is_pystr op_name else Exn NonCanonical "op_name must be str" in
  guard* is_pydict inputs else Exn NonCanonical "inputs must be dict" in
  wrap_noncanonical "c_s" (_canonical_json (PDict [("op", op_name); ("inputs", inputs)])).

(** The root over the authority chain is computed outside the [try]. *)
Definition c_c (authority_chain policy_id capabilities warrant_basis parent_H_r
    freshness : pyval) : result exn string :=
  guard* is_pylist authority_chain else Exn NonCanonical "authority_chain must be list" in
  let* chain := _canonical_json authority_chain in
  let G_c_root := hex (_sha256 [chain]) in
  wrap_noncanonical "c_c" (_canonical_json (PDict
    [("G_c_root", PStr G_c_root); ("policy_id", policy_id);
     ("capabilities", capabilities); ("warrant_basis", warrant_basis);
     ("parent", parent_H_r); ("freshness", freshness)])).

Definition c_m (intent intent_ref legend_hash semantic_lineage : pyval) : result exn string :=
  wrap_noncanonical "c_m" (_canonical_json (PDict
    [("intent", intent); ("intent_ref", intent_ref); ("legend_hash", legend_hash);
     ("semantic_lineage", semantic_lineage)])).

Definition c_j (phase_code mosaic_root session_id authority_key : pyval) :
    result exn string :=
  wrap_noncanonical "c_j" (
    let* phi := _canonical_json (PDict
      [("phase_code", phase_code); ("mosaic_root", mosaic_root);
       ("session_id", session_id)]) in
    let id_phi := hex (_sha256 ["UGK-PHI-v1"; phi]) in
    _canonical_json (PDict [("phi", PStr id_phi); ("authority_key", authority_key)])).

(** ** Per-commitment hashes *)
Definition H_s (op_name inputs : pyval) : result exn string :=
  let* c := c_s op_name inputs in Ok (_sha256 [DS_S; ID_C_S; c]).

Definition H_c (authority_chain policy_id capabilities warrant_basis parent_H_r
    freshness : pyval) : result exn string :=
  let* c := c_c authority_chain policy_id capabilities warrant_basis parent_H_r freshness in
  Ok (_sha256 [DS_C; ID_C_C; c]).

Definition H_m (intent intent_ref legend_hash semantic_lineage : pyval)
    (semantic_regime_id : string) : result exn string :=
  let* c := c_m intent intent_ref legend_hash semantic_lineage in
  Ok (_sha256 [DS_M; ID_C_M; c; semantic_regime_id]).

Definition H_j (phase_code mosaic_root session_id authority_key : pyval) :
    result exn string :=
  let* c := c_j phase_code mosaic_root session_id authority_key in
  Ok (_sha256 [DS_J; ID_C_J; c]).

Definition H_id_P (policy_id : string) : string := _sha256 ["UGK-id_P-v1"; policy_id].
Definition H_id_Sigma (semantic_regime_id : string) : string :=
  _sha256 ["UGK-id_Sigma-v1"; semantic_regime_id].
Definition H_id_Phi (phase_code : string) : string :=
  _sha256 ["UGK-id_Phi-v1"; phase_code].
End binding_m2.

(** ** Merkle tree *)

Definition byte_of_Z (z : Z) : ascii := ascii_of_N (Z.to_N z).

Definition _length_prefix_be (n : Z) : result exn string :=
  if (n <? 0) || (0xFFFFFFFF <? n) then Err (Exn ValueError "length out of range")
  else Ok (String (byte_of_Z (n / 16777216)) (String (byte_of_Z (n / 65536 mod 256))
         (String (byte_of_Z (n / 256 mod 256)) (String (byte_of_Z (n mod 256)) "")))).

Definition _leaf_encoding (type_tag : Z) (h_i : string) : result exn string :=
  if negb ((1 <=? type_tag) && (type_tag <=? 255)) then
    Err (Exn ValueError "type_tag out of range")
  else if negb (slen h_i =? 32) then Err (Exn ValueError "H_i must be 32 bytes")
  else
    let* p := _length_prefix_be (slen h_i) in
    Ok (DS_LEAF +:+ String (byte_of_Z type_tag) "" +:+ p +:+ h_i).

Definition node_hash (left right : string) : string := _sha256 [DS_NODE; left; right].

(** One level: adjacent pairs, the last node paired with itself when odd. *)
Fixpoint merkle_pairs (nodes : list string) : list string :=
  match nodes with
  | [] => []
  | [a] => [node_hash a a]
  | a :: b :: rest => node_hash a b :: merkle_pairs rest
  end.

(** The recursion of [_merkle_level]; [None] is the endless recursion on an
    empty level, which [merkle_root_v1] excludes. *)
Fixpoint merkle_level_fuel (n : nat) (nodes : list string) : option string :=
  match nodes with
  | [x] => Some x
  | _ => match n with O => None | S n => merkle_level_fuel n (merkle_pairs nodes) end
  end.

Definition _merkle_level (nodes : list string) : option string :=
  merkle_level_fuel (length nodes) nodes.

Definition merkle_root_v1 (leaves : list string) : result exn string :=
  match leaves with
  | [] => Err (Exn ValueError "empty leaf set")
  | [leaf] => Ok (_sha256 [DS_SINGLELEAF; leaf])
  | _ => match _merkle_level leaves with
         | Some r => Ok r
         | None => Err (Exn OtherError "RecursionError")
         end
  end.

(** [sorted(leaves, key=lambda x: x[0])] *)
Fixpoint insert_leaf (x : Z * string) (l : list (Z * string)) : list (Z * string) :=
  match l with
  | [] => [x]
  | y :: l' => if fst x <=? fst y then x :: l else y :: insert_leaf x l'
  end.
Fixpoint sort_leaves (l : list (Z * string)) : list (Z * string) :=
  match l with [] => [] | x :: l' => insert_leaf x (sort_leaves l') end.

Definition encode_leaves (l : list (Z * string)) : result exn (list string) :=
  sequence (map (fun th => _leaf_encoding (fst th) (snd th)) l).

Definition required_leaves : list Z := [TAG_H_S; TAG_H_C; TAG_H_M].
Definition mem_Z (z : Z) (l : list Z) : bool := existsb (Z.eqb z) l.
Fixpoint nodup_Z (l : list Z) : bool :=
  match l with [] => true | z :: l' => negb (mem_Z z l') && nodup_Z l' end.

Definition root_of (root : string) : string := _sha256 [DS_R; ID_ROOT; root].

Definition compute_H_r (leaves : list (Z * string)) : result exn string :=
  let sorted_leaves := sort_leaves leaves in
  let tags := map fst sorted_leaves in
  guard* forallb (fun t => mem_Z t tags) required_leaves
    else Exn ValueError "compute_H_r missing required leaves" in
  guard* nodup_Z tags else Exn ValueError "compute_H_r: duplicate type_tag in leaves" in
  let* encoded := encode_leaves sorted_leaves in
  let* root := merkle_root_v1 encoded in
  Ok (root_of root).

(** ** Inclusion proofs *)

Inductive side := SideL | SideR.

Fixpoint find_tag (t : Z) (l : list (Z * string)) : option nat :=
  match l with
  | [] => None
  | (t', _) :: l' => if t =? t' then Some O else option_map S (find_tag t l')
  end.

Definition sibling_idx (idx len : nat) : nat :=
  let s := if Nat.even idx then S idx else pred idx in
  if (len <=? s)%nat then idx else s.

(** The [while len(nodes) > 1] loop. *)
Fixpoint proof_path (n : nat) (nodes : list string) (idx : nat) :
    option (list (string * side)) :=
  match nodes with
  | [] | [_] => Some []
  | _ =>
      match n with
      | O => None
      | S n =>
          let sibling := nth (sibling_idx idx (length nodes)) nodes "" in
          let sd := if Nat.even idx then SideR else SideL in
          match proof_path n (merkle_pairs nodes) (Nat.div2 idx) with
          | Some p => Some ((sibling, sd) :: p)
          | None => None
          end
      end
  end.

Definition build_inclusion_proof (leaves : list (Z * string)) (target_tag : Z) :
    result exn (string * list (string * side)) :=
  let sorted_leaves := sort_leaves leaves in
  let* encoded := encode_leaves sorted_leaves in
  match find_tag target_tag sorted_leaves with
  | None => Err (Exn ValueError "target_tag not present in leaves")
  | Some i =>
      match proof_path (length encoded) encoded i with
      | Some p => Ok (nth i encoded "", p)
      | None => Err (Exn OtherError "unreachable")
      end
  end.

Definition fold_step (current : string) (p : string * side) : string :=
  match snd p with
  | SideL => node_hash (fst p) current
  | SideR => node_hash current (fst p)
  end.

Definition verify_inclusion_proof (H_r target_leaf_encoded : string)
    (path : list (string * side)) : bool :=
  match path with
  | [] => str_eqb (root_of (_sha256 [DS_SINGLELEAF; target_leaf_encoded])) H_r
  | _ => str_eqb (root_of (foldl fold_step target_leaf_encoded path)) H_r
  end.

(** ** Freshness boundary *)

Definition dict_int (k : string) (d : list (string * pyval)) : result exn Z :=
  match dict_get k d with
  | Some (PInt z) => Ok z
  | Some (PBool b) => Ok (Z.b2z b)
  | Some _ => Err (Exn TypeError "int expected")
  | None => Err (Exn KeyError k)
  end.

(** [v == s] for a string [s]. *)
Definition is_str (v : pyval) (s : string) : bool :=
  match v with PStr s' => str_eqb s' s | _ => false end.

(** Epoch bounds are integers ([FreshnessClaim]); a [bool] compares as one. *)
Definition freshness_check (claim : list (string * pyval)) (current_epoch : Z)
    (current_phase_code : string) : result exn (bool * option string) :=
  match dict_get "phase_code" claim with
  | None => Err (Exn KeyError "phase_code")
  | Some pc =>
  if negb (is_str pc current_phase_code) then Ok (false, Some "PhaseMismatch") else
  let* vf := dict_int "valid_from" claim in
  if current_epoch <? vf then Ok (false, Some "NotYetAdmissible") else
  let* vu := dict_int "valid_until" claim in
  if vu <? current_epoch then Ok (false, Some "ExpiredEdge") else
  Ok (true, None)
  end.

(** * Lengths and encodings *)

Lemma node_hash_length a b : String.length (node_hash a b) = 32%nat.
Proof. apply sha256_length. Qed.

Lemma leaf_encoding_ok t h e : _leaf_encoding t h = Ok e ->
  1 <= t <= 255 /\ String.length h = 32%nat /\
  e = (DS_LEAF +:+ String (byte_of_Z t) "" +:+ "" +:+
       String "000" (String "000" (String "000" (String " " ""))) +:+ h).
Proof.
  unfold _leaf_encoding. intros H. inv_ok.
  apply negb_false_iff, andb_true_iff in Hb as [Hb1 Hb2].
  apply negb_false_iff, Z.eqb_eq in Hb0. rewrite Hb0 in Ha. vm_compute in Ha.
  injection Ha as <-. unfold slen in Hb0. subst e. split; [lia|split; [lia|done]].
Qed.

Lemma leaf_encoding_length t h e : _leaf_encoding t h = Ok e -> String.length e = 55%nat.
Proof.
  intros (_ & Hl & ->)%leaf_encoding_ok.
  rewrite !string_app_length, Hl. reflexivity.
Qed.

Lemma byte_of_Z_inj a b : 0 <= a <= 255 -> 0 <= b <= 255 ->
  byte_of_Z a = byte_of_Z b -> a = b.
Proof.
  unfold byte_of_Z. intros Ha Hb H. apply (f_equal N_of_ascii) in H.
  rewrite !N_ascii_embedding in H by lia. lia.
Qed.

Lemma leaf_encoding_inj t h t' h' e :
  _leaf_encoding t h = Ok e -> _leaf_encoding t' h' = Ok e -> t = t' /\ h = h'.
Proof.
  intros (Ht & Hl & ->)%leaf_encoding_ok (Ht' & Hl' & H)%leaf_encoding_ok.
  apply string_app_inv_l in H. simpl in H. injection H as Hb Hh.
  split; [|done]. apply byte_of_Z_inj; [lia|lia|done].
Qed.

Definition node_preimage (a b : string) : string := concat_str [DS_NODE; a; b].

Lemma node_preimage_app a b c d :
  node_preimage a b = node_preimage c d -> (a +:+ b = c +:+ d)%string.
Proof.
  unfold node_preimage. cbn [concat_str]. intros H.
  apply string_app_inv_l in H. by rewrite !string_app_nil_r in H.
Qed.

Lemma node_preimage_inj a b c d :
  String.length a = String.length b -> String.length c = String.length d ->
  node_preimage a b = node_preimage c d -> a = c /\ b = d /\ String.length a = String.length c.
Proof.
  intros Hab Hcd H%node_preimage_app.
  assert (String.length a = String.length c) as Hl.
  { apply (f_equal String.length) in H. rewrite !string_app_length in H. lia. }
  by apply string_app_inj in H as [-> ->].
Qed.

(** The byte strings hashed at one level, and at all levels, of a tree. *)
Fixpoint pair_preimages (nodes : list string) : list string :=
  match nodes with
  | [] => []
  | [a] => [node_preimage a a]
  | a :: b :: rest => node_preimage a b :: pair_preimages rest
  end.

Fixpoint level_preimages (n : nat) (nodes : list string) : list string :=
  match nodes with
  | [] | [_] => []
  | _ => match n with
         | O => []
         | S n => pair_preimages nodes ++ level_preimages n (merkle_pairs nodes)
         end
  end.

(** Induction on a list by two elements at a time. *)
Lemma list_pair_ind {A} (P : list A -> Prop) :
  P [] -> (forall a, P [a]) -> (forall a b l, P l -> P (a :: b :: l)) -> forall l, P l.
Proof.
  intros H0 H1 H2 l. enough (P l /\ forall a, P (a :: l)) by tauto.
  induction l as [|b l [IH1 IH2]]; split; auto.
Qed.

Lemma merkle_pairs_map nodes : merkle_pairs nodes = map sha256 (pair_preimages nodes).
Proof.
  induction nodes as [|a|a b l IH] using list_pair_ind; simpl; [done|done|].
  by rewrite IH.
Qed.

Lemma merkle_pairs_length nodes :
  length (merkle_pairs nodes) = Nat.div2 (S (length nodes)).
Proof.
  induction nodes as [|a|a b l IH] using list_pair_ind; [done|done|].
  cbn [merkle_pairs length]. rewrite IH. done.
Qed.

Lemma merkle_pairs_shrink a b l :
  (length (merkle_pairs (a :: b :: l)) <= S (length l))%nat.
Proof.
  rewrite merkle_pairs_length. pose proof (Nat.le_div2 (length l)).
  change (Nat.div2 (S (length (a :: b :: l)))) with (S (Nat.div2 (S (length l)))). lia.
Qed.

Lemma merkle_pairs_nil nodes : merkle_pairs nodes = [] -> nodes = [].
Proof. destruct nodes as [|a [|b l]]; done. Qed.

(** The recursion ends: a nonempty level of [n] nodes needs fewer than [n] steps. *)
Lemma merkle_level_total n nodes :
  nodes <> [] -> (length nodes <= S n)%nat -> exists r, merkle_level_fuel n nodes = Some r.
Proof.
  revert nodes. induction n as [|n IH]; intros [|a [|b l]] Hne Hl; simpl in Hl; try done;
    try (by eexists); [lia|].
  cbn [merkle_level_fuel]. apply IH.
  - intros H. by apply merkle_pairs_nil in H.
  - pose proof (merkle_pairs_shrink a b l). lia.
Qed.

Lemma pair_preimages_members nodes x :
  x ∈ nodes -> exists a b, node_preimage a b ∈ pair_preimages nodes /\
    (x = a \/ x = b) /\ a ∈ nodes /\ b ∈ nodes.
Proof.
  induction nodes as [|a|a b l IH] using list_pair_ind; intros Hx.
  - by apply elem_of_nil in Hx.
  - apply list_elem_of_singleton in Hx as ->. exists a, a. simpl. split; [by left|].
    split; [by left|]. split; by left.
  - rewrite !elem_of_cons in Hx. destruct Hx as [->|[->|Hx]].
    + exists a, b. split; [by left|]. split; [by left|]. split; [by left|by right; left].
    + exists a, b. split; [by left|]. split; [by right|]. split; [by left|by right; left].
    + destruct (IH Hx) as (c & d & Hin & Hor & Hc & Hd). exists c, d.
      split; [by right|]. split; [done|]. split; by do 2 right.
Qed.

Lemma pair_preimages_inv nodes p :
  p ∈ pair_preimages nodes -> exists a b, p = node_preimage a b /\ a ∈ nodes /\ b ∈ nodes.
Proof.
  induction nodes as [|a|a b l IH] using list_pair_ind; intros Hp.
  - by apply elem_of_nil in Hp.
  - apply list_elem_of_singleton in Hp as ->. exists a, a. split; [done|]. split; by left.
  - apply elem_of_cons in Hp as [->|Hp].
    + exists a, b. split; [done|]. split; [by left|by right; left].
    + destruct (IH Hp) as (c & d & -> & Hc & Hd). exists c, d.
      split; [done|]. split; by do 2 right.
Qed.

Definition all_len (n : nat) (l : list string) : Prop :=
  Forall (fun s => String.length s = n) l.

Lemma merkle_pairs_len nodes : all_len 32 (merkle_pairs nodes).
Proof.
  rewrite merkle_pairs_map. apply Forall_map, Forall_forall. intros x _. apply sha256_length.
Qed.

(** [k] levels of pairing. *)
Fixpoint iter_pairs (k : nat) (nodes : list string) : list string :=
  match k with O => nodes | S k => iter_pairs k (merkle_pairs nodes) end.
Fixpoint iter_preimages (k : nat) (nodes : list string) : list string :=
  match k with O => [] | S k => pair_preimages nodes ++ iter_preimages k (merkle_pairs nodes) end.

Lemma merkle_level_iter n nodes r : merkle_level_fuel n nodes = Some r ->
  exists k, iter_pairs k nodes = [r] /\ iter_preimages k nodes = level_preimages n nodes.
Proof.
  revert nodes. induction n as [|n IH]; intros [|a [|b l]] H; simpl in H; try done;
    try (by injection H as <-; exists 0%nat).
  all: apply IH in H as (k & H1 & H2); exists (S k); split; [exact H1|].
  - simpl. rewrite H2. by destruct n.
  - simpl in H2 |- *. by rewrite H2.
Qed.

Lemma iter_pairs_add j k nodes : iter_pairs (j + k) nodes = iter_pairs k (iter_pairs j nodes).
Proof. revert nodes. induction j as [|j IH]; intros nodes; simpl; [done|apply IH]. Qed.
Lemma iter_preimages_add j k nodes :
  iter_preimages (j + k) nodes = iter_preimages j nodes ++ iter_preimages k (iter_pairs j nodes).
Proof.
  revert nodes. induction j as [|j IH]; intros nodes; simpl; [done|].
  by rewrite IH, app_assoc.
Qed.

(** Two trees of the same depth and root have the same leaves. *)
Lemma iter_pairs_incl k l1 l2 r m1 m2 :
  iter_pairs k l1 = [r] -> iter_pairs k l2 = [r] ->
  all_len m1 l1 -> all_len m2 l2 ->
  no_collision (iter_preimages k l1 ++ iter_preimages k l2) ->
  m1 = m2 /\ forall x, x ∈ l1 -> x ∈ l2.
Proof.
  revert l1 l2 m1 m2. induction k as [|k IH]; intros l1 l2 m1 m2 H1 H2 Hm1 Hm2 Hnc.
  { simpl in H1, H2. subst. apply Forall_cons in Hm1 as [<- _].
    apply Forall_cons in Hm2 as [<- _]. done. }
  simpl in H1, H2, Hnc.
  destruct (IH _ _ 32%nat 32%nat H1 H2 (merkle_pairs_len l1) (merkle_pairs_len l2)) as [_ Hincl].
  { eapply no_collision_mono; [|exact Hnc]. intros x Hx. rewrite !elem_of_app in *. tauto. }
  assert (Hstep : forall x, x ∈ l1 -> x ∈ l2 /\ m1 = m2).
  { intros x Hx. destruct (pair_preimages_members l1 x Hx) as (a & b & Hin & Hor & Ha & Hb).
    assert (sha256 (node_preimage a b) ∈ merkle_pairs l2) as Hy.
    { apply Hincl. rewrite merkle_pairs_map. by apply list_elem_of_fmap_2. }
    rewrite merkle_pairs_map in Hy. apply list_elem_of_fmap in Hy as (p & Heq & Hp).
    destruct (pair_preimages_inv l2 p Hp) as (c & d & -> & Hc & Hd).
    pose proof (proj1 (Forall_forall _ _) Hm1) as Hl1.
    pose proof (proj1 (Forall_forall _ _) Hm2) as Hl2. simpl in Hl1, Hl2.
    assert (node_preimage a b = node_preimage c d) as Hpre.
    { apply Hnc; [..|exact Heq]; rewrite !elem_of_app; tauto. }
    apply node_preimage_inj in Hpre as (-> & -> & _);
      [|by rewrite (Hl1 a), (Hl1 b)|by rewrite (Hl2 c), (Hl2 d)].
    rewrite <- (Hl1 c Ha). split; [by destruct Hor as [->| ->]|]. by apply Hl2. }
  destruct l1 as [|x l1].
  { exfalso. clear -H1. induction k; [done|]. simpl in H1. auto. }
  split; [apply (Hstep x); left|]. intros y Hy. by apply Hstep.
Qed.

Lemma iter_pairs_len j nodes : (0 < j)%nat -> all_len 32 (iter_pairs j nodes).
Proof.
  revert nodes. induction j as [|j IH]; intros nodes Hj; [lia|]. simpl.
  destruct j; [apply merkle_pairs_len|]. apply IH. lia.
Qed.

(** Trees over encoded leaves with one root have one depth and the same leaves. *)
Lemma iter_pairs_leaves k1 k2 l1 l2 r : (k1 <= k2)%nat ->
  iter_pairs k1 l1 = [r] -> iter_pairs k2 l2 = [r] ->
  all_len 55 l1 -> all_len 55 l2 ->
  no_collision (iter_preimages k1 l1 ++ iter_preimages k2 l2) ->
  forall x, x ∈ l1 <-> x ∈ l2.
Proof.
  intros Hk H1 H2 Hl1 Hl2 Hnc.
  destruct (decide (k1 = k2)) as [<-|Hne].
  - intros x. split.
    + by apply (iter_pairs_incl k1 l1 l2 r 55 55).
    + apply (iter_pairs_incl k1 l2 l1 r 55 55); try done.
      eapply no_collision_mono; [|exact Hnc]. intros y. rewrite !elem_of_app. tauto.
  - replace k2 with ((k2 - k1) + k1)%nat in H2, Hnc by lia.
    rewrite iter_pairs_add in H2. rewrite iter_preimages_add in Hnc.
    destruct (iter_pairs_incl k1 l1 (iter_pairs (k2 - k1) l2) r 55 32) as [? _]; try done.
    + apply iter_pairs_len. lia.
    + eapply no_collision_mono; [|exact Hnc]. intros y. rewrite !elem_of_app. tauto.
Qed.

(** * Sorting leaves by tag *)

Definition tag_le (x y : Z * string) : Prop := fst x <= fst y.

Lemma insert_leaf_perm x l : Permutation (insert_leaf x l) (x :: l).
Proof.
  induction l as [|y l IH]; simpl; [done|]. case_goal; [done|].
  by rewrite IH, Permutation_swap.
Qed.

Lemma sort_leaves_perm l : Permutation (sort_leaves l) l.
Proof. induction l as [|x l IH]; simpl; [done|]. by rewrite insert_leaf_perm, IH. Qed.

Lemma insert_leaf_sorted x l : Sorted tag_le l -> Sorted tag_le (insert_leaf x l).
Proof.
  induction 1 as [|y l Hs IH Hd]; simpl; [auto|].
  destruct (Z.leb_spec (fst x) (fst y)); [by repeat constructor|].
  constructor; [done|].
  destruct Hd as [|z l Hyz]; simpl; [constructor; unfold tag_le; lia|].
  case_goal; constructor; unfold tag_le in *; lia.
Qed.

Lemma sort_leaves_sorted l : Sorted tag_le (sort_leaves l).
Proof. induction l; simpl; [constructor | by apply insert_leaf_sorted]. Qed.

Lemma nodup_Z_spec l : nodup_Z l = true -> NoDup l.
Proof.
  induction l as [|z l IH]; simpl; [constructor|]. rewrite andb_true_iff, negb_true_iff.
  intros [Hz Hl]. constructor; [|auto]. intros Hin. unfold mem_Z in Hz.
  rewrite (proj2 (existsb_exists _ _)) in Hz; [done|].
  exists z. split; [by apply list_elem_of_In|apply Z.eqb_refl].
Qed.

Lemma sorted_leaves_unique l k :
  Sorted tag_le l -> Sorted tag_le k -> NoDup (map fst l) -> NoDup (map fst k) ->
  (forall x, x ∈ l <-> x ∈ k) -> l = k.
Proof.
  intros Hl Hk Hnl Hnk Hin.
  apply Sorted_StronglySorted in Hl; [|intros ???; unfold tag_le; lia].
  apply Sorted_StronglySorted in Hk; [|intros ???; unfold tag_le; lia].
  revert k Hk Hnk Hin. induction Hl as [|x l Hl IH Hx]; intros k Hk Hnk Hin.
  - destruct k as [|y k]; [done|]. exfalso. apply (not_elem_of_nil y), Hin. left.
  - destruct Hk as [|y k Hk Hy].
    { exfalso. apply (not_elem_of_nil x), Hin. left. }
    simpl in Hnl, Hnk. apply NoDup_cons in Hnl as [Hxl Hnl]. apply NoDup_cons in Hnk as [Hyk Hnk].
    rewrite Forall_forall in Hx, Hy.
    assert (x = y) as <-.
    { destruct (proj1 (elem_of_cons _ _ _) (proj1 (Hin x) ltac:(left))) as [|Hxk]; [done|].
      destruct (proj1 (elem_of_cons _ _ _) (proj2 (Hin y) ltac:(left))) as [|Hyl]; [done|].
      specialize (Hx _ Hyl). specialize (Hy _ Hxk). unfold tag_le in *.
      exfalso. apply Hxl. replace (fst x) with (fst y) by lia.
      by apply list_elem_of_fmap_2. }
    f_equal. apply IH; [done..|]. intros z.
    specialize (Hin z). rewrite !elem_of_cons in Hin. split; intros Hz.
    + destruct (proj1 Hin ltac:(by right)) as [->|]; [|done].
      exfalso. apply Hxl. by apply list_elem_of_fmap_2.
    + destruct (proj2 Hin ltac:(by right)) as [->|]; [|done].
      exfalso. apply Hyk. by apply list_elem_of_fmap_2.
Qed.

Lemma sequence_forall2 {E A B} (f : A -> result E B) l ts :
  sequence (map f l) = Ok ts <-> Forall2 (fun x t => f x = Ok t) l ts.
Proof.
  split.
  - revert ts. induction l as [|x l IH]; intros ts H; simpl in H; inv_ok; subst; [done|].
    constructor; auto.
  - induction 1 as [|x t l ts Hx _ IH]; simpl; [done|]. by rewrite Hx, IH.
Qed.

Lemma encode_leaves_len l enc : encode_leaves l = Ok enc -> all_len 55 enc.
Proof.
  intros H. apply sequence_forall2 in H.
  induction H as [|[t h] e l enc He _ IH]; constructor; [|done].
  by apply (leaf_encoding_length t h).
Qed.

Lemma encode_leaves_members l1 l2 enc1 enc2 :
  encode_leaves l1 = Ok enc1 -> encode_leaves l2 = Ok enc2 ->
  (forall x, x ∈ enc1 -> x ∈ enc2) -> forall x, x ∈ l1 -> x ∈ l2.
Proof.
  intros H1 H2 Hin [t h] Hx. apply sequence_forall2 in H1, H2.
  apply list_elem_of_lookup in Hx as [i Hi].
  destruct (Forall2_lookup_l _ _ _ _ _ H1 Hi) as (e & He & Henc). simpl in Henc.
  apply list_elem_of_lookup_2, Hin, list_elem_of_lookup in He as [j Hj].
  destruct (Forall2_lookup_r _ _ _ _ _ H2 Hj) as ([t' h'] & Hl & Henc'). simpl in Henc'.
  destruct (leaf_encoding_inj _ _ _ _ _ Henc Henc') as [<- <-].
  by apply list_elem_of_lookup_2 in Hl.
Qed.

(** The byte strings [compute_H_r] hashes. *)
Definition H_r_preimages (leaves : list (Z * string)) : list string :=
  match encode_leaves (sort_leaves leaves) with
  | Ok enc =>
      match _merkle_level enc with
      | Some root => concat_str [DS_R; ID_ROOT; root] :: level_preimages (length enc) enc
      | None => []
      end
  | Err _ => []
  end.

(** What a successful [compute_H_r] went through. *)
Lemma compute_H_r_ok leaves r : compute_H_r leaves = Ok r ->
  exists enc root,
    encode_leaves (sort_leaves leaves) = Ok enc /\ NoDup (map fst (sort_leaves leaves)) /\
    (3 <= length enc)%nat /\ _merkle_level enc = Some root /\ r = root_of root.
Proof.
  unfold compute_H_r. intros H. inv_ok. subst.
  apply nodup_Z_spec in Hb0. exists a.
  assert (3 <= length (sort_leaves leaves))%nat as Hlen.
  { rewrite forallb_forall in Hb.
    assert (forall t, In t required_leaves -> In t (map fst (sort_leaves leaves))) as Hin.
    { intros t Ht. specialize (Hb t Ht). unfold mem_Z in Hb.
      apply existsb_exists in Hb as (u & Hu & ->%Z.eqb_eq). done. }
    rewrite <- (length_map fst (sort_leaves leaves)).
    change 3%nat with (length required_leaves).
    apply List.NoDup_incl_length; [|exact Hin].
    repeat constructor; simpl; unfold TAG_H_S, TAG_H_C, TAG_H_M; lia. }
  assert (length (sort_leaves leaves) = length a) as Hl.
  { unfold encode_leaves in Ha. by apply sequence_forall2, Forall2_length in Ha. }
  rewrite Hl in Hlen. destruct a as [|e1 [|e2 l]]; simpl in Hlen; try lia.
  unfold merkle_root_v1 in Ha0.
  destruct (_merkle_level (e1 :: e2 :: l)) as [root|] eqn:Er; [|done].
  inv_ok. subst. by exists a0.
Qed.

Lemma compute_H_r_leaves leaves1 leaves2 r :
  compute_H_r leaves1 = Ok r -> compute_H_r leaves2 = Ok r ->
  no_collision (H_r_preimages leaves1 ++ H_r_preimages leaves2) ->
  sort_leaves leaves1 = sort_leaves leaves2.
Proof.
  intros H1 H2 Hnc.
  apply compute_H_r_ok in H1 as (enc1 & root1 & He1 & Hn1 & _ & Hr1 & ->).
  apply compute_H_r_ok in H2 as (enc2 & root2 & He2 & Hn2 & _ & Hr2 & Hr).
  unfold H_r_preimages in Hnc. rewrite He1, Hr1, He2, Hr2 in Hnc.
  unfold root_of, _sha256 in Hr. apply Hnc in Hr;
    [|by left|apply elem_of_app; right; by left].
  cbn [concat_str] in Hr. do 2 apply string_app_inv_l in Hr.
  rewrite !string_app_nil_r in Hr. subst root2.
  destruct (merkle_level_iter _ _ _ Hr1) as (k1 & Hk1 & Hp1).
  destruct (merkle_level_iter _ _ _ Hr2) as (k2 & Hk2 & Hp2).
  pose proof (encode_leaves_len _ _ He1) as Hl1.
  pose proof (encode_leaves_len _ _ He2) as Hl2.
  rewrite <- Hp1, <- Hp2 in Hnc.
  assert (forall x, x ∈ enc1 <-> x ∈ enc2) as Hin.
  { destruct (Nat.le_ge_cases k1 k2) as [Hk|Hk].
    - apply (iter_pairs_leaves k1 k2 enc1 enc2 root1); try done.
      eapply no_collision_mono; [|exact Hnc]. intros y. rewrite !elem_of_app, !elem_of_cons. tauto.
    - intros x. symmetry. apply (iter_pairs_leaves k2 k1 enc2 enc1 root1); try done.
      eapply no_collision_mono; [|exact Hnc]. intros y. rewrite !elem_of_app, !elem_of_cons. tauto. }
  apply sorted_leaves_unique; [apply sort_leaves_sorted|apply sort_leaves_sorted|done|done|].
  intros x. split.
  - apply (encode_leaves_members _ _ enc1 enc2); [done|done|]. intros y. apply Hin.
  - apply (encode_leaves_members _ _ enc2 enc1); [done|done|]. intros y. apply Hin.
Qed.

(** * Inclusion proofs *)

Lemma nth_merkle_pairs nodes idx : (idx < length nodes)%nat ->
  nth (Nat.div2 idx) (merkle_pairs nodes) "" =
  fold_step (nth idx nodes "")
    (nth (sibling_idx idx (length nodes)) nodes "",
     if Nat.even idx then SideR else SideL).
Proof.
  revert idx. induction nodes as [|a|a b l IH] using list_pair_ind; intros idx Hi.
  - simpl in Hi. lia.
  - simpl in Hi. destruct idx; [done|lia].
  - destruct idx as [|[|idx]]; [done|done|]. cbn [length] in Hi.
    specialize (IH idx ltac:(lia)).
    change (Nat.div2 (S (S idx))) with (S (Nat.div2 idx)).
    cbn [merkle_pairs nth]. rewrite IH.
    change (Nat.even (S (S idx))) with (Nat.even idx).
    assert (sibling_idx (S (S idx)) (length (a :: b :: l)) = S (S (sibling_idx idx (length l)))) as ->.
    { unfold sibling_idx. cbn [length]. change (Nat.even (S (S idx))) with (Nat.even idx).
      destruct (Nat.even idx) eqn:E; cbn [pred].
      - destruct (Nat.leb_spec (S (S (length l))) (S (S (S idx))));
          destruct (Nat.leb_spec (length l) (S idx)); lia.
      - destruct idx as [|idx]; [done|]. cbn [pred].
        destruct (Nat.leb_spec (S (S (length l))) (S (S idx)));
          destruct (Nat.leb_spec (length l) idx); lia. }
    done.
Qed.

(** A path folds to the root of its level. *)
Lemma proof_path_folds n nodes idx p root : (idx < length nodes)%nat ->
  proof_path n nodes idx = Some p -> merkle_level_fuel n nodes = Some root ->
  foldl fold_step (nth idx nodes "") p = root.
Proof.
  revert nodes idx p. induction n as [|n IH]; intros nodes idx p Hi Hp Hr;
    destruct nodes as [|a [|b l]]; simpl in Hi; try lia; try done.
  - simpl in Hp, Hr. injection Hp as <-. injection Hr as <-. by destruct idx; [|lia].
  - simpl in Hp, Hr. injection Hp as <-. injection Hr as <-. by destruct idx; [|lia].
  - cbn [proof_path merkle_level_fuel] in Hp, Hr.
    destruct (proof_path n _ _) as [p'|] eqn:Ep; [|done]. injection Hp as <-.
    cbn [foldl]. rewrite <- nth_merkle_pairs by (simpl; lia).
    apply (IH _ _ p'); [|done|done].
    rewrite merkle_pairs_length, !Nat.div2_div. cbn [length].
    pose proof (Nat.div_mod idx 2 ltac:(lia)).
    pose proof (Nat.div_mod (S (S (S (length l)))) 2 ltac:(lia)).
    pose proof (Nat.mod_upper_bound (S (S (S (length l)))) 2 ltac:(lia)). lia.
Qed.

Lemma proof_path_total n nodes idx :
  (length nodes <= S n)%nat -> exists p, proof_path n nodes idx = Some p.
Proof.
  revert nodes idx. induction n as [|n IH]; intros [|a [|b l]] idx Hl; simpl in Hl; try lia;
    try (by eexists).
  cbn [proof_path]. pose proof (merkle_pairs_shrink a b l).
  destruct (IH (merkle_pairs (a :: b :: l)) (Nat.div2 idx) ltac:(lia)) as [p ->]. by eexists.
Qed.

Lemma proof_path_nonnil n a b l i p :
  proof_path n (a :: b :: l) i = Some p -> p <> [].
Proof.
  destruct n as [|n]; [done|]. cbn [proof_path]. generalize (proof_path n).
  intros f. by destruct (f _ _); intros [= <-].
Qed.

Lemma find_tag_lt t l i : find_tag t l = Some i -> (i < length l)%nat.
Proof.
  revert i. induction l as [|[t' h] l IH]; simpl; intros i H; [done|].
  case_hyp H; [injection H as <-; lia|].
  destruct (find_tag t l) as [j|]; [|done]. injection H as <-. specialize (IH j eq_refl). lia.
Qed.

Lemma find_tag_member t l h : (t, h) ∈ l -> exists i, find_tag t l = Some i.
Proof.
  induction l as [|[t' h'] l IH]; [by intros ?%elem_of_nil|].
  rewrite elem_of_cons. intros Hin. simpl. destruct (Z.eqb_spec t t') as [|Hne]; [by eexists|].
  destruct Hin as [[= -> ->]|Hin]; [done|]. destruct (IH Hin) as [i ->]. by eexists.
Qed.

Lemma find_tag_nth t l i h d : NoDup (map fst l) -> (t, h) ∈ l ->
  find_tag t l = Some i -> nth i l d = (t, h).
Proof.
  revert i. induction l as [|[t' h'] l IH]; intros i Hnd Hin Hf; [done|].
  simpl in Hf, Hnd. apply NoDup_cons in Hnd as [Ht Hnd]. rewrite elem_of_cons in Hin.
  destruct (Z.eqb_spec t t') as [->|Hne].
  - injection Hf as <-. destruct Hin as [[= ->]|Hin]; [done|].
    exfalso. apply Ht. apply (list_elem_of_fmap_2 fst) in Hin. exact Hin.
  - destruct (find_tag t l) as [j|] eqn:E; [|done]. injection Hf as <-.
    destruct Hin as [[= -> ->]|Hin]; [done|]. simpl. by apply IH.
Qed.

(** The byte strings a verifier hashes along a path. *)
Fixpoint path_preimages (current : string) (path : list (string * side)) : list string :=
  match path with
  | [] => []
  | (sib, sd) :: p =>
      (match sd with SideL => node_preimage sib current | SideR => node_preimage current sib end)
      :: path_preimages (fold_step current (sib, sd)) p
  end.

Definition step_preimage (current : string) (p : string * side) : string :=
  match snd p with
  | SideL => node_preimage (fst p) current
  | SideR => node_preimage current (fst p)
  end.

Lemma fold_step_hash c p : fold_step c p = sha256 (step_preimage c p).
Proof. by destruct p as [s []]. Qed.

Lemma step_preimage_inj c1 c2 p1 p2 :
  String.length c1 = String.length c2 -> snd p1 = snd p2 ->
  step_preimage c1 p1 = step_preimage c2 p2 -> c1 = c2 /\ p1 = p2.
Proof.
  destruct p1 as [s1 d], p2 as [s2 d2]; simpl. intros Hl <- H.
  destruct d; apply node_preimage_app in H; cbn [fst] in H.
  - assert (String.length s1 = String.length s2) as Hs.
    { apply (f_equal String.length) in H. rewrite !string_app_length in H. lia. }
    by apply string_app_inj in H as [-> ->].
  - by apply string_app_inj in H as [-> ->].
Qed.

Lemma path_fold_inj c1 c2 p1 p2 :
  String.length c1 = String.length c2 -> map snd p1 = map snd p2 ->
  no_collision (path_preimages c1 p1 ++ path_preimages c2 p2) ->
  foldl fold_step c1 p1 = foldl fold_step c2 p2 -> c1 = c2 /\ p1 = p2.
Proof.
  revert c1 c2 p2. induction p1 as [|[s1 d1] p1 IH]; intros c1 c2 [|[s2 d2] p2] Hl Hs Hnc H;
    try done. simpl in Hs. injection Hs as <- Hs. cbn [foldl] in H.
  apply IH in H as [Hstep ->]; [|by rewrite !fold_step_hash, !sha256_length|done|].
  - rewrite !fold_step_hash in Hstep. apply Hnc in Hstep.
    + by apply step_preimage_inj in Hstep as [-> [= ->]].
    + rewrite elem_of_app. left. by destruct d1; left.
    + rewrite elem_of_app. right. by destruct d1; left.
  - eapply no_collision_mono; [|exact Hnc]. intros x. cbn [path_preimages].
    rewrite !elem_of_app, !elem_of_cons. tauto.
Qed.

(** ** The specification of the proofs *)

Lemma inclusion_complete leaves t h r : compute_H_r leaves = Ok r -> (t, h) ∈ leaves ->
  exists leaf path, build_inclusion_proof leaves t = Ok (leaf, path) /\
    _leaf_encoding t h = Ok leaf /\ verify_inclusion_proof r leaf path = true.
Proof.
  intros (enc & root & Henc & Hnd & Hlen & Hroot & ->)%compute_H_r_ok Hin.
  assert ((t, h) ∈ sort_leaves leaves) as Hin' by (by rewrite sort_leaves_perm).
  destruct (find_tag_member _ _ _ Hin') as [i Hi].
  unfold build_inclusion_proof. rewrite Henc. simpl. rewrite Hi.
  destruct (proof_path_total (length enc) enc i ltac:(lia)) as [p Hp]. rewrite Hp.
  exists (nth i enc ""), p. split; [done|].
  pose proof (find_tag_lt _ _ _ Hi) as Hlt.
  pose proof Henc as Hall. apply sequence_forall2 in Hall.
  assert (length (sort_leaves leaves) = length enc) as Hl by (by eapply Forall2_length).
  split.
  - destruct (lookup_lt_is_Some_2 (sort_leaves leaves) i Hlt) as [x Hx].
    destruct (Forall2_lookup_l _ _ _ _ _ Hall Hx) as (e & He & Hf).
    rewrite <- (nth_lookup_Some enc i "" e He) in Hf.
    rewrite <- (nth_lookup_Some _ i (0, "") x Hx) in Hf.
    by rewrite (find_tag_nth t _ i h (0, "") Hnd Hin' Hi) in Hf.
  - assert (foldl fold_step (nth i enc "") p = root) as Hfold.
    { apply (proof_path_folds (length enc) enc i); [lia|done|done]. }
    unfold verify_inclusion_proof. destruct p as [|x p'].
    + exfalso. destruct enc as [|e1 [|e2 enc]]; simpl in Hlen; try lia.
      by apply proof_path_nonnil in Hp.
    + by rewrite Hfold, str_eqb_refl.
Qed.

(** * Canonical JSON is injective up to normal form *)

Lemma dict_set_keys {V} k (v : V) d :
  map fst (dict_set k v d) = map fst d \/ ((k ∉ map fst d) /\ dict_set k v d = d ++ [(k, v)]).
Proof.
  destruct (decide (k ∈ map fst d)) as [Hin|Hn]; [left|right; by split; [|apply dict_set_fresh]].
  induction d as [|[k' v'] d IH]; simpl; [by apply not_elem_of_nil in Hin|].
  destruct (str_eqb k k') eqn:E; [done|]. simpl. f_equal. apply IH.
  simpl in Hin. apply elem_of_cons in Hin as [->|]; [by rewrite str_eqb_refl in E|done].
Qed.

Lemma dict_set_members {V} k (v : V) d x y :
  (x, y) ∈ dict_set k v d -> y = v \/ (x, y) ∈ d.
Proof.
  induction d as [|[k' v'] d IH]; simpl.
  - intros [= -> ->]%list_elem_of_singleton. by left.
  - case_goal; rewrite !elem_of_cons.
    + intros [[= -> ->]|?]; tauto.
    + intros [[= -> ->]|?]; tauto.
Qed.

Lemma dict_of_list_facts {V} (l : list (string * V)) :
  NoDup (map fst (dict_of_list l)) /\
  forall x y, (x, y) ∈ dict_of_list l -> exists x', (x', y) ∈ l.
Proof.
  unfold dict_of_list.
  enough (forall acc, NoDup (map fst acc) ->
    let d := foldl (fun d kv => dict_set (fst kv) (snd kv) d) acc l in
    NoDup (map fst d) /\
    forall x y, (x, y) ∈ d -> (x, y) ∈ acc \/ exists x', (x', y) ∈ l) as H.
  { destruct (H [] ltac:(constructor)) as [H1 H2]. split; [done|]. intros x y Hxy.
    destruct (H2 x y Hxy) as [?%elem_of_nil|]; done. }
  induction l as [|[k v] l IH]; intros acc Hnd; simpl; [split; [done|tauto]|].
  destruct (IH (dict_set k v acc)) as [H1 H2].
  { destruct (dict_set_keys k v acc) as [->|[Hk ->]]; [done|].
    rewrite map_app. apply NoDup_app. split; [done|]. split; [|repeat constructor; apply not_elem_of_nil].
    intros x Hx ->%list_elem_of_singleton. done. }
  split; [exact H1|]. intros x y Hxy. destruct (H2 x y Hxy) as [Hd|[x' Hx']].
  - destruct (dict_set_members _ _ _ _ _ Hd) as [->|]; [|by left].
    right. exists k. by left.
  - right. exists x'. by right.
Qed.

Lemma sequence_elem {E A B} (f : A -> result E B) l ts x :
  sequence (map f l) = Ok ts -> x ∈ l -> exists t, f x = Ok t.
Proof.
  intros H%sequence_forall2 Hx. apply list_elem_of_lookup in Hx as [i Hi].
  destruct (Forall2_lookup_l _ _ _ _ _ H Hi) as (t & _ & Ht). by exists t.
Qed.

Section canonical.
Context {U : Unicode}.

Lemma normalize_ok st v t : allow_nan st = false ->
  json_dumps st (normalize v) = Ok t -> pyval_ok (normalize v) = true.
Proof.
  intros Hst. revert t.
  induction v as [|b|z|r|s|l IH|l IH|d IH|] using pyval_ind'; intros t Ht; simpl in *; try done.
  - rewrite Hst, orb_false_r in Ht. inv_ok. done.
  - inv_ok. rewrite forallb_forall. intros x Hx. apply in_map_iff in Hx as (y & <- & Hy).
    apply list_elem_of_In in Hy. rewrite Forall_forall in IH. rewrite map_map in Ha.
    destruct (sequence_elem _ _ _ y Ha Hy) as [ty Hty]. by apply (IH y Hy ty).
  - inv_ok. rewrite forallb_forall. intros x Hx. apply in_map_iff in Hx as (y & <- & Hy).
    apply list_elem_of_In in Hy. rewrite Forall_forall in IH. rewrite map_map in Ha.
    destruct (sequence_elem _ _ _ y Ha Hy) as [ty Hty]. by apply (IH y Hy ty).
  - destruct (dict_of_list_facts (map (fun kv => (nfc (fst kv), normalize (snd kv))) d))
      as [Hnd Hin].
    set (dd := dict_of_list _) in *. apply andb_true_iff.
    split; [by apply bool_decide_eq_true|]. rewrite forallb_forall. intros [x y] Hx.
    apply list_elem_of_In in Hx. destruct (Hin x y Hx) as [x' Hx'].
    apply list_elem_of_fmap in Hx' as ([k v] & [= -> ->] & Hkv).
    rewrite Forall_forall in IH. inv_ok.
    set (kts := map (fun kv => (fst kv, json_dumps st (snd kv))) dd) in *.
    assert ((x, json_dumps st (normalize v)) ∈
      (if sort_keys st then sort_by fst kts else kts)) as Hm.
    { assert ((x, json_dumps st (normalize v)) ∈ kts) as Hk.
      { unfold kts. apply list_elem_of_fmap. by exists (x, normalize v). }
      destruct (sort_keys st); [by rewrite sort_by_perm|done]. }
    destruct (sequence_elem _ _ _ _ Ha Hm) as [tm Htm].
    unfold dumps_member in Htm. simpl in Htm. inv_ok. by apply (IH (k, v) Hkv a1).
Qed.

Lemma canonical_json_inj v w t :
  _canonical_json v = Ok t -> _canonical_json w = Ok t ->
  canon (normalize v) = canon (normalize w).
Proof.
  unfold _canonical_json. intros Hv Hw.
  apply (json_dumps_inj style_compact_utf8 style_compact_utf8_wf _ _ t); try done.
  - by apply (normalize_ok style_compact_utf8 v t).
  - by apply (normalize_ok style_compact_utf8 w t).
Qed.

Lemma wrap_ok fn m t : wrap_noncanonical fn m = Ok t -> m = Ok t.
Proof. destruct m as [|[[] ?]]; done. Qed.

(** Reading one key out of a canonical dictionary. *)
Lemma dict_get_perm {V} k (d d' : list (string * V)) :
  NoDup (map fst d) -> Permutation d d' -> dict_get k d = dict_get k d'.
Proof.
  intros Hnd Hp. induction Hp as [|[k1 v1] d d' Hp IH|[k1 v1] [k2 v2] d|d d' d'' Hp1 IH1 Hp2 IH2].
  - done.
  - simpl. simpl in Hnd. apply NoDup_cons in Hnd as [_ Hnd]. by rewrite IH.
  - simpl in *. apply NoDup_cons in Hnd as [Hnd _]. rewrite elem_of_cons in Hnd.
    destruct (str_eqb k k2) eqn:E2, (str_eqb k k1) eqn:E1; try done.
    apply str_eqb_spec in E1, E2. naive_solver.
  - rewrite IH1 by done. apply IH2. by rewrite <- Hp1.
Qed.

Lemma dict_get_map {V W} (f : V -> W) k (d : list (string * V)) :
  dict_get k (map (fun kv => (fst kv, f (snd kv))) d) = option_map f (dict_get k d).
Proof. induction d as [|[k' v] d IH]; simpl; [done|]. by case_goal. Qed.

Lemma canon_dict_get k d d' :
  NoDup (map fst d) -> NoDup (map fst d') ->
  canon (PDict d) = canon (PDict d') ->
  option_map canon (dict_get k d) = option_map canon (dict_get k d').
Proof.
  intros Hd Hd' [= H].
  rewrite <- !dict_get_map.
  rewrite (dict_get_perm k (map (fun kv => (fst kv, canon (snd kv))) d)
             (sort_by fst (map (fun kv => (fst kv, canon (snd kv))) d)));
    [|by rewrite map_map|symmetry; apply sort_by_perm].
  rewrite H. apply dict_get_perm; [|apply sort_by_perm].
  rewrite (sort_by_perm fst). by rewrite map_map.
Qed.
End canonical.

Section commitments.
Context {U : Unicode} {UL : UnicodeLaws U}.

(** The normal form of a value: what a canonical encoding determines. *)
Definition norm (v : pyval) : pyval := canon (normalize v).

(** Keys of the committed tuples: distinct ASCII names. *)
Definition plain_keys (ks : list string) : bool :=
  forallb is_ascii_str ks && bool_decide (NoDup ks).

Lemma normalize_dict d : plain_keys (map fst d) = true ->
  normalize (PDict d) = PDict (map (fun kv => (fst kv, normalize (snd kv))) d).
Proof.
  unfold plain_keys. intros [Ha Hnd%bool_decide_eq_true]%andb_true_iff. simpl.
  assert (map (fun kv => (nfc (fst kv), normalize (snd kv))) d =
          map (fun kv => (fst kv, normalize (snd kv))) d) as ->.
  { apply map_ext_in. intros [k v] Hin. simpl. f_equal. apply nfc_ascii.
    rewrite forallb_forall in Ha. apply Ha. by apply (in_map fst) in Hin. }
  rewrite dict_of_list_id; [done|]. by rewrite map_map.
Qed.

Lemma canonical_field k d1 d2 t :
  _canonical_json (PDict d1) = Ok t -> _canonical_json (PDict d2) = Ok t ->
  plain_keys (map fst d1) = true -> plain_keys (map fst d2) = true ->
  option_map norm (dict_get k d1) = option_map norm (dict_get k d2).
Proof.
  intros Ht1 Ht2 H1 H2. pose proof (canonical_json_inj _ _ _ Ht1 Ht2) as H.
  rewrite !normalize_dict in H by done.
  apply (canon_dict_get k) in H.
  - rewrite !dict_get_map in H. destruct (dict_get k d1), (dict_get k d2); done.
  - rewrite map_map. by apply andb_true_iff in H1 as [_ ?%bool_decide_eq_true].
  - rewrite map_map. by apply andb_true_iff in H2 as [_ ?%bool_decide_eq_true].
Qed.

(** A printed dictionary ends where its text ends: two of them followed by
    anything agree when the concatenations do. *)
Lemma canonical_dict_prefix d1 d2 t1 t2 r1 r2 :
  _canonical_json (PDict d1) = Ok t1 -> _canonical_json (PDict d2) = Ok t2 ->
  plain_keys (map fst d1) = true -> plain_keys (map fst d2) = true ->
  (t1 +:+ r1 = t2 +:+ r2)%string -> t1 = t2 /\ r1 = r2.
Proof.
  intros H1 H2 Hk1 Hk2 Heq.
  assert (forall d t n r, plain_keys (map fst d) = true ->
    _canonical_json (PDict d) = Ok t -> (String.length t <= n)%nat ->
    parse_value n (t +:+ r) = Some (norm (PDict d), r)) as Hparse.
  { intros d t n r Hk Ht Hn. unfold _canonical_json in Ht.
    pose proof (normalize_ok style_compact_utf8 _ _ eq_refl Ht) as Hok.
    unfold norm. rewrite normalize_dict in * by done.
    apply parses_dict_canon with (st := style_compact_utf8); try done.
    apply style_compact_utf8_wf. }
  pose proof (Hparse d1 t1 (String.length t1 + String.length t2)%nat r1 Hk1 H1 ltac:(lia)) as P1.
  pose proof (Hparse d2 t2 (String.length t1 + String.length t2)%nat r2 Hk2 H2 ltac:(lia)) as P2.
  rewrite Heq, P2 in P1. injection P1 as _ ->. split; [|done].
  by apply string_app_inv_r in Heq.
Qed.

Lemma _sha256_inj l1 l2 : no_collision [concat_str l1; concat_str l2] ->
  _sha256 l1 = _sha256 l2 -> concat_str l1 = concat_str l2.
Proof. intros H. apply H; [by left|by right; left]. Qed.
End commitments.

Section binds.
Context {U : Unicode} {UL : UnicodeLaws U}.

Definition H_s_preimage (op inputs : pyval) : string :=
  match c_s op inputs with Ok c => concat_str [DS_S; ID_C_S; c] | Err _ => "" end.

Lemma H_s_determines op1 in1 op2 in2 h :
  H_s op1 in1 = Ok h -> H_s op2 in2 = Ok h ->
  no_collision [H_s_preimage op1 in1; H_s_preimage op2 in2] ->
  norm op1 = norm op2 /\ norm in1 = norm in2.
Proof.
  unfold H_s, H_s_preimage. intros (c1 & E1 & H1)%rbind_ok (c2 & E2 & H2)%rbind_ok Hnc.
  rewrite E1, E2 in Hnc. apply Ok_inj in H1 as <-. apply Ok_inj in H2.
  symmetry in H2. apply _sha256_inj in H2; [|exact Hnc].
  do 2 apply string_app_inv_l in H2. simpl in H2. rewrite !string_app_nil_r in H2. subst c2.
  unfold c_s in E1, E2. inv_ok. apply wrap_ok in E1, E2.
  pose proof (canonical_field "op" _ _ _ E1 E2 eq_refl eq_refl) as Hop.
  pose proof (canonical_field "inputs" _ _ _ E1 E2 eq_refl eq_refl) as Hin.
  simpl in Hop, Hin. split; congruence.
Qed.

Definition H_m_preimage (intent intent_ref legend_hash lineage : pyval) (regime : string) :
    string :=
  match c_m intent intent_ref legend_hash lineage with
  | Ok c => concat_str [DS_M; ID_C_M; c; regime] | Err _ => "" end.

Lemma H_m_determines i1 r1 l1 s1 g1 i2 r2 l2 s2 g2 h :
  H_m i1 r1 l1 s1 g1 = Ok h -> H_m i2 r2 l2 s2 g2 = Ok h ->
  no_collision [H_m_preimage i1 r1 l1 s1 g1; H_m_preimage i2 r2 l2 s2 g2] ->
  norm i1 = norm i2 /\ norm r1 = norm r2 /\ norm l1 = norm l2 /\ norm s1 = norm s2 /\ g1 = g2.
Proof.
  unfold H_m, H_m_preimage. intros (c1 & E1 & H1)%rbind_ok (c2 & E2 & H2)%rbind_ok Hnc.
  rewrite E1, E2 in Hnc. apply Ok_inj in H1 as <-. apply Ok_inj in H2.
  symmetry in H2. apply _sha256_inj in H2; [|exact Hnc].
  do 2 apply string_app_inv_l in H2. cbn [concat_str] in H2. rewrite !string_app_nil_r in H2.
  unfold c_m in E1, E2. apply wrap_ok in E1, E2.
  destruct (canonical_dict_prefix _ _ _ _ _ _ E1 E2 eq_refl eq_refl H2) as [<- <-].
  pose proof (fun k => canonical_field k _ _ _ E1 E2 eq_refl eq_refl) as Hf.
  pose proof (Hf "intent") as F1. pose proof (Hf "intent_ref") as F2.
  pose proof (Hf "legend_hash") as F3. pose proof (Hf "semantic_lineage") as F4.
  simpl in F1, F2, F3, F4. repeat split; congruence.
Qed.

(** The root over the authority chain, as [c_c] computes it. *)
Definition G_c_preimage (chain : pyval) : string :=
  match _canonical_json chain with Ok c => concat_str [c] | Err _ => "" end.
Definition H_c_preimage (chain pid caps wb parent fr : pyval) : string :=
  match c_c chain pid caps wb parent fr with
  | Ok c => concat_str [DS_C; ID_C_C; c] | Err _ => "" end.

Lemma norm_hex_inj a b : norm (PStr (hex a)) = norm (PStr (hex b)) -> a = b.
Proof.
  unfold norm. simpl. intros [= H].
  assert (Hhex : forall s, is_ascii_str (hex s) = true).
  { unfold is_ascii_str. induction s as [|c s IH]; [done|]. cbn [hex str_forallb]. rewrite IH.
    by destruct c as [[] [] [] [] [] [] [] []]. }
  rewrite !nfc_ascii in H by apply Hhex. by apply hex_inj in H.
Qed.

Lemma H_c_determines a1 p1 k1 w1 q1 f1 a2 p2 k2 w2 q2 f2 h :
  H_c a1 p1 k1 w1 q1 f1 = Ok h -> H_c a2 p2 k2 w2 q2 f2 = Ok h ->
  no_collision [H_c_preimage a1 p1 k1 w1 q1 f1; H_c_preimage a2 p2 k2 w2 q2 f2] ->
  no_collision [G_c_preimage a1; G_c_preimage a2] ->
  norm a1 = norm a2 /\ norm p1 = norm p2 /\ norm k1 = norm k2 /\ norm w1 = norm w2 /\
  norm q1 = norm q2 /\ norm f1 = norm f2.
Proof.
  unfold H_c, H_c_preimage, G_c_preimage.
  intros (c1 & E1 & H1)%rbind_ok (c2 & E2 & H2)%rbind_ok Hnc Hnc2.
  rewrite E1, E2 in Hnc. apply Ok_inj in H1 as <-. apply Ok_inj in H2.
  symmetry in H2. apply _sha256_inj in H2; [|exact Hnc].
  do 2 apply string_app_inv_l in H2. simpl in H2. rewrite !string_app_nil_r in H2. subst c2.
  unfold c_c in E1, E2. destruct (is_pylist a1), (is_pylist a2); try done.
  apply rbind_ok in E1 as (g1 & G1 & E1), E2 as (g2 & G2 & E2).
  rewrite G1, G2 in Hnc2. cbv zeta in E1, E2. apply wrap_ok in E1, E2.
  pose proof (fun k => canonical_field k _ _ _ E1 E2 eq_refl eq_refl) as Hf.
  pose proof (Hf "G_c_root") as F0. pose proof (Hf "policy_id") as F1.
  pose proof (Hf "capabilities") as F2. pose proof (Hf "warrant_basis") as F3.
  pose proof (Hf "parent") as F4. pose proof (Hf "freshness") as F5.
  simpl in F1, F2, F3, F4, F5. cbn in F0. injection F0 as F0.
  apply (f_equal PStr) in F0. apply (norm_hex_inj (_sha256 [g1]) (_sha256 [g2])) in F0.
  apply _sha256_inj in F0; [|exact Hnc2]. simpl in F0. rewrite !string_app_nil_r in F0. subst g2.
  split; [by apply (canonical_json_inj _ _ g1)|]. repeat split; congruence.
Qed.

Definition phi_preimage (pc mr sid : pyval) : string :=
  match _canonical_json (PDict [("phase_code", pc); ("mosaic_root", mr); ("session_id", sid)]) with
  | Ok c => concat_str ["UGK-PHI-v1"; c] | Err _ => "" end.
Definition H_j_preimage (pc mr sid ak : pyval) : string :=
  match c_j pc mr sid ak with Ok c => concat_str [DS_J; ID_C_J; c] | Err _ => "" end.

Lemma H_j_determines p1 m1 s1 k1 p2 m2 s2 k2 h :
  H_j p1 m1 s1 k1 = Ok h -> H_j p2 m2 s2 k2 = Ok h ->
  no_collision [H_j_preimage p1 m1 s1 k1; H_j_preimage p2 m2 s2 k2] ->
  no_collision [phi_preimage p1 m1 s1; phi_preimage p2 m2 s2] ->
  norm p1 = norm p2 /\ norm m1 = norm m2 /\ norm s1 = norm s2 /\ norm k1 = norm k2.
Proof.
  unfold H_j, H_j_preimage, phi_preimage.
  intros (c1 & E1 & H1)%rbind_ok (c2 & E2 & H2)%rbind_ok Hnc Hnc2.
  rewrite E1, E2 in Hnc. apply Ok_inj in H1 as <-. apply Ok_inj in H2.
  symmetry in H2. apply _sha256_inj in H2; [|exact Hnc].
  do 2 apply string_app_inv_l in H2. simpl in H2. rewrite !string_app_nil_r in H2. subst c2.
  unfold c_j in E1, E2. apply wrap_ok in E1, E2.
  apply rbind_ok in E1 as (g1 & G1 & E1), E2 as (g2 & G2 & E2).
  rewrite G1, G2 in Hnc2. cbv zeta in E1, E2.
  pose proof (fun k => canonical_field k _ _ _ E1 E2 eq_refl eq_refl) as Hf.
  pose proof (Hf "phi") as F0. pose proof (Hf "authority_key") as F1.
  simpl in F1. cbn in F0. injection F0 as F0.
  apply (f_equal PStr) in F0. apply (norm_hex_inj (_sha256 _) (_sha256 _)) in F0.
  apply _sha256_inj in F0; [|exact Hnc2]. apply string_app_inv_l in F0.
  simpl in F0. rewrite !string_app_nil_r in F0. subst g2.
  pose proof (fun k => canonical_field k _ _ _ G1 G2 eq_refl eq_refl) as Hg.
  pose proof (Hg "phase_code") as F2. pose proof (Hg "mosaic_root") as F3.
  pose proof (Hg "session_id") as F4. simpl in F2, F3, F4. repeat split; congruence.
Qed.
End binds.

(** * Commitment minimality *)

Definition CANONICALIZATION_DOMAINS : list (string * list string) :=
  [("H_s", ["op"; "inputs"]);
   ("H_c", ["authority_chain"; "policy_id"; "capabilities"; "warrant_basis";
            "parent_H_r"; "freshness"]);
   ("H_m", ["intent"; "intent_ref"; "legend_hash"; "semantic_lineage";
            "semantic_regime_id"]);
   ("H_j", ["phase_code"; "mosaic_root"; "session_id"; "authority_key"]);
   ("id_P", ["policy_id"]);
   ("id_Sigma", ["semantic_regime_id"]);
   ("id_Phi", ["phase_code"])].

Definition PRINCIPLED_REDUNDANCY_REGISTRY : list (string * (string * string)) :=
  [("id_P", ("H_c", "chain-link-cache-self-describing-identity"));
   ("id_Sigma", ("H_m", "chain-link-cache-self-describing-identity"));
   ("id_Phi", ("H_j", "chain-link-cache-self-describing-identity"))].

Definition issubset (a b : list string) : bool := forallb (fun x => mem_str x b) a.

(** [repr] of a list of plain identifiers. *)
Definition py_repr_list (l : list string) : string :=
  "[" +:+ join ", " (map (fun s => "'" +:+ s +:+ "'") l) +:+ "]".

Definition redundancy_registered (registry : list (string * (string * string)))
    (L_i L_j : string) : bool :=
  match dict_get L_i registry with
  | Some (expected_carrier, _) => str_eqb L_j expected_carrier
  | None => false
  end.

(** The pair of loops; the set [present_leaves] is the list of its elements in
    the order Python iterates it, which only decides the reason reported. *)
Definition redundancy_reason (domains : list (string * list string))
    (registry : list (string * (string * string))) (L_i L_j : string) : option string :=
  let D_i := default [] (dict_get L_i domains) in
  let D_j := default [] (dict_get L_j domains) in
  if str_eqb L_i L_j then None
  else if issubset D_i D_j then
    if redundancy_registered registry L_i L_j then None
    else Some ("leaf " +:+ L_i +:+ " (domain " +:+ py_repr_list (sorted_str D_i)
      +:+ ") is recoverable from leaf " +:+ L_j +:+ " (domain "
      +:+ py_repr_list (sorted_str D_j) +:+ "); not registered as principled with carrier "
      +:+ L_j)
  else None.

Fixpoint first_some {A B} (f : A -> option B) (l : list A) : option B :=
  match l with
  | [] => None
  | x :: l' => match f x with Some b => Some b | None => first_some f l' end
  end.

Definition commitment_minimality_gate (domains : list (string * list string))
    (registry : list (string * (string * string))) (present_leaves : list string) :
    bool * option string :=
  let unknown := List.filter (fun l => negb (mem_str l (map fst domains))) present_leaves in
  match unknown with
  | _ :: _ => (false, Some ("unknown leaves: " +:+ py_repr_list (sorted_str unknown)))
  | [] =>
      match first_some (fun L_i => first_some (redundancy_reason domains registry L_i)
                                     present_leaves) present_leaves with
      | Some reason => (false, Some reason)
      | None => (true, None)
      end
  end.

Lemma first_some_none {A B} (f : A -> option B) l :
  first_some f l = None <-> forall x, x ∈ l -> f x = None.
Proof.
  induction l as [|x l IH]; simpl.
  - split; [|done]. intros _ x ?%elem_of_nil. done.
  - destruct (f x) eqn:E.
    + split; [done|]. intros H. by rewrite (H x ltac:(left)) in E.
    + rewrite IH. split.
      * intros H y [->|Hy]%elem_of_cons; auto.
      * intros H y Hy. apply H. by right.
Qed.

(** The predicate the gate decides. *)
Definition minimal (domains : list (string * list string))
    (registry : list (string * (string * string))) (present : list string) : Prop :=
  (forall L, L ∈ present -> exists D, dict_get L domains = Some D) /\
  (forall L_i L_j D_i D_j, L_i ∈ present -> L_j ∈ present -> L_i <> L_j ->
     dict_get L_i domains = Some D_i -> dict_get L_j domains = Some D_j ->
     D_i ⊆ D_j -> exists threat, dict_get L_i registry = Some (L_j, threat)).

Lemma issubset_spec a b : issubset a b = true <-> a ⊆ b.
Proof.
  unfold issubset. rewrite forallb_forall. split.
  - intros H x Hx. apply mem_str_spec, H. by apply list_elem_of_In.
  - intros H x Hx. apply mem_str_spec, H. by apply list_elem_of_In.
Qed.

Lemma dict_get_keys {V} k (d : list (string * V)) :
  mem_str k (map fst d) = true <-> exists v, dict_get k d = Some v.
Proof.
  rewrite mem_str_spec. induction d as [|[k' v'] d IH]; simpl.
  - split; [by intros ?%elem_of_nil|]. by intros [? ?].
  - rewrite elem_of_cons. destruct (str_eqb k k') eqn:E.
    + apply str_eqb_spec in E as ->. split; [by eexists|by left].
    + rewrite <- IH. split; [|tauto]. intros [->|]; [by rewrite str_eqb_refl in E|done].
Qed.

Lemma redundancy_reason_none domains registry L_i L_j D_i D_j :
  dict_get L_i domains = Some D_i -> dict_get L_j domains = Some D_j ->
  redundancy_reason domains registry L_i L_j = None <->
  (L_i <> L_j -> D_i ⊆ D_j -> exists threat, dict_get L_i registry = Some (L_j, threat)).
Proof.
  intros Hi Hj. unfold redundancy_reason, redundancy_registered. rewrite Hi, Hj. cbv [default from_option id].
  destruct (str_eqb L_i L_j) eqn:E.
  { apply str_eqb_spec in E as ->. split; [intros _ H; by destruct H|done]. }
  assert (L_i <> L_j) by (intros ->; by rewrite str_eqb_refl in E).
  rewrite <- issubset_spec. destruct (issubset D_i D_j); [|split; [by intros _ _ [=]|done]].
  destruct (dict_get L_i registry) as [[c th]|].
  - destruct (str_eqb L_j c) eqn:Ec.
    + apply str_eqb_spec in Ec as ->. split; [by eexists|done].
    + split; [done|]. intros Hx. destruct (Hx ltac:(done) eq_refl) as [t [= -> ->]].
      by rewrite str_eqb_refl in Ec.
  - split; [done|]. intros Hx. by destruct (Hx ltac:(done) eq_refl).
Qed.

Lemma minimality_gate_decides domains registry present :
  fst (commitment_minimality_gate domains registry present) = true <->
  minimal domains registry present.
Proof.
  unfold commitment_minimality_gate.
  destruct (List.filter _ present) as [|u us] eqn:Eu.
  - assert (Hknown : forall L, L ∈ present -> exists D, dict_get L domains = Some D).
    { intros L HL. apply dict_get_keys. destruct (mem_str L _) eqn:E; [done|].
      assert (In L (List.filter (fun l => negb (mem_str l (map fst domains))) present)) as Hin.
      { apply filter_In. split; [by apply list_elem_of_In|by rewrite E]. }
      by rewrite Eu in Hin. }
    assert (fst (match first_some (fun L_i => first_some (redundancy_reason domains registry L_i)
                                     present) present with
      | Some reason => (false, Some reason) | None => (true, None) end) = true <->
      forall L_i, L_i ∈ present -> forall L_j, L_j ∈ present ->
        redundancy_reason domains registry L_i L_j = None) as ->.
    { destruct (first_some _ present) eqn:Ef.
      - split; [done|]. intros H. rewrite (proj2 (first_some_none _ _)) in Ef; [done|].
        intros x Hx. apply first_some_none. by apply H.
      - split; [|done]. intros _ L_i Hi. apply first_some_none.
        by apply (proj1 (first_some_none _ _) Ef). }
    split.
    + intros H. split; [exact Hknown|]. intros L_i L_j D_i D_j Hi Hj Hne Hdi Hdj Hsub.
      by apply (redundancy_reason_none domains registry L_i L_j D_i D_j Hdi Hdj); [apply H| |].
    + intros [_ H] L_i Hi L_j Hj. destruct (Hknown L_i Hi) as [D_i Hdi].
      destruct (Hknown L_j Hj) as [D_j Hdj].
      apply (redundancy_reason_none domains registry L_i L_j D_i D_j Hdi Hdj). eauto.
  - simpl. split; [done|]. intros [Hknown _]. exfalso.
    assert (In u (List.filter (fun l => negb (mem_str l (map fst domains))) present)) as Hin
      by (rewrite Eu; by left).
    apply filter_In in Hin as [Hin Hu]. apply list_elem_of_In in Hin.
    apply Hknown, dict_get_keys in Hin. by rewrite Hin in Hu.
Qed.

(** The leaf sets the kernel commits pass the gate under the constitutional
    declarations; without the registry the strict set does not. *)
Example minimality_standard :
  commitment_minimality_gate CANONICALIZATION_DOMAINS PRINCIPLED_REDUNDANCY_REGISTRY
    ["H_s"; "H_c"; "H_m"; "H_j"; "id_P"; "id_Sigma"; "id_Phi"] = (true, None).
Proof. vm_compute. reflexivity. Qed.
Example minimality_unregistered :
  fst (commitment_minimality_gate CANONICALIZATION_DOMAINS [] ["H_c"; "id_P"]) = false.
Proof. vm_compute. reflexivity. Qed.

(** * Properties *)

(** C12: the receipt root binds its leaves.  Two leaf lists with one [H_r] are
    the same set of (tag, hash) pairs, whatever their number and order, unless
    SHA-256 collides on the byte strings the two computations hash. *)
Theorem H_r_binds_leaves leaves1 leaves2 r :
  compute_H_r leaves1 = Ok r -> compute_H_r leaves2 = Ok r ->
  no_collision (H_r_preimages leaves1 ++ H_r_preimages leaves2) ->
  Permutation leaves1 leaves2.
Proof.
  intros H1 H2 Hnc. rewrite <- (sort_leaves_perm leaves1), <- (sort_leaves_perm leaves2).
  by rewrite (compute_H_r_leaves leaves1 leaves2 r H1 H2 Hnc).
Qed.

(** Three commitments, for the evaluations below. *)
Definition demo_leaves : list (Z * string) :=
  [(TAG_H_M, sha256 "m"); (TAG_H_S, sha256 "s"); (TAG_H_C, sha256 "c")].
Definition demo_root : string :=
  match compute_H_r demo_leaves with Ok r => r | Err _ => "" end.

Lemma H_r_binds_leaves_witness :
  Permutation demo_leaves (rev demo_leaves).
Proof.
  apply (H_r_binds_leaves demo_leaves (rev demo_leaves) demo_root).
  - vm_compute. reflexivity.
  - vm_compute. reflexivity.
  - apply no_collisionb_spec. vm_compute. reflexivity.
Defined.

(** Completeness of inclusion proofs.  For every leaf under a receipt root
    [build_inclusion_proof] succeeds, discloses that leaf's encoding and is
    accepted by [verify_inclusion_proof]. *)
Theorem inclusion_proof_complete leaves t h r :
  compute_H_r leaves = Ok r -> (t, h) ∈ leaves ->
  exists leaf path, build_inclusion_proof leaves t = Ok (leaf, path) /\
    _leaf_encoding t h = Ok leaf /\ verify_inclusion_proof r leaf path = true.
Proof. apply inclusion_complete. Qed.

Lemma inclusion_proof_complete_witness :
  exists leaf path, build_inclusion_proof demo_leaves TAG_H_C = Ok (leaf, path) /\
    _leaf_encoding TAG_H_C (sha256 "c") = Ok leaf /\
    verify_inclusion_proof demo_root leaf path = true.
Proof.
  apply (inclusion_proof_complete demo_leaves TAG_H_C (sha256 "c") demo_root).
  - vm_compute. reflexivity.
  - right. right. left.
Defined.

(** Soundness of disclosure.  Two proofs accepted under one root, with the
    same sides and leaves of the same length, disclose the same leaf through
    the same siblings, unless SHA-256 collides on what they hash. *)
Theorem inclusion_proof_binding r leaf1 path1 leaf2 path2 :
  verify_inclusion_proof r leaf1 path1 = true ->
  verify_inclusion_proof r leaf2 path2 = true ->
  map snd path1 = map snd path2 -> String.length leaf1 = String.length leaf2 ->
  path1 <> [] ->
  no_collision (path_preimages leaf1 path1 ++ path_preimages leaf2 path2 ++
    [concat_str [DS_R; ID_ROOT; foldl fold_step leaf1 path1];
     concat_str [DS_R; ID_ROOT; foldl fold_step leaf2 path2]]) ->
  leaf1 = leaf2 /\ path1 = path2.
Proof.
  intros H1 H2 Hs Hl Hne Hnc.
  destruct path1 as [|x1 p1]; [done|]. destruct path2 as [|x2 p2]; [done|].
  unfold verify_inclusion_proof in H1, H2. apply str_eqb_spec in H1, H2. subst r.
  unfold root_of, _sha256 in H2. apply Hnc in H2.
  - cbn [concat_str] in H2. do 2 apply string_app_inv_l in H2.
    rewrite !string_app_nil_r in H2. symmetry in H2.
    apply path_fold_inj in H2; [done|done|done|].
    eapply no_collision_mono; [|exact Hnc]. intros x. rewrite !elem_of_app. tauto.
  - rewrite !elem_of_app. right. right. right. by left.
  - rewrite !elem_of_app. right. right. by left.
Qed.

Definition demo_proof : string * list (string * side) :=
  match build_inclusion_proof demo_leaves TAG_H_S with Ok p => p | Err _ => ("", []) end.

Lemma inclusion_proof_binding_witness :
  fst demo_proof = fst demo_proof /\ snd demo_proof = snd demo_proof.
Proof.
  apply (inclusion_proof_binding demo_root (fst demo_proof) (snd demo_proof)
           (fst demo_proof) (snd demo_proof)).
  - vm_compute. reflexivity.
  - vm_compute. reflexivity.
  - reflexivity.
  - reflexivity.
  - vm_compute. discriminate.
  - apply no_collisionb_spec. vm_compute. reflexivity.
Defined.

(** What an inclusion proof does not show.  The verifier accepts every
    internal node of the tree in the place of a leaf: dropping the first step
    of an honest proof and presenting its node as the "leaf" is accepted under
    the same root, although the blob is no leaf encoding. *)
Theorem inclusion_accepts_internal_node leaves t h r leaf s path :
  compute_H_r leaves = Ok r -> (t, h) ∈ leaves ->
  build_inclusion_proof leaves t = Ok (leaf, s :: path) -> path <> [] ->
  verify_inclusion_proof r (fold_step leaf s) path = true /\
  String.length (fold_step leaf s) <> 55%nat.
Proof.
  intros Hr Hin Hb Hne.
  destruct (inclusion_complete leaves t h r Hr Hin) as (leaf' & path' & Hb' & _ & Hv).
  rewrite Hb in Hb'. apply Ok_inj in Hb'. injection Hb' as <- <-. split.
  - unfold verify_inclusion_proof in *. destruct path; [done|]. exact Hv.
  - rewrite fold_step_hash, sha256_length. lia.
Qed.

Lemma inclusion_accepts_internal_node_witness :
  exists r leaf s path, path <> [] /\
    verify_inclusion_proof r (fold_step leaf s) path = true /\
    String.length (fold_step leaf s) <> 55%nat.
Proof.
  exists demo_root, (fst demo_proof), (nth 0 (snd demo_proof) ("", SideL)),
    (tail (snd demo_proof)).
  split; [vm_compute; discriminate|].
  apply (inclusion_accepts_internal_node demo_leaves TAG_H_S (sha256 "s") demo_root).
  - vm_compute. reflexivity.
  - right. left.
  - vm_compute. reflexivity.
  - vm_compute. discriminate.
Defined.

(** The minimality gate decides its specification: every present leaf has a
    declared domain, and a leaf recoverable from another is registered with
    that other as its carrier. *)
Theorem commitment_minimality_gate_spec domains registry present :
  fst (commitment_minimality_gate domains registry present) = true <->
  minimal domains registry present.
Proof. apply minimality_gate_decides. Qed.
