(* ===== verification/Frame.v ===== *)
(** The constitutional frame a receipt is bound to: the semantic regime and the
    phase ([ugk/invariants.py]), signed epochs ([freshness.py]), signed policies
    ([governance/policy.py]), authority keys ([authority/authority_keys.py]),
    semantic lineage ([lineage.py]) and the phase namespace ([namespace.py]). *)
From S2P Require Import Prelude Json Sha256.

(** [ugk/vendor/ed25519.py] is vendored code: signing and verification are
    arguments.  [ed_verify] returns a boolean or raises. *)
Class Ed25519 := {
  ed_sign : string -> string -> string;
  ed_verify : string -> string -> string -> result exn bool;
}.

(** Its contract: a signature made with a private key verifies under the
    matching public key. *)
Class Ed25519Laws (E : Ed25519) := {
  ed_keypair : string -> string -> Prop;
  ed_sound : forall m priv pub, ed_keypair priv pub ->
    ed_verify m (ed_sign m priv) pub = Ok true;
}.

(** An instance for concrete evaluations. *)
Definition ed_demo : Ed25519 :=
  {| ed_sign m priv := sha256_hex m;
     ed_verify m sg pub := Ok (str_eqb sg (sha256_hex m)) |}.
Definition ed_demo_laws : Ed25519Laws ed_demo.
Proof.
  refine {| ed_keypair := fun _ _ => True |}.
  intros m priv pub _. simpl. by rewrite str_eqb_refl.
Defined.

(** [_canonical_json_bytes], the encoder of these modules: no normalisation. *)
Definition canonical_json_bytes (obj : pyval) : result exn string :=
  json_dumps style_compact_utf8 obj.

(** [hashlib.sha256(_canonical_json_bytes(obj)).hexdigest()] *)
Definition id_of (obj : pyval) : result exn string :=
  let* b := canonical_json_bytes obj in Ok (sha256_hex b).

(** [try: ok = verify(...) except Exception: return SignatureInvalid] *)
Definition check_signature {E : Ed25519} (unsigned signature pubkey : string) :
    bool * option string :=
  match ed_verify unsigned signature pubkey with
  | Ok true => (true, None)
  | Ok false | Err _ => (false, Some "SignatureInvalid")
  end.

(** ** The semantic regime and the phase *)

Definition SIGMA_0 : pyval := PDict
  [("L", PStr "governed-operation-declarations");
   ("T", PStr "intent-warrant-capability theory");
   ("R", PStr "UGK normalization rule set");
   ("v", PStr "0.1.0");
   ("r_star", PStr "deterministic-reduction-v1");
   ("B", PStr "UGK normalization bound");
   ("imports", PList [])].

Definition or_empty (r : result exn string) : string :=
  match r with Ok s => s | Err _ => "" end.

Definition ID_SIGMA_0 : string := or_empty (id_of SIGMA_0).

Definition PHI_0 : pyval := PDict
  [("phase_code", PStr "ugk-0.1.0"); ("regime_id", PStr ID_SIGMA_0);
   ("v", PStr "0.1.0"); ("description", PStr "UGK v0.1.0 canonical operating phase");
   ("imports", PList [])].

Definition ID_PHI_0 : string := or_empty (id_of PHI_0).

Definition CAPABILITY_VOCABULARY : list string :=
  ["attest"; "bind"; "evaluate"; "read"; "write"].

Definition NAMESPACE_PHI_0 : list string :=
  ["op:policy_evaluate"; "op:audit"; "op:attest"; "op:bind"; "op:evaluate";
   "authority:Governor"; "phase:phi_0"].

(** ** Epochs and freshness claims *)

Record EpochIssuance := {
  ei_phase_id : string;
  ei_epoch_counter : Z;
  ei_valid_from : Z;
  ei_valid_until : Z;
  ei_issuer_key_id : string;
  ei_signature : string;
}.

Definition epoch_payload (phase_id : string) (epoch_counter valid_from valid_until : Z)
    (issuer_key_id : string) : result exn string :=
  canonical_json_bytes (PDict
    [("phase_id", PStr phase_id); ("epoch_counter", PInt epoch_counter);
     ("valid_from", PInt valid_from); ("valid_until", PInt valid_until);
     ("issuer_key_id", PStr issuer_key_id)]).

Definition epoch_unsigned_payload (ei : EpochIssuance) : result exn string :=
  epoch_payload (ei_phase_id ei) (ei_epoch_counter ei) (ei_valid_from ei)
    (ei_valid_until ei) (ei_issuer_key_id ei).

Definition id_epoch_issuance (ei : EpochIssuance) : result exn string :=
  id_of (PDict
    [("phase_id", PStr (ei_phase_id ei)); ("epoch_counter", PInt (ei_epoch_counter ei));
     ("valid_from", PInt (ei_valid_from ei)); ("valid_until", PInt (ei_valid_until ei));
     ("issuer_key_id", PStr (ei_issuer_key_id ei)); ("signature", PStr (ei_signature ei))]).

Section freshness.
Context {E : Ed25519}.

Definition sign_epoch_issuance (phase_id : string) (epoch_counter valid_from valid_until : Z)
    (issuer_key_id signer_privkey_hex : string) : result exn EpochIssuance :=
  let* unsigned := epoch_payload phase_id epoch_counter valid_from valid_until issuer_key_id in
  Ok {| ei_phase_id := phase_id; ei_epoch_counter := epoch_counter;
        ei_valid_from := valid_from; ei_valid_until := valid_until;
        ei_issuer_key_id := issuer_key_id;
        ei_signature := ed_sign unsigned signer_privkey_hex |}.

Definition verify_epoch_issuance (ei : EpochIssuance) (governor_pubkey_hex : string) :
    bool * option string :=
  if negb (str_eqb (ei_issuer_key_id ei) governor_pubkey_hex) then (false, Some "IssuerMismatch")
  else match epoch_unsigned_payload ei with
       | Ok u => check_signature u (ei_signature ei) governor_pubkey_hex
       | Err _ => (false, Some "SignatureInvalid")
       end.

(** A retirement is a signed statement of the same shape; nothing consults it. *)
Record EpochRetirement := {
  er_phase_id : string;
  er_retired_epoch : Z;
  er_retirement_time : Z;
  er_issuer_key_id : string;
  er_signature : string;
}.

Definition retirement_payload (phase_id : string) (retired_epoch retirement_time : Z)
    (issuer_key_id : string) : result exn string :=
  canonical_json_bytes (PDict
    [("phase_id", PStr phase_id); ("retired_epoch", PInt retired_epoch);
     ("retirement_time", PInt retirement_time); ("issuer_key_id", PStr issuer_key_id)]).

Definition sign_epoch_retirement (phase_id : string) (retired_epoch retirement_time : Z)
    (issuer_key_id signer_privkey_hex : string) : result exn EpochRetirement :=
  let* unsigned := retirement_payload phase_id retired_epoch retirement_time issuer_key_id in
  Ok {| er_phase_id := phase_id; er_retired_epoch := retired_epoch;
        er_retirement_time := retirement_time; er_issuer_key_id := issuer_key_id;
        er_signature := ed_sign unsigned signer_privkey_hex |}.

Definition verify_epoch_retirement (er : EpochRetirement) (governor_pubkey_hex : string) :
    bool * option string :=
  if negb (str_eqb (er_issuer_key_id er) governor_pubkey_hex) then (false, Some "IssuerMismatch")
  else match retirement_payload (er_phase_id er) (er_retired_epoch er)
               (er_retirement_time er) (er_issuer_key_id er) with
       | Ok u => check_signature u (er_signature er) governor_pubkey_hex
       | Err _ => (false, Some "SignatureInvalid")
       end.

(** The claim dictionary, as a record; [claim_val] is the dictionary itself. *)
Record FreshnessClaim := {
  fc_phase_code : string;
  fc_epoch_counter : Z;
  fc_valid_from : Z;
  fc_valid_until : Z;
  fc_window_sig : string;
  fc_issuer_key_id : string;
}.

Definition claim_val (c : FreshnessClaim) : pyval := PDict
  [("phase_code", PStr (fc_phase_code c)); ("epoch_counter", PInt (fc_epoch_counter c));
   ("valid_from", PInt (fc_valid_from c)); ("valid_until", PInt (fc_valid_until c));
   ("window_sig", PStr (fc_window_sig c)); ("issuer_key_id", PStr (fc_issuer_key_id c))].

Definition build_freshness_claim_from_epoch (ei : EpochIssuance) : FreshnessClaim :=
  {| fc_phase_code := ei_phase_id ei; fc_epoch_counter := ei_epoch_counter ei;
     fc_valid_from := ei_valid_from ei; fc_valid_until := ei_valid_until ei;
     fc_window_sig := ei_signature ei; fc_issuer_key_id := ei_issuer_key_id ei |}.

Definition verify_freshness_claim (claim : FreshnessClaim) (current_epoch : Z)
    (current_phase_id governor_pubkey_hex : string) : result exn (bool * option string) :=
  if negb (str_eqb (fc_phase_code claim) current_phase_id) then Ok (false, Some "PhaseMismatch")
  else if current_epoch <? fc_valid_from claim then Ok (false, Some "NotYetAdmissible")
  else if fc_valid_until claim <? current_epoch then Ok (false, Some "ExpiredEdge")
  else if negb (str_eqb (fc_issuer_key_id claim) governor_pubkey_hex) then
    Ok (false, Some "IssuerMismatch")
  else
    let* unsigned := epoch_payload (fc_phase_code claim) (fc_epoch_counter claim)
      (fc_valid_from claim) (fc_valid_until claim) (fc_issuer_key_id claim) in
    Ok (check_signature unsigned (fc_window_sig claim) governor_pubkey_hex).

Definition DEFAULT_TEST_PRIVKEY_HEX :=
  "78bb6a76a7b369ce5e4e0d607c9add1f407f9a501e3985eddafe772b21e056e1".
Definition DEFAULT_TEST_PUBKEY_HEX :=
  "eb4bba3338cd3e2f4483ed4311e1fa24f7b86f2a0070b5b695534e13b85bc040".

Definition max_epoch : Z := 2 ^ 63 - 1.

Definition default_epoch (phase_id : string) : result exn EpochIssuance :=
  sign_epoch_issuance phase_id 0 0 max_epoch DEFAULT_TEST_PUBKEY_HEX DEFAULT_TEST_PRIVKEY_HEX.
End freshness.

(** ** Policies *)

Record Policy := {
  pol_subjects : list string;
  pol_decision_rules : list string;
  pol_version : string;
  pol_issuer_key_id : string;
  pol_signature : string;
}.

Definition policy_unsigned (subjects decision_rules : list string)
    (version issuer_key_id : string) : result exn string :=
  canonical_json_bytes (PDict
    [("subjects", PList (map PStr subjects)); ("decision_rules", PList (map PStr decision_rules));
     ("version", PStr version); ("issuer_key_id", PStr issuer_key_id)]).

Definition id_policy (p : Policy) : result exn string :=
  id_of (PDict
    [("subjects", PList (map PStr (pol_subjects p)));
     ("decision_rules", PList (map PStr (pol_decision_rules p)));
     ("version", PStr (pol_version p)); ("issuer_key_id", PStr (pol_issuer_key_id p));
     ("signature", PStr (pol_signature p))]).

Section policy.
Context {E : Ed25519}.

Definition sign_policy (subjects decision_rules : list string)
    (version issuer_key_id signer_privkey_hex : string) : result exn Policy :=
  let* unsigned := policy_unsigned subjects decision_rules version issuer_key_id in
  Ok {| pol_subjects := subjects; pol_decision_rules := decision_rules;
        pol_version := version; pol_issuer_key_id := issuer_key_id;
        pol_signature := ed_sign unsigned signer_privkey_hex |}.

Definition verify_policy (p : Policy) (governor_pubkey_hex : string) : bool * option string :=
  if negb (str_eqb (pol_issuer_key_id p) governor_pubkey_hex) then (false, Some "IssuerMismatch")
  else match policy_unsigned (pol_subjects p) (pol_decision_rules p) (pol_version p)
               (pol_issuer_key_id p) with
       | Ok u => check_signature u (pol_signature p) governor_pubkey_hex
       | Err _ => (false, Some "SignatureInvalid")
       end.

Definition default_policy_for (jurisdiction : string) : result exn Policy :=
  sign_policy ["jurisdiction:" +:+ jurisdiction] ["default-allow"] "v1"
    DEFAULT_TEST_PUBKEY_HEX DEFAULT_TEST_PRIVKEY_HEX.

(** The process-wide cache is the first component of the state. *)
Definition policy_cache := list (string * Policy).

Definition lookup_policy (cache : policy_cache) (jurisdiction : string) :
    result exn (Policy * policy_cache) :=
  match dict_get jurisdiction cache with
  | Some p => Ok (p, cache)
  | None =>
      let* p := default_policy_for jurisdiction in
      Ok (p, dict_set jurisdiction p cache)
  end.

Definition lookup_policy_id (cache : policy_cache) (jurisdiction : string) :
    result exn (string * policy_cache) :=
  let* '(p, cache') := lookup_policy cache jurisdiction in
  let* i := id_policy p in Ok (i, cache').

Definition register_policy (cache : policy_cache) (jurisdiction : string) (p : Policy) :
    policy_cache := dict_set jurisdiction p cache.
Definition clear_policy_cache : policy_cache := [].
End policy.

(** ** Authority keys *)

Definition AUTHORITY_KEY_ID_DS := "UGK-authority-key-id-v1".
Definition key_cache := list (string * string).

Definition derive_authority_key_id (authority_name : string) : string :=
  sha256_hex (AUTHORITY_KEY_ID_DS +:+ authority_name).

Definition lookup_authority_key (cache : key_cache) (authority_name : string) :
    string * key_cache :=
  match dict_get authority_name cache with
  | Some k => (k, cache)
  | None => let k := derive_authority_key_id authority_name in
            (k, dict_set authority_name k cache)
  end.

Definition register_authority_key (cache : key_cache) (authority_name key_id : string) :
    key_cache := dict_set authority_name key_id cache.
Definition clear_authority_key_cache : key_cache := [].
Definition get_registered_authority_key (cache : key_cache) (authority_name : string) :
    option string := dict_get authority_name cache.

(** ** Lineage *)

Record LineageEdge := {
  parent_h_m : string;
  parent_intent_ref : string;
  edge_position : Z;
}.

Definition lineage_edge_dict (e : LineageEdge) : pyval := PDict
  [("parent_h_m", PStr (parent_h_m e)); ("parent_intent_ref", PStr (parent_intent_ref e));
   ("edge_position", PInt (edge_position e))].

Definition GENESIS_LINEAGE : list LineageEdge := [].

Definition build_lineage (h_m intent_ref : option string) : list LineageEdge :=
  match h_m with
  | None => GENESIS_LINEAGE
  | Some h => [{| parent_h_m := h;
                  parent_intent_ref := match intent_ref with Some r => r | None => "" end;
                  edge_position := 0 |}]
  end.

Definition lineage_as_dicts (l : list LineageEdge) : list pyval := map lineage_edge_dict l.

(** ** Namespace *)

(** [sorted(set(namespace))]: duplicates removed, then sorted. *)
Fixpoint dedup (l : list string) : list string :=
  match l with
  | [] => []
  | s :: l' => if mem_str s l' then dedup l' else s :: dedup l'
  end.

Definition compute_mosaic_root (namespace : list string) : result exn string :=
  id_of (PList (map PStr (sorted_str (dedup namespace)))).

Definition MOSAIC_ROOT_PHI_0 : string := or_empty (compute_mosaic_root NAMESPACE_PHI_0).

Definition is_member (name_key : string) (namespace : list string) : bool :=
  mem_str name_key namespace.

Definition validate_name_keys (name_keys : list string) (namespace : list string) :
    bool * option string :=
  if forallb (fun k => mem_str k namespace) name_keys then (true, None)
  else (false, Some "NamespaceNonMember").

(** * Properties *)

Lemma epoch_payload_total p c vf vu k : exists b, epoch_payload p c vf vu k = Ok b.
Proof.
  pose proof (json_dumps_total style_compact_utf8 (PDict
    [("phase_id", PStr p); ("epoch_counter", PInt c); ("valid_from", PInt vf);
     ("valid_until", PInt vu); ("issuer_key_id", PStr k)]) eq_refl eq_refl eq_refl) as H.
  unfold epoch_payload, canonical_json_bytes. destruct (json_dumps _ _); [by eexists|done].
Qed.

(** A claim built from an epoch the Governor signed verifies exactly inside
    its window: in another phase, before [valid_from], after [valid_until] and
    under another key it is refused with the code of that failure, in that
    order. *)
Theorem freshness_claim_window {E : Ed25519} {EL : Ed25519Laws E}
    phase counter vf vu priv pub now current_phase gov :
  ed_keypair priv pub ->
  exists ei, sign_epoch_issuance phase counter vf vu pub priv = Ok ei /\
    verify_epoch_issuance ei pub = (true, None) /\
    verify_freshness_claim (build_freshness_claim_from_epoch ei) now current_phase gov =
      Ok (if negb (str_eqb phase current_phase) then (false, Some "PhaseMismatch")
          else if now <? vf then (false, Some "NotYetAdmissible")
          else if vu <? now then (false, Some "ExpiredEdge")
          else if negb (str_eqb pub gov) then (false, Some "IssuerMismatch")
          else (true, None)).
Proof.
  intros Hk. unfold sign_epoch_issuance.
  destruct (epoch_payload_total phase counter vf vu pub) as [b Hb]. rewrite Hb. cbn [rbind].
  eexists. split; [done|]. split.
  - unfold verify_epoch_issuance, epoch_unsigned_payload.
    cbn [ei_issuer_key_id ei_phase_id ei_epoch_counter ei_valid_from ei_valid_until ei_signature].
    rewrite str_eqb_refl, Hb. cbn [negb]. unfold check_signature. by rewrite ed_sound.
  - unfold verify_freshness_claim, build_freshness_claim_from_epoch.
    cbn [fc_phase_code fc_epoch_counter fc_valid_from fc_valid_until fc_window_sig
         fc_issuer_key_id ei_issuer_key_id ei_phase_id ei_epoch_counter ei_valid_from
         ei_valid_until ei_signature].
    destruct (negb (str_eqb phase current_phase)); [done|].
    destruct (now <? vf); [done|]. destruct (vu <? now); [done|].
    destruct (str_eqb pub gov) eqn:Hg; cbn [negb]; [|done].
    apply str_eqb_spec in Hg as <-. rewrite Hb. cbn [rbind].
    unfold check_signature. by rewrite ed_sound.
Qed.

Lemma freshness_claim_window_witness :
  exists ei, @sign_epoch_issuance ed_demo "phi" 1 10 20 "pub" "priv" = Ok ei /\
    @verify_epoch_issuance ed_demo ei "pub" = (true, None) /\
    @verify_freshness_claim ed_demo (build_freshness_claim_from_epoch ei) 21 "phi" "pub"
    = Ok (false, Some "ExpiredEdge").
Proof.
  exact (@freshness_claim_window ed_demo ed_demo_laws "phi" 1 10 20 "priv" "pub" 21 "phi" "pub" I).
Defined.

(** The namespace root does not depend on the order or multiplicity of the
    names. *)
Lemma dedup_spec l s : s ∈ dedup l <-> s ∈ l.
Proof.
  induction l as [|x l IH]; simpl; [done|]. destruct (mem_str x l) eqn:Hx.
  - apply mem_str_spec in Hx. rewrite IH, elem_of_cons. naive_solver.
  - rewrite !elem_of_cons, IH. done.
Qed.

Lemma dedup_nodup l : NoDup (dedup l).
Proof.
  induction l as [|x l IH]; simpl; [constructor|]. destruct (mem_str x l) eqn:Hx; [done|].
  apply mem_str_false in Hx. constructor; [by rewrite dedup_spec|done].
Qed.

(** The mosaic root is a function of the set of names. *)
Theorem mosaic_root_set names1 names2 :
  (forall s, s ∈ names1 <-> s ∈ names2) ->
  compute_mosaic_root names1 = compute_mosaic_root names2.
Proof.
  intros H. unfold compute_mosaic_root, sorted_str. do 3 f_equal.
  apply sort_by_perm_eq.
  - rewrite map_id. apply dedup_nodup.
  - apply NoDup_Permutation; [apply dedup_nodup..|]. intros s. by rewrite !dedup_spec.
Qed.

Lemma mosaic_root_set_witness :
  compute_mosaic_root ["b"; "a"; "b"] = compute_mosaic_root ["a"; "b"].
Proof.
  apply mosaic_root_set. intros s. rewrite !elem_of_cons. naive_solver.
Defined.
