(* ===== verification/Authority.v ===== *)
(** The authority graph G_c ([authority/authority_graph.py]) and capability
    attenuation along its canonical paths ([authority/capabilities.py]). *)
From S2P Require Import Prelude Json Sha256 Frame.

Definition GOVERNOR_AUTHORITY := "Governor".
Definition _DEFAULT_VALID_UNTIL : Z := 2 ^ 63 - 1.

Record AuthorityEdge := {
  issuer : string;
  subject : string;
  capability_set : list string;
  edge_time : Z;
  valid_until : Z;
  issuer_key_id : string;
  signature : string;
}.

Definition edge_payload (issuer subject : string) (caps : list string)
    (edge_time valid_until : Z) (issuer_key_id : string) : result exn string :=
  canonical_json_bytes (PDict
    [("issuer", PStr issuer); ("subject", PStr subject);
     ("capability_set", PList (map PStr caps)); ("edge_time", PInt edge_time);
     ("valid_until", PInt valid_until); ("issuer_key_id", PStr issuer_key_id)]).

Definition edge_unsigned_payload (e : AuthorityEdge) : result exn string :=
  edge_payload (issuer e) (subject e) (capability_set e) (edge_time e) (valid_until e)
    (issuer_key_id e).

Definition edge_canonical_dict (e : AuthorityEdge) : pyval := PDict
  [("issuer", PStr (issuer e)); ("subject", PStr (subject e));
   ("capability_set", PList (map PStr (capability_set e)));
   ("edge_time", PInt (edge_time e)); ("valid_until", PInt (valid_until e));
   ("issuer_key_id", PStr (issuer_key_id e)); ("signature", PStr (signature e))].

Definition id_authority_edge (e : AuthorityEdge) : result exn string :=
  id_of (edge_canonical_dict e).

(** ** The graph: at most one incoming edge per subject *)

Abbreviation AuthorityGraph := (gmap string AuthorityEdge).

Definition add_edge (g : AuthorityGraph) (e : AuthorityEdge) : AuthorityGraph :=
  <[subject e := e]> g.
Definition has_subject (g : AuthorityGraph) (s : string) : bool :=
  match g !! s with Some _ => true | None => false end.
Definition get_edge_for (g : AuthorityGraph) (s : string) : option AuthorityEdge := g !! s.

(** The parent walk of [canonical_path], target first.  The fuel is the number
    of edges plus one: a longer walk repeats a subject, and the walk stops with
    an error at the first repetition. *)
Fixpoint walk (n : nat) (g : AuthorityGraph) (seen : list string) (cursor : string) :
    result exn (list AuthorityEdge) :=
  if str_eqb cursor GOVERNOR_AUTHORITY then Ok []
  else if mem_str cursor seen then Err (Exn ValueError "cycle detected")
  else match g !! cursor with
       | None => Err (Exn ValueError "no incoming edge")
       | Some e =>
           match n with
           | O => Err (Exn OtherError "out of fuel")
           | S n =>
               let* rest := walk n g (cursor :: seen) (issuer e) in
               Ok (e :: rest)
           end
       end.

Definition canonical_path (g : AuthorityGraph) (target : string) :
    result exn (list AuthorityEdge) :=
  if str_eqb target GOVERNOR_AUTHORITY then Ok []
  else let* p := walk (size g) g [] target in Ok (rev p).

Section signing.
Context {E : Ed25519}.

Definition sign_authority_edge (issuer subject : string) (capability_set : list string)
    (edge_time valid_until : Z) (issuer_key_id signer_privkey_hex : string) :
    result exn AuthorityEdge :=
  let cs := sorted_str capability_set in
  let* unsigned := edge_payload issuer subject cs edge_time valid_until issuer_key_id in
  Ok {| Authority.issuer := issuer; Authority.subject := subject;
        Authority.capability_set := cs; Authority.edge_time := edge_time;
        Authority.valid_until := valid_until; Authority.issuer_key_id := issuer_key_id;
        signature := ed_sign unsigned signer_privkey_hex |}.

Definition verify_authority_edge (e : AuthorityEdge) (governor_pubkey_hex : string)
    (current_time : option Z) : bool * option string :=
  if negb (str_eqb (issuer_key_id e) governor_pubkey_hex) then (false, Some "IssuerMismatch")
  else
    match (match edge_unsigned_payload e with
           | Ok u => check_signature u (signature e) governor_pubkey_hex
           | Err _ => (false, Some "SignatureInvalid")
           end) with
    | (false, err) => (false, err)
    | (true, _) =>
        match current_time with
        | Some t => if valid_until e <? t then (false, Some "ExpiredEdge") else (true, None)
        | None => (true, None)
        end
    end.

(** The loop of [verify_canonical_path]; [prev] is the previous edge's subject. *)
Fixpoint verify_edges (prev : option string) (path : list AuthorityEdge)
    (governor_pubkey_hex : string) (current_time : option Z) : bool * option string :=
  match path with
  | [] => (true, None)
  | e :: rest =>
      match verify_authority_edge e governor_pubkey_hex current_time with
      | (false, err) => (false, err)
      | (true, _) =>
          match prev with
          | Some p =>
              if str_eqb p (issuer e) then
                verify_edges (Some (subject e)) rest governor_pubkey_hex current_time
              else (false, Some "NoCanonicalPath")
          | None => verify_edges (Some (subject e)) rest governor_pubkey_hex current_time
          end
      end
  end.

Definition verify_canonical_path (path : list AuthorityEdge) (governor_pubkey_hex : string)
    (current_time : option Z) : bool * option string :=
  match path with
  | [] => (false, Some "NoCanonicalPath")
  | e :: _ =>
      if negb (str_eqb (issuer e) GOVERNOR_AUTHORITY) then (false, Some "NoCanonicalPath")
      else verify_edges None path governor_pubkey_hex current_time
  end.

(** ** Capabilities *)

Definition subset_str (a b : list string) : bool := forallb (fun x => mem_str x b) a.

Definition attenuates (parent_set child_set : list string) : bool :=
  subset_str child_set parent_set.

(** Sets of capabilities are lists without regard to order. *)
Fixpoint attenuate (effective : list string) (path : list AuthorityEdge) :
    option (list string) * option string :=
  match path with
  | [] => (Some effective, None)
  | e :: rest =>
      let child_set := capability_set e in
      if subset_str child_set effective then attenuate child_set rest
      else (None, Some "CapabilityEscalation")
  end.

Definition compute_effective_capabilities (path : list AuthorityEdge) :
    option (list string) * option string := attenuate CAPABILITY_VOCABULARY path.

Definition default_capability_set : list string := sorted_str CAPABILITY_VOCABULARY.

Definition verify_authority_chain_with_capabilities (path : list AuthorityEdge)
    (governor_pubkey_hex : string) (current_time : option Z) :
    option (list string) * option string :=
  match verify_canonical_path path governor_pubkey_hex current_time with
  | (false, err) => (None, err)
  | (true, _) => compute_effective_capabilities path
  end.

(** ** The process-wide default graph, as a state *)

Definition _ensure_default_edge_for (g : AuthorityGraph) (authority_name : string) :
    result exn AuthorityGraph :=
  if str_eqb authority_name GOVERNOR_AUTHORITY then Ok g
  else if has_subject g authority_name then Ok g
  else
    let* e := sign_authority_edge GOVERNOR_AUTHORITY authority_name default_capability_set
      0 _DEFAULT_VALID_UNTIL DEFAULT_TEST_PUBKEY_HEX DEFAULT_TEST_PRIVKEY_HEX in
    Ok (add_edge g e).

(** The edge added for [authority_name] stays in the graph even when the walk
    then fails: the state is returned beside the outcome. *)
Definition canonical_path_for (g : AuthorityGraph) (authority_name : string) :
    result exn (list AuthorityEdge) * AuthorityGraph :=
  if str_eqb authority_name GOVERNOR_AUTHORITY then (Ok [], g)
  else match _ensure_default_edge_for g authority_name with
       | Ok g' => (canonical_path g' authority_name, g')
       | Err e => (Err e, g)
       end.

Definition canonical_path_as_dicts (g : AuthorityGraph) (authority_name : string) :
    result exn (list pyval) * AuthorityGraph :=
  let '(p, g') := canonical_path_for g authority_name in
  (rmap (map edge_canonical_dict) p, g').

Definition register_edge (g : AuthorityGraph) (e : AuthorityEdge) : AuthorityGraph :=
  add_edge g e.
Definition clear_graph : AuthorityGraph := ∅.
End signing.

(** * The walk ends *)

Lemma walk_never_out_of_fuel n (g : AuthorityGraph) seen cursor :
  NoDup seen -> (forall s, s ∈ seen -> s ∈ dom g) -> (size g <= n + length seen)%nat ->
  walk n g seen cursor <> Err (Exn OtherError "out of fuel").
Proof.
  revert seen cursor. induction n as [|n IH]; intros seen cursor Hnd Hdom Hsz; simpl;
    destruct (str_eqb cursor GOVERNOR_AUTHORITY); try done;
    destruct (mem_str cursor seen) eqn:Hseen; try done;
    apply mem_str_false in Hseen; destruct (g !! cursor) as [e|] eqn:Hg; try done.
  - exfalso. assert (size (list_to_set (cursor :: seen) : gset string) <= size (dom g : gset string))%nat as Hle.
    { apply subseteq_size. intros s. rewrite elem_of_list_to_set, elem_of_cons.
      intros [->|Hs]; [by apply elem_of_dom_2 in Hg|by apply Hdom]. }
    rewrite (size_list_to_set (C := gset string)), size_dom in Hle by (by constructor).
    simpl in Hle. lia.
  - destruct (walk n g (cursor :: seen) (issuer e)) as [p|er] eqn:Hw; simpl; [done|].
    intros Heq. apply Err_inj in Heq. subst er. revert Hw. apply IH.
    + by constructor.
    + intros s [->|Hs]%elem_of_cons; [by apply elem_of_dom_2 in Hg|by apply Hdom].
    + simpl. lia.
Qed.

(** * Paths *)

Definition wf_graph (g : AuthorityGraph) : Prop :=
  map_Forall (fun s e => subject e = s) g.

Lemma wf_graph_empty : wf_graph ∅.
Proof. apply map_Forall_empty. Qed.

Lemma wf_graph_add g e : wf_graph g -> wf_graph (add_edge g e).
Proof. intros H. by apply map_Forall_insert_2. Qed.

#[export] Hint Resolve wf_graph_empty wf_graph_add : ugk.

(** [p] leads from [src] to [dst], each edge issued by the subject before it. *)
Fixpoint path_from (src : string) (p : list AuthorityEdge) (dst : string) : Prop :=
  match p with
  | [] => src = dst
  | e :: rest => issuer e = src /\ path_from (subject e) rest dst
  end.

Lemma path_from_snoc src p mid e :
  path_from src p mid -> issuer e = mid -> path_from src (p ++ [e]) (subject e).
Proof.
  revert src. induction p as [|x p IH]; intros src; simpl; [by intros -> ->|].
  intros [? ?] ?. split; [done|]. by apply IH.
Qed.

Lemma walk_path n g seen cursor p : wf_graph g -> walk n g seen cursor = Ok p ->
  path_from GOVERNOR_AUTHORITY (rev p) cursor /\
  forall e, e ∈ p -> g !! subject e = Some e.
Proof.
  intros Hwf. revert seen cursor p. induction n as [|n IH]; intros seen cursor p; simpl;
    destruct (str_eqb cursor GOVERNOR_AUTHORITY) eqn:Hc;
    try (apply str_eqb_spec in Hc as ->; intros <-%Ok_inj; split; [done|by intros ? ?%elem_of_nil]);
    destruct (mem_str cursor seen); try done; destruct (g !! cursor) as [e|] eqn:Hg; try done.
  intros (rest & Hw & <-%Ok_inj)%rbind_ok. apply IH in Hw as [Hp Hin].
  pose proof (Hwf _ _ Hg) as Hs. simpl in Hs. subst cursor. split.
  - simpl. by eapply path_from_snoc.
  - intros x [->|Hx]%elem_of_cons; auto.
Qed.

Lemma canonical_path_sound g target p : wf_graph g -> canonical_path g target = Ok p ->
  path_from GOVERNOR_AUTHORITY p target /\ forall e, e ∈ p -> g !! subject e = Some e.
Proof.
  intros Hwf. unfold canonical_path. destruct (str_eqb target GOVERNOR_AUTHORITY) eqn:Ht.
  - apply str_eqb_spec in Ht as ->. intros <-%Ok_inj. split; [done|by intros ? ?%elem_of_nil].
  - intros (w & Hw & <-%Ok_inj)%rbind_ok. apply walk_path in Hw as [Hp Hin]; [|done].
    split; [done|]. intros e He. apply Hin. rewrite list_elem_of_In in He |- *. by apply in_rev in He.
Qed.

(** One step of the walk: from a name other than the Governor to the issuer of its edge. *)
Definition up (g : AuthorityGraph) (a b : string) : Prop :=
  a <> GOVERNOR_AUTHORITY /\ exists e, g !! a = Some e /\ issuer e = b.
Lemma up_functional g a b c : up g a b -> up g a c -> b = c.
Proof. intros (_ & e & He & <-) (_ & f & Hf & <-). by rewrite He in Hf; apply Some_inj' in Hf as ->. Qed.
Lemma up_linear g a b c : rtc (up g) a b -> rtc (up g) a c -> rtc (up g) b c \/ rtc (up g) c b.
Proof.
  induction 1 as [a|a x b Hx Hb IH]; intros Hc; [by left|].
  inversion Hc as [|? y ? Hy Hc']; subst; [right; by eapply rtc_l|].
  rewrite (up_functional _ _ _ _ Hx Hy) in IH. by apply IH.
Qed.
Lemma governor_top g b : ~ up g GOVERNOR_AUTHORITY b.
Proof. by intros [H _]. Qed.
(** What is on a cycle, or above a missing edge, is not under the Governor. *)
Lemma cycle_apart g x : rtc (up g) x GOVERNOR_AUTHORITY -> ~ tc (up g) x x.
Proof.
  intros H. remember GOVERNOR_AUTHORITY as G eqn:HG. induction H as [x|x y z Hy _ IH]; intros Hc.
  - apply tc_rtc_r with (z := x) in Hc; [|done]. inversion Hc as [? ? Hu|? ? ? Hu]; subst; by apply governor_top in Hu.
  - specialize (IH HG). apply IH. assert (Hyx : rtc (up g) y x).
    { inversion Hc as [? ? Hu|? w ? Hu Hr]; subst; rewrite (up_functional _ _ _ _ Hy Hu); [done|by apply tc_rtc]. }
    eapply tc_rtc_l; [exact Hyx|by apply tc_once].
Qed.
Lemma missing_apart g x : rtc (up g) x GOVERNOR_AUTHORITY -> x <> GOVERNOR_AUTHORITY -> g !! x <> None.
Proof. intros H Hx Hn. inversion H as [|? y ? (_ & e & He & _) _]; subst; [done|]. by rewrite He in Hn. Qed.
Lemma apart g t x : rtc (up g) t GOVERNOR_AUTHORITY -> rtc (up g) t x ->
  rtc (up g) x GOVERNOR_AUTHORITY.
Proof.
  intros Ht Hx. destruct (up_linear _ _ _ _ Hx Ht) as [H|H]; [done|].
  inversion H as [|? y ? Hu _]; subst; [constructor|by apply governor_top in Hu].
Qed.

(** The end of a walk, and its cause. *)
Lemma walk_outcome n g seen cursor : wf_graph g -> (forall s, s ∈ seen -> tc (up g) s cursor) ->
  match walk n g seen cursor with
  | Ok p => NoDup (map subject p) /\ (forall e, e ∈ p -> subject e ∉ seen /\ subject e <> GOVERNOR_AUTHORITY) /\
            rtc (up g) cursor GOVERNOR_AUTHORITY
  | Err er => er = Exn OtherError "out of fuel"
      \/ er = Exn ValueError "cycle detected" /\ (exists x, rtc (up g) cursor x /\ tc (up g) x x)
      \/ er = Exn ValueError "no incoming edge" /\
         (exists x, rtc (up g) cursor x /\ x <> GOVERNOR_AUTHORITY /\ g !! x = None)
  end.
Proof.
  intros Hwf. revert seen cursor. induction n as [|n IH]; intros seen cursor Hseen; cbn [walk];
    destruct (str_eqb cursor GOVERNOR_AUTHORITY) eqn:Hc;
    try (apply str_eqb_spec in Hc as ->; split_and!; [constructor|by intros ? ?%elem_of_nil|constructor]);
    assert (Hne : cursor <> GOVERNOR_AUTHORITY) by (intros ->; by rewrite str_eqb_refl in Hc);
    (destruct (mem_str cursor seen) eqn:Hm;
      [apply mem_str_spec in Hm; right; left; split; [done|]; exists cursor; split; [constructor|by apply Hseen]|]);
    apply mem_str_false in Hm; (destruct (g !! cursor) as [e|] eqn:Hg;
      [|right; right; split; [done|]; exists cursor; split_and!; [constructor|done|done]]); [by left|].
  assert (Hu : up g cursor (issuer e)) by (split; [done|by exists e]).
  pose proof (Hwf _ _ Hg) as Hs. cbn beta in Hs.
  specialize (IH (cursor :: seen) (issuer e)). destruct (walk n g (cursor :: seen) (issuer e)) as [rest|er]; cbn [rbind].
  - destruct IH as (Hn & Hp & Hr).
    { intros s [->|Hin]%elem_of_cons; [by apply tc_once|]. eapply tc_r; [by apply Hseen|done]. }
    split_and!; [|intros x [->|Hx]%elem_of_cons|by eapply rtc_l].
    + cbn [map]. constructor; [|done]. intros (x & Hx & Hin)%list_elem_of_fmap.
      destruct (Hp x Hin) as [Hx' _]. apply Hx'. rewrite <- Hx, Hs. by left.
    + by rewrite Hs.
    + destruct (Hp x Hx) as [H1 H2]. split; [|done]. intros H. apply H1. by right.
  - destruct IH as [->|[(-> & x & Hx & Hcy)|(-> & x & Hx & Hxg & Hxn)]].
    { intros s [->|Hin]%elem_of_cons; [by apply tc_once|]. eapply tc_r; [by apply Hseen|done]. }
    + by left.
    + right. left. split; [done|]. exists x. split; [by eapply rtc_l|done].
    + right. right. split; [done|]. exists x. split_and!; [by eapply rtc_l|done|done].
Qed.

Section verified.
Context {E : Ed25519}.

Definition edge_verifies (pub : string) (t : option Z) (e : AuthorityEdge) : Prop :=
  fst (verify_authority_edge e pub t) = true.

Lemma verify_authority_edge_pair e pub t :
  edge_verifies pub t e -> verify_authority_edge e pub t = (true, None).
Proof.
  unfold edge_verifies, verify_authority_edge.
  destruct (negb _); [done|].
  destruct (match edge_unsigned_payload e with Ok _ => _ | Err _ => _ end) as [[] err]; [|done].
  destruct t; [|done]. by destruct (_ <? _).
Qed.

Lemma verify_edges_spec prev path pub t :
  verify_edges prev path pub t = (true, None) <->
  Forall (edge_verifies pub t) path /\
  match path, prev with
  | e :: _, Some p => exists dst, path_from p path dst
  | e :: _, None => exists dst, path_from (issuer e) path dst
  | [], _ => True
  end.
Proof.
  revert prev. induction path as [|e rest IH]; intros prev; simpl; [by split|].
  assert (Hcont : verify_edges (Some (subject e)) rest pub t = (true, None) <->
    Forall (edge_verifies pub t) rest /\ exists dst, path_from (subject e) rest dst).
  { rewrite IH. destruct rest as [|e2 rest]; [|done]. simpl. split; [|tauto].
    intros [H _]. split; [done|]. by eexists. }
  destruct (verify_authority_edge e pub t) as [b err] eqn:Hv.
  destruct b.
  - assert (edge_verifies pub t e) as He by (unfold edge_verifies; by rewrite Hv).
    destruct prev as [p|].
    + destruct (str_eqb p (issuer e)) eqn:Hp.
      * apply str_eqb_spec in Hp as ->. rewrite Hcont. rewrite Forall_cons. naive_solver.
      * split; [done|]. intros [_ [dst [Hi _]]]. by rewrite Hi, str_eqb_refl in Hp.
    + rewrite Hcont. rewrite Forall_cons. naive_solver.
  - split; [|intros [H _]; apply Forall_cons in H as [H _]; unfold edge_verifies in H;
             by rewrite Hv in H].
    destruct prev; simpl; intros [= ].
Qed.

Lemma verify_canonical_path_spec path pub t :
  verify_canonical_path path pub t = (true, None) <->
  path <> [] /\ Forall (edge_verifies pub t) path /\
  exists dst, path_from GOVERNOR_AUTHORITY path dst.
Proof.
  destruct path as [|e rest]; [simpl; naive_solver|].
  unfold verify_canonical_path. destruct (str_eqb (issuer e) GOVERNOR_AUTHORITY) eqn:Hi; simpl negb.
  - apply str_eqb_spec in Hi. rewrite verify_edges_spec, Hi. naive_solver.
  - split; [done|]. intros (_ & _ & dst & Hp). simpl in Hp. destruct Hp as [Hp _].
    by rewrite Hp, str_eqb_refl in Hi.
Qed.
End verified.

(** * Attenuation *)

Lemma subset_str_spec a b : subset_str a b = true <-> a ⊆ b.
Proof.
  unfold subset_str. rewrite forallb_forall. split.
  - intros H x Hx. apply mem_str_spec, H. by apply list_elem_of_In.
  - intros H x Hx. apply mem_str_spec, H. by apply list_elem_of_In.
Qed.

(** Each set is included in the one before it. *)
Fixpoint decreasing (eff : list string) (sets : list (list string)) : Prop :=
  match sets with [] => True | s :: rest => s ⊆ eff /\ decreasing s rest end.

Lemma attenuate_spec eff path :
  (decreasing eff (map capability_set path) /\
   attenuate eff path = (Some (List.last (map capability_set path) eff), None)) \/
  (~ decreasing eff (map capability_set path) /\
   attenuate eff path = (None, Some "CapabilityEscalation")).
Proof.
  revert eff. induction path as [|e rest IH]; intros eff; [by left|].
  cbn [attenuate map decreasing].
  destruct (subset_str (capability_set e) eff) eqn:Hs.
  - apply subset_str_spec in Hs. destruct (IH (capability_set e)) as [[Hd ->]|[Hd ->]].
    + left. split; [done|]. destruct rest as [|e2 rest]; [done|].
      cbn [map]. do 2 f_equal. clear. cbn [List.last map].
      generalize (map capability_set rest) as l. generalize (capability_set e2) as x.
      intros x l. revert x. induction l as [|y l IHl]; intros x; [done|]. apply IHl.
    + right. naive_solver.
  - right. split; [|done]. intros [H _]. apply subset_str_spec in H. congruence.
Qed.

Lemma decreasing_subset eff sets s : decreasing eff sets -> s ∈ sets ->
  s ⊆ eff /\ List.last sets eff ⊆ s.
Proof.
  revert eff. induction sets as [|x sets IH]; intros eff; [by intros _ ?%elem_of_nil|].
  intros [Hx Hd] [->|Hs]%elem_of_cons.
  - split; [done|]. clear IH. revert x Hx Hd. induction sets as [|y sets IH]; intros x Hx Hd; [done|].
    destruct Hd as [Hy Hd]. etransitivity; [|exact Hy].
    change (List.last (x :: y :: sets) eff) with (List.last (y :: sets) eff).
    apply IH; [|done]. by transitivity x.
  - destruct (IH x Hd Hs) as [H1 H2]. split; [by transitivity x|].
    destruct sets as [|y sets]; [by apply elem_of_nil in Hs|].
    assert (Hl : forall d d', List.last (y :: sets) d = List.last (y :: sets) d').
    { clear. intros d d'. revert y. induction sets as [|z sets IH]; intros y; [done|].
      apply (IH z). }
    change (List.last (x :: y :: sets) eff) with (List.last (y :: sets) eff).
    by rewrite (Hl eff x).
Qed.

(** * Signing succeeds *)

Lemma forallb_map_pystr (f : pyval -> bool) l :
  (forall s, f (PStr s) = true) -> forallb f (map PStr l) = true.
Proof. intros H. induction l; simpl; [done|]. by rewrite H. Qed.

Lemma canonical_json_bytes_total v :
  pyval_ok v = true -> no_obj v = true -> exists t, canonical_json_bytes v = Ok t.
Proof.
  intros H1 H2. pose proof (json_dumps_total style_compact_utf8 v eq_refl H1 H2) as H.
  unfold canonical_json_bytes. destruct (json_dumps _ v); [by eexists|done].
Qed.

Lemma edge_payload_total i s caps t u k : exists b, edge_payload i s caps t u k = Ok b.
Proof.
  apply canonical_json_bytes_total; simpl.
  - rewrite forallb_map_pystr by done. reflexivity.
  - by rewrite forallb_map_pystr by done.
Qed.

Section signed.
Context {E : Ed25519} {EL : Ed25519Laws E}.

Lemma sign_authority_edge_verifies i s caps t u priv pub :
  ed_keypair priv pub ->
  exists e, sign_authority_edge i s caps t u pub priv = Ok e /\
    issuer e = i /\ subject e = s /\ capability_set e = sorted_str caps /\
    forall now, verify_authority_edge e pub now =
      match now with
      | Some n => if u <? n then (false, Some "ExpiredEdge") else (true, None)
      | None => (true, None)
      end.
Proof.
  intros Hk. unfold sign_authority_edge. cbv zeta.
  destruct (edge_payload_total i s (sorted_str caps) t u pub) as [b Hb]. rewrite Hb. simpl.
  eexists. split; [done|]. cbn [issuer subject capability_set]. repeat (split; [done|]).
  intros now. unfold verify_authority_edge, edge_unsigned_payload.
  cbn [issuer subject capability_set edge_time valid_until issuer_key_id signature].
  rewrite str_eqb_refl, Hb. cbn [negb]. unfold check_signature. by rewrite ed_sound.
Qed.
End signed.

Lemma sorted_default_capabilities : default_capability_set = CAPABILITY_VOCABULARY.
Proof. reflexivity. Qed.

(** * Properties *)

(** C38: [canonical_path] finds the path exactly where there is one.  It always ends.  When
    the walk from the target up to the issuer of its edge, and so on, comes to the Governor,
    it answers the registered edges from the Governor down to the target, each issued by
    the subject of the one before, no subject twice and none the Governor; when it does
    not, it raises ValueError: a cycle, where the walk runs into one, or a missing edge, where
    it comes to a name other than the Governor that has none. *)
Theorem canonical_path_correct (g : AuthorityGraph) target : wf_graph g ->
  match canonical_path g target with
  | Ok p => path_from GOVERNOR_AUTHORITY p target /\
            (forall e, e ∈ p -> g !! subject e = Some e) /\
            NoDup (GOVERNOR_AUTHORITY :: map subject p) /\ rtc (up g) target GOVERNOR_AUTHORITY
  | Err er => ~ rtc (up g) target GOVERNOR_AUTHORITY /\
      (er = Exn ValueError "cycle detected" /\ (exists x, rtc (up g) target x /\ tc (up g) x x)
       \/ er = Exn ValueError "no incoming edge" /\
          (exists x, rtc (up g) target x /\ x <> GOVERNOR_AUTHORITY /\ g !! x = None))
  end.
Proof.
  intros Hwf. pose proof (walk_outcome (size g) g [] target Hwf ltac:(by intros s ?%elem_of_nil)) as Ho.
  destruct (canonical_path g target) as [p|er] eqn:Hp.
  - destruct (canonical_path_sound _ _ _ Hwf Hp) as [H1 H2]. split; [done|]. split; [done|].
    unfold canonical_path in Hp. destruct (str_eqb target GOVERNOR_AUTHORITY) eqn:Ht.
    { apply Ok_inj in Hp as <-. apply str_eqb_spec in Ht as ->. split; [apply NoDup_singleton|constructor]. }
    destruct (walk (size g) g [] target) as [w|e]; [|done]. apply Ok_inj in Hp as <-.
    destruct Ho as (Hn & He & Hr). split; [|done]. rewrite map_rev, <- (Permutation_rev (map subject w)). constructor; [|done].
    intros (e & Hs & Hin)%list_elem_of_fmap. by apply (He e Hin).
  - unfold canonical_path in Hp. destruct (str_eqb target GOVERNOR_AUTHORITY); [done|].
    destruct (walk (size g) g [] target) as [w|e] eqn:Hw; [done|]. apply Err_inj in Hp as <-.
    destruct Ho as [->|Ho].
    { exfalso. apply (walk_never_out_of_fuel (size g) g [] target) in Hw; [done|constructor| |simpl; lia].
      by intros s ?%elem_of_nil. }
    split; [|done]. intros Hr. destruct Ho as [(_ & x & Hx & Hc)|(_ & x & Hx & Hne & Hn)].
    + exact (cycle_apart _ _ (apart _ _ _ Hr Hx) Hc).
    + exact (missing_apart _ _ (apart _ _ _ Hr Hx) Hne Hn).
Qed.

Definition demo_edge (i s : string) (caps : list string) : AuthorityEdge :=
  {| issuer := i; subject := s; capability_set := caps; edge_time := 0; valid_until := 10;
     issuer_key_id := "k"; signature := "" |}.
Definition demo_graph : AuthorityGraph :=
  add_edge (add_edge (add_edge ∅ (demo_edge "Governor" "A" ["read"; "write"]))
    (demo_edge "A" "B" ["read"])) (demo_edge "C" "C" []).

Lemma canonical_path_correct_witness :
  exists p, canonical_path demo_graph "B" = Ok p /\ length p = 2%nat /\
    path_from GOVERNOR_AUTHORITY p "B".
Proof.
  pose proof (canonical_path_correct demo_graph "B"
    (wf_graph_add _ _ (wf_graph_add _ _ (wf_graph_add _ _ wf_graph_empty)))) as H.
  destruct (canonical_path demo_graph "B") as [p|e] eqn:Hp; [|vm_compute in Hp; discriminate Hp].
  exists p. split; [reflexivity|]. split; [|exact (proj1 H)].
  vm_compute in Hp. injection Hp as <-. reflexivity.
Defined.

(** No capability escalates along a path.  The computation succeeds exactly
    when every edge grants a subset of what its issuer holds, starting from the
    vocabulary; it then returns the last edge's set, which is included in every
    set granted on the way. *)
Theorem effective_capabilities_attenuate path :
  match compute_effective_capabilities path with
  | (Some eff, err) => err = None /\
      decreasing CAPABILITY_VOCABULARY (map capability_set path) /\
      eff = List.last (map capability_set path) CAPABILITY_VOCABULARY /\
      (forall e, e ∈ path -> eff ⊆ capability_set e /\ capability_set e ⊆ CAPABILITY_VOCABULARY)
  | (None, err) => err = Some "CapabilityEscalation" /\
      ~ decreasing CAPABILITY_VOCABULARY (map capability_set path)
  end.
Proof.
  unfold compute_effective_capabilities.
  destruct (attenuate_spec CAPABILITY_VOCABULARY path) as [[Hd ->]|[Hd ->]]; [|done].
  split; [done|]. split; [done|]. split; [done|]. intros e He.
  destruct (decreasing_subset _ _ (capability_set e) Hd) as [H1 H2]; [|done].
  by apply list_elem_of_fmap_2.
Qed.

(** The default authority.  For a name the graph does not know,
    [canonical_path_for] registers one Governor edge; the resulting path
    verifies with the whole vocabulary until the edge expires. *)
Theorem default_authority_path {E : Ed25519} {EL : Ed25519Laws E} (g : AuthorityGraph) name now :
  ed_keypair DEFAULT_TEST_PRIVKEY_HEX DEFAULT_TEST_PUBKEY_HEX ->
  g !! name = None -> name <> GOVERNOR_AUTHORITY -> now <= _DEFAULT_VALID_UNTIL ->
  exists e, canonical_path_for g name = (Ok [e], add_edge g e) /\ subject e = name /\
    verify_authority_chain_with_capabilities [e] DEFAULT_TEST_PUBKEY_HEX (Some now)
    = (Some CAPABILITY_VOCABULARY, None).
Proof.
  intros Hk Hg Hn Hnow.
  assert (str_eqb name GOVERNOR_AUTHORITY = false) as Hne.
  { destruct (str_eqb name _) eqn:Hx; [by apply str_eqb_spec in Hx|done]. }
  destruct (sign_authority_edge_verifies GOVERNOR_AUTHORITY name default_capability_set 0
    _DEFAULT_VALID_UNTIL _ _ Hk) as (e & Hs & Hi & Hsub & Hc & Hv).
  exists e. unfold canonical_path_for, _ensure_default_edge_for, has_subject.
  rewrite Hne, Hg, Hs. cbn [rbind]. split; [|split; [done|]].
  - f_equal. unfold canonical_path. rewrite Hne.
    assert (size (add_edge g e) = S (size g)) as ->.
    { unfold add_edge. by rewrite Hsub, map_size_insert_None. }
    cbn [walk]. rewrite Hne. simpl mem_str. unfold add_edge.
    rewrite Hsub, lookup_insert_eq. cbn. rewrite Hi. by destruct (size g).
  - unfold verify_authority_chain_with_capabilities, verify_canonical_path, verify_edges.
    rewrite Hi, str_eqb_refl. cbn [negb]. rewrite Hv.
    destruct (Z.ltb_spec _DEFAULT_VALID_UNTIL now); [lia|].
    unfold compute_effective_capabilities. simpl. rewrite Hc. reflexivity.
Qed.

Lemma default_authority_path_witness :
  exists e, @canonical_path_for ed_demo ∅ "operator" = (Ok [e], add_edge ∅ e) /\
    subject e = "operator" /\
    @verify_authority_chain_with_capabilities ed_demo [e] DEFAULT_TEST_PUBKEY_HEX (Some 5)
    = (Some CAPABILITY_VOCABULARY, None).
Proof.
  apply (@default_authority_path ed_demo ed_demo_laws ∅ "operator" 5).
  - exact I.
  - reflexivity.
  - discriminate.
  - vm_compute. discriminate.
Defined.
