(* ===== verification/Receipt.v ===== *)
(** Receipts ([ugk/storage/store.py], module level): the record, the full-body
    commitment [h_body] with its eight body versions, the typed effect surface,
    continuation and bridge records, terminal outcomes, and the lexical check of
    migration statements. *)
From S2P Require Import Prelude Json Sha256 BindingM2.

(** Groups of nullable columns, as the dictionaries the code passes around; an
    absent column reads as [None]. *)
Definition cols := list (string * pyval).
Definition col (k : string) (c : cols) : pyval :=
  match dict_get k c with Some v => v | None => PNone end.

Record Receipt := {
  op : string;
  authority : string;
  parameters : pyval;
  intent : string;
  jurisdiction : string;
  confidence : string;
  timestamp : string;
  failed : bool;
  session_dkn : string;
  law_hash : string;
  legend_hash : string;
  warrant_id : string;
  intent_ref : string;
  receipt_id : option Z;
  h_s : string;
  h_c : string;
  h_m : string;
  h_j : option string;
  h_r : string;
  parent_h_r : string;
  mode : string;
  version : Z;
  id_c_s : string;
  id_c_c : string;
  id_c_m : string;
  id_c_j : string;
  h_body : string;
  terminal : cols;
  trace_vector_hash : option string;
  capability : cols;
  effect : cols;
  reconciliation : cols;
  continuation : cols;
  bridge : cols;
}.

(** [_params_json] *)
Definition _params_json (parameters : pyval) : result exn string :=
  json_dumps style_compact_ascii parameters.

(** ** The body commitment *)

Definition core_keys : list string :=
  ["op"; "authority"; "parameters"; "intent"; "jurisdiction"; "confidence"; "timestamp";
   "failed"; "session_dkn"; "law_hash"; "legend_hash"; "warrant_id"; "intent_ref";
   "h_s"; "h_c"; "h_m"; "h_j"; "h_r"; "parent_h_r"; "mode"; "version";
   "id_c_s"; "id_c_c"; "id_c_m"; "id_c_j"].

Definition core_members (r : Receipt) : list (string * pyval) :=
  [("op", PStr (op r)); ("authority", PStr (authority r)); ("parameters", parameters r);
   ("intent", PStr (intent r)); ("jurisdiction", PStr (jurisdiction r));
   ("confidence", PStr (confidence r)); ("timestamp", PFloat (timestamp r));
   ("failed", PBool (failed r)); ("session_dkn", PStr (session_dkn r));
   ("law_hash", PStr (law_hash r)); ("legend_hash", PStr (legend_hash r));
   ("warrant_id", PStr (warrant_id r)); ("intent_ref", PStr (intent_ref r));
   ("h_s", PStr (h_s r)); ("h_c", PStr (h_c r)); ("h_m", PStr (h_m r));
   ("h_j", PStr (match h_j r with Some s => s | None => "" end));
   ("h_r", PStr (h_r r)); ("parent_h_r", PStr (parent_h_r r)); ("mode", PStr (mode r));
   ("version", PInt (version r)); ("id_c_s", PStr (id_c_s r)); ("id_c_c", PStr (id_c_c r));
   ("id_c_m", PStr (id_c_m r)); ("id_c_j", PStr (id_c_j r))].

Definition terminal_keys : list string :=
  ["terminal_outcome"; "terminal_outcome_model_id"; "terminal_outcome_reason"].
Definition capability_keys : list string :=
  ["h_cap"; "capability_evidence_model_id"; "capability_ledger_hash";
   "capability_registry_version"; "capability_scope_id"].
Definition effect_keys : list string :=
  ["effect_atomicity"; "effect_atomicity_model_id"; "effect_phase"; "effect_prepare_ref";
   "effect_compensate_ref"; "effect_idempotency_key";
   "effect_compensation_idempotency_key"; "effect_abort_reason"; "effect_gate_admit_ref"].
Definition reconciliation_keys : list string :=
  ["reconciliation_grade"; "reconciliation_warrant_snapshot"].
Definition continuation_keys : list string :=
  ["continuation_id"; "continuation_op"; "continuation_authority"; "continuation_parameters";
   "continuation_jurisdiction"; "continuation_expiry_basis"; "continuation_state";
   "continuation_model_id"].
Definition bridge_keys : list string :=
  ["bridge_record_id"; "bridge_source_regime_ref"; "bridge_target_regime_ref";
   "bridge_transformation_ref"; "bridge_downgrade_reason"; "bridge_preserved_evidence_ref"].

Definition group (keys : list string) (c : cols) : list (string * pyval) :=
  map (fun k => (k, col k c)) keys.

Definition from_version (v n : Z) (m : list (string * pyval)) : list (string * pyval) :=
  if n <=? v then m else [].

Definition body_members (r : Receipt) : list (string * pyval) :=
  let v := version r in
  core_members r
  ++ from_version v 2 (group terminal_keys (terminal r))
  ++ from_version v 3 (group capability_keys (capability r))
  ++ from_version v 4 (group effect_keys (effect r))
  ++ from_version v 6 (group reconciliation_keys (reconciliation r))
  ++ from_version v 7 (group continuation_keys (continuation r))
  ++ from_version v 8 (group bridge_keys (bridge r)).

Definition body_tag (v : Z) : string :=
  if 8 <=? v then "UGK-BODY-v8" else if 7 <=? v then "UGK-BODY-v7"
  else if 6 <=? v then "UGK-BODY-v6" else if 5 <=? v then "UGK-BODY-v5"
  else if 4 <=? v then "UGK-BODY-v4" else if 3 <=? v then "UGK-BODY-v3"
  else if 2 <=? v then "UGK-BODY-v2" else "UGK-BODY-v1".

Section h_body.
Context {U : Unicode}.

(** [compute_h_body] of the keyword arguments a receipt holds; [h_body],
    [receipt_id] and [trace_vector_hash] are not among them. *)
Definition compute_h_body (r : Receipt) : result exn string :=
  let* b := _canonical_json (PDict (body_members r)) in
  Ok (sha256_hex (body_tag (version r) +:+ b)).
End h_body.

(** ** Python values as conditions *)

Definition truthy (v : pyval) : bool :=
  match v with
  | PNone => false
  | PBool b => b
  | PInt z => negb (z =? 0)
  | PFloat r => negb (mem_str r ["0.0"; "-0.0"])
  | PStr s => negb (str_eqb s "")
  | PList l | PTuple l => match l with [] => false | _ => true end
  | PDict d => match d with [] => false | _ => true end
  | PObj => true
  end.

(** [==]: a bool equals the int it is; dictionaries compare as maps. *)
Fixpoint pyval_eqb (v w : pyval) {struct v} : bool :=
  match v, w with
  | PNone, PNone => true
  | PBool a, PBool b => Bool.eqb a b
  | PBool a, PInt z | PInt z, PBool a => Z.b2z a =? z
  | PInt a, PInt b => a =? b
  | PFloat a, PFloat b | PStr a, PStr b => str_eqb a b
  | PList a, PList b | PTuple a, PTuple b =>
      (fix go (a b : list pyval) : bool :=
        match a, b with
        | [], [] => true
        | x :: a', y :: b' => pyval_eqb x y && go a' b'
        | _, _ => false
        end) a b
  | PDict a, PDict b =>
      (length a =? length b)%nat &&
      (fix go (a : list (string * pyval)) : bool :=
        match a with
        | [] => true
        | (k, x) :: a' =>
            match dict_get k b with Some y => pyval_eqb x y | None => false end && go a'
        end) a
  | _, _ => false
  end.

Definition py_get (k : string) (v : pyval) : pyval :=
  match v with PDict d => col k d | _ => PNone end.
Definition is_none (v : pyval) : bool := match v with PNone => true | _ => false end.
Definition nonempty_str (v : pyval) : option string :=
  match v with PStr s => if str_eqb s "" then None else Some s | _ => None end.

(** [v in frozenset of strings]: lists and dictionaries are not hashable. *)
Definition in_domain (v : pyval) (dom : list string) : result exn bool :=
  match v with
  | PStr s => Ok (mem_str s dom)
  | PList _ | PDict _ => Err (Exn TypeError "unhashable type")
  | _ => Ok false
  end.

(** ** Terminal outcomes *)

Definition TERMINAL_OUTCOME_MODEL_ID := "terminal_outcome_model_v1".
Definition TERMINAL_OUTCOME_DOMAIN : list string :=
  ["ADMIT"; "REFUSE"; "DEFER"; "STRUCTURAL_ERROR"; "BRIDGE"; "CRISIS"].
Definition EMITTABLE_OUTCOMES : list string := ["ADMIT"; "REFUSE"; "STRUCTURAL_ERROR"].

Definition _derive_committed_outcome (op : string) (failed : bool) (override : option string)
    (intent : string) : string * string :=
  match override with
  | Some o => (o, intent)
  | None =>
      if str_eqb op "gate_refuse" then ("REFUSE", "constitutional-refusal")
      else if str_eqb op "protocol_error" then
        ("STRUCTURAL_ERROR", if str_eqb intent "" then "protocol_error" else intent)
      else ("ADMIT", if failed then "admitted-effect-aborted" else "all-surfaces-pass")
  end.

(** ** Continuations *)

Definition CONTINUATION_RECORD_MODEL_ID := "continuation_record_model_v1".
Definition CONTINUATION_STATE_DOMAIN : list string :=
  ["HELD"; "RESUMED"; "RESOLVED"; "EXPIRED"; "REFUSED"].
Definition CONTINUATION_EXPIRY_KIND_DOMAIN : list string :=
  ["receipt_height"; "explicit_trigger"].

(** [_canon_eb] *)
Definition _canon_eb (v : pyval) : result exn pyval :=
  match v with
  | PNone => Ok PNone
  | _ => let* t := json_dumps style_compact_ascii v in Ok (PStr t)
  end.

Section continuation.
Context {U : Unicode}.

Definition compute_continuation_id (op authority parameters jurisdiction anchor : pyval) :
    result exn string :=
  let* b := _canonical_json (PDict
    [("op", op); ("authority", authority); ("parameters", parameters);
     ("jurisdiction", jurisdiction); ("anchor", anchor)]) in
  Ok (sha256_hex ("UGK-CONT-v1" +:+ b)).

(** [set(eb.keys()) == {"kind", "value"}] *)
Definition expiry_shape (eb : pyval) : bool :=
  match eb with
  | PDict d => (length d =? 2)%nat && mem_str "kind" (map fst d) && mem_str "value" (map fst d)
  | _ => false
  end.

Definition is_int (v : pyval) : bool :=
  match v with PInt _ | PBool _ => true | _ => false end.

(** The identifier: recomputed at emission, carried at a later transition. *)
Definition continuation_id_of (c : pyval) : result exn pyval :=
  let cid := py_get "id" c in
  let anchor := py_get "anchor" c in
  if negb (is_none anchor) then
    let* expect := compute_continuation_id (py_get "op" c) (py_get "authority" c)
      (py_get "parameters" c) (py_get "jurisdiction" c) anchor in
    if negb (is_none cid) && negb (pyval_eqb cid (PStr expect)) then
      Err (Exn ValueError "continuation_id is not the deterministic recomputation")
    else Ok (PStr expect)
  else match nonempty_str cid with
       | Some s => Ok (PStr s)
       | None => Err (Exn ValueError "continuation_id required when no anchor is provided")
       end.

Definition _validate_continuation (c : pyval) : result exn cols :=
  guard* is_pydict c else Exn ValueError "continuation must be a dict" in
  let state := py_get "state" c in
  let* st_ok := in_domain state CONTINUATION_STATE_DOMAIN in
  guard* st_ok else Exn ValueError "continuation_state not in closed domain" in
  let model_id := match c with
    | PDict d => match dict_get "model_id" d with
                 | Some m => m | None => PStr CONTINUATION_RECORD_MODEL_ID end
    | _ => PNone end in
  guard* pyval_eqb model_id (PStr CONTINUATION_RECORD_MODEL_ID)
    else Exn ValueError "continuation_model_id" in
  let eb := py_get "expiry_basis" c in
  guard* expiry_shape eb else Exn ValueError "continuation_expiry_basis must be a dict" in
  let* kind_ok := in_domain (py_get "kind" eb) CONTINUATION_EXPIRY_KIND_DOMAIN in
  guard* kind_ok else Exn ValueError "continuation expiry kind not in closed domain" in
  guard* negb (pyval_eqb (py_get "kind" eb) (PStr "receipt_height")
               && negb (is_int (py_get "value" eb)))
    else Exn ValueError "receipt_height expiry value must be an int" in
  match nonempty_str (py_get "op" c) with
  | None => Err (Exn ValueError "continuation_op must be a non-empty string")
  | Some op =>
      let* cid := continuation_id_of c in
      let* cj := _canon_eb eb in
      let auth := py_get "authority" c in
      let* ca := if is_pystr auth then Ok auth else _canon_eb auth in
      let* cp := _canon_eb (py_get "parameters" c) in
      Ok [("continuation_id", cid); ("continuation_op", PStr op);
          ("continuation_authority", ca); ("continuation_parameters", cp);
          ("continuation_jurisdiction", py_get "jurisdiction" c);
          ("continuation_expiry_basis", cj); ("continuation_state", state);
          ("continuation_model_id", model_id)]
  end.

(** [int(x)] on the values an expiry basis can hold. *)
Definition py_int (v : pyval) : result exn Z :=
  match v with
  | PInt z => Ok z
  | PBool b => Ok (Z.b2z b)
  | PStr s => match py_int_str s with
              | Some z => Ok z | None => Err (Exn ValueError "invalid literal for int()") end
  | _ => Err (Exn TypeError "int() argument")
  end.

Definition continuation_expired (expiry_basis : pyval) (current_height : Z)
    (committed_triggers : list string) : result exn bool :=
  match expiry_basis with
  | PNone => Ok false
  | _ =>
      let* eb := match expiry_basis with
        | PStr s => match json_loads s with
                    | Some v => Ok v | None => Err (Exn ValueError "JSONDecodeError") end
        | v => Ok v end in
      match py_get "kind" eb with
      | PStr "receipt_height" =>
          let* v := py_int (py_get "value" eb) in Ok (v <=? current_height)
      | PStr "explicit_trigger" => in_domain (py_get "value" eb) committed_triggers
      | _ => Err (Exn ValueError "unknown continuation expiry kind")
      end
  end.
End continuation.

(** ** Bridge records *)

Definition BRIDGE_RECORD_MODEL_ID := "bridge_record_model_v1".
Definition BRIDGE_DOWNGRADE_TAXONOMY : list string :=
  ["jurisdiction_crossing"; "semantic_downgrade"; "regime_translation"].
Definition _BRIDGE_REQUIRED_REFS : list string :=
  ["bridge_source_regime_ref"; "bridge_target_regime_ref"; "bridge_transformation_ref";
   "bridge_preserved_evidence_ref"].

Definition _validate_bridge_record (b : pyval) : result exn cols :=
  guard* is_pydict b else Exn ValueError "bridge surface must be a dict" in
  guard* match nonempty_str (py_get "bridge_record_id" b) with Some _ => true | None => false end
    else Exn ValueError "bridge_record_id required, non-empty" in
  guard* forallb (fun k => match nonempty_str (py_get k b) with Some _ => true | None => false end)
           _BRIDGE_REQUIRED_REFS
    else Exn ValueError "bridge surface field required, non-empty string" in
  let dr := py_get "bridge_downgrade_reason" b in
  let* dr_ok := in_domain dr BRIDGE_DOWNGRADE_TAXONOMY in
  guard* dr_ok else Exn ValueError "bridge_downgrade_reason not in closed taxonomy" in
  Ok (map (fun k => (k, py_get k b)) bridge_keys).

(** [_assert_emittable]; a [bridge_verifier] gives a verdict or raises. *)
Definition _assert_emittable {U : Unicode} (outcome : string) (continuation bridge : pyval)
    (bridge_verifier : option (pyval -> result exn bool)) : result exn unit :=
  if negb (mem_str outcome TERMINAL_OUTCOME_DOMAIN) then
    Err (Exn ValueError "terminal_outcome not in closed LM-2 domain")
  else if str_eqb outcome "DEFER" then
    guard* is_pydict continuation && pyval_eqb (py_get "state" continuation) (PStr "HELD")
      else Exn ValueError "DEFER requires a valid HELD continuation record" in
    let* _ := _validate_continuation continuation in Ok tt
  else if str_eqb outcome "BRIDGE" then
    guard* is_pydict bridge && truthy bridge
      else Exn ValueError "BRIDGE requires a committed v8 bridge surface" in
    match bridge_verifier with
    | None => Err (Exn ValueError "BRIDGE requires BRIDGE-BINDING verification at emit")
    | Some verify =>
        let* valid := verify bridge in
        guard* valid else Exn ValueError "BRIDGE refused: fails BRIDGE-BINDING" in Ok tt
    end
  else if negb (mem_str outcome EMITTABLE_OUTCOMES) then
    Err (Exn ValueError "terminal_outcome is RESERVED; not emittable")
  else Ok tt.

(** ** The typed effect surface *)

Definition EFFECT_ATOMICITY_MODEL_ID := "effect_atomicity_model_v1".
Definition EFFECT_ATOMICITY_DOMAIN : list string :=
  ["pure"; "store_local"; "external_reversible"; "external_irreversible"; "non_atomic"].
Definition EFFECT_PHASE_DOMAIN : list string :=
  ["prepare"; "commit"; "abort"; "compensate"; "compensated"; "compensation_failed"].

(** [EffectDomainError], a ValueError. *)
Definition EffectDomainError (what : string) : exn :=
  Exn ValueError ("EffectDomainError: " +:+ what).

(** Marker key in the parameters, typed column. *)
Definition _EFFECT_MARKER_MAP : list (string * string) :=
  [("effect_atomicity", "effect_atomicity"); ("phase", "effect_phase");
   ("prepare_ref", "effect_prepare_ref"); ("compensate_ref", "effect_compensate_ref");
   ("idempotency_key", "effect_idempotency_key");
   ("compensation_idempotency_key", "effect_compensation_idempotency_key");
   ("abort_reason", "effect_abort_reason"); ("gate_admit_ref", "effect_gate_admit_ref")].
Definition _EFFECT_MARKER_KEYS : list string := map fst _EFFECT_MARKER_MAP.

(** The closed-domain checks on an atomicity class and a phase. *)
Definition check_effect_domain (ea ph : pyval) : result exn unit :=
  let* a := in_domain ea EFFECT_ATOMICITY_DOMAIN in
  guard* a else EffectDomainError "effect_atomicity not in closed domain" in
  if is_none ph then Ok tt else
  let* p := in_domain ph EFFECT_PHASE_DOMAIN in
  guard* p else EffectDomainError "effect_phase not in closed domain" in Ok tt.

Definition _derive_effect_columns (parameters : pyval) : result exn (option cols) :=
  match parameters with
  | PDict d =>
      let ea := col "effect_atomicity" d in
      if is_none ea then Ok None else
      let* _ := check_effect_domain ea (col "phase" d) in
      Ok (Some (("effect_atomicity_model_id", PStr EFFECT_ATOMICITY_MODEL_ID)
                :: map (fun mc => (snd mc, col (fst mc) d)) _EFFECT_MARKER_MAP))
  | _ => Ok None
  end.

Definition _derive_effect_markers (columns : cols) : cols :=
  List.filter (fun kv => truthy (snd kv))
    (map (fun mc => (fst mc, col (snd mc) columns)) _EFFECT_MARKER_MAP).

Definition strip_markers (d : cols) : cols :=
  List.filter (fun kv => negb (mem_str (fst kv) _EFFECT_MARKER_KEYS)) d.

(** A caller marker that differs from its canonical column. *)
Definition diverging (pin derived : cols) : bool :=
  existsb (fun mk => match dict_get mk pin with
                     | Some v => negb (pyval_eqb v (col mk derived))
                     | None => false
                     end) _EFFECT_MARKER_KEYS.

Definition dict_part (v : pyval) : cols := match v with PDict d => d | _ => [] end.

(** [_resolve_effect_surface]: the typed columns and the committed parameters. *)
Definition _resolve_effect_surface (parameters : pyval) (effect_columns : option cols)
    (mirror_markers : bool) : result exn (option cols * pyval) :=
  match effect_columns with
  | None =>
      let* cs := _derive_effect_columns parameters in
      if mirror_markers || (match cs with None => true | _ => false end)
      then Ok (cs, parameters)
      else Ok (cs, PDict (strip_markers (dict_part parameters)))
  | Some ec =>
      let ea := col "effect_atomicity" ec in
      if is_none ea then Ok (None, parameters) else
      let* _ := check_effect_domain ea (col "effect_phase" ec) in
      let cs := ("effect_atomicity_model_id", PStr EFFECT_ATOMICITY_MODEL_ID)
                :: map (fun mc => (snd mc, col (snd mc) ec)) _EFFECT_MARKER_MAP in
      let derived := _derive_effect_markers cs in
      let pin := dict_part parameters in
      if diverging pin derived then
        Err (EffectDomainError "parameter marker diverges from the canonical typed column")
      else
        let committed := strip_markers pin in
        Ok (Some cs, PDict (if mirror_markers
                            then foldl (fun d kv => dict_set (fst kv) (snd kv) d) committed derived
                            else committed))
  end.

(** Version 4 receipts only: the columns equal the markers they mirror. *)
Definition verify_effect_column_marker_consistency (r : Receipt) : bool :=
  if negb (version r =? 4) then true
  else
    let p := dict_part (parameters r) in
    let dom v l := match in_domain v l with Ok b => b | Err _ => false end in
    forallb (fun mc => pyval_eqb (col (snd mc) (effect r)) (col (fst mc) p)) _EFFECT_MARKER_MAP
    && pyval_eqb (col "effect_atomicity_model_id" (effect r)) (PStr EFFECT_ATOMICITY_MODEL_ID)
    && dom (col "effect_atomicity" (effect r)) EFFECT_ATOMICITY_DOMAIN
    && (is_none (col "effect_phase" (effect r))
        || dom (col "effect_phase" (effect r)) EFFECT_PHASE_DOMAIN).

(** ** Migration statements *)

Definition upper_char (c : ascii) : ascii :=
  let n := N_of_ascii c in
  if ((97 <=? n) && (n <=? 122))%N then ascii_of_N (n - 32) else c.
Fixpoint upper (s : string) : string :=
  match s with EmptyString => "" | String c s' => String (upper_char c) (upper s') end.

(** [" ".join(s.strip().split())]: runs of white space become one space. *)
Fixpoint squeeze (pending : bool) (s : string) : string :=
  match s with
  | EmptyString => ""
  | String c s' =>
      if py_space c then squeeze true s'
      else if pending then String " " (String c (squeeze false s'))
      else String c (squeeze false s')
  end.
Definition normalize_ws (s : string) : string := squeeze false (lstrip s).

Fixpoint rstrip_semi (s : string) : string :=
  match s with
  | EmptyString => ""
  | String c s' =>
      match rstrip_semi s' with
      | EmptyString => if Ascii.eqb c ";" then "" else String c ""
      | t => String c t
      end
  end.

(** [sub in s] *)
Fixpoint contains (sub s : string) : bool :=
  starts_with sub s
  || match s with EmptyString => false | String _ s' => contains sub s' end.

Definition _FORBIDDEN_MIGRATION_TOKENS : list string :=
  ["DROP TABLE"; "DROP INDEX"; "DROP COLUMN"; "DELETE"; "UPDATE"; "INSERT"; "TRUNCATE";
   "PRAGMA"; "RENAME"; "REPLACE"; "ATTACH"; "DETACH"].

(** The statement as the check reads it. *)
Definition migration_text (stmt : string) : string :=
  " " +:+ upper (rstrip_semi (normalize_ws stmt)) +:+ " ".

(** [validate_migration_statement]: [None] is acceptance. *)
Definition validate_migration_statement (stmt : pyval) : option string :=
  match stmt with
  | PStr stmt =>
      if str_eqb (strip stmt) "" then Some "empty or non-string migration statement" else
      let s := normalize_ws stmt in
      if contains ";" (rstrip_semi s) then
        Some "multiple statements per migration entry not permitted" else
      let u := migration_text stmt in
      if negb (starts_with " CREATE TABLE " u || starts_with " CREATE INDEX " u
               || starts_with " CREATE UNIQUE INDEX " u || starts_with " ALTER TABLE " u) then
        Some "only CREATE TABLE / CREATE INDEX / safe ALTER TABLE ADD COLUMN permitted" else
      match find (fun tok => contains (" " +:+ tok +:+ " ") u || contains (" " +:+ tok +:+ "(") u)
              _FORBIDDEN_MIGRATION_TOKENS with
      | Some tok => Some ("forbidden operation in migration statement: " +:+ tok)
      | None =>
          if starts_with " ALTER TABLE " u then
            if negb (contains " ADD COLUMN " u) then
              Some "ALTER TABLE permitted only as ADD COLUMN"
            else if contains "NOT NULL" u && negb (contains "DEFAULT" u) then
              Some "ALTER TABLE ADD COLUMN NOT NULL without DEFAULT can break receipt writes"
            else None
          else None
      end
  | _ => Some "empty or non-string migration statement"
  end.

Example migration_examples :
  map validate_migration_statement
    [PStr "create  table t (x int);"; PStr "ALTER TABLE receipts ADD COLUMN z TEXT NOT NULL";
     PStr "DROP TABLE receipts"; PStr "CREATE TABLE a(x); DROP TABLE b"; PInt 3;
     PStr "ALTER TABLE receipts ADD COLUMN z TEXT DEFAULT 'a'"]
  = [None; Some "ALTER TABLE ADD COLUMN NOT NULL without DEFAULT can break receipt writes";
     Some "only CREATE TABLE / CREATE INDEX / safe ALTER TABLE ADD COLUMN permitted";
     Some "multiple statements per migration entry not permitted";
     Some "empty or non-string migration statement"; None].
Proof. vm_compute. reflexivity. Qed.

(** * The body commitment binds the body *)

Lemma body_keys_plain r : plain_keys (map fst (body_members r)) = true.
Proof.
  unfold body_members, from_version, group.
  destruct (2 <=? version r), (3 <=? version r), (4 <=? version r), (6 <=? version r),
    (7 <=? version r), (8 <=? version r); reflexivity.
Qed.

Lemma body_tag_length v : String.length (body_tag v) = 11%nat.
Proof. unfold body_tag. by repeat case_match. Qed.

Section body_facts.
Context {U : Unicode} {UL : UnicodeLaws U}.

(** The byte string [compute_h_body] hashes. *)
Definition h_body_preimage (r : Receipt) : string :=
  match _canonical_json (PDict (body_members r)) with
  | Ok b => body_tag (version r) +:+ b | Err _ => "" end.

(** Two receipts whose bodies have the same normal form, member by member. *)
Definition same_body (r1 r2 : Receipt) : Prop :=
  forall k, option_map norm (dict_get k (body_members r1)) =
            option_map norm (dict_get k (body_members r2)).

Lemma h_body_determines r1 r2 h :
  compute_h_body r1 = Ok h -> compute_h_body r2 = Ok h ->
  no_collision [h_body_preimage r1; h_body_preimage r2] -> same_body r1 r2.
Proof.
  unfold compute_h_body, h_body_preimage.
  intros (b1 & E1 & H1)%rbind_ok (b2 & E2 & H2)%rbind_ok Hnc.
  rewrite E1, E2 in Hnc. apply Ok_inj in H1, H2. subst h.
  unfold sha256_hex in H2. apply hex_inj in H2. symmetry in H2.
  apply Hnc in H2; [|by left|by right; left].
  apply string_app_inj in H2 as [_ <-]; [|by rewrite !body_tag_length].
  intros k. apply (canonical_field k _ _ b1 E1 E2); apply body_keys_plain.
Qed.

Lemma body_member_core r k v :
  In (k, v) (core_members r) -> dict_get k (body_members r) = Some v.
Proof.
  assert (Hgen : forall (l m : list (string * pyval)), NoDup (map fst l) ->
    In (k, v) l -> dict_get k (l ++ m) = Some v).
  { intros l m Hnd. induction l as [|[k' v'] l IH]; [done|]. simpl in Hnd |- *.
    apply NoDup_cons in Hnd as [Hk Hnd]. intros [[= -> ->]|Hin].
    - by rewrite str_eqb_refl.
    - destruct (str_eqb k k') eqn:E; [|by apply IH].
      apply str_eqb_spec in E as ->. exfalso. apply Hk.
      apply list_elem_of_In. by apply (in_map fst) in Hin. }
  unfold body_members. apply Hgen.
  apply (bool_decide_unpack _). vm_compute. exact I.
Qed.

(** The committed members, one by one. *)
Lemma same_body_core r1 r2 : same_body r1 r2 ->
  version r1 = version r2 /\ nfc (op r1) = nfc (op r2) /\
  nfc (authority r1) = nfc (authority r2) /\ norm (parameters r1) = norm (parameters r2) /\
  timestamp r1 = timestamp r2 /\ failed r1 = failed r2 /\
  nfc (h_r r1) = nfc (h_r r2) /\ nfc (parent_h_r r1) = nfc (parent_h_r r2).
Proof.
  intros H.
  assert (Hk : forall k v1 v2, In (k, v1) (core_members r1) -> In (k, v2) (core_members r2) ->
    norm v1 = norm v2).
  { intros k v1 v2 H1 H2. specialize (H k).
    rewrite (body_member_core r1 k v1 H1), (body_member_core r2 k v2 H2) in H. by injection H. }
  assert (Hver := Hk "version" (PInt (version r1)) (PInt (version r2)) ltac:(simpl; tauto) ltac:(simpl; tauto)).
  assert (Hop := Hk "op" (PStr (op r1)) (PStr (op r2)) ltac:(simpl; tauto) ltac:(simpl; tauto)).
  assert (Hau := Hk "authority" (PStr (authority r1)) (PStr (authority r2)) ltac:(simpl; tauto) ltac:(simpl; tauto)).
  assert (Hpa := Hk "parameters" (parameters r1) (parameters r2) ltac:(simpl; tauto) ltac:(simpl; tauto)).
  assert (Hts := Hk "timestamp" (PFloat (timestamp r1)) (PFloat (timestamp r2)) ltac:(simpl; tauto) ltac:(simpl; tauto)).
  assert (Hfa := Hk "failed" (PBool (failed r1)) (PBool (failed r2)) ltac:(simpl; tauto) ltac:(simpl; tauto)).
  assert (Hhr := Hk "h_r" (PStr (h_r r1)) (PStr (h_r r2)) ltac:(simpl; tauto) ltac:(simpl; tauto)).
  assert (Hph := Hk "parent_h_r" (PStr (parent_h_r r1)) (PStr (parent_h_r r2)) ltac:(simpl; tauto) ltac:(simpl; tauto)).
  unfold norm in *. simpl in Hver, Hop, Hau, Hts, Hfa, Hhr, Hph.
  repeat split; congruence.
Qed.
End body_facts.

(** * Effect surface *)

Lemma strip_markers_get d k :
  dict_get k (strip_markers d) = if mem_str k _EFFECT_MARKER_KEYS then None else dict_get k d.
Proof.
  unfold strip_markers. induction d as [|[k' v] d IH]; cbn [List.filter dict_get fst].
  - by case_match.
  - destruct (mem_str k' _EFFECT_MARKER_KEYS) eqn:Hk'; cbn [negb dict_get];
      destruct (str_eqb k k') eqn:E; try (apply str_eqb_spec in E as ->; rewrite Hk');
      rewrite ?IH, ?Hk'; done.
Qed.

Lemma not_diverging pin derived mk v :
  diverging pin derived = false -> mk ∈ _EFFECT_MARKER_KEYS -> dict_get mk pin = Some v ->
  pyval_eqb v (col mk derived) = true.
Proof.
  unfold diverging. intros H Hmk Hv.
  destruct (pyval_eqb v (col mk derived)) eqn:E; [done|]. exfalso.
  assert (existsb (fun mk => match dict_get mk pin with
    | Some v => negb (pyval_eqb v (col mk derived)) | None => false end) _EFFECT_MARKER_KEYS = true)
    as Ht; [|congruence].
  apply existsb_exists. exists mk. split; [by apply list_elem_of_In|]. by rewrite Hv, E.
Qed.

(** * Reading a canonical dictionary *)

Lemma py_get_canon k d : NoDup (map fst d) ->
  py_get k (canon (PDict d)) = canon (py_get k (PDict d)).
Proof.
  intros Hnd. cbn [canon py_get]. unfold col.
  rewrite <- (dict_get_perm k (map (fun kv => (fst kv, canon (snd kv))) d));
    [|by rewrite map_map|symmetry; apply sort_by_perm].
  rewrite dict_get_map. by destruct (dict_get k d).
Qed.

Lemma canon_eb_loads v t : v <> PNone -> pyval_ok v = true -> _canon_eb v = Ok t ->
  exists s, t = PStr s /\ json_loads s = Some (canon v).
Proof.
  intros Hv Hok. unfold _canon_eb. destruct v; try done;
    intros (tx & Htx & <-%Ok_inj)%rbind_ok; exists tx; (split; [done|]);
    apply (json_loads_dumps style_compact_ascii style_compact_ascii_wf _ tx Hok Htx).
Qed.

Lemma pyval_eqb_str v s : pyval_eqb v (PStr s) = true <-> v = PStr s.
Proof.
  destruct v; simpl; try (split; [done|intros [=]]).
  rewrite str_eqb_spec. split; [by intros ->|by intros [= ->]].
Qed.

(** What a validated continuation record went through. *)
Lemma validate_continuation_ok {U : Unicode} c cs : _validate_continuation c = Ok cs ->
  (exists st, py_get "state" c = PStr st /\ st ∈ CONTINUATION_STATE_DOMAIN /\
     col "continuation_state" cs = PStr st) /\
  expiry_shape (py_get "expiry_basis" c) = true /\
  _canon_eb (py_get "expiry_basis" c) = Ok (col "continuation_expiry_basis" cs) /\
  (py_get "kind" (py_get "expiry_basis" c) = PStr "receipt_height" ->
     is_int (py_get "value" (py_get "expiry_basis" c)) = true) /\
  continuation_id_of c = Ok (col "continuation_id" cs).
Proof.
  unfold _validate_continuation. intros H.
  destruct (is_pydict c); [|done].
  apply rbind_ok in H as (b1 & Hst & H). destruct b1; [|done].
  destruct (pyval_eqb _ (PStr CONTINUATION_RECORD_MODEL_ID)); [|done].
  destruct (expiry_shape (py_get "expiry_basis" c)) eqn:Hshape; [|done].
  apply rbind_ok in H as (b2 & _ & H). destruct b2; [|done].
  destruct (negb (pyval_eqb _ _ && _)) eqn:Hint; [|done].
  destruct (nonempty_str (py_get "op" c)) as [o|]; [|done].
  apply rbind_ok in H as (cid & Hcid & H). apply rbind_ok in H as (cj & Hcj & H).
  apply rbind_ok in H as (ca & _ & H). apply rbind_ok in H as (cp & _ & H).
  apply Ok_inj in H. subst cs. split; [|split; [done|split; [exact Hcj|split; [|exact Hcid]]]].
  - destruct (py_get "state" c) as [| | | |st| | | |]; try done. apply Ok_inj in Hst.
    exists st. split; [done|]. split; [by apply mem_str_spec|done].
  - intros Hk. rewrite Hk in Hint. apply negb_true_iff in Hint. simpl in Hint.
    by apply negb_false_iff in Hint.
Qed.

(** * Properties *)

(** C28: [h_body] commits every member of the body, for every version: two
    receipts with one commitment agree on the version and, up to Unicode and
    key-order normal form, on every committed field. *)
Theorem h_body_commits_body {U : Unicode} {UL : UnicodeLaws U} r1 r2 h :
  compute_h_body r1 = Ok h -> compute_h_body r2 = Ok h ->
  no_collision [h_body_preimage r1; h_body_preimage r2] ->
  same_body r1 r2 /\ version r1 = version r2 /\ nfc (op r1) = nfc (op r2) /\
  nfc (authority r1) = nfc (authority r2) /\ norm (parameters r1) = norm (parameters r2) /\
  failed r1 = failed r2.
Proof.
  intros H1 H2 Hnc. pose proof (h_body_determines r1 r2 h H1 H2 Hnc) as Hs.
  split; [done|]. pose proof (same_body_core r1 r2 Hs). tauto.
Qed.

Definition demo_receipt (params : pyval) (v : Z) : Receipt :=
  {| op := "audit"; authority := "operator"; parameters := params; intent := "i";
     jurisdiction := "session"; confidence := "high"; timestamp := "1.5"; failed := false;
     session_dkn := ""; law_hash := ""; legend_hash := ""; warrant_id := ""; intent_ref := "";
     receipt_id := None; h_s := ""; h_c := ""; h_m := ""; h_j := None; h_r := "r";
     parent_h_r := "p"; mode := "strict"; version := v; id_c_s := ""; id_c_c := "";
     id_c_m := ""; id_c_j := ""; h_body := ""; terminal := []; trace_vector_hash := None;
     capability := []; effect := []; reconciliation := []; continuation := []; bridge := [] |}.

Definition demo_h_body : string :=
  match @compute_h_body nfc_id (demo_receipt (PDict [("a", PInt 1); ("b", PTuple [])]) 7) with
  | Ok h => h | Err _ => "" end.

Lemma h_body_commits_body_witness :
  @norm nfc_id (PDict [("a", PInt 1); ("b", PTuple [])])
  = @norm nfc_id (PDict [("b", PList []); ("a", PInt 1)]).
Proof.
  refine (proj1 (proj2 (proj2 (proj2 (proj2 (@h_body_commits_body nfc_id nfc_id_laws
    (demo_receipt (PDict [("a", PInt 1); ("b", PTuple [])]) 7)
    (demo_receipt (PDict [("b", PList []); ("a", PInt 1)]) 7) demo_h_body _ _ _)))))).
  - vm_compute. reflexivity.
  - vm_compute. reflexivity.
  - apply no_collisionb_spec. vm_compute. reflexivity.
Defined.

(** What may be emitted.  A terminal outcome passes the emission check exactly
    when it is ADMIT, REFUSE or STRUCTURAL_ERROR, or DEFER with a valid
    continuation in state HELD, or BRIDGE with a nonempty surface the supplied
    verifier accepts; CRISIS and any other text never pass. *)
Theorem assert_emittable_spec {U : Unicode} outcome cont br verifier :
  _assert_emittable outcome cont br verifier = Ok tt <->
  outcome ∈ EMITTABLE_OUTCOMES \/
  (outcome = "DEFER" /\ py_get "state" cont = PStr "HELD" /\
     exists cs, _validate_continuation cont = Ok cs) \/
  (outcome = "BRIDGE" /\ is_pydict br = true /\ truthy br = true /\
     exists f, verifier = Some f /\ f br = Ok true).
Proof.
  unfold _assert_emittable.
  destruct (str_eqb outcome "DEFER") eqn:Hd.
  { apply str_eqb_spec in Hd as ->. simpl negb.
    assert (("DEFER" ∈ EMITTABLE_OUTCOMES) -> False) as Hne
      by (rewrite <- mem_str_spec; vm_compute; discriminate).
    destruct (is_pydict cont) eqn:Hc; cbn [andb].
    - destruct (pyval_eqb (py_get "state" cont) (PStr "HELD")) eqn:Hh.
      + apply pyval_eqb_str in Hh. destruct (_validate_continuation cont) as [cs|e]; simpl;
          split; intros Hx; naive_solver.
      + split; [done|]. intros [|[(_ & Hh' & _)|]]; [done| |naive_solver].
        rewrite Hh' in Hh. by rewrite (proj2 (pyval_eqb_str _ _) eq_refl) in Hh.
    - split; [done|]. intros [|[(_ & Hh' & _)|]]; [done| |naive_solver].
      destruct cont; done. }
  destruct (str_eqb outcome "BRIDGE") eqn:Hb.
  { apply str_eqb_spec in Hb as ->. simpl negb.
    assert (("BRIDGE" ∈ EMITTABLE_OUTCOMES) -> False) as Hne
      by (rewrite <- mem_str_spec; vm_compute; discriminate).
    assert (Hiff : forall P Q : Prop, (P -> Q) ->
      (Q -> exists f, verifier = Some f /\ f br = Ok true /\ is_pydict br = true /\
              truthy br = true) ->
      ((exists f, verifier = Some f /\ f br = Ok true /\ is_pydict br = true /\
          truthy br = true) -> P) -> P <-> Q) by tauto.
    apply Hiff; clear Hiff.
    - intros H. right. right. destruct (is_pydict br && truthy br) eqn:Hs; [|done].
      apply andb_true_iff in Hs as [? ?]. destruct verifier as [f|]; [|done].
      apply rbind_ok in H as (v & Hf & H). destruct v; [|done]. eauto 8.
    - intros [?|[[? _]|(_ & ? & ? & f & ? & ?)]]; [done|done|]. by exists f.
    - intros (f & -> & Hf & -> & ->). simpl. by rewrite Hf. }
  assert (outcome <> "DEFER") by (intros ->; by rewrite str_eqb_refl in Hd).
  assert (outcome <> "BRIDGE") by (intros ->; by rewrite str_eqb_refl in Hb).
  destruct (mem_str outcome EMITTABLE_OUTCOMES) eqn:He; cbn [negb].
  - pose proof (proj1 (mem_str_spec _ _) He) as Hin.
    assert (mem_str outcome TERMINAL_OUTCOME_DOMAIN = true) as ->.
    { apply mem_str_spec. unfold EMITTABLE_OUTCOMES, TERMINAL_OUTCOME_DOMAIN in *.
      rewrite !elem_of_cons in *. tauto. }
    split; [by left|done].
  - apply mem_str_false in He. destruct (mem_str outcome TERMINAL_OUTCOME_DOMAIN);
      (split; [done|naive_solver]).
Qed.

(** A held record expires by height alone.  The basis a validated
    continuation commits is canonical JSON text; read back at any height, a
    record of kind [receipt_height] is expired exactly from the recorded height
    on, whatever triggers are committed. *)
Theorem continuation_expires_at_height {U : Unicode} c cs height triggers :
  _validate_continuation c = Ok cs ->
  pyval_ok (py_get "expiry_basis" c) = true ->
  py_get "kind" (py_get "expiry_basis" c) = PStr "receipt_height" ->
  exists h, py_int (py_get "value" (py_get "expiry_basis" c)) = Ok h /\
    continuation_expired (col "continuation_expiry_basis" cs) height triggers
    = Ok (h <=? height).
Proof.
  intros (_ & Hshape & Hcj & Hint & _)%validate_continuation_ok Hok Hkind.
  specialize (Hint Hkind).
  destruct (py_get "expiry_basis" c) as [| | | | | | |d|] eqn:Heb; try done.
  destruct (canon_eb_loads (PDict d) _ ltac:(done) Hok Hcj) as (s & Hs & Hl). rewrite Hs.
  unfold continuation_expired. rewrite Hl. cbn [rbind].
  cbn [pyval_ok] in Hok. apply andb_true_iff in Hok as [Hnd%bool_decide_eq_true _].
  rewrite !py_get_canon by done. rewrite Hkind. cbn [canon].
  destruct (py_get "value" (PDict d)) as [|b|z| | | | | |]; try done; eexists; split; done.
Qed.

Definition demo_continuation : pyval := PDict
  [("state", PStr "HELD"); ("op", PStr "publish"); ("authority", PStr "operator");
   ("parameters", PDict []); ("jurisdiction", PStr "session"); ("anchor", PStr "0");
   ("expiry_basis", PDict [("kind", PStr "receipt_height"); ("value", PInt 7)])].
Definition demo_continuation_cols : cols :=
  match @_validate_continuation nfc_id demo_continuation with Ok cs => cs | Err _ => [] end.

Lemma continuation_expires_at_height_witness :
  exists h, py_int (PInt 7) = Ok h /\
    continuation_expired (col "continuation_expiry_basis" demo_continuation_cols) 6 []
    = Ok (h <=? 6).
Proof.
  apply (@continuation_expires_at_height nfc_id demo_continuation demo_continuation_cols 6 []).
  - vm_compute. reflexivity.
  - vm_compute. reflexivity.
  - vm_compute. reflexivity.
Defined.

(** The retired markers.  When the effect surface of a write resolves to typed
    columns, no effect marker is left in the committed parameters, every other
    parameter is kept, and each marker the caller supplied beside explicit
    columns agreed with its column; a disagreement is an error. *)
Theorem effect_markers_retired parameters ecols cs committed :
  _resolve_effect_surface parameters ecols false = Ok (Some cs, committed) ->
  (forall k, py_get k committed =
     if mem_str k _EFFECT_MARKER_KEYS then PNone else py_get k parameters) /\
  (forall ec mk v, ecols = Some ec -> mk ∈ _EFFECT_MARKER_KEYS ->
     dict_get mk (dict_part parameters) = Some v ->
     pyval_eqb v (col mk (_derive_effect_markers cs)) = true).
Proof.
  assert (Hget : forall p k, py_get k (PDict (strip_markers (dict_part p))) =
    if mem_str k _EFFECT_MARKER_KEYS then PNone else py_get k p).
  { intros p k. cbn [py_get]. unfold col. rewrite strip_markers_get.
    destruct (mem_str k _EFFECT_MARKER_KEYS); [done|]. by destruct p. }
  unfold _resolve_effect_surface. destruct ecols as [ec|].
  - destruct (is_none (col "effect_atomicity" ec)); [done|].
    intros (? & _ & H)%rbind_ok. cbv zeta in H.
    destruct (diverging _ _) eqn:Hdiv; [done|]. apply Ok_inj in H. injection H as <- <-.
    split; [apply Hget|]. intros ec' mk v _ Hmk Hv. by apply (not_diverging _ _ _ _ Hdiv Hmk).
  - intros (oc & _ & H)%rbind_ok. destruct oc as [c|]; simpl in H; apply Ok_inj in H; [|done].
    injection H as <- <-. split; [apply Hget|done].
Qed.

Lemma effect_markers_retired_witness :
  exists cs committed,
    _resolve_effect_surface (PDict [("x", PInt 1); ("phase", PStr "prepare")])
      (Some [("effect_atomicity", PStr "external_reversible"); ("effect_phase", PStr "prepare")])
      false = Ok (Some cs, committed) /\
    py_get "x" committed = PInt 1 /\ py_get "phase" committed = PNone.
Proof.
  do 2 eexists. split; [vm_compute; reflexivity|].
  pose proof (effect_markers_retired (PDict [("x", PInt 1); ("phase", PStr "prepare")])
    (Some [("effect_atomicity", PStr "external_reversible"); ("effect_phase", PStr "prepare")])
    _ _ eq_refl) as [H _].
  split; [exact (H "x")|exact (H "phase")].
Defined.
