(* ===== verification/Trace.v ===== *)
(** The decision-surface trace vector of a receipt and its aggregation
    ([ugk/fga/trace_vector.py]), and the terminal-outcome classifier over it
    ([ugk/fga/terminal_outcome.py]). *)
From S2P Require Import Prelude Json Sha256 Binding BindingM2 Receipt.

Module TraceVector.

Definition SURFACE_REGISTRY_VERSION := "fga.committed-surfaces.v1".
Definition AGGREGATION_OPERATOR_ID := "conjunctive_refusal_monotone_v1".

Inductive verdict := PASS | REFUSE | ADMIT.
Definition verdict_str (v : verdict) : string :=
  match v with PASS => "PASS" | REFUSE => "REFUSE" | ADMIT => "ADMIT" end.

Definition R_OK := "ok".
Definition R_STATE_MISMATCH := "state-commitment-mismatch".
Definition R_COMMIT_ABSENT := "commitment-absent".
Definition R_COMMIT_MALFORMED := "commitment-malformed".
Definition R_BODY_INTEGRITY := "whole-body-integrity-fail".
Definition R_FRAME_MISMATCH := "frame-mismatch".

Definition COMMITTED_RECEIPT_FIELDS : list string := ["h_s"; "h_c"; "h_m"; "h_j"].
Definition MODE_REDERIVED := "rederived".
Definition MODE_COMMITTED_BODY_BOUND := "committed-body-bound".

Record DecisionSurface := {
  surface_id : string;
  axis : string;
  committed_field : string;
  commitment_id : string;
  rederivable : bool;
  optional : bool;
  verification_mode : string;
}.

Definition COMMITTED_SURFACES : list DecisionSurface :=
  [Build_DecisionSurface "D_s" "state" "h_s" ID_C_S true false MODE_REDERIVED;
   Build_DecisionSurface "D_c" "admissibility" "h_c" ID_C_C false false MODE_COMMITTED_BODY_BOUND;
   Build_DecisionSurface "D_m" "meaning" "h_m" ID_C_M false false MODE_COMMITTED_BODY_BOUND;
   Build_DecisionSurface "D_j" "locality" "h_j" ID_C_J false true MODE_COMMITTED_BODY_BOUND].

(** [validate_committed_registry]; [seen] is the set of the loop. *)
Fixpoint validate_registry (seen : list string) (surfaces : list DecisionSurface) :
    result exn unit :=
  match surfaces with
  | [] => Ok tt
  | s :: rest =>
      guard* mem_str (committed_field s) COMMITTED_RECEIPT_FIELDS
        else Exn ValueError "uncommitted-surface-rejected" in
      guard* negb (rederivable s && negb (str_eqb (verification_mode s) MODE_REDERIVED))
        else Exn ValueError "verification-mode-inconsistent" in
      guard* negb (negb (rederivable s)
                   && negb (str_eqb (verification_mode s) MODE_COMMITTED_BODY_BOUND))
        else Exn ValueError "verification-mode-overclaim" in
      guard* negb (mem_str (surface_id s) seen) else Exn ValueError "duplicate-surface" in
      validate_registry (surface_id s :: seen) rest
  end.
Definition validate_committed_registry := validate_registry [].

Definition CAPABILITY_COMMITTED_FIELDS : list string := ["h_cap"].
Definition CAPABILITY_SURFACES : list DecisionSurface :=
  [Build_DecisionSurface "D_cap" "capability" "h_cap" "c_cap.v1" false true
     MODE_COMMITTED_BODY_BOUND].

Fixpoint validate_cap_registry (seen : list string) (surfaces : list DecisionSurface) :
    result exn unit :=
  match surfaces with
  | [] => Ok tt
  | s :: rest =>
      guard* mem_str (committed_field s) CAPABILITY_COMMITTED_FIELDS
        else Exn ValueError "uncommitted-capability-surface-rejected" in
      guard* negb (mem_str (surface_id s) (map surface_id COMMITTED_SURFACES))
        else Exn ValueError "capability-surface-collides-with-aggregating" in
      guard* negb (mem_str (surface_id s) seen)
        else Exn ValueError "duplicate-capability-surface" in
      validate_cap_registry (surface_id s :: seen) rest
  end.
Definition validate_capability_registry := validate_cap_registry [].

Example registries_valid :
  validate_committed_registry COMMITTED_SURFACES = Ok tt /\
  validate_capability_registry CAPABILITY_SURFACES = Ok tt.
Proof. split; reflexivity. Qed.

Record SurfaceResult := { sr_surface : string; sr_result : verdict; sr_reason : string }.

Record FrameRef := {
  f_law_hash : string;
  f_schema_hash : string;
  f_legend_hash : string;
  f_codex_hash : string;
}.

Record trace_vector := {
  surfaces : list SurfaceResult;
  frame : FrameRef;
  surface_registry_version : string;
  aggregation_operator_id : string;
  transition_op : string;
  receipt_h_r : string;
  receipt_h_body : string;
  integrity_ok : bool;
  frame_consistent : bool;
  trace_vector_hash : string;
}.

Definition _is_hexdigest (v : string) : bool := (char_len v =? 64)%nat && int16_ok v.

(** [getattr(receipt, field, None)] on the committed fields. *)
Definition committed_value (field : string) (r : Receipt) : option string :=
  if str_eqb field "h_s" then Some (h_s r)
  else if str_eqb field "h_c" then Some (h_c r)
  else if str_eqb field "h_m" then Some (h_m r)
  else if str_eqb field "h_j" then h_j r
  else None.

Section trace.
Context {U : Unicode}.

Definition _rederive_h_s (r : Receipt) : result exn string :=
  let* h := H_s (PStr (op r)) (parameters r) in Ok (hex h).

(** The keyword arguments [_rederive_h_body] passes: the effect, reconciliation,
    continuation and bridge columns are left at their default [None]. *)
Definition rederive_args (r : Receipt) : Receipt :=
  {| op := op r; authority := authority r; parameters := parameters r; intent := intent r;
     jurisdiction := jurisdiction r; confidence := confidence r; timestamp := timestamp r;
     failed := failed r; session_dkn := session_dkn r; law_hash := law_hash r;
     legend_hash := legend_hash r; warrant_id := warrant_id r; intent_ref := intent_ref r;
     receipt_id := receipt_id r; h_s := h_s r; h_c := h_c r; h_m := h_m r; h_j := h_j r;
     h_r := h_r r; parent_h_r := parent_h_r r; mode := mode r; version := version r;
     id_c_s := id_c_s r; id_c_c := id_c_c r; id_c_m := id_c_m r; id_c_j := id_c_j r;
     h_body := h_body r; terminal := terminal r;
     Receipt.trace_vector_hash := Receipt.trace_vector_hash r; capability := capability r;
     effect := []; reconciliation := []; continuation := []; bridge := [] |}.

Definition _rederive_h_body (r : Receipt) : result exn string :=
  compute_h_body (rederive_args r).

Definition _verify_surface (s : DecisionSurface) (r : Receipt) : result exn SurfaceResult :=
  let res v reason := {| sr_surface := surface_id s; sr_result := v; sr_reason := reason |} in
  let committed := match committed_value (committed_field s) r with
                   | Some c => c | None => "" end in
  if str_eqb committed "" then
    Ok (if optional s then res PASS R_OK else res REFUSE R_COMMIT_ABSENT)
  else if negb (_is_hexdigest committed) then Ok (res REFUSE R_COMMIT_MALFORMED)
  else if rederivable s then
    let* h := _rederive_h_s r in
    Ok (if str_eqb h committed then res PASS R_OK else res REFUSE R_STATE_MISMATCH)
  else Ok (res PASS R_OK).

Definition _trace_vector_hash (results : list SurfaceResult) (fr : FrameRef)
    (registry_version operator_id transition_op receipt_h_r receipt_h_body : string)
    (integrity_ok frame_consistent : bool) : result exn string :=
  let* b := Binding.canonical_json (PDict
    [("surface_registry_version", PStr registry_version);
     ("aggregation_operator_id", PStr operator_id);
     ("frame", PDict [("law_hash", PStr (f_law_hash fr)); ("schema_hash", PStr (f_schema_hash fr));
                      ("legend_hash", PStr (f_legend_hash fr));
                      ("codex_hash", PStr (f_codex_hash fr))]);
     ("transition_op", PStr transition_op); ("receipt_h_r", PStr receipt_h_r);
     ("receipt_h_body", PStr receipt_h_body); ("integrity_ok", PBool integrity_ok);
     ("frame_consistent", PBool frame_consistent);
     ("surfaces", PList (map (fun s => PList [PStr (sr_surface s);
        PStr (verdict_str (sr_result s)); PStr (sr_reason s)]) results))]) in
  Ok (sha256_hex ("FGA-TRACE-v1" +:+ b)).

Definition build_trace_vector (r : Receipt) (fr : FrameRef) (ss : list DecisionSurface) :
    result exn trace_vector :=
  let* _ := validate_committed_registry ss in
  let* results := sequence (map (fun s => _verify_surface s r) ss) in
  let* hb := _rederive_h_body r in
  let integrity := str_eqb hb (h_body r) && negb (str_eqb (h_body r) "") in
  let consistent := str_eqb (law_hash r) (f_law_hash fr)
                    && str_eqb (legend_hash r) (f_legend_hash fr) in
  let* tvh := _trace_vector_hash results fr SURFACE_REGISTRY_VERSION AGGREGATION_OPERATOR_ID
    (op r) (h_r r) (h_body r) integrity consistent in
  Ok {| surfaces := results; frame := fr; surface_registry_version := SURFACE_REGISTRY_VERSION;
        aggregation_operator_id := AGGREGATION_OPERATOR_ID; transition_op := op r;
        receipt_h_r := h_r r; receipt_h_body := h_body r; integrity_ok := integrity;
        frame_consistent := consistent; trace_vector_hash := tvh |}.
End trace.

Definition is_pass (s : SurfaceResult) : bool :=
  match sr_result s with PASS => true | _ => false end.

Definition list_eqb (a b : list string) : bool := bool_decide (a = b).

Definition aggregate (tv : trace_vector) : verdict * string :=
  if negb (str_eqb (aggregation_operator_id tv) AGGREGATION_OPERATOR_ID) then
    (REFUSE, "operator-id-mismatch")
  else if negb (list_eqb (map sr_surface (surfaces tv)) (map surface_id COMMITTED_SURFACES)) then
    (REFUSE, "incomplete-or-reordered-surface-vector")
  else match find (fun s => negb (is_pass s)) (surfaces tv) with
       | Some s => (REFUSE, sr_reason s)
       | None =>
           if negb (integrity_ok tv) then (REFUSE, R_BODY_INTEGRITY)
           else if negb (frame_consistent tv) then (REFUSE, R_FRAME_MISMATCH)
           else (ADMIT, R_OK)
       end.
End TraceVector.

Module TerminalOutcome.
Import TraceVector.

Definition MODEL_ID := "terminal_outcome_model_v1".
Inductive outcome := O_ADMIT | O_REFUSE | O_DEFER | O_STRUCTURAL_ERROR | O_CRISIS.
Definition outcome_str (o : outcome) : string :=
  match o with
  | O_ADMIT => "ADMIT" | O_REFUSE => "REFUSE" | O_DEFER => "DEFER"
  | O_STRUCTURAL_ERROR => "STRUCTURAL_ERROR" | O_CRISIS => "CRISIS"
  end.

Record PartialEvaluationTrace := {
  resolved : list pyval; pending : list pyval; pe_reason : string }.
Record RootConflict := { roots : list pyval; detail : string }.
Record DeferPolicy := {
  dp_reason : string;
  authority_boundary : string;
  continuation_condition : string;
  applies_to : list string;
}.
Definition authorizes (p : DeferPolicy) (condition_reason : string) : bool :=
  mem_str condition_reason (applies_to p).

Inductive carried :=
| CTrace (tv : trace_vector)
| CPartial (p : PartialEvaluationTrace)
| CRoot (r : RootConflict)
| CNone.

Record TerminalOutcomeResult := {
  to_outcome : outcome;
  to_model_id : string;
  to_reason : string;
  to_carried : carried;
  to_carried_identity : string;
  to_basis : list (string * pyval);
  to_identity : string;
}.

Definition _carried_identity (c : carried) : result exn string :=
  match c with
  | CTrace tv => Ok (TraceVector.trace_vector_hash tv)
  | CPartial p =>
      let* b := Binding.canonical_json (PDict [("resolved", PList (resolved p));
        ("pending", PList (pending p)); ("reason", PStr (pe_reason p))]) in
      Ok (sha256_hex ("LM2-PARTIAL-v1" +:+ b))
  | CRoot r =>
      let* b := Binding.canonical_json (PDict [("roots", PList (roots r));
        ("detail", PStr (detail r))]) in
      Ok (sha256_hex ("LM2-ROOT-v1" +:+ b))
  | CNone => Ok ""
  end.

(** [kind] is the declared kind of the carried evidence, which stays "partial"
    when a DEFER carries none. *)
Definition _mk (o : outcome) (reason kind : string) (c : carried) (basis : list (string * pyval)) :
    result exn TerminalOutcomeResult :=
  let* cid := _carried_identity c in
  let* b := Binding.canonical_json (PDict
    [("model_id", PStr MODEL_ID); ("outcome", PStr (outcome_str o)); ("reason", PStr reason);
     ("carried_kind", PStr kind); ("carried_identity", PStr cid); ("basis", PDict basis)]) in
  Ok {| to_outcome := o; to_model_id := MODEL_ID; to_reason := reason; to_carried := c;
        to_carried_identity := cid; to_basis := basis;
        to_identity := sha256_hex ("LM2-OUTCOME-v1" +:+ b) |}.

Definition condition_reason (partial : option PartialEvaluationTrace)
    (structural_reason : option string) : string :=
  match structural_reason with
  | Some s => s
  | None => match partial with Some p => pe_reason p | None => "non-evaluable" end
  end.

Definition carried_partial (partial : option PartialEvaluationTrace) : carried :=
  match partial with Some p => CPartial p | None => CNone end.

(** The Python types rule out the two TypeErrors of the entry checks. *)
Definition classify (root_conflict : option RootConflict) (trace : option trace_vector)
    (partial : option PartialEvaluationTrace) (structural_reason : option string)
    (defer_policy : option DeferPolicy) : result exn TerminalOutcomeResult :=
  match trace, structural_reason with
  | Some _, Some _ =>
      Err (Exn ValueError "contradictory inputs: complete trace with a structural_reason")
  | _, _ =>
  match root_conflict with
  | Some rc => _mk O_CRISIS "root-frame-jurisdiction-conflict" "root_conflict" (CRoot rc)
                 [("root_conflict", PBool true)]
  | None =>
  match trace with
  | None =>
      let cond := condition_reason partial structural_reason in
      match defer_policy with
      | Some p =>
          if authorizes p cond then
            _mk O_DEFER cond "partial" (carried_partial partial)
              [("root_conflict", PBool false); ("complete_trace", PBool false);
               ("defer_policy", PBool true); ("authorizes", PStr cond);
               ("authority_boundary", PStr (authority_boundary p));
               ("continuation_condition", PStr (continuation_condition p))]
          else _mk O_STRUCTURAL_ERROR cond
                 (match partial with Some _ => "partial" | None => "none" end)
                 (carried_partial partial)
                 [("root_conflict", PBool false); ("complete_trace", PBool false);
                  ("defer_policy", PBool false)]
      | None => _mk O_STRUCTURAL_ERROR cond
                 (match partial with Some _ => "partial" | None => "none" end)
                 (carried_partial partial)
                 [("root_conflict", PBool false); ("complete_trace", PBool false);
                  ("defer_policy", PBool false)]
      end
  | Some tv =>
      match aggregate tv with
      | (ADMIT, _) => _mk O_ADMIT "ok" "trace_vector" (CTrace tv)
          [("root_conflict", PBool false); ("complete_trace", PBool true);
           ("aggregate", PStr "ADMIT")]
      | (_, reason) => _mk O_REFUSE reason "trace_vector" (CTrace tv)
          [("root_conflict", PBool false); ("complete_trace", PBool true);
           ("aggregate", PStr "REFUSE")]
      end
  end end end.
End TerminalOutcome.

Import TraceVector.

(** * Aggregation *)

Lemma list_eqb_spec a b : list_eqb a b = true <-> a = b.
Proof. apply bool_decide_eq_true. Qed.

Lemma find_none_forall {A} (f : A -> bool) l :
  List.find f l = None <-> Forall (fun x => f x = false) l.
Proof.
  induction l as [|x l IH]; simpl; [by split|].
  rewrite Forall_cons. destruct (f x); [naive_solver|]. rewrite IH. tauto.
Qed.

(** The full committed vector, every surface passing, integrity and frame. *)
Definition admissible (tv : trace_vector) : Prop :=
  aggregation_operator_id tv = AGGREGATION_OPERATOR_ID /\
  map sr_surface (surfaces tv) = map surface_id COMMITTED_SURFACES /\
  Forall (fun s => sr_result s = PASS) (surfaces tv) /\
  integrity_ok tv = true /\ frame_consistent tv = true.

Lemma is_pass_spec s : is_pass s = true <-> sr_result s = PASS.
Proof. unfold is_pass. by destruct (sr_result s). Qed.

Lemma aggregate_cases tv :
  (aggregate tv = (ADMIT, R_OK) /\ admissible tv) \/
  (exists reason, aggregate tv = (REFUSE, reason) /\ ~ admissible tv).
Proof.
  unfold aggregate, admissible.
  destruct (str_eqb (aggregation_operator_id tv) _) eqn:Ho; cbn [negb].
  2:{ right. eexists. split; [done|]. intros [H _]. by rewrite H, str_eqb_refl in Ho. }
  apply str_eqb_spec in Ho.
  destruct (list_eqb _ _) eqn:Hd; cbn [negb].
  2:{ right. eexists. split; [done|]. intros (_ & H & _).
      by rewrite (proj2 (list_eqb_spec _ _) H) in Hd. }
  apply list_eqb_spec in Hd.
  destruct (find _ _) as [s|] eqn:Hf.
  { right. eexists. split; [done|]. intros (_ & _ & H & _).
    apply find_some in Hf as [Hin Hs]. apply list_elem_of_In in Hin.
    rewrite Forall_forall in H. specialize (H s Hin). apply is_pass_spec in H.
    by rewrite H in Hs. }
  apply find_none_forall in Hf.
  assert (Forall (fun s => sr_result s = PASS) (surfaces tv)) as Hp.
  { eapply Forall_impl; [exact Hf|]. intros s Hs. apply is_pass_spec.
    by apply negb_false_iff in Hs. }
  destruct (integrity_ok tv); cbn [negb]; [|right; eexists; split; [done|]; intros (_&_&_&?&_); done].
  destruct (frame_consistent tv); cbn [negb]; [by left|].
  right; eexists; split; [done|]; intros (_&_&_&_&?); done.
Qed.

(** * What the vector of a receipt says *)

Section receipt_facts.
Context {U : Unicode} {UL : UnicodeLaws U}.

Lemma build_trace_vector_ok r fr tv : build_trace_vector r fr COMMITTED_SURFACES = Ok tv ->
  exists hb, _rederive_h_body r = Ok hb /\
    sequence (map (fun s => _verify_surface s r) COMMITTED_SURFACES) = Ok (surfaces tv) /\
    aggregation_operator_id tv = AGGREGATION_OPERATOR_ID /\
    integrity_ok tv = str_eqb hb (h_body r) && negb (str_eqb (h_body r) "") /\
    frame_consistent tv = str_eqb (law_hash r) (f_law_hash fr)
                          && str_eqb (legend_hash r) (f_legend_hash fr).
Proof.
  unfold build_trace_vector. intros (? & _ & H)%rbind_ok.
  apply rbind_ok in H as (res & Hres & H). apply rbind_ok in H as (hb & Hhb & H).
  apply rbind_ok in H as (tvh & _ & H). apply Ok_inj in H. subst tv. by exists hb.
Qed.

Lemma verify_surface_id s r sr : _verify_surface s r = Ok sr -> sr_surface sr = surface_id s.
Proof.
  unfold _verify_surface. intros H. cbv zeta in H.
  destruct (str_eqb _ "").
  - apply Ok_inj in H. subst. by destruct (optional s).
  - destruct (negb _); [by apply Ok_inj in H; subst|].
    destruct (rederivable s); [|by apply Ok_inj in H; subst].
    apply rbind_ok in H as (h & _ & H). apply Ok_inj in H. subst. by destruct (str_eqb h _).
Qed.

Lemma displayed_surfaces r res :
  sequence (map (fun s => _verify_surface s r) COMMITTED_SURFACES) = Ok res ->
  map sr_surface res = map surface_id COMMITTED_SURFACES.
Proof.
  intros H%sequence_forall2. induction H as [|s sr l res Hs _ IH]; [done|].
  simpl. by rewrite (verify_surface_id _ _ _ Hs), IH.
Qed.

Lemma group_keys_norm k keys c : k ∈ keys -> dict_get k (group keys c) = Some (col k c).
Proof.
  unfold group. induction keys as [|x keys IH]; [by intros ?%elem_of_nil|].
  rewrite elem_of_cons. simpl. destruct (str_eqb k x) eqn:E.
  - by apply str_eqb_spec in E as ->.
  - intros [->|H]; [by rewrite str_eqb_refl in E|]. auto.
Qed.

Lemma dict_get_app {V} k (a b : list (string * V)) :
  dict_get k (a ++ b) = match dict_get k a with Some v => Some v | None => dict_get k b end.
Proof. induction a as [|[k' v] a IH]; simpl; [done|]. by destruct (str_eqb k k'). Qed.

(** The committed value of an effect column, from version 4 on. *)
Lemma effect_member r k : k ∈ effect_keys -> 4 <= version r ->
  dict_get k (body_members r) = Some (col k (effect r)).
Proof.
  intros Hk Hv. unfold body_members, from_version.
  assert (4 <=? version r = true) as -> by by apply Z.leb_le.
  assert (2 <=? version r = true) as -> by (apply Z.leb_le; lia).
  assert (3 <=? version r = true) as -> by (apply Z.leb_le; lia).
  assert (Hnone : dict_get k (core_members r) = None /\
    dict_get k (group terminal_keys (terminal r)) = None /\
    dict_get k (group capability_keys (capability r)) = None).
  { pose proof Hk as Hk'. unfold effect_keys in Hk'. rewrite !elem_of_cons, elem_of_nil in Hk'.
    by repeat destruct Hk' as [->|Hk']. }
  destruct Hnone as (H1 & H2 & H3).
  rewrite !dict_get_app, H1, H2, H3. by rewrite group_keys_norm.
Qed.
End receipt_facts.

(** * Properties *)

(** No monolithic admissibility.  [aggregate] answers ADMIT exactly on a vector
    that displays the full committed registry in order, with every surface
    passing, the body intact and the frame consistent; otherwise REFUSE. *)
Theorem aggregate_admits_iff tv :
  (fst (aggregate tv) = ADMIT <-> admissible tv) /\
  (fst (aggregate tv) = ADMIT \/ fst (aggregate tv) = REFUSE).
Proof.
  destruct (aggregate_cases tv) as [[-> H]|(reason & -> & H)]; simpl.
  - split; [by split|by left].
  - split; [by split|by right].
Qed.

(** An intact receipt whose body the trace layer rederives differently.  From
    version 4 on a receipt commits its effect columns, but the rederivation of
    the trace vector leaves them out: an honest effect-bearing receipt gets
    [integrity_ok = false] and aggregates to REFUSE. *)
Theorem trace_refuses_effect_bearing {U : Unicode} {UL : UnicodeLaws U} r fr tv :
  compute_h_body r = Ok (h_body r) -> 4 <= version r ->
  norm (col "effect_atomicity" (effect r)) <> PNone ->
  no_collision [h_body_preimage r; h_body_preimage (rederive_args r)] ->
  build_trace_vector r fr COMMITTED_SURFACES = Ok tv ->
  integrity_ok tv = false /\ fst (aggregate tv) = REFUSE.
Proof.
  intros Hb Hv Hne Hnc Htv.
  destruct (build_trace_vector_ok r fr tv Htv) as (hb & Hhb & _ & _ & Hi & _).
  assert (integrity_ok tv = false) as Hfalse.
  { rewrite Hi. destruct (str_eqb hb (h_body r)) eqn:E; [|done]. exfalso.
    apply str_eqb_spec in E. subst hb.
    pose proof (h_body_determines r (rederive_args r) _ Hb Hhb Hnc "effect_atomicity") as Hs.
    assert (Hk : "effect_atomicity" ∈ effect_keys) by (unfold effect_keys; by left).
    rewrite (effect_member r _ Hk Hv), (effect_member (rederive_args r) _ Hk Hv) in Hs.
    injection Hs as Hs. by apply Hne. }
  split; [done|].
  destruct (aggregate_cases tv) as [[_ (_&_&_&H&_)]|(reason & -> & _)]; [congruence|done].
Qed.

(** An effect-bearing receipt of the current body version, honestly sealed. *)
Definition seal_body {U : Unicode} (r : Receipt) : Receipt :=
  {| op := op r; authority := authority r; parameters := parameters r; intent := intent r;
     jurisdiction := jurisdiction r; confidence := confidence r; timestamp := timestamp r;
     failed := failed r; session_dkn := session_dkn r; law_hash := law_hash r;
     legend_hash := legend_hash r; warrant_id := warrant_id r; intent_ref := intent_ref r;
     receipt_id := receipt_id r; h_s := h_s r; h_c := h_c r; h_m := h_m r; h_j := h_j r;
     h_r := h_r r; parent_h_r := parent_h_r r; mode := mode r; version := version r;
     id_c_s := id_c_s r; id_c_c := id_c_c r; id_c_m := id_c_m r; id_c_j := id_c_j r;
     h_body := match compute_h_body r with Ok h => h | Err _ => "" end;
     terminal := terminal r;
     Receipt.trace_vector_hash := Receipt.trace_vector_hash r; capability := capability r;
     effect := effect r; reconciliation := reconciliation r;
     continuation := continuation r; bridge := bridge r |}.

Definition demo_effect_receipt : Receipt :=
  @seal_body nfc_id
  {| op := "publish"; authority := "operator"; parameters := PDict []; intent := "i";
     jurisdiction := "session"; confidence := "high"; timestamp := "1.5"; failed := false;
     session_dkn := ""; law_hash := "l"; legend_hash := "g"; warrant_id := ""; intent_ref := "";
     receipt_id := None;
     h_s := match @_rederive_h_s nfc_id (demo_receipt (PDict []) 7) with Ok h => h | Err _ => "" end;
     h_c := sha256_hex "c"; h_m := sha256_hex "m"; h_j := None; h_r := "r";
     parent_h_r := "p"; mode := "strict"; version := 7; id_c_s := ""; id_c_c := "";
     id_c_m := ""; id_c_j := ""; h_body := ""; terminal := [];
     Receipt.trace_vector_hash := None; capability := [];
     effect := [("effect_atomicity", PStr "external_irreversible");
                ("effect_phase", PStr "commit")];
     reconciliation := []; continuation := []; bridge := [] |}.
Definition demo_frame : FrameRef :=
  {| f_law_hash := "l"; f_schema_hash := "s"; f_legend_hash := "g"; f_codex_hash := "" |}.

Lemma trace_refuses_effect_bearing_witness :
  exists tv, @build_trace_vector nfc_id demo_effect_receipt demo_frame COMMITTED_SURFACES = Ok tv /\
    integrity_ok tv = false /\ fst (aggregate tv) = REFUSE.
Proof.
  destruct (@build_trace_vector nfc_id demo_effect_receipt demo_frame COMMITTED_SURFACES)
    as [tv|e] eqn:Htv; [|vm_compute in Htv; discriminate Htv].
  exists tv. split; [reflexivity|].
  apply (@trace_refuses_effect_bearing nfc_id nfc_id_laws demo_effect_receipt demo_frame tv).
  - vm_compute. reflexivity.
  - vm_compute. discriminate.
  - vm_compute. discriminate.
  - apply no_collisionb_spec. vm_compute. reflexivity.
  - exact Htv.
Defined.

(** The columns the rederivation leaves out are all absent. *)
Definition plain_columns (r : Receipt) : Prop :=
  group effect_keys (effect r) = group effect_keys [] /\
  group reconciliation_keys (reconciliation r) = group reconciliation_keys [] /\
  group continuation_keys (continuation r) = group continuation_keys [] /\
  group bridge_keys (bridge r) = group bridge_keys [].

Lemma rederive_plain r : plain_columns r -> body_members (rederive_args r) = body_members r.
Proof.
  intros (H1 & H2 & H3 & H4). unfold body_members. simpl effect. simpl reconciliation.
  simpl continuation. simpl bridge. by rewrite H1, H2, H3, H4.
Qed.

(** A surface passes on a well-formed commitment that, when it is rederivable,
    the rederivation reproduces; an absent one passes if it is optional. *)
Lemma verify_surface_passes {U : Unicode} s r sr c :
  _verify_surface s r = Ok sr -> committed_value (committed_field s) r = c ->
  match c with
  | Some v => _is_hexdigest v = true \/ (v = "" /\ optional s = true)
  | None => optional s = true
  end ->
  (rederivable s = true -> exists v, c = Some v /\ _rederive_h_s r = Ok v) ->
  sr_result sr = PASS.
Proof.
  unfold _verify_surface. intros H Hc Hwf Hre. rewrite Hc in H. cbv zeta in H.
  destruct c as [v|].
  2:{ rewrite str_eqb_refl, Hwf in H. by apply Ok_inj in H as <-. }
  destruct (str_eqb v "") eqn:Ev.
  { apply str_eqb_spec in Ev as ->. destruct Hwf as [?|[_ Ho]]; [done|].
    rewrite Ho in H. by apply Ok_inj in H as <-. }
  destruct Hwf as [Hx|[-> _]]; [|by rewrite str_eqb_refl in Ev].
  rewrite Hx in H. cbn [negb] in H.
  destruct (rederivable s); [|by apply Ok_inj in H as <-].
  destruct (Hre eq_refl) as (w & [= ->] & Hw). rewrite Hw in H. cbn [rbind] in H.
  rewrite str_eqb_refl in H. by apply Ok_inj in H as <-.
Qed.

(** An honest ordinary receipt is admitted.  If its body commitment is right,
    its state commitment rederives, its commitments are digests, it carries no
    effect, reconciliation, continuation or bridge column and the frame is its
    own, the trace vector aggregates to ADMIT. *)
Theorem trace_admits_plain {U : Unicode} r fr tv :
  compute_h_body r = Ok (h_body r) -> h_body r <> "" -> plain_columns r ->
  _rederive_h_s r = Ok (h_s r) ->
  forallb (fun v => _is_hexdigest v) [h_s r; h_c r; h_m r] = true ->
  (forall j, h_j r = Some j -> j <> "" -> _is_hexdigest j = true) ->
  law_hash r = f_law_hash fr -> legend_hash r = f_legend_hash fr ->
  build_trace_vector r fr COMMITTED_SURFACES = Ok tv ->
  aggregate tv = (ADMIT, R_OK).
Proof.
  intros Hb Hbne Hplain Hs Hhex Hj Hlaw Hleg Htv.
  destruct (build_trace_vector_ok r fr tv Htv) as (hb & Hhb & Hres & Ho & Hi & Hf).
  unfold _rederive_h_body, compute_h_body in Hhb. rewrite rederive_plain in Hhb by done.
  change (version (rederive_args r)) with (version r) in Hhb.
  unfold compute_h_body in Hb. rewrite Hb in Hhb. apply Ok_inj in Hhb. subst hb.
  assert (admissible tv) as Ha.
  { split; [done|]. split; [by apply displayed_surfaces in Hres|]. split.
    - cbn [forallb] in Hhex. repeat rewrite andb_true_iff in Hhex.
      destruct Hhex as (Hhs & Hhc & Hhm & _).
      apply sequence_forall2 in Hres. unfold COMMITTED_SURFACES in Hres. cbn [map] in Hres.
      repeat match goal with H : Forall2 _ (_ :: _) _ |- _ =>
        apply Forall2_cons_inv_l in H as (? & ? & ? & ? & ->) end.
      match goal with H : Forall2 _ [] _ |- _ => apply Forall2_nil_inv_l in H as -> end.
      repeat constructor; (eapply verify_surface_passes; [eassumption|reflexivity| |]);
        cbn [committed_field rederivable optional];
        change (committed_value "h_s" r) with (Some (h_s r));
        change (committed_value "h_c" r) with (Some (h_c r));
        change (committed_value "h_m" r) with (Some (h_m r));
        change (committed_value "h_j" r) with (h_j r);
        try (by left); try (intros; discriminate).
      + intros _. by exists (h_s r).
      + destruct (h_j r) as [j|]; [|done]. destruct (decide (j = "")) as [->|Hne];
          [by right|left; by apply Hj].
    - rewrite Hi, Hf, str_eqb_refl, Hlaw, Hleg, !str_eqb_refl. split; [|done].
      destruct (str_eqb (h_body r) "") eqn:E; [by apply str_eqb_spec in E|done]. }
  destruct (aggregate_cases tv) as [[-> _]|(reason & _ & Hn)]; [done|by exfalso].
Qed.

Definition demo_plain_receipt : Receipt :=
  @seal_body nfc_id
  {| op := "publish"; authority := "operator"; parameters := PDict []; intent := "i";
     jurisdiction := "session"; confidence := "high"; timestamp := "1.5"; failed := false;
     session_dkn := ""; law_hash := "l"; legend_hash := "g"; warrant_id := ""; intent_ref := "";
     receipt_id := None;
     h_s := match @H_s nfc_id (PStr "publish") (PDict []) with Ok h => hex h | Err _ => "" end;
     h_c := sha256_hex "c"; h_m := sha256_hex "m"; h_j := None; h_r := "r";
     parent_h_r := "p"; mode := "strict"; version := 7; id_c_s := ""; id_c_c := "";
     id_c_m := ""; id_c_j := ""; h_body := ""; terminal := [];
     Receipt.trace_vector_hash := None; capability := []; effect := [];
     reconciliation := []; continuation := []; bridge := [] |}.

Lemma trace_admits_plain_witness :
  exists tv, @build_trace_vector nfc_id demo_plain_receipt demo_frame COMMITTED_SURFACES = Ok tv /\
    aggregate tv = (ADMIT, R_OK).
Proof.
  destruct (@build_trace_vector nfc_id demo_plain_receipt demo_frame COMMITTED_SURFACES)
    as [tv|e] eqn:Htv; [|vm_compute in Htv; discriminate Htv].
  exists tv. split; [reflexivity|].
  apply (@trace_admits_plain nfc_id demo_plain_receipt demo_frame tv).
  - vm_compute. reflexivity.
  - vm_compute. discriminate.
  - vm_compute. repeat split.
  - vm_compute. reflexivity.
  - vm_compute. reflexivity.
  - intros j Hj. vm_compute in Hj. discriminate Hj.
  - reflexivity.
  - reflexivity.
  - exact Htv.
Defined.

(** * The classifier *)

Import TerminalOutcome.

(** The evidence that justifies each terminal outcome. *)
Definition outcome_justified (rc : option RootConflict) (tv : option trace_vector)
    (p : option PartialEvaluationTrace) (sr : option string) (dp : option DeferPolicy)
    (res : TerminalOutcomeResult) : Prop :=
  match to_outcome res with
  | O_CRISIS => exists c, rc = Some c /\ to_carried res = CRoot c
  | O_ADMIT => rc = None /\ sr = None /\
      exists t, tv = Some t /\ admissible t /\ to_carried res = CTrace t
  | O_REFUSE => rc = None /\ sr = None /\
      exists t, tv = Some t /\ ~ admissible t /\ to_carried res = CTrace t
  | O_DEFER => rc = None /\ tv = None /\ to_reason res = condition_reason p sr /\
      exists pol, dp = Some pol /\ condition_reason p sr ∈ applies_to pol
  | O_STRUCTURAL_ERROR => rc = None /\ tv = None /\ to_reason res = condition_reason p sr /\
      forall pol, dp = Some pol -> condition_reason p sr ∉ applies_to pol
  end.

Lemma mk_ok o reason kind c basis res : _mk o reason kind c basis = Ok res ->
  to_outcome res = o /\ to_reason res = reason /\ to_carried res = c.
Proof.
  unfold _mk. intros (cid & _ & H)%rbind_ok. apply rbind_ok in H as (b & _ & H).
  by apply Ok_inj in H as <-.
Qed.

(** The outcome algebra is closed and justified.  A terminal outcome is ADMIT
    only on a complete admissible trace, REFUSE only on a complete trace that is
    not, CRISIS only on a root conflict, DEFER only without a trace and under a
    policy that authorises the very condition, and STRUCTURAL_ERROR only when no
    such policy was given; the last two keep the condition as their reason. *)
Theorem classify_justified rc tv p sr dp res :
  classify rc tv p sr dp = Ok res -> outcome_justified rc tv p sr dp res.
Proof.
  unfold classify, outcome_justified. intros H.
  destruct tv as [t|].
  - destruct sr as [s|]; [done|]. destruct rc as [c|].
    { apply mk_ok in H as (-> & _ & ->). by exists c. }
    destruct (aggregate_cases t) as [[E Ha]|(reason & E & Ha)]; rewrite E in H;
      apply mk_ok in H as (-> & _ & ->); repeat split; by exists t.
  - destruct rc as [c|].
    { apply mk_ok in H as (-> & _ & ->). by exists c. }
    destruct dp as [pol|]; [destruct (authorizes pol _) eqn:Ea|];
      apply mk_ok in H as (-> & -> & _); repeat split.
    + exists pol. split; [done|]. by apply mem_str_spec.
    + intros pol' [= <-] Hin. apply mem_str_spec in Hin. unfold authorizes in Ea.
      congruence.
    + done.
Qed.

Definition demo_policy : DeferPolicy :=
  {| dp_reason := "await"; authority_boundary := "operator"; continuation_condition := "k";
     applies_to := ["missing-input"] |}.
Definition demo_deferral :=
  classify None None None (Some "missing-input") (Some demo_policy).

Lemma classify_justified_witness :
  exists res, demo_deferral = Ok res /\ to_outcome res = O_DEFER /\
    outcome_justified None None None (Some "missing-input") (Some demo_policy) res.
Proof.
  destruct demo_deferral as [res|e] eqn:H; [|vm_compute in H; discriminate H].
  exists res. split; [reflexivity|]. split.
  - vm_compute in H. apply Ok_inj in H. rewrite <- H. reflexivity.
  - apply classify_justified. exact H.
Defined.
