(* ===== verification/Bridge.v ===== *)
(** BRIDGE-BINDING verification ([ugk/storage/bridge_binding.py]): the
    fail-closed verdict over a committed bridge surface.  The four resolvers are
    supplied by the verification context and may raise. *)
From S2P Require Import Prelude Json Receipt.

Definition _ALL : list string := bridge_keys.

(** [fields.get(k) is not None] for some key. *)
Definition has_bridge_surface (fields : cols) : bool :=
  existsb (fun k => negb (is_none (col k fields))) _ALL.

(** [_safe]: an exception or a falsey answer refutes. *)
Definition _safe (answer : result exn pyval) : bool :=
  match answer with Ok v => truthy v | Err _ => false end.

(** The resolver's identity must be the committed one. *)
Definition identity_matches (answer : result exn pyval) (committed : string) : bool :=
  match answer with
  | Ok v => match nonempty_str v with Some s => str_eqb s committed | None => false end
  | Err _ => false
  end.

(** The string value of a column checked to be one. *)
Definition str_col (k : string) (fields : cols) : string :=
  match col k fields with PStr s => s | _ => "" end.

Record resolvers := {
  mcir_identity : string -> string -> string -> string -> string -> result exn pyval;
  mcir_divergence : string -> string -> result exn pyval;
  mcir_transformation : string -> result exn pyval;
  smh_evidence : string -> result exn pyval;
}.

Definition verify_bridge_binding (fields : cols) (R : resolvers) : bool * string :=
  if negb (has_bridge_surface fields) then (true, "no bridge surface present (N/A)")
  else if negb (forallb (fun k => match nonempty_str (col k fields) with
                                  | Some _ => true | None => false end) _ALL)
  then (false, "bridge surface field missing/empty (malformed) -> REFUTED")
  else
    let src := str_col "bridge_source_regime_ref" fields in
    let tgt := str_col "bridge_target_regime_ref" fields in
    let xform := str_col "bridge_transformation_ref" fields in
    let reason := str_col "bridge_downgrade_reason" fields in
    let ev := str_col "bridge_preserved_evidence_ref" fields in
    if negb (mem_str reason BRIDGE_DOWNGRADE_TAXONOMY) then
      (false, "downgrade_reason outside closed taxonomy -> REFUTED")
    else if existsb (fun s => str_eqb s "") [src; tgt; xform; ev] then
      (false, "a required bridge ref is empty -> REFUTED")
    else if str_eqb src tgt then
      (false, "source and target regime refs identical (not a crossing) -> REFUTED")
    else match mcir_identity R src tgt xform reason ev with
    | Err _ => (false, "identity resolver failed -> REFUTED")
    | Ok expected =>
        if negb (identity_matches (Ok expected) (str_col "bridge_record_id" fields)) then
          (false, "committed bridge_record_id does not match MCIR-derived identity -> REFUTED")
        else if negb (_safe (mcir_divergence R src tgt)) then
          (false, "source/target do not structurally diverge under MCIR -> REFUTED")
        else if negb (_safe (mcir_transformation R xform)) then
          (false, "transformation ref does not resolve as a valid MCIR transformation -> REFUTED")
        else if negb (_safe (smh_evidence R ev)) then
          (false, "preserved evidence ref does not resolve under SMH read-only -> REFUTED")
        else (true, "bridge surface valid under BRIDGE-BINDING")
    end.

(** * What a valid surface is *)

(** All six fields are non-empty strings, the reason is in the taxonomy, the
    regimes differ, and every resolver answers, without raising, in favour. *)
Definition bridge_valid (fields : cols) (R : resolvers) : Prop :=
  exists id src tgt xform reason ev v d t e,
    col "bridge_record_id" fields = PStr id /\ col "bridge_source_regime_ref" fields = PStr src /\
    col "bridge_target_regime_ref" fields = PStr tgt /\
    col "bridge_transformation_ref" fields = PStr xform /\
    col "bridge_downgrade_reason" fields = PStr reason /\
    col "bridge_preserved_evidence_ref" fields = PStr ev /\
    Forall (fun s => s <> "") [id; src; tgt; xform; reason; ev] /\
    In reason BRIDGE_DOWNGRADE_TAXONOMY /\ src <> tgt /\
    mcir_identity R src tgt xform reason ev = Ok v /\ v = PStr id /\
    mcir_divergence R src tgt = Ok d /\ truthy d = true /\
    mcir_transformation R xform = Ok t /\ truthy t = true /\
    smh_evidence R ev = Ok e /\ truthy e = true.

Lemma nonempty_str_spec v s : nonempty_str v = Some s <-> v = PStr s /\ s <> "".
Proof.
  unfold nonempty_str. destruct v as [| | | |x| | | |]; try (split; [done|by intros [? _]]).
  destruct (str_eqb x "") eqn:E.
  - apply str_eqb_spec in E as ->. split; [done|by intros [[= <-] ?]].
  - split; [intros [= <-]; split; [done|intros ->; by rewrite str_eqb_refl in E]|by intros [[= ->] _]].
Qed.

Lemma nonempty_str_ne s : s <> "" -> nonempty_str (PStr s) = Some s.
Proof. intros H. by apply nonempty_str_spec. Qed.

Lemma nonempty_strb v :
  match nonempty_str v with Some _ => true | None => false end = true <->
  exists s, v = PStr s /\ s <> "".
Proof.
  destruct (nonempty_str v) as [s|] eqn:E.
  - apply nonempty_str_spec in E. naive_solver.
  - split; [done|]. intros (s & H). apply nonempty_str_spec in H. congruence.
Qed.

Lemma safe_spec a : _safe a = true <-> exists v, a = Ok v /\ truthy v = true.
Proof. destruct a; simpl; split; naive_solver. Qed.

Lemma identity_matches_spec a id : id <> "" ->
  identity_matches a id = true <-> a = Ok (PStr id).
Proof.
  intros Hne. destruct a as [v|]; [|naive_solver]. unfold identity_matches.
  destruct (nonempty_str v) as [s|] eqn:E.
  - apply nonempty_str_spec in E as [-> _]. rewrite str_eqb_spec. naive_solver.
  - split; [done|]. intros [= ->]. by rewrite (proj2 (nonempty_str_spec _ id)) in E.
Qed.

Lemma no_surface fields : has_bridge_surface fields = false <->
  Forall (fun k => col k fields = PNone) _ALL.
Proof.
  unfold has_bridge_surface. induction _ALL as [|k l IH]; simpl; [by split|].
  rewrite orb_false_iff, Forall_cons, IH. unfold is_none.
  destruct (col k fields); simpl; naive_solver.
Qed.

(** BRIDGE-BINDING is fail-closed.  A bridge surface is accepted exactly when it
    is absent or is a complete, distinct, classified crossing whose identity,
    divergence, transformation and evidence the resolvers all confirm; a missing
    field, a falsey answer or a resolver that raises refutes it. *)
Theorem verify_bridge_binding_spec fields R :
  fst (verify_bridge_binding fields R) = true <->
  Forall (fun k => col k fields = PNone) _ALL \/ bridge_valid fields R.
Proof.
  unfold verify_bridge_binding.
  destruct (has_bridge_surface fields) eqn:Hs; cbn [negb].
  2:{ apply no_surface in Hs. simpl. naive_solver. }
  assert (~ Forall (fun k => col k fields = PNone) _ALL) as Hns
    by (rewrite <- no_surface; congruence).
  destruct (forallb _ _ALL) eqn:Hall; cbn [negb].
  2:{ split; [done|]. intros [?|H]; [done|]. exfalso.
      destruct H as (id & src & tgt & xf & rs & ev & v & d & t & e & H1 & H2 & H3 & H4 & H5 & H6 & Hne & _).
      rewrite !Forall_cons in Hne. destruct Hne as (N1 & N2 & N3 & N4 & N5 & N6 & _).
      rewrite <- not_true_iff_false in Hall. apply Hall. unfold _ALL, bridge_keys.
      cbn [forallb]. rewrite H1, H2, H3, H4, H5, H6.
      by rewrite !nonempty_str_ne. }
  unfold _ALL, bridge_keys in Hall. cbn [forallb] in Hall. rewrite !andb_true_iff, !nonempty_strb in Hall.
  destruct Hall as ((id & H1 & N1) & (src & H2 & N2) & (tgt & H3 & N3) & (xf & H4 & N4)
    & (rs & H5 & N5) & (ev & H6 & N6) & _).
  unfold str_col. rewrite H1, H2, H3, H4, H5, H6.
  assert (existsb (fun s => str_eqb s "") [src; tgt; xf; ev] = false) as ->.
  { apply not_true_iff_false. rewrite existsb_exists. intros (x & Hx & Hxe).
    apply str_eqb_spec in Hxe. subst x. simpl in Hx. naive_solver. }
  transitivity (In rs BRIDGE_DOWNGRADE_TAXONOMY /\ src <> tgt /\
    mcir_identity R src tgt xf rs ev = Ok (PStr id) /\ _safe (mcir_divergence R src tgt) = true /\
    _safe (mcir_transformation R xf) = true /\ _safe (smh_evidence R ev) = true).
  - destruct (mem_str rs _) eqn:Hm; cbn [negb];
      [apply mem_str_spec in Hm; rewrite list_elem_of_In in Hm|
       split; [done|]; intros [Hin _]; rewrite <- list_elem_of_In, <- mem_str_spec in Hin; congruence].
    destruct (str_eqb src tgt) eqn:Hd;
      [apply str_eqb_spec in Hd; naive_solver|].
    assert (src <> tgt) as Hdne by (intros ->; by rewrite str_eqb_refl in Hd).
    rewrite <- (identity_matches_spec _ id N1).
    destruct (mcir_identity R src tgt xf rs ev) as [v|] eqn:Hid; [|simpl; naive_solver].
    destruct (identity_matches (Ok v) id); [|simpl; naive_solver].
    destruct (_safe (mcir_divergence _ _ _)); [|simpl; naive_solver].
    destruct (_safe (mcir_transformation _ _)); [|simpl; naive_solver].
    destruct (_safe (smh_evidence _ _)); simpl; naive_solver.
  - rewrite !safe_spec. split.
    + intros (? & ? & ? & (d & ? & ?) & (t & ? & ?) & (e & ? & ?)). right.
      exists id, src, tgt, xf, rs, ev, (PStr id), d, t, e. rewrite !Forall_cons. by repeat split.
    + intros [?|H]; [done|].
      destruct H as (id' & src' & tgt' & xf' & rs' & ev' & v & d & t & e & J1 & J2 & J3 & J4 & J5 & J6 & _ & H).
      rewrite H1 in J1. rewrite H2 in J2. rewrite H3 in J3. rewrite H4 in J4. rewrite H5 in J5.
      rewrite H6 in J6. simplify_eq. naive_solver.
Qed.
