(* ===== verification/Capability.v ===== *)
(** Capability evidence: the dispatcher that turns a capability registry into an
    evidence ledger ([ugk/cgp/dispatch.py]) and the sufficiency policy over its
    verdicts ([ugk/cgp/capability_sufficiency.py]). *)
From S2P Require Import Prelude Json Sha256 Binding BindingM2 Receipt.

Definition VERDICTS : list string :=
  ["PROVEN"; "FAIL"; "GAP"; "WAIVED"; "BY-CONSTRUCTION"; "NOT-RUN"; "ERROR"].
Definition SELECTORS : list string := ["core"; "live"; "full"; "custom"].
Definition _LIVE_CLASSES : list string :=
  ["gate-suite"; "scenario-sweep"; "receipt-aggregation"].
Definition _DEFERRED_CLASSES : list string :=
  ["scenario-sweep"; "coverage-map"; "interpretive-pack"; "receipt-aggregation"].
Definition _KNOWN_CLASSES : list string := "gate-suite" :: _DEFERRED_CLASSES.
Definition _BY_CONSTRUCTION_MARKERS : list string :=
  ["implicit"; "by construction"; "by-construction"; "substrate level"; "structural"].

(** ** Records *)

Record EvidenceArtifact := {
  invariant : string;
  ea_verdict : string;
  evidence_class : pyval;
  details : string;
  instrument_exit : option Z;
}.

Record WaiverRecord := {
  cap_id : string;
  w_authority : string;
  reason : string;
  evidence_ref : string;
}.

Record DispatchScope := {
  scope_id : string;
  in_scope : option (list string);
  scope_waivers : list WaiverRecord;
  custom_set : option (list string);
  scope_jurisdiction : string;
}.

(** [interpretive] is recorded but not hashed. *)
Record CapabilityEvidenceLedger := {
  registry_version : string;
  l_scope_id : string;
  selector : string;
  runner_id : string;
  store_head : string;
  artifacts : list EvidenceArtifact;
  out_of_scope : list string;
  waivers : list WaiverRecord;
  interpretive : list pyval;
  gaps : list string;
  ledger_hash : string;
}.

(** ** Deterministic serialisation and hashing *)

Definition pstrs (l : list string) : pyval := PList (map PStr l).

Definition _artifact_body (a : EvidenceArtifact) : pyval := PDict
  [("invariant", PStr (invariant a)); ("verdict", PStr (ea_verdict a));
   ("evidence_class", evidence_class a); ("details", PStr (details a));
   ("instrument_exit", match instrument_exit a with Some z => PInt z | None => PNone end)].

Definition _waiver_body (w : WaiverRecord) : pyval := PDict
  [("cap_id", PStr (cap_id w)); ("authority", PStr (w_authority w));
   ("reason", PStr (reason w)); ("evidence_ref", PStr (evidence_ref w))].

Definition _ledger_body (registry_version scope_id selector runner_id store_head : string)
    (artifacts : list EvidenceArtifact) (out_of_scope : list string)
    (waivers : list WaiverRecord) (gaps : list string) : pyval := PDict
  [("registry_version", PStr registry_version); ("scope_id", PStr scope_id);
   ("selector", PStr selector); ("runner_id", PStr runner_id);
   ("store_head", PStr store_head); ("artifacts", PList (map _artifact_body artifacts));
   ("out_of_scope", pstrs out_of_scope); ("waivers", PList (map _waiver_body waivers));
   ("gaps", pstrs gaps)].

Definition _hash_body (body : pyval) : result exn string :=
  let* cj := Binding.canonical_json body in Ok (sha256_hex ("CGP-LEDGER-v1" +:+ cj)).

Definition deterministic_body (l : CapabilityEvidenceLedger) : pyval :=
  _ledger_body (registry_version l) (l_scope_id l) (selector l) (runner_id l) (store_head l)
    (artifacts l) (out_of_scope l) (waivers l) (gaps l).

Definition verify_hash (l : CapabilityEvidenceLedger) : result exn bool :=
  let* h := _hash_body (deterministic_body l) in Ok (str_eqb (ledger_hash l) h).

Definition count_verdict (v : string) (l : list EvidenceArtifact) : Z :=
  Z.of_nat (length (List.filter (fun a => str_eqb (ea_verdict a) v) l)).
Definition verdict_counts (l : CapabilityEvidenceLedger) : list (string * Z) :=
  foldl (fun d a => dict_set (ea_verdict a)
           (match dict_get (ea_verdict a) d with Some n => n | None => 0 end + 1) d)
        (map (fun v => (v, 0)) VERDICTS) (artifacts l).

(** ** Resolving a binding *)

Definition word_char (c : ascii) : bool :=
  let n := N_of_ascii c in
  (((48 <=? n) && (n <=? 57)) || ((65 <=? n) && (n <=? 90)) || ((97 <=? n) && (n <=? 122))
   || (n =? 95))%N.

(** The longest prefix of a run of word characters that ends in [_gate] and has
    a character before it: what the greedy pattern matches in the run. *)
Fixpoint last_gate (best : option string) (seen : string) (rest : string) : option string :=
  let best := if starts_with "_gate" rest && negb (str_eqb seen "")
              then Some (seen +:+ "_gate") else best in
  match rest with
  | EmptyString => best
  | String c s => last_gate best (seen +:+ String c "") s
  end.

(** [_GATE_TOKEN.findall]: one token at most per maximal run. *)
Definition flush (run : string) : list string :=
  match last_gate None "" run with Some t => [t] | None => [] end.
Fixpoint gate_tokens (run s : string) : list string :=
  match s with
  | EmptyString => flush run
  | String c s' => if word_char c then gate_tokens (run +:+ String c "") s'
                   else flush run ++ gate_tokens "" s'
  end.

Example gate_tokens_ok :
  gate_tokens "" "run a_gate, then b_gate_c and x_gate_gate or _gate"
  = ["a_gate"; "b_gate"; "x_gate_gate"].
Proof. reflexivity. Qed.

Definition lower_char (c : ascii) : ascii :=
  let n := N_of_ascii c in
  if ((65 <=? n) && (n <=? 90))%N then ascii_of_N (n + 32) else c.
(** [str.lower]; only the ASCII letters matter to the markers searched for. *)
Fixpoint lower (s : string) : string :=
  match s with EmptyString => "" | String c s' => String (lower_char c) (lower s') end.

Definition get_or (k : string) (dflt : pyval) (v : pyval) : pyval :=
  match v with
  | PDict d => match dict_get k d with Some x => x | None => dflt end
  | _ => dflt
  end.

Definition _ugk_realization (cap : pyval) : option pyval :=
  match cap with
  | PDict _ =>
      match py_get "realizations" cap with
      | PDict d => match dict_get "UGK" d with Some PNone | None => None | Some v => Some v end
      | _ => None
      end
  | _ => None
  end.

Definition class_of (r : pyval) : option pyval :=
  if is_pydict r && truthy (py_get "evidence_class" r) then Some (py_get "evidence_class" r)
  else None.

Fixpoint first_some {A B} (f : A -> option B) (l : list A) : option B :=
  match l with
  | [] => None
  | x :: l' => match f x with Some y => Some y | None => first_some f l' end
  end.

Definition _primary_evidence_class (cap : pyval) : pyval :=
  match cap with
  | PDict _ =>
      match match _ugk_realization cap with Some u => class_of u | None => None end with
      | Some c => c
      | None =>
          match py_get "realizations" cap with
          | PDict d => match first_some (fun kv => class_of (snd kv)) (sort_by fst d) with
                       | Some c => c | None => PStr "" end
          | _ => PStr ""
          end
      end
  | _ => PStr ""
  end.

Section dispatch.
(** [str] on the values whose rendering is not written out here. *)
Context (repr : pyval -> string).
(** Whether a module of that name exists ([importlib.util.find_spec]). *)
Context (gate_exists : string -> bool).
(** Runs a gate: its verdict, or the type name of the exception it raises. *)
Context (gate_runner : string -> result string bool).

Definition py_str (v : pyval) : string :=
  match v with
  | PStr s => s
  | PNone => "None"
  | PBool b => if b then "True" else "False"
  | PInt z => str_of_Z z
  | _ => repr v
  end.

Definition _by_construction_marker (cap : pyval) (ugk : option pyval) : option string :=
  match cap with
  | PDict _ =>
      let from k v := py_str (get_or k (PStr "") v) in
      let haystacks :=
        (match ugk with Some (PDict _ as u) => [from "gate" u; from "notes" u] | _ => [] end)
        ++ [from "deterministic_layer" cap; from "notes" cap] in
      let blob := lower (join " " haystacks) in
      find (fun m => contains m blob) _BY_CONSTRUCTION_MARKERS
  | _ => None
  end.

Definition resolve_gate_name (realization : pyval) : option string :=
  let text := join " " (map (fun k => py_str (get_or k (PStr "") realization))
                            ["gate"; "evidence"; "notes"]) in
  find gate_exists (gate_tokens "" text).

(** The [core] selector reads a realization that is not a dictionary with [.get]. *)
Definition _selected (cap_id : string) (cap : pyval) (selector : string)
    (scope : DispatchScope) : result exn bool :=
  if str_eqb selector "full" then Ok true
  else if str_eqb selector "custom" then
    Ok match custom_set scope with Some s => mem_str cap_id s | None => false end
  else if str_eqb selector "core" then
    if is_pydict cap && pyval_eqb (py_get "class" cap) (PStr "I") then
      match _ugk_realization cap with
      | None => Ok false
      | Some u =>
          guard* is_pydict u else Exn OtherError "AttributeError: no attribute 'get'" in
          Ok (truthy (py_get "deterministic" u)
              && pyval_eqb (py_get "evidence_class" u) (PStr "gate-suite"))
      end
    else Ok false
  else if str_eqb selector "live" then
    Ok (existsb (fun c => pyval_eqb (_primary_evidence_class cap) (PStr c)) _LIVE_CLASSES)
  else Ok false.

Inductive disposition := D_out_of_scope | D_waived | D_not_run_selector | D_in_scope.

Definition waived_ids (ws : list WaiverRecord) : list string := map cap_id ws.

Definition _plan (id : string) (cap : pyval) (scope : DispatchScope) (selector : string) :
    result exn disposition :=
  if match in_scope scope with Some s => negb (mem_str id s) | None => false end
  then Ok D_out_of_scope
  else if mem_str id (waived_ids (scope_waivers scope)) then Ok D_waived
  else let* sel := _selected id cap selector scope in
       Ok (if negb sel then D_not_run_selector else D_in_scope).

(** Verdict, detail, evidence class. *)
Definition _resolve_and_execute (cap : pyval) : string * string * pyval :=
  if negb (is_pydict cap) then ("ERROR", "malformed:cap-not-dict", PStr "") else
  let reals := py_get "realizations" cap in
  if negb (is_none reals) && negb (is_pydict reals) then
    ("GAP", "malformed:realizations-not-dict", PStr "") else
  let ugk := _ugk_realization cap in
  if match ugk with Some u => negb (is_pydict u) | None => false end then
    ("GAP", "malformed:ugk-realization-not-dict", PStr "") else
  let ev_class := _primary_evidence_class cap in
  let marker := _by_construction_marker cap ugk in
  let gate_name := match ugk with
    | Some u => if truthy u then resolve_gate_name u else None | None => None end in
  match gate_name with
  | Some g =>
      match gate_runner g with
      | Err e => ("ERROR", "gate:" +:+ g +:+ ":error:" +:+ e, ev_class)
      | Ok true => ("PROVEN", "gate:" +:+ g +:+ ":ok", ev_class)
      | Ok false => ("FAIL", "gate:" +:+ g +:+ ":fail", ev_class)
      end
  | None =>
      match marker, ugk with
      | Some m, _ => ("BY-CONSTRUCTION", "by-construction:" +:+ m, ev_class)
      | None, None => ("GAP", "gap:no-ugk-realization", ev_class)
      | None, Some _ =>
          let cls c := pyval_eqb ev_class (PStr c) in
          if existsb cls _DEFERRED_CLASSES then
            ("NOT-RUN", "not-run:deferred:" +:+ py_str ev_class, ev_class)
          else if cls "gate-suite" then ("GAP", "gap:no-runnable-ugk-gate", ev_class)
          else if cls "" || negb (existsb cls _KNOWN_CLASSES) then
            ("GAP", "gap:unknown-evidence-class:"
                    +:+ (if truthy ev_class then py_str ev_class else "missing"), ev_class)
          else ("GAP", "gap:unresolved:" +:+ py_str ev_class, ev_class)
      end
  end.

Definition _mk_artifact (id verdict detail : string) (ev_class : pyval) : EvidenceArtifact :=
  {| invariant := id; ea_verdict := verdict; evidence_class := ev_class; details := detail;
     instrument_exit := None |}.

(** ** The registry fingerprint *)

Definition _realization_projection (r : pyval) : pyval :=
  if is_pydict r then
    PDict (map (fun k => (k, py_get k r)) ["evidence_class"; "gate"; "deterministic"; "status"; "notes"])
  else PDict [("_malformed", PBool true)].

Definition cap_projection (cap : pyval) : pyval :=
  if negb (is_pydict cap) then PDict [("_malformed", PBool true)] else
  let reals := py_get "realizations" cap in
  let rp := match reals with
    | PDict d => PDict (map (fun kv => (fst kv, _realization_projection (snd kv))) (sort_by fst d))
    | _ => PDict [("_malformed", PBool (negb (is_none reals)))] end in
  PDict [("class", py_get "class" cap); ("realizations", rp);
         ("primary_evidence_class", _primary_evidence_class cap);
         ("deterministic_layer", py_get "deterministic_layer" cap);
         ("notes", py_get "notes" cap);
         ("interpretive_template",
           PBool (negb (is_none (py_get "interpretive_evidence_template" cap))))].

Definition registry_t := list (string * pyval).

Definition _registry_projection (registry : registry_t) : pyval :=
  PDict (map (fun kv => (fst kv, cap_projection (snd kv))) (sort_by fst registry)).

Definition _registry_version (registry : registry_t) : result exn string :=
  let* cj := Binding.canonical_json (_registry_projection registry) in
  Ok ("caps:" +:+ str_of_Z (Z.of_nat (length registry)) +:+ ":"
      +:+ String.substring 0 12 (sha256_hex cj)).

(** ** The dispatcher *)

Fixpoint check_waivers (seen : list string) (ws : list WaiverRecord) (registry : registry_t) :
    result exn unit :=
  match ws with
  | [] => Ok tt
  | w :: rest =>
      guard* negb (str_eqb (w_authority w) "" || str_eqb (reason w) "")
        else Exn ValueError "waiver missing authority/reason" in
      guard* negb (mem_str (cap_id w) seen) else Exn ValueError "duplicate waiver" in
      guard* mem_str (cap_id w) (map fst registry)
        else Exn ValueError "waiver for unknown cap" in
      check_waivers (cap_id w :: seen) rest registry
  end.

(** [waiver_by_cap[cap_id]]; duplicates were refused. *)
Definition waiver_for (id : string) (ws : list WaiverRecord) : option WaiverRecord :=
  find (fun w => str_eqb (cap_id w) id) ws.

(** One capability of the loop: an artifact, or a name out of scope. *)
Definition dispatch_one (scope : DispatchScope) (selector : string) (kv : string * pyval) :
    result exn (EvidenceArtifact + string) :=
  let '(id, cap) := kv in
  let* d := _plan id cap scope selector in
  Ok match d with
  | D_out_of_scope => inr id
  | D_waived =>
      let '(a, r) := match waiver_for id (scope_waivers scope) with
                     | Some w => (w_authority w, reason w) | None => ("", "") end in
      inl (_mk_artifact id "WAIVED" ("waived:" +:+ a +:+ ":" +:+ r) (_primary_evidence_class cap))
  | D_not_run_selector =>
      inl (_mk_artifact id "NOT-RUN" ("not-run:selector:" +:+ selector)
             (_primary_evidence_class cap))
  | D_in_scope =>
      let '(v, d, c) := _resolve_and_execute cap in inl (_mk_artifact id v d c)
  end.

Definition lefts {A B} (l : list (A + B)) : list A :=
  flat_map (fun x => match x with inl a => [a] | inr _ => [] end) l.
Definition rights {A B} (l : list (A + B)) : list B :=
  flat_map (fun x => match x with inl _ => [] | inr b => [b] end) l.

(** Stable sorts from the last component of the tuple key to the first. *)
Definition sort_waivers (ws : list WaiverRecord) : list WaiverRecord :=
  sort_by cap_id (sort_by w_authority (sort_by reason (sort_by evidence_ref ws))).

(** [GAP] artifacts come from in-scope capabilities only. *)
Definition gap_ids (arts : list EvidenceArtifact) : list string :=
  map invariant (List.filter (fun a => str_eqb (ea_verdict a) "GAP") arts).

(** [None] stands for no store, [Err] for a store whose head cannot be read. *)
Definition _store_head (store : option (result exn string)) : string :=
  match store with Some (Ok h) => h | _ => "no-store" end.
Definition _runner_id (runner_type : option string) : string :=
  match runner_type with Some t => t | None => "no-runner" end.

Definition dispatch_capability_evidence (registry : registry_t) (scope : DispatchScope)
    (runner : option string) (selector : string)
    (store : option (result exn string)) : result exn CapabilityEvidenceLedger :=
  guard* mem_str selector SELECTORS else Exn ValueError "unknown selector" in
  let* _ := check_waivers [] (scope_waivers scope) registry in
  let* outcome := sequence (map (dispatch_one scope selector) (sort_by fst registry)) in
  let arts := lefts outcome in
  let out := sorted_str (rights outcome) in
  let ws := sort_waivers (scope_waivers scope) in
  let gs := sorted_str (gap_ids arts) in
  let* rv := _registry_version registry in
  let rid := _runner_id runner in
  let head := _store_head store in
  let body := _ledger_body rv (scope_id scope) selector rid head arts out ws gs in
  let* h := _hash_body body in
  Ok {| registry_version := rv; l_scope_id := scope_id scope; selector := selector;
        runner_id := rid; store_head := head; artifacts := arts;
        out_of_scope := out; waivers := ws; interpretive := []; gaps := gs;
        ledger_hash := h |}.
End dispatch.

(** ** The commitment over a ledger *)

Definition CAPABILITY_EVIDENCE_MODEL_ID := "capability_evidence_model_v1".

Definition census (arts : list EvidenceArtifact) : list (string * list string) :=
  map (fun v => (v, sorted_str (map invariant
    (List.filter (fun a => str_eqb (ea_verdict a) v) arts)))) VERDICTS.

Definition waiver_pairs (ws : list WaiverRecord) : list pyval :=
  map (fun w => PDict [("cap_id", PStr (cap_id w)); ("authority", PStr (w_authority w))])
      (sort_by cap_id (sort_by w_authority ws)).

Definition binding_body (l : CapabilityEvidenceLedger) : pyval := PDict
  [("ledger_hash", PStr (ledger_hash l)); ("registry_version", PStr (registry_version l));
   ("scope_id", PStr (l_scope_id l)); ("selector", PStr (selector l));
   ("verdict_census", PDict (map (fun kv => (fst kv, pstrs (snd kv))) (census (artifacts l))));
   ("waivers", PList (waiver_pairs (waivers l))); ("gaps", pstrs (sorted_str (gaps l)));
   ("out_of_scope", pstrs (sorted_str (out_of_scope l)))].

Definition capability_evidence_commitment (l : CapabilityEvidenceLedger) : result exn cols :=
  let* self := verify_hash l in
  guard* self else Exn ValueError "capability-ledger-self-verify-failed" in
  guard* forallb (fun a => mem_str (ea_verdict a) VERDICTS) (artifacts l)
    else Exn ValueError "unknown-verdict" in
  let* cj := Binding.canonical_json (binding_body l) in
  Ok [("h_cap", PStr (sha256_hex ("UGK-CAP-v1" +:+ cj)));
      ("capability_evidence_model_id", PStr CAPABILITY_EVIDENCE_MODEL_ID);
      ("ledger_hash", PStr (ledger_hash l)); ("registry_version", PStr (registry_version l));
      ("scope_id", PStr (l_scope_id l))].

(** [verify_capability_surface] of trace_vector.py. *)
Definition verify_capability_surface (r : Receipt) (ledger : option CapabilityEvidenceLedger) :
    result exn (bool * string) :=
  match nonempty_str (col "h_cap" (capability r)) with
  | None => Ok (false, "capability-commitment-absent")
  | Some h =>
      if negb (slen h =? 64) then Ok (false, "capability-commitment-malformed") else
      match ledger with
      | None => Ok (true, "ok")
      | Some l =>
          let* c := capability_evidence_commitment l in
          Ok (if pyval_eqb (col "h_cap" c) (PStr h) then (true, "ok")
              else (false, "capability-commitment-mismatch"))
      end
  end.

(** ** The sufficiency policy *)

Inductive sufficiency :=
| SUFFICIENT | FAIL_CLOSED | WAIVER_DISPOSITION | BY_CONSTRUCTION_ADMITTED
| BY_CONSTRUCTION_UNBACKED.

Definition is_evidence_sufficient (verdict : string) : bool := str_eqb verdict "PROVEN".

(** An entry of [enforced_scopes], with the two optional keys of the code. *)
Record policy_entry := {
  pe_jurisdiction : string;
  pe_op : string;
  capability_class : string;
  by_construction_proof : option string;
  waiver_permits : bool;
}.
Record sufficiency_policy := { enforced_scopes : list policy_entry }.

Definition enforced (op : string) : policy_entry :=
  {| pe_jurisdiction := "external-consequential"; pe_op := op;
     capability_class := "fail_closed_governance"; by_construction_proof := None;
     waiver_permits := false |}.
Definition CAPABILITY_SUFFICIENCY_POLICY : sufficiency_policy :=
  {| enforced_scopes := map enforced
       ["authority_model_set"; "namespace_allocate"; "namespace_delegate"; "namespace_revoke"] |}.

Definition named_proof (e : option policy_entry) : option string :=
  match e with
  | Some e => match by_construction_proof e with
              | Some p => if str_eqb p "" then None else Some p | None => None end
  | None => None
  end.

Definition suff_classify (verdict : string) (entry : option policy_entry) : sufficiency * string :=
  if str_eqb verdict "PROVEN" then (SUFFICIENT, "evidence-sufficient:PROVEN")
  else if str_eqb verdict "WAIVED" then
    (WAIVER_DISPOSITION, "authority-disposition:WAIVED:not-evidence")
  else if str_eqb verdict "BY-CONSTRUCTION" then
    match named_proof entry with
    | Some p => (BY_CONSTRUCTION_ADMITTED, "by-construction:named-proof:" +:+ p)
    | None => (BY_CONSTRUCTION_UNBACKED, "by-construction:unbacked:non-sufficient")
    end
  else (FAIL_CLOSED, "non-sufficient:fail-closed:"
                     +:+ (if mem_str verdict VERDICTS then verdict else "unknown")).

Definition REFUSAL_CAUSE_INSUFFICIENT_CAPABILITY := "insufficient-capability".

Definition find_enforced_entry (p : sufficiency_policy) (jurisdiction op : string) :
    option policy_entry :=
  find (fun e => str_eqb (pe_jurisdiction e) jurisdiction && str_eqb (pe_op e) op)
       (enforced_scopes p).

(** [(refuse, cause)]. *)
Definition enforce_decision (jurisdiction op : string) (verdict : option string)
    (policy : sufficiency_policy) : bool * string :=
  match find_enforced_entry policy jurisdiction op with
  | None => (false, "")
  | Some e =>
      match verdict with
      | None => (true, REFUSAL_CAUSE_INSUFFICIENT_CAPABILITY)
      | Some v =>
          match fst (suff_classify v (Some e)) with
          | SUFFICIENT | BY_CONSTRUCTION_ADMITTED => (false, "")
          | WAIVER_DISPOSITION =>
              if waiver_permits e then (false, "")
              else (true, REFUSAL_CAUSE_INSUFFICIENT_CAPABILITY)
          | _ => (true, REFUSAL_CAUSE_INSUFFICIENT_CAPABILITY)
          end
      end
  end.

(** * The dispatcher skips nothing *)

Section dispatch_facts.
Context (repr : pyval -> string) (gate_exists : string -> bool)
  (gate_runner : string -> result string bool).

Abbreviation run_cap := (_resolve_and_execute repr gate_exists gate_runner).
Abbreviation one := (dispatch_one repr gate_exists gate_runner).

(** Which gate run, if any, a verdict rests on. *)
Lemma resolve_spec cap v d c : run_cap cap = (v, d, c) ->
  v ∈ VERDICTS /\
  (v = "PROVEN" -> exists u g, _ugk_realization cap = Some u /\
     resolve_gate_name repr gate_exists u = Some g /\ gate_runner g = Ok true).
Proof.
  unfold _resolve_and_execute. intros H. cbv zeta in H.
  assert (Hv : forall x, mem_str x VERDICTS = true -> x ∈ VERDICTS)
    by (intros x Hx; by apply mem_str_spec).
  destruct (negb (is_pydict cap)); [injection H as <- <- <-; split; [by apply Hv|done]|].
  destruct (negb (is_none _) && _); [injection H as <- <- <-; split; [by apply Hv|done]|].
  destruct (_ugk_realization cap) as [u|] eqn:Hu;
    [destruct (negb (is_pydict u)); [injection H as <- <- <-; split; [by apply Hv|done]|];
     destruct (truthy u); [destruct (resolve_gate_name repr gate_exists u) as [g|] eqn:Hg|]|].
  1: { destruct (gate_runner g) as [[]|] eqn:Hr; injection H as <- <- <-;
         (split; [by apply Hv|try done]). intros _. by exists u, g. }
  all: repeat case_hyp H; injection H as <- <- <-; split; try done; by apply Hv.
Qed.

Lemma dispatch_one_id scope sel id cap o : one scope sel (id, cap) = Ok o ->
  match o with inl a => invariant a = id /\ ea_verdict a ∈ VERDICTS | inr i => i = id end.
Proof.
  unfold dispatch_one. intros (d & _ & H)%rbind_ok. apply Ok_inj in H. subst o.
  destruct d; [done| | |].
  - destruct (waiver_for _ _) as [w|]; (split; [done|by apply mem_str_spec]).
  - split; [done|by apply mem_str_spec].
  - destruct (run_cap cap) as [[v dd] c] eqn:E. by destruct (resolve_spec _ _ _ _ E).
Qed.

Lemma partition_perm {A B} (fa : A -> string) (os : list (A + B)) (fb : B -> string) :
  Permutation (map fa (lefts os) ++ map fb (rights os))
    (map (fun o => match o with inl a => fa a | inr b => fb b end) os).
Proof.
  induction os as [|[a|b] os IH]; simpl; [done|by constructor|].
  by rewrite <- Permutation_middle, IH.
Qed.

Lemma dispatch_all scope sel kvs os :
  Forall2 (fun kv o => one scope sel kv = Ok o) kvs os ->
  map (fun o => match o with inl a => invariant a | inr b => b end) os = map fst kvs /\
  Forall (fun a => ea_verdict a ∈ VERDICTS) (lefts os).
Proof.
  induction 1 as [|[id cap] o kvs os H _ [IH1 IH2]]; [done|].
  apply dispatch_one_id in H. destruct o as [a|b]; simpl.
  - destruct H as [-> Hv]. rewrite IH1. split; [done|by constructor].
  - subst b. by rewrite IH1.
Qed.

(** The successful dispatch, opened up. *)
Lemma dispatch_ok registry scope runner sel store l :
  dispatch_capability_evidence repr gate_exists gate_runner registry scope runner sel store = Ok l ->
  exists os, Forall2 (fun kv o => one scope sel kv = Ok o) (sort_by fst registry) os /\
    artifacts l = lefts os /\ out_of_scope l = sorted_str (rights os) /\
    gaps l = sorted_str (gap_ids (lefts os)) /\ verify_hash l = Ok true.
Proof.
  unfold dispatch_capability_evidence. destruct (mem_str sel SELECTORS); [|done].
  intros (? & _ & H)%rbind_ok. apply rbind_ok in H as (os & Hos & H).
  cbv zeta in H. apply rbind_ok in H as (rv & _ & H). apply rbind_ok in H as (h & Hh & H).
  apply Ok_inj in H. subst l. exists os. apply sequence_forall2 in Hos.
  repeat split; try done.
  unfold verify_hash, deterministic_body. cbn. rewrite Hh. cbn. by rewrite str_eqb_refl.
Qed.

Lemma in_lefts {A B} (a : A) (os : list (A + B)) : a ∈ lefts os <-> inl a ∈ os.
Proof.
  induction os as [|[x|x] os IH]; simpl.
  - by rewrite !elem_of_nil.
  - rewrite !elem_of_cons, IH. naive_solver.
  - rewrite elem_of_cons, IH. naive_solver.
Qed.

Lemma dispatch_proven scope sel id cap a : one scope sel (id, cap) = Ok (inl a) ->
  ea_verdict a = "PROVEN" ->
  id ∉ waived_ids (scope_waivers scope) /\
  exists u g, _ugk_realization cap = Some u /\
    resolve_gate_name repr gate_exists u = Some g /\ gate_runner g = Ok true.
Proof.
  unfold dispatch_one. intros (d & Hd & H)%rbind_ok Hp. apply Ok_inj in H.
  destruct d; [done| | |].
  - by destruct (waiver_for _ _); injection H as <-.
  - by injection H as <-.
  - destruct (run_cap cap) as [[v dd] c] eqn:E. injection H as <-. simpl in Hp. subst v.
    split; [|by apply (resolve_spec _ _ _ _ E)].
    unfold _plan in Hd.
    destruct (match in_scope scope with Some _ => _ | None => _ end); [discriminate Hd|].
    destruct (mem_str id _) eqn:Hm; [discriminate Hd|]. by apply mem_str_false in Hm.
Qed.

(** Nothing is skipped and nothing is invented.  A successful dispatch gives
    every capability of the registry exactly one place, an artifact with a verdict
    of the closed vocabulary or the out-of-scope list, and its ledger verifies
    against its own hash. *)
Theorem dispatch_complete registry scope runner sel store l :
  dispatch_capability_evidence repr gate_exists gate_runner registry scope runner sel store = Ok l ->
  Permutation (map invariant (artifacts l) ++ out_of_scope l) (map fst registry) /\
  Forall (fun a => ea_verdict a ∈ VERDICTS) (artifacts l) /\ verify_hash l = Ok true.
Proof.
  intros (os & Hos & Ha & Ho & _ & Hv)%dispatch_ok.
  destruct (dispatch_all _ _ _ _ Hos) as [Hids Hvs].
  rewrite Ha, Ho, sorted_str_perm. split; [|done].
  rewrite <- (sort_by_perm fst registry) at 1. rewrite <- Hids.
  rewrite <- (partition_perm invariant os id). by rewrite list_fmap_id.
Qed.

(** No laundering into PROVEN.  A PROVEN artifact names a registry capability
    that is not waived, whose realization resolves to an existing gate, and that
    gate was run and answered true. *)
Theorem proven_was_run registry scope runner sel store l a :
  dispatch_capability_evidence repr gate_exists gate_runner registry scope runner sel store = Ok l ->
  a ∈ artifacts l -> ea_verdict a = "PROVEN" ->
  exists cap u g, (invariant a, cap) ∈ registry /\
    invariant a ∉ waived_ids (scope_waivers scope) /\
    _ugk_realization cap = Some u /\ resolve_gate_name repr gate_exists u = Some g /\
    gate_exists g = true /\ gate_runner g = Ok true.
Proof.
  intros (os & Hos & Ha & _)%dispatch_ok Hin Hp. rewrite Ha, in_lefts in Hin.
  apply list_elem_of_lookup in Hin as (i & Hi).
  destruct (Forall2_lookup_r _ _ _ _ _ Hos Hi) as ([id cap] & Hk & H1).
  pose proof (dispatch_one_id _ _ _ _ _ H1) as [Hid _].
  destruct (dispatch_proven _ _ _ _ _ H1 Hp) as (Hw & u & g & Hu & Hg & Hr).
  exists cap, u, g. rewrite Hid. split; [|repeat split; try done].
  - rewrite <- (sort_by_perm fst registry). by eapply list_elem_of_lookup_2.
  - unfold resolve_gate_name in Hg. by apply find_some in Hg as [_ Hg].
Qed.
End dispatch_facts.

(** The enforced policy admits on PROVEN evidence only.  In the scope
    "external-consequential" the four authority-changing operations are refused on
    every other verdict, a missing one included; nothing else is refused. *)
Theorem enforcement_spec jurisdiction op verdict :
  fst (enforce_decision jurisdiction op verdict CAPABILITY_SUFFICIENCY_POLICY) = true <->
  jurisdiction = "external-consequential" /\
  op ∈ ["authority_model_set"; "namespace_allocate"; "namespace_delegate"; "namespace_revoke"] /\
  verdict <> Some "PROVEN".
Proof.
  set (ops := ["authority_model_set"; _; _; _]).
  assert (Hfind : forall e, find_enforced_entry CAPABILITY_SUFFICIENCY_POLICY jurisdiction op = Some e ->
    jurisdiction = "external-consequential" /\ op ∈ ops /\ e = enforced op).
  { intros e H. apply find_some in H as [Hin H]. apply andb_true_iff in H as [Hj Ho].
    apply str_eqb_spec in Hj, Ho. apply list_elem_of_In, list_elem_of_fmap in Hin as (o & -> & Hin).
    simpl in Hj, Ho. by subst. }
  unfold enforce_decision. destruct (find_enforced_entry _ _ _) as [e|] eqn:He.
  - destruct (Hfind e eq_refl) as (Hj & Ho & ->). destruct verdict as [v|]; [|simpl; naive_solver].
    unfold suff_classify. destruct (str_eqb v "PROVEN") eqn:Ep.
    { apply str_eqb_spec in Ep as ->. simpl. naive_solver. }
    assert (v <> "PROVEN") by (intros ->; by rewrite str_eqb_refl in Ep).
    destruct (str_eqb v "WAIVED"); [simpl; naive_solver|].
    destruct (str_eqb v "BY-CONSTRUCTION"); simpl; naive_solver.
  - split; [done|]. intros (-> & Ho & _). exfalso. revert He. unfold ops in Ho.
    rewrite !elem_of_cons, elem_of_nil in Ho.
    by repeat destruct Ho as [->|Ho]; try (vm_compute; discriminate).
Qed.

(** * Examples *)

Definition demo_registry : registry_t :=
  [("Cap-2", PDict [("class", PStr "I"); ("realizations", PDict [("UGK", PDict
      [("evidence_class", PStr "gate-suite"); ("gate", PStr "ugk.conformance.demo_gate")])])]);
   ("Cap-1", PDict [("notes", PStr "held by construction")]);
   ("Cap-4", PStr "not a dictionary"); ("Cap-3", PDict [])].
Definition demo_scope : DispatchScope :=
  {| scope_id := "s"; in_scope := Some ["Cap-1"; "Cap-2"; "Cap-4"]; scope_waivers := [];
     custom_set := None; scope_jurisdiction := "" |}.
Definition demo_dispatch :=
  dispatch_capability_evidence (fun _ => "") (str_eqb "demo_gate") (fun _ => Ok true)
    demo_registry demo_scope None "full" None.

Example demo_verdicts :
  rmap (fun l => (map (fun a => (invariant a, ea_verdict a)) (artifacts l), out_of_scope l))
    demo_dispatch
  = Ok ([("Cap-1", "BY-CONSTRUCTION"); ("Cap-2", "PROVEN"); ("Cap-4", "ERROR")], ["Cap-3"]).
Proof. vm_compute. reflexivity. Qed.

Lemma dispatch_complete_witness :
  exists l, demo_dispatch = Ok l /\
    Permutation (map invariant (artifacts l) ++ out_of_scope l) (map fst demo_registry) /\
    Forall (fun a => ea_verdict a ∈ VERDICTS) (artifacts l) /\ verify_hash l = Ok true.
Proof.
  destruct demo_dispatch as [l|e] eqn:H; [|vm_compute in H; discriminate H].
  exists l. split; [reflexivity|]. exact (dispatch_complete _ _ _ _ _ _ _ _ _ H).
Defined.

Lemma proven_was_run_witness :
  exists l a, demo_dispatch = Ok l /\ nth_error (artifacts l) 1 = Some a /\
    ea_verdict a = "PROVEN" /\
    exists cap u g, (invariant a, cap) ∈ demo_registry /\
      invariant a ∉ waived_ids (scope_waivers demo_scope) /\
      _ugk_realization cap = Some u /\
      resolve_gate_name (fun _ => "") (str_eqb "demo_gate") u = Some g /\
      str_eqb "demo_gate" g = true /\ @Ok string bool true = Ok true.
Proof.
  destruct demo_dispatch as [l|e] eqn:H; [|vm_compute in H; discriminate H].
  destruct (nth_error (artifacts l) 1) as [a|] eqn:Ha;
    [|vm_compute in H; apply Ok_inj in H; rewrite <- H in Ha; discriminate Ha].
  assert (Hp : ea_verdict a = "PROVEN")
    by (vm_compute in H; apply Ok_inj in H; rewrite <- H in Ha; apply Some_inj' in Ha;
        rewrite <- Ha; reflexivity).
  exists l, a. split; [reflexivity|]. split; [exact Ha|]. split; [exact Hp|].
  apply (proven_was_run (fun _ => "") (str_eqb "demo_gate") (fun _ => Ok true)
           demo_registry demo_scope None "full" None l a H); [|exact Hp].
  apply list_elem_of_In. exact (nth_error_In _ _ Ha).
Defined.

(** A realization that is not a dictionary stops the whole dispatch under the
    [core] selector, although such entries are meant to become GAP artifacts, as
    they do under [full]. *)
Example core_selector_raises :
  let bad := [("Cap-9", PDict [("class", PStr "I"); ("realizations", PDict [("UGK", PStr "g")])])] in
  let everything := {| scope_id := "s"; in_scope := None; scope_waivers := [];
                       custom_set := None; scope_jurisdiction := "" |} in
  let run sel := rmap (fun l => map ea_verdict (artifacts l))
    (dispatch_capability_evidence (fun _ => "") (fun _ => false) (fun _ => Ok true)
       bad everything None sel None) in
  run "core" = Err (Exn OtherError "AttributeError: no attribute 'get'") /\
  run "full" = Ok ["GAP"].
Proof. vm_compute. split; reflexivity. Qed.
