(* ===== verification/Sqlite.v ===== *)
(** What the store uses of Python's [sqlite3] module on one connection: the
    implicit transaction before data changes, nested savepoints, commit, and
    the failures of each.  The contents of the database are a parameter. *)
From S2P Require Import Prelude.

(** An integer an INTEGER column can hold. *)
Definition fits_int64 (z : Z) : bool := (- 2 ^ 63 <=? z) && (z <? 2 ^ 63).

Record savepoint (D : Type) := {
  sp_name : string;
  sp_snapshot : D;
  sp_opens : bool;          (** the savepoint opened the transaction itself *)
}.
Arguments sp_name {D} _. Arguments sp_snapshot {D} _. Arguments sp_opens {D} _.

(** [durable] is what another connection sees; [faults] gives, one per commit, the
    message it fails with, if it does (a full disk, a lock held elsewhere); [busy]
    says, one per data change, whether another connection holds the lock. *)
Record conn (D : Type) := Conn {
  durable : D;
  current : D;
  in_txn : bool;
  savepoints : list (savepoint D);
  faults : list (option string);
  busy : list bool;
  ro : bool;
}.
Arguments Conn {D}. Arguments durable {D} _. Arguments current {D} _.
Arguments in_txn {D} _. Arguments savepoints {D} _. Arguments faults {D} _.
Arguments busy {D} _. Arguments ro {D} _.

Section sqlite.
Context {D : Type}.
Implicit Types c : conn D.

Definition set_current (d : D) (c : conn D) : conn D :=
  Conn (durable c) d (in_txn c) (savepoints c) (faults c) (busy c) (ro c).
Definition set_savepoints (l : list (savepoint D)) (c : conn D) : conn D :=
  Conn (durable c) (current c) (in_txn c) l (faults c) (busy c) (ro c).

(** COMMIT of the open transaction. *)
Definition commit_now : M (conn D) unit := fun c =>
  match faults c with
  | Some m :: fs => (Err (Exn OperationalError m),
                     Conn (durable c) (current c) (in_txn c) (savepoints c) fs (busy c) (ro c))
  | _ => (Ok tt, Conn (current c) (current c) false [] (tail (faults c)) (busy c) (ro c))
  end.

(** [conn.commit()]: nothing to do outside a transaction. *)
Definition commit : M (conn D) unit := fun c =>
  if in_txn c then commit_now c else (Ok tt, c).

Definition locked : exn := Exn OperationalError "database is locked".

(** [conn.execute] of an INSERT or DELETE: the transaction begins before the
    parameters are bound and the lock is asked for, so it stays open when either
    fails. *)
Definition dml (f : D -> result exn D) : M (conn D) unit := fun c =>
  if ro c then (Err (Exn OperationalError "attempt to write a readonly database"), c) else
  let c1 := Conn (durable c) (current c) true (savepoints c) (faults c) (busy c) (ro c) in
  let c2 := Conn (durable c) (current c) true (savepoints c) (faults c) (tail (busy c)) (ro c) in
  match f (current c) with
  | Ok d => match busy c with
            | true :: _ => (Err locked, c2)
            | _ => (Ok tt, set_current d c2)
            end
  | Err e => (Err e, c1)
  end.

(** [conn.execute] of a data definition statement: no implicit transaction; it
    takes effect at once when none is open. *)
Definition ddl (f : D -> result exn D) : M (conn D) unit := fun c =>
  if ro c then (Err (Exn OperationalError "attempt to write a readonly database"), c) else
  match f (current c) with
  | Ok d => (Ok tt, Conn (if in_txn c then durable c else d) d (in_txn c) (savepoints c)
                         (faults c) (busy c) (ro c))
  | Err e => (Err e, c)
  end.

(** SAVEPOINT: outside a transaction it opens one. *)
Definition savepoint_begin (n : string) : M (conn D) unit := fun c =>
  (Ok tt, Conn (durable c) (current c) true
    ({| sp_name := n; sp_snapshot := current c; sp_opens := negb (in_txn c) |}
     :: savepoints c) (faults c) (busy c) (ro c)).

Fixpoint find_sp (n : string) (l : list (savepoint D)) :
    option (savepoint D * list (savepoint D)) :=
  match l with
  | [] => None
  | s :: l' => if str_eqb (sp_name s) n then Some (s, l') else find_sp n l'
  end.

Definition no_such : exn := Exn OperationalError "no such savepoint".

(** RELEASE: of the savepoint that opened the transaction, a COMMIT. *)
Definition release (n : string) : M (conn D) unit := fun c =>
  match find_sp n (savepoints c) with
  | None => (Err no_such, c)
  | Some (s, below) =>
      if sp_opens s then commit_now c else (Ok tt, set_savepoints below c)
  end.

(** ROLLBACK TO: the contents of the savepoint, which stays on the stack. *)
Definition rollback_to (n : string) : M (conn D) unit := fun c =>
  match find_sp n (savepoints c) with
  | None => (Err no_such, c)
  | Some (s, below) => (Ok tt, set_savepoints (s :: below) (set_current (sp_snapshot s) c))
  end.

(** A fresh connection on durable contents. *)
Definition open_conn (d : D) : conn D := Conn d d false [] [] [] false.
End sqlite.
