(* ===== verification/Integrity.v ===== *)
(** The integrity layer ([ugk/integrity]): verification levels and results,
    preflight validation, the atomic mutation block over a savepoint, the
    read-only guard and the receipt-time frame. *)
From S2P Require Import Prelude Json Sqlite Receipt.

(** ** levels.py *)

Inductive VerificationLevel :=
| LINKAGE | BODY | CONTEXT | IDENTITY | QUORUM | FULLY_VERIFIED.
Definition level_value (l : VerificationLevel) : Z :=
  match l with
  | LINKAGE => 1 | BODY => 2 | CONTEXT => 3 | IDENTITY => 4 | QUORUM => 5 | FULLY_VERIFIED => 6
  end.

Inductive CorruptionKind :=
| MISSING | CORRUPT | MALFORMED | FORGED | STALE | ORPHANED | AMBIGUOUS | UNVERIFIED.

Record VerificationResult := {
  achieved : VerificationLevel;
  required : VerificationLevel;
  corruption : option CorruptionKind;
  vr_detail : string;
}.

(** The property [ok]. *)
Definition vr_ok (r : VerificationResult) : bool :=
  match corruption r with
  | None => level_value (required r) <=? level_value (achieved r)
  | Some _ => false
  end.

(** ** validation.py *)

Record ValidationResult := {
  ok : bool;
  v_corruption : option CorruptionKind;
  v_detail : string;
}.
Definition valid : ValidationResult := {| ok := true; v_corruption := None; v_detail := "" |}.
Definition invalid (k : CorruptionKind) (detail : string) : ValidationResult :=
  {| ok := false; v_corruption := Some k; v_detail := detail |}.

(** ** transaction.py *)

Definition MutationRefused : exn := Exn OtherError "MutationRefused".
Definition TransactionCommitError : exn :=
  Exn TransactionCommitErrorC "transaction commit (savepoint RELEASE) failed".

Section mutation.
Context {D : Type}.

(** [MutationTransaction.__enter__]: refuses before any savepoint is opened. *)
Definition mt_enter (sp : string) (v : ValidationResult) : M (conn D) unit :=
  guard! ok v else MutationRefused in savepoint_begin sp.

Definition undo (sp : string) : M (conn D) unit :=
  let! _ := rollback_to sp in release sp.

(** The clean path of [__exit__]: a failed RELEASE is undone as far as possible
    and reported as its own error. *)
Definition mt_exit_clean (sp : string) : M (conn D) unit := fun c =>
  match release sp c with
  | (Ok _, c') => (Ok tt, c')
  | (Err _, c') => (Err TransactionCommitError, snd (undo sp c'))
  end.

(** The exception path of [__exit__]. *)
Definition mt_exit_exn (sp : string) : M (conn D) unit := undo sp.

(** [with MutationTransaction(conn, validation): body]. *)
Definition with_mutation {A} (sp : string) (v : ValidationResult) (body : M (conn D) A) :
    M (conn D) A := fun c =>
  match mt_enter sp v c with
  | (Err e, c') => (Err e, c')
  | (Ok _, c1) =>
      match body c1 with
      | (Ok a, c2) => match mt_exit_clean sp c2 with
                      | (Ok _, c3) => (Ok a, c3) | (Err e, c3) => (Err e, c3) end
      | (Err e, c2) => match mt_exit_exn sp c2 with
                       | (Ok _, c3) => (Err e, c3) | (Err e', c3) => (Err e', c3) end
      end
  end.
End mutation.

(** ** readonly.py: the guard looks at whether the file exists before and after *)

Definition _is_ephemeral (db_path : option string) : bool :=
  match db_path with None => true | Some p => str_eqb p ":memory:" end.

Definition require_existing (db_path : option string) (exists_ : string -> bool) :
    result exn unit :=
  match db_path with
  | Some p => if negb (_is_ephemeral db_path) && negb (exists_ p)
              then Err (Exn ReadOnlyViolation "read-only op requires an existing database")
              else Ok tt
  | None => Ok tt
  end.

(** [__exit__] of the guard, from the two observations. *)
Definition guard_exit (db_path : option string) (existed exists_now : bool) : result exn unit :=
  if _is_ephemeral db_path then Ok tt
  else if negb existed && exists_now then
    Err (Exn ReadOnlyViolation "read-only op CREATED a database")
  else if existed && negb exists_now then
    Err (Exn ReadOnlyViolation "read-only op DESTROYED the database")
  else Ok tt.

(** ** context.py *)

Record ReceiptContext := {
  ctx_law_hash : string;
  ctx_legend_hash : string;
  ctx_timestamp : string;
}.
Definition resolve (r : Receipt) : ReceiptContext :=
  {| ctx_law_hash := law_hash r; ctx_legend_hash := legend_hash r;
     ctx_timestamp := timestamp r |}.
Definition drifted (r : Receipt) (live_law_hash live_legend_hash : string) : bool :=
  negb (str_eqb (law_hash r) live_law_hash) || negb (str_eqb (legend_hash r) live_legend_hash).

(** * A mutation block is all or nothing *)

Section mutation_facts.
Context {D : Type}.
Implicit Types c : conn D.

(** A body that leaves the savepoint stack as it found it and does not commit:
    nested blocks come and go inside it. *)
Definition stack_kept {A} (body : M (conn D) A) : Prop :=
  forall c, savepoints (snd (body c)) = savepoints c /\ durable (snd (body c)) = durable c.

Lemma find_sp_head n (s : savepoint D) l : sp_name s = n -> find_sp n (s :: l) = Some (s, l).
Proof. intros H. simpl. by rewrite H, str_eqb_refl. Qed.

(** Undoing to a savepoint restores its contents, even when the RELEASE fails. *)
Lemma undo_restores sp s l c : savepoints c = s :: l -> sp_name s = sp ->
  let c' := snd (undo sp c) in
  current c' = sp_snapshot s /\ (durable c' = durable c \/ durable c' = sp_snapshot s) /\
  (sp_opens s = true -> faults c = [] -> fst (undo sp c) = Ok tt /\ savepoints c' = [] /\
     in_txn c' = false).
Proof.
  intros Hs Hn. unfold undo, sbind, rollback_to. rewrite Hs, find_sp_head by done.
  unfold release. cbn [savepoints set_savepoints]. rewrite find_sp_head by done.
  destruct (sp_opens s); [|cbn; repeat split; auto; discriminate].
  unfold commit_now. cbn [faults set_savepoints set_current].
  destruct (faults c) as [|[m|] fs]; cbn; repeat split; auto; discriminate.
Qed.

Lemma mt_exit_clean_spec sp s l c c' r : savepoints c = s :: l -> sp_name s = sp ->
  sp_opens s = true -> mt_exit_clean sp c = (r, c') ->
  match r with
  | Ok _ => durable c' = current c /\ current c' = current c /\ in_txn c' = false /\
            savepoints c' = []
  | Err _ => current c' = sp_snapshot s /\ (durable c' = durable c \/ durable c' = sp_snapshot s)
  end.
Proof.
  intros Hs Hn Ho. unfold mt_exit_clean, release at 1. rewrite Hs, find_sp_head, Ho by done.
  unfold commit_now at 1. destruct (faults c) as [|[m|] fs]; intros [<- <-]%pair_ok; cbn; auto.
  set (c1 := Conn _ _ _ _ _ _ _). destruct (undo_restores sp s l c1 Hs Hn) as (H1 & H2 & _).
  by split.
Qed.

(** A mutation block is all or nothing.  Run outside a transaction over a body
    that keeps the savepoint stack, the block either succeeds, only on a passed
    validation, and the body's final contents are durable; or it fails, through
    the validation, the body or the commit, and both the durable contents and
    those the connection sees are what they were. *)
Theorem mutation_block_atomic {A} sp v (body : M (conn D) A) c res c' :
  stack_kept body -> in_txn c = false -> current c = durable c ->
  with_mutation sp v body c = (res, c') ->
  match res with
  | Ok a => ok v = true /\ in_txn c' = false /\ current c' = durable c' /\
      exists c1 c2, body c1 = (Ok a, c2) /\ current c1 = durable c /\ durable c' = current c2
  | Err _ => durable c' = durable c /\ current c' = durable c
  end.
Proof.
  intros Hb Ht Hcd H. unfold with_mutation, mt_enter in H.
  destruct (ok v); cbn in H; [|by apply pair_ok in H as [<- <-]].
  set (c1 := Conn _ _ _ _ _ _ _) in H. destruct (Hb c1) as [Hsp Hd].
  replace (savepoints c1) with
    ({| sp_name := sp; sp_snapshot := current c; sp_opens := true |} :: savepoints c) in Hsp
    by (unfold c1; cbn; by rewrite Ht).
  change (durable c1) with (durable c) in Hd.
  destruct (body c1) as [[a|e] c2] eqn:Hbody; cbn [snd] in Hsp, Hd.
  - destruct (mt_exit_clean sp c2) as [[u|e] c3] eqn:He; apply pair_ok in H as [<- <-];
      pose proof (mt_exit_clean_spec sp _ _ _ _ _ Hsp eq_refl eq_refl He) as Hspec;
      cbn in Hspec.
    + destruct Hspec as (H1 & H2 & H3 & _). repeat split; [done|congruence|].
      by exists c1, c2.
    + rewrite Hcd, Hd in Hspec. destruct Hspec as [? [?|?]]; by split.
  - unfold mt_exit_exn in H. destruct (undo_restores sp _ _ c2 Hsp eq_refl) as (H1 & H2 & _).
    cbn [sp_snapshot] in H1, H2. rewrite Hd in H2.
    destruct (undo sp c2) as [[u|e'] c3]; apply pair_ok in H as [<- <-]; cbn in H1, H2;
      rewrite H1, Hcd in *; destruct H2; by split.
Qed.
End mutation_facts.

(** A block whose body changes the contents and whose commit fails. *)
Lemma mutation_block_atomic_witness :
  let c := Conn 1 1 false [] [Some "disk full"] [] false in
  let body : M (conn Z) unit := dml (fun d => Ok (d + 1)) in
  fst (with_mutation "sp" valid body c) = Err TransactionCommitError /\
  durable (snd (with_mutation "sp" valid body c)) = 1 /\
  current (snd (with_mutation "sp" valid body c)) = 1.
Proof.
  intros c body. split; [reflexivity|].
  apply (mutation_block_atomic "sp" valid body c (Err TransactionCommitError)
           (snd (with_mutation "sp" valid body c))).
  - intros x. unfold body, dml. destruct (ro x), (busy x) as [|[] ?]; split; reflexivity.
  - reflexivity.
  - reflexivity.
  - reflexivity.
Defined.
