(* ===== verification/Archives.v ===== *)
(** What the database holds beside the receipts: the shape of its tables and its
    fingerprint ([ugk/storage/store.py]), provenance scopes ([ugk/scope.py]) and
    authority models ([ugk/authority/authority_model.py]). *)
From S2P Require Import Prelude Json Sha256 Binding.

(** ** The shape of the tables *)

(** A row of [PRAGMA table_info], without the column number. *)
Record column := Col {
  c_name : string;
  c_type : string;
  c_notnull : bool;
  c_default : option string;
  c_pk : bool;
}.
Definition shape := list (string * list column).

Definition text_nn (d : option string) (n : string) : column := Col n "TEXT" true d false.
Definition text_null (n : string) : column := Col n "TEXT" false None false.
Definition int_nn (n d : string) : column := Col n "INTEGER" true (Some d) false.
Definition q (s : string) : option string := Some ("'" +:+ s +:+ "'").

Definition effect_columns_names : list string :=
  ["effect_atomicity"; "effect_atomicity_model_id"; "effect_phase"; "effect_prepare_ref";
   "effect_compensate_ref"; "effect_idempotency_key"; "effect_compensation_idempotency_key";
   "effect_abort_reason"; "effect_gate_admit_ref"].

(** [_M2_COLUMN_DEFS] *)
Definition _M2_COLUMN_DEFS : list column :=
  map (text_nn (q "")) ["h_s"; "h_c"; "h_m"] ++ [text_null "h_j"]
  ++ map (text_nn (q "")) ["h_r"; "parent_h_r"]
  ++ [text_nn (q "strict") "mode"; int_nn "version" "1"; text_nn (q "c_s.v1") "id_c_s";
      text_nn (q "c_c.v1") "id_c_c"; text_nn (q "c_m.v1+sigma_0") "id_c_m";
      text_nn (q "c_j.v1") "id_c_j"; text_nn (q "") "h_body"]
  ++ map text_null
       (["terminal_outcome"; "terminal_outcome_model_id"; "terminal_outcome_reason";
         "trace_vector_hash"; "h_cap"; "capability_evidence_model_id";
         "capability_ledger_hash"; "capability_registry_version"; "capability_scope_id"]
        ++ effect_columns_names
        ++ ["reconciliation_grade"; "reconciliation_warrant_snapshot";
            "continuation_id"; "continuation_op"; "continuation_authority";
            "continuation_parameters"; "continuation_jurisdiction";
            "continuation_expiry_basis"; "continuation_state"; "continuation_model_id";
            "bridge_record_id"; "bridge_source_regime_ref"; "bridge_target_regime_ref";
            "bridge_transformation_ref"; "bridge_downgrade_reason";
            "bridge_preserved_evidence_ref"]).

(** [_CREATE_RECEIPTS]: the M2 columns of the statement, up to the effect
    columns, are those of [_M2_COLUMN_DEFS]. *)
Definition _CREATE_RECEIPTS : list column :=
  [Col "receipt_id" "INTEGER" false None true]
  ++ map (text_nn None) ["op"; "authority"; "parameters"; "intent"]
  ++ [text_nn (q "session") "jurisdiction"; text_nn (q "high") "confidence";
      Col "timestamp" "REAL" true None false; int_nn "failed" "0"]
  ++ map (text_nn (q "")) ["session_dkn"; "law_hash"; "legend_hash"; "warrant_id"; "intent_ref"]
  ++ take 31 _M2_COLUMN_DEFS.

Definition _CREATE_LEGEND_ARCHIVE : list column :=
  [Col "legend_hash" "TEXT" false None true; text_nn None "entries_json";
   text_nn (q "") "phase_code"; int_nn "entry_count" "0"; text_nn (q "") "sealed_at"].
Definition _CREATE_SCOPE_ARCHIVE : list column :=
  [Col "scope_id" "TEXT" false None true; text_nn (q "session") "scope_type"]
  ++ map (text_nn (q "")) ["authority_surface"; "session_dkn"; "law_hash"; "legend_hash";
                           "prior_scope_id"; "timestamp"].
Definition _CREATE_AM_ARCHIVE : list column :=
  [Col "model_hash" "TEXT" false None true; text_nn (q "") "model_id";
   int_nn "require_gate" "0"; int_nn "require_warrant" "0"; int_nn "require_intent" "0"]
  ++ map (text_nn (q "")) ["description"; "rationale"; "law_hash"; "authority"; "timestamp"].
Definition _CREATE_FRAME_LEG_PROBE : list column := [Col "id" "INTEGER" false None true].

(** CREATE TABLE IF NOT EXISTS. *)
Definition create_if_absent (t : string) (cs : list column) (s : shape) : shape :=
  match dict_get t s with Some _ => s | None => s ++ [(t, cs)] end.

(** [_migrate_m2_schema]: the missing columns, at the end of the receipts table. *)
Definition _migrate_m2_schema (s : shape) : shape :=
  match dict_get "receipts" s with
  | None => s
  | Some existing =>
      let missing := List.filter (fun c => negb (mem_str (c_name c) (map c_name existing)))
                                 _M2_COLUMN_DEFS in
      dict_set "receipts" (existing ++ missing) s
  end.

(** The construction-time statements of [UGKReceiptStore.__init__]. *)
Definition bootstrap (s : shape) : shape :=
  let s := create_if_absent "receipts" _CREATE_RECEIPTS s in
  let s := create_if_absent "legend_archive" _CREATE_LEGEND_ARCHIVE s in
  let s := create_if_absent "scope_archive" _CREATE_SCOPE_ARCHIVE s in
  let s := create_if_absent "authority_model_archive" _CREATE_AM_ARCHIVE s in
  let s := create_if_absent "frame_leg_probe" _CREATE_FRAME_LEG_PROBE s in
  _migrate_m2_schema s.

Definition b2i (b : bool) : pyval := PInt (Z.b2z b).
Definition column_val (c : column) : pyval :=
  PList [PStr (c_name c); PStr (c_type c); b2i (c_notnull c);
         match c_default c with Some d => PStr d | None => PNone end; b2i (c_pk c)].

Definition compute_schema_hash (s : shape) : result exn string :=
  let* blob := json_dumps style_compact_ascii
    (PDict (map (fun t => (fst t, PList (map column_val (snd t)))) (sort_by fst s))) in
  Ok (sha256_hex blob).

Definition EXPECTED_SCHEMA_HASH :=
  "82d02279c39d5fa82d6bb18a2a12b0f85cc5210a93502d827a9f89c570327c99".

(** ** Provenance scopes *)

Record ProvenanceScope := {
  ps_scope_id : string;
  scope_type : string;
  authority_surface : string;
  ps_session_dkn : string;
  ps_law_hash : string;
  ps_legend_hash : string;
  prior_scope_id : string;
  ps_timestamp : string;
}.

Definition scope_body (authority_surface session_dkn law_hash legend_hash prior_scope_id
    scope_type timestamp : string) : pyval := PDict
  [("authority_surface", PStr authority_surface); ("law_hash", PStr law_hash);
   ("legend_hash", PStr legend_hash); ("prior_scope_id", PStr prior_scope_id);
   ("scope_type", PStr scope_type); ("session_dkn", PStr session_dkn);
   ("timestamp", PStr timestamp)].

(** [create]; [now] is the time used when no timestamp is given. *)
Definition scope_create (now authority_surface session_dkn law_hash legend_hash
    prior_scope_id scope_type : string) (timestamp : option string) :
    result exn ProvenanceScope :=
  let ts := match timestamp with Some t => if str_eqb t "" then now else t | None => now end in
  let* b := Binding.canonical_json (scope_body authority_surface session_dkn law_hash
              legend_hash prior_scope_id scope_type ts) in
  Ok {| ps_scope_id := sha256_hex b; scope_type := scope_type;
        authority_surface := authority_surface; ps_session_dkn := session_dkn;
        ps_law_hash := law_hash; ps_legend_hash := legend_hash;
        prior_scope_id := prior_scope_id; ps_timestamp := ts |}.

Definition verify_id (s : ProvenanceScope) : result exn bool :=
  let* b := Binding.canonical_json (scope_body (authority_surface s) (ps_session_dkn s)
    (ps_law_hash s) (ps_legend_hash s) (prior_scope_id s) (scope_type s) (ps_timestamp s)) in
  Ok (str_eqb (sha256_hex b) (ps_scope_id s)).

(** The queries of an archive of scopes, in insertion order. *)
Definition archive_get (l : list ProvenanceScope) (id : string) : option ProvenanceScope :=
  find (fun s => str_eqb (ps_scope_id s) id) l.

(** INSERT OR IGNORE on the primary key. *)
Definition archive_seal (s : ProvenanceScope) (l : list ProvenanceScope) :
    list ProvenanceScope :=
  match archive_get l (ps_scope_id s) with Some _ => l | None => l ++ [s] end.

Definition scopes_for_authority (l : list ProvenanceScope) (a : string) : list ProvenanceScope :=
  sort_by ps_timestamp (List.filter (fun s => str_eqb (authority_surface s) a) l).

(** ORDER BY timestamp DESC LIMIT 1: the engine breaks ties; here the first
    sealed of the latest. *)
Fixpoint latest (best : option ProvenanceScope) (l : list ProvenanceScope) :
    option ProvenanceScope :=
  match l with
  | [] => best
  | s :: l' =>
      latest (match best with
              | None => Some s
              | Some b => if String.leb (ps_timestamp s) (ps_timestamp b) then Some b else Some s
              end) l'
  end.
Definition latest_scope_id (l : list ProvenanceScope) (a : string) : string :=
  match latest None (List.filter (fun s => str_eqb (authority_surface s) a) l) with
  | Some s => ps_scope_id s | None => "" end.

Definition session_is_in_scope (l : list ProvenanceScope) (session_dkn scope_id : string) : bool :=
  existsb (fun s => str_eqb (ps_session_dkn s) session_dkn && str_eqb (ps_scope_id s) scope_id) l.

(** ** Authority models *)

Record AuthorityModel := {
  model_hash : string;
  model_id : string;
  require_gate : bool;
  require_warrant : bool;
  require_intent : bool;
  am_description : string;
  am_rationale : string;
  am_law_hash : string;
  am_authority : string;
  am_timestamp : string;
}.

Definition model_body (model_id : string) (require_gate require_warrant require_intent : bool)
    (description rationale law_hash authority timestamp : string) : pyval := PDict
  [("authority", PStr authority); ("description", PStr description);
   ("law_hash", PStr law_hash); ("model_id", PStr model_id); ("rationale", PStr rationale);
   ("require_gate", PBool require_gate); ("require_intent", PBool require_intent);
   ("require_warrant", PBool require_warrant); ("timestamp", PStr timestamp)].

Definition model_create (now model_id : string) (require_gate require_warrant require_intent : bool)
    (description rationale law_hash authority : string) (timestamp : option string) :
    result exn AuthorityModel :=
  let ts := match timestamp with Some t => if str_eqb t "" then now else t | None => now end in
  let* b := Binding.canonical_json (model_body model_id require_gate require_warrant
              require_intent description rationale law_hash authority ts) in
  Ok {| model_hash := sha256_hex b; model_id := model_id; require_gate := require_gate;
        require_warrant := require_warrant; require_intent := require_intent;
        am_description := description; am_rationale := rationale; am_law_hash := law_hash;
        am_authority := authority; am_timestamp := ts |}.

(** The Greek letter phi of two descriptions, in UTF-8. *)
Definition phi : string := String "207" (String "134" "").
Definition sect : string := String "194" (String "167" "").

Definition alt_prevention (now law_hash authority : string) : result exn AuthorityModel :=
  model_create now "alt_prevention" true true true
    ("ALT Prevention Theorem: all three disjuncts enforced. " +:+ phi +:+ "=0 target.")
    ("Full ALT " +:+ sect +:+ "11 compliance: trace + causal necessity + will.")
    law_hash authority None.
Definition alt_trace (now law_hash authority : string) : result exn AuthorityModel :=
  model_create now "alt_trace" true true false
    "ALT trace + causal: gate and warrant required; will vacuous."
    "Disjuncts (a) and (b) enforced; will layer not yet adopted." law_hash authority None.
Definition trace_only (now law_hash authority : string) : result exn AuthorityModel :=
  model_create now "trace_only" false false false
    "Trace only: receipt chain enforced. Substrate/test posture."
    "Honest declaration for substrate usage and test environments." law_hash authority None.
Definition custom (now law_hash authority : string)
    (require_gate require_warrant require_intent : bool) (description rationale : string) :
    result exn AuthorityModel :=
  model_create now "custom" require_gate require_warrant require_intent description rationale
    law_hash authority None.

Definition model_verify_hash (m : AuthorityModel) : result exn bool :=
  let* b := Binding.canonical_json (model_body (model_id m) (require_gate m) (require_warrant m)
    (require_intent m) (am_description m) (am_rationale m) (am_law_hash m) (am_authority m)
    (am_timestamp m)) in
  Ok (str_eqb (sha256_hex b) (model_hash m)).

(** * Properties *)

(** The pinned schema anchor is the fingerprint of the tables the store
    creates. *)
Theorem schema_hash_pinned : compute_schema_hash (bootstrap []) = Ok EXPECTED_SCHEMA_HASH.
Proof. vm_compute. reflexivity. Qed.

(** Bootstrapping twice changes nothing more. *)
Lemma bootstrap_idempotent : bootstrap (bootstrap []) = bootstrap [].
Proof. vm_compute. reflexivity. Qed.
