(* ===== verification/Store.v ===== *)
(** The receipt store ([ugk/storage/store.py], class [UGKReceiptStore]): its
    state, the append of a receipt, governed transactions, schema migration,
    epoch pruning, the verifiers and the queries. *)
From S2P Require Import Prelude Json Sha256 Binding BindingM2 Frame Authority Receipt Trace Capability Sqlite Integrity Archives.

(** ** State *)

Record legend_row := {
  lr_hash : string;
  entries_json : string;
  phase_code : string;
  entry_count : Z;
  sealed_at : string;
}.

(** A row of the receipts table is a receipt whose [op], [intent],
    [jurisdiction] and [confidence] hold the stored text, compressed or not,
    whose [parameters] is the stored JSON text and whose nullable cells are
    text.  [seq] is the AUTOINCREMENT counter. *)
Record db := {
  rows : list Receipt;
  seq : Z;
  tables : shape;
  legend_archive : list legend_row;
  scope_archive : list ProvenanceScope;
  authority_model_archive : list AuthorityModel;
}.
Definition set_rows (l : list Receipt) (n : Z) (d : db) : db :=
  {| rows := l; seq := n; tables := tables d; legend_archive := legend_archive d;
     scope_archive := scope_archive d; authority_model_archive := authority_model_archive d |}.
Definition set_tables (t : shape) (d : db) : db :=
  {| rows := rows d; seq := seq d; tables := t; legend_archive := legend_archive d;
     scope_archive := scope_archive d; authority_model_archive := authority_model_archive d |}.

(** The in-memory chain and frame frontier: [_prior_h_r], [_prior_h_m],
    [_prior_intent_ref] and [_schema_hash]. *)
Record frontier := {
  prior_h_r : string;
  prior_h_m : option string;
  prior_intent_ref : option string;
  schema_hash : string;
}.

(** The process-wide state a write reads: the default graph and the caches, the
    savepoint counter, the clock and the pinned codex hash. *)
Record env := {
  graph : AuthorityGraph;
  policies : policy_cache;
  keys : key_cache;
  sp_counter : Z;
  clock : list string;
  _pinned_codex_hash : string;
}.

Record store := {
  s_conn : conn db;
  front : frontier;
  _txn_depth : Z;
  _read_only : bool;
  s_env : env;
}.
Definition set_conn (c : conn db) (s : store) : store :=
  {| s_conn := c; front := front s; _txn_depth := _txn_depth s; _read_only := _read_only s;
     s_env := s_env s |}.
Definition set_front (f : frontier) (s : store) : store :=
  {| s_conn := s_conn s; front := f; _txn_depth := _txn_depth s; _read_only := _read_only s;
     s_env := s_env s |}.
Definition add_depth (n : Z) (s : store) : store :=
  {| s_conn := s_conn s; front := front s; _txn_depth := _txn_depth s + n;
     _read_only := _read_only s; s_env := s_env s |}.
Definition set_env (e : env) (s : store) : store :=
  {| s_conn := s_conn s; front := front s; _txn_depth := _txn_depth s;
     _read_only := _read_only s; s_env := e |}.

Definition on_conn {A} (m : M (conn db) A) : M store A := fun s =>
  let '(r, c) := m (s_conn s) in (r, set_conn c s).
Definition on_env {A} (m : M env A) : M store A := fun s =>
  let '(r, e) := m (s_env s) in (r, set_env e s).
(** The database as this connection sees it. *)
Definition view (s : store) : db := current (s_conn s).

Definition GENESIS : string := concat_str (repeat "0" 64).

Definition upd_env (g : AuthorityGraph) (p : policy_cache) (k : key_cache) (n : Z)
    (cl : list string) (e : env) : env :=
  {| graph := g; policies := p; keys := k; sp_counter := n; clock := cl;
     _pinned_codex_hash := _pinned_codex_hash e |}.

(** [time.time()]: the next reading of the clock. *)
Definition time_now : M env string := fun e =>
  (Ok match clock e with t :: _ => t | [] => "0.0" end,
   upd_env (graph e) (policies e) (keys e) (sp_counter e) (tail (clock e)) e).

(** What is SQLite's own: the conversion of a REAL to text and the effect of a
    data definition statement on the tables. *)
Class Engine := {
  real_text : string -> string;
  exec_ddl : string -> shape -> result exn shape;
}.

(** ** Reading the tip: [__init__] and [stream_hash] *)

Definition last_row (d : db) : option Receipt := last (rows d).

Definition nonempty (s : string) : option string := if str_eqb s "" then None else Some s.

Definition tip_of (d : db) : string :=
  match last_row d with
  | Some r => match nonempty (h_r r) with Some h => h | None => GENESIS end
  | None => GENESIS
  end.

Definition hydrate (d : db) (sh : string) : frontier :=
  {| prior_h_r := tip_of d;
     prior_h_m := match last_row d with Some r => nonempty (h_m r) | None => None end;
     prior_intent_ref := option_map intent_ref (last_row d);
     schema_hash := sh |}.

(** [UGKReceiptStore(path)] on an existing file or, with [exists_ := false], a new
    one.  A read-only store on a path must exist and creates nothing. *)
Definition open_store (db_path : option string) (read_only exists_ : bool) (d : db) (e : env) :
    result exn store :=
  let* _ := if read_only then require_existing db_path (fun _ => exists_) else Ok tt in
  let on_disk_ro := read_only && negb (_is_ephemeral db_path) in
  let d1 := if on_disk_ro then d else set_tables (bootstrap (tables d)) d in
  let* sh := compute_schema_hash (tables d1) in
  Ok {| s_conn := Conn d1 d1 false [] [] [] on_disk_ro; front := hydrate d1 sh; _txn_depth := 0;
        _read_only := read_only; s_env := e |}.

Definition empty_db : db :=
  {| rows := []; seq := 0; tables := []; legend_archive := []; scope_archive := [];
     authority_model_archive := [] |}.

(** ** The arguments of [write] *)

Record write_args := {
  w_op : string;
  w_authority : string;
  w_parameters : pyval;
  w_failed : bool;
  w_intent : option string;
  w_jurisdiction : string;
  w_confidence : string;
  w_session_dkn : string;
  w_law_hash : string;
  w_legend_hash : string;
  w_warrant_id : string;
  w_intent_ref : string;
  compress : bool;
  commit_terminal_outcome : bool;
  terminal_outcome_override : option string;
  commit_capability_evidence : bool;
  capability_ledger : option CapabilityEvidenceLedger;
  effect_columns : option cols;
  reconciliation_grade : pyval;
  reconciliation_warrant_snapshot : pyval;
  w_continuation : pyval;
  w_bridge : pyval;
  bridge_verifier : option (pyval -> result exn bool);
}.

(** The defaults of the signature. *)
Definition plain_write (op authority : string) (parameters : pyval) (intent : option string) :
    write_args :=
  {| w_op := op; w_authority := authority; w_parameters := parameters; w_failed := false;
     w_intent := intent; w_jurisdiction := "session"; w_confidence := "high";
     w_session_dkn := ""; w_law_hash := ""; w_legend_hash := ""; w_warrant_id := "";
     w_intent_ref := ""; compress := false; commit_terminal_outcome := false;
     terminal_outcome_override := None; commit_capability_evidence := false;
     capability_ledger := None; effect_columns := None; reconciliation_grade := PNone;
     reconciliation_warrant_snapshot := PNone; w_continuation := PNone; w_bridge := PNone;
     bridge_verifier := None |}.

Definition the_intent (a : write_args) : string :=
  match w_intent a with Some i => i | None => w_op a end.

Definition dict_pop (k : string) (d : cols) : cols :=
  List.filter (fun kv => negb (str_eqb (fst kv) k)) d.

(** The reconciliation surface leaves the parameters for its typed columns. *)
Definition promote_reconciliation (parameters grade snapshot : pyval) :
    pyval * pyval * pyval :=
  match parameters with
  | PDict d =>
      if mem_str "reconciliation_grade" (map fst d)
         || mem_str "reconciliation_warrant_snapshot" (map fst d)
      then (PDict (dict_pop "reconciliation_warrant_snapshot" (dict_pop "reconciliation_grade" d)),
            (if is_none grade then col "reconciliation_grade" d else grade),
            (if is_none snapshot then col "reconciliation_warrant_snapshot" d else snapshot))
      else (parameters, grade, snapshot)
  | _ => (parameters, grade, snapshot)
  end.

Section write.
Context {U : Unicode} {E : Ed25519} {G : Engine}.

(** ** The governed inputs of the commitments *)

Record governed := {
  g_freshness : FreshnessClaim;
  g_policy_id : string;
  g_authority_key : string;
  g_chain : list pyval;
  g_capabilities : list string;
}.

Definition env_policy_id (jurisdiction : string) : M env string := fun e =>
  match lookup_policy_id (policies e) jurisdiction with
  | Ok (i, p) => (Ok i, upd_env (graph e) p (keys e) (sp_counter e) (clock e) e)
  | Err x => (Err x, e)
  end.
Definition env_authority_key (authority : string) : M env string := fun e =>
  let '(k, ks) := lookup_authority_key (keys e) authority in
  (Ok k, upd_env (graph e) (policies e) ks (sp_counter e) (clock e) e).
Definition env_path (authority : string) : M env (list AuthorityEdge) := fun e =>
  let '(p, g) := canonical_path_for (graph e) authority in
  (p, upd_env g (policies e) (keys e) (sp_counter e) (clock e) e).
Definition env_path_dicts (authority : string) : M env (list pyval) := fun e =>
  let '(p, g) := canonical_path_as_dicts (graph e) authority in
  (p, upd_env g (policies e) (keys e) (sp_counter e) (clock e) e).

Definition governed_inputs (jurisdiction authority : string) : M env governed :=
  let! ei := slift (default_epoch ID_PHI_0) in
  let! pid := env_policy_id jurisdiction in
  let! key := env_authority_key authority in
  let! path := env_path authority in
  let! chain := env_path_dicts authority in
  match compute_effective_capabilities path with
  | (Some caps, None) =>
      sret {| g_freshness := build_freshness_claim_from_epoch ei; g_policy_id := pid;
              g_authority_key := key; g_chain := chain; g_capabilities := sorted_str caps |}
  | (_, _) => sraise (Exn ValueError "capability escalation in G_c path")
  end.

(** ** The four commitments and their root *)

Record commitments := {
  k_s : string;
  k_c : string;
  k_m : string;
  k_j : string;
  k_r : string;
}.

Definition m2_leaves (hs hc hm hj policy_id : string) : list (Z * string) :=
  [(TAG_H_S, hs); (TAG_H_C, hc); (TAG_H_M, hm); (TAG_H_J, hj);
   (TAG_ID_P, H_id_P policy_id); (TAG_ID_SIGMA, H_id_Sigma ID_SIGMA_0);
   (TAG_ID_PHI, H_id_Phi ID_PHI_0)].

Definition compute_commitments (f : frontier) (g : governed) (a : write_args)
    (parameters : pyval) : result exn commitments :=
  let* hs := H_s (PStr (w_op a)) parameters in
  let* hc := H_c (PList (g_chain g)) (PStr (g_policy_id g)) (pstrs (g_capabilities g))
    (pstrs (if str_eqb (w_warrant_id a) "" then [] else [w_warrant_id a]))
    (PStr (prior_h_r f)) (claim_val (g_freshness g)) in
  let* hm := H_m (PStr (the_intent a)) (PStr (w_intent_ref a)) (PStr (w_legend_hash a))
    (PList (lineage_as_dicts (build_lineage (prior_h_m f) (prior_intent_ref f)))) ID_SIGMA_0 in
  let* hj := H_j (PStr (fc_phase_code (g_freshness g))) (PStr MOSAIC_ROOT_PHI_0)
    (PStr (w_session_dkn a)) (PStr (g_authority_key g)) in
  let* hr := compute_H_r (m2_leaves hs hc hm hj (g_policy_id g)) in
  Ok {| k_s := hex hs; k_c := hex hc; k_m := hex hm; k_j := hex hj; k_r := hex hr |}.

(** ** The nullable column groups *)

Definition commits_outcome (a : write_args) : bool :=
  commit_terminal_outcome a || commit_capability_evidence a.

Definition terminal_columns (a : write_args) : result exn cols :=
  if commits_outcome a then
    let '(o, reason) := _derive_committed_outcome (w_op a) (w_failed a)
                          (terminal_outcome_override a) (the_intent a) in
    let* _ := _assert_emittable o (w_continuation a) (w_bridge a) (bridge_verifier a) in
    Ok [("terminal_outcome", PStr o);
        ("terminal_outcome_model_id", PStr TERMINAL_OUTCOME_MODEL_ID);
        ("terminal_outcome_reason", PStr reason)]
  else Ok [].

Definition capability_columns (a : write_args) : result exn cols :=
  if commit_capability_evidence a then
    match capability_ledger a with
    | None => Err (Exn ValueError "commit_capability_evidence requires a capability_ledger")
    | Some l =>
        let* c := capability_evidence_commitment l in
        Ok [("h_cap", col "h_cap" c);
            ("capability_evidence_model_id", col "capability_evidence_model_id" c);
            ("capability_ledger_hash", col "ledger_hash" c);
            ("capability_registry_version", col "registry_version" c);
            ("capability_scope_id", col "scope_id" c)]
    end
  else Ok [].

Definition continuation_columns (a : write_args) : result exn cols :=
  if is_none (w_continuation a) then Ok [] else _validate_continuation (w_continuation a).
Definition bridge_columns (a : write_args) : result exn cols :=
  if is_none (w_bridge a) then Ok [] else _validate_bridge_record (w_bridge a).

(** [committed_trace_vector_hash] *)
Definition committed_trace_vector_hash (codex_hash : string) (r : Receipt) :
    result exn string :=
  let fr := {| TraceVector.f_law_hash := law_hash r; TraceVector.f_schema_hash := EXPECTED_SCHEMA_HASH;
               TraceVector.f_legend_hash := legend_hash r;
               TraceVector.f_codex_hash := codex_hash |} in
  let* tv := TraceVector.build_trace_vector r fr TraceVector.COMMITTED_SURFACES in
  Ok (TraceVector.trace_vector_hash tv).

(** The receipt a write commits, with a given [h_body] and trace hash. *)
Definition receipt_of (f : frontier) (now : string) (k : commitments) (a : write_args)
    (parameters : pyval) (term cap eff rec cont br : cols) (ver : Z)
    (body : string) (tvh : option string) : Receipt :=
  {| op := w_op a; authority := w_authority a; parameters := parameters;
     intent := the_intent a; jurisdiction := w_jurisdiction a; confidence := w_confidence a;
     timestamp := now; failed := w_failed a; session_dkn := w_session_dkn a;
     law_hash := w_law_hash a; legend_hash := w_legend_hash a; warrant_id := w_warrant_id a;
     intent_ref := w_intent_ref a; receipt_id := None; h_s := k_s k; h_c := k_c k;
     h_m := k_m k; h_j := Some (k_j k); h_r := k_r k; parent_h_r := prior_h_r f;
     mode := "strict"; version := ver; id_c_s := ID_C_S; id_c_c := ID_C_C; id_c_m := ID_C_M;
     id_c_j := ID_C_J; h_body := body; terminal := term;
     Receipt.trace_vector_hash := tvh; capability := cap; effect := eff;
     reconciliation := rec; continuation := cont; bridge := br |}.

(** The version is 8 with a bridge surface and 7 without: the earlier versions
    the code assigns on the way are overwritten. *)
Definition body_version (bridge_cols : cols) : Z :=
  match bridge_cols with [] => 7 | _ => 8 end.

Definition outcome_traced (a : write_args) (term : cols) : bool :=
  commits_outcome a && (pyval_eqb (col "terminal_outcome" term) (PStr "ADMIT")
                        || pyval_eqb (col "terminal_outcome" term) (PStr "REFUSE")).

(** From the inputs to the sealed receipt.  The trace hash is taken over a
    receipt without its effect, reconciliation, continuation and bridge columns. *)
Definition seal_receipt (f : frontier) (now codex_hash : string) (g : governed)
    (a : write_args) (eff : option cols) (parameters grade snapshot : pyval) :
    result exn Receipt :=
  let* k := compute_commitments f g a parameters in
  let* term := terminal_columns a in
  let* cap := capability_columns a in
  let* cont := continuation_columns a in
  let* br := bridge_columns a in
  let ver := body_version br in
  let ecols := match eff with Some c => c | None => [] end in
  let rec := [("reconciliation_grade", grade); ("reconciliation_warrant_snapshot", snapshot)] in
  let r tvh body := receipt_of f now k a parameters term cap ecols rec cont br ver body tvh in
  let* body := compute_h_body (r None "") in
  let* tvh := if outcome_traced a term then
      let* t := committed_trace_vector_hash codex_hash
                  (receipt_of f now k a parameters term cap [] [] [] [] ver body None) in
      Ok (Some t)
    else Ok None in
  Ok (r tvh body).

(** ** The row *)

(** Binding a value to a TEXT column. *)
Definition text_cell (v : pyval) : result exn pyval :=
  match v with
  | PNone => Ok PNone
  | PStr s => Ok (PStr s)
  | PInt z => if fits_int64 z then Ok (PStr (str_of_Z z))
              else Err (Exn OtherError "OverflowError: Python int too large")
  | PBool b => Ok (PStr (if b then "1" else "0"))
  | PFloat r => Ok (PStr (real_text r))
  | _ => Err (Exn OtherError "ProgrammingError: type is not supported")
  end.

Definition store_cells (keys : list string) (c : cols) : result exn cols :=
  sequence (map (fun k => let* v := text_cell (col k c) in Ok (k, v)) keys).

(** [FIELD_COMPRESS_MAPS[field].get(v, v)], as text. *)
Definition compressed (field v : string) : string :=
  match dict_get field FIELD_COMPRESS_MAPS with
  | Some m => match dict_get v m with Some n => str_of_Z n | None => v end
  | None => v
  end.
Definition stored (a : write_args) (field v : string) : string :=
  if compress a then compressed field v else v.

Definition row_of (a : write_args) (pj : string) (rid : Z) (r : Receipt) : result exn Receipt :=
  let* term := store_cells terminal_keys (terminal r) in
  let* cap := store_cells capability_keys (capability r) in
  let* eff := store_cells effect_keys (effect r) in
  let* rec := store_cells reconciliation_keys (reconciliation r) in
  let* cont := store_cells continuation_keys (continuation r) in
  let* br := store_cells bridge_keys (bridge r) in
  Ok {| op := stored a "op" (op r); authority := authority r; parameters := PStr pj;
        intent := stored a "intent" (intent r);
        jurisdiction := stored a "jurisdiction" (jurisdiction r);
        confidence := stored a "confidence" (confidence r); timestamp := timestamp r;
        failed := failed r; session_dkn := session_dkn r; law_hash := law_hash r;
        legend_hash := legend_hash r; warrant_id := warrant_id r; intent_ref := intent_ref r;
        receipt_id := Some rid; h_s := h_s r; h_c := h_c r; h_m := h_m r; h_j := h_j r;
        h_r := h_r r; parent_h_r := parent_h_r r; mode := mode r; version := version r;
        id_c_s := id_c_s r; id_c_c := id_c_c r; id_c_m := id_c_m r; id_c_j := id_c_j r;
        h_body := h_body r; terminal := term;
        Receipt.trace_vector_hash := Receipt.trace_vector_hash r; capability := cap;
        effect := eff; reconciliation := rec; continuation := cont; bridge := br |}.

(** INSERT INTO receipts. *)
Definition insert_row (a : write_args) (pj : string) (r : Receipt) (d : db) : result exn db :=
  let* row := row_of a pj (seq d + 1) r in
  Ok (set_rows (rows d ++ [row]) (seq d + 1) d).

(** The chain tip after the receipt. *)
Definition advance (r : Receipt) (f : frontier) : frontier :=
  {| prior_h_r := h_r r; prior_h_m := Some (h_m r); prior_intent_ref := Some (intent_ref r);
     schema_hash := schema_hash f |}.

Definition with_id (n : Z) (r : Receipt) : Receipt :=
  {| op := op r; authority := authority r; parameters := parameters r; intent := intent r;
     jurisdiction := jurisdiction r; confidence := confidence r; timestamp := timestamp r;
     failed := failed r; session_dkn := session_dkn r; law_hash := law_hash r;
     legend_hash := legend_hash r; warrant_id := warrant_id r; intent_ref := intent_ref r;
     receipt_id := Some n; h_s := h_s r; h_c := h_c r; h_m := h_m r; h_j := h_j r;
     h_r := h_r r; parent_h_r := parent_h_r r; mode := mode r; version := version r;
     id_c_s := id_c_s r; id_c_c := id_c_c r; id_c_m := id_c_m r; id_c_j := id_c_j r;
     h_body := h_body r; terminal := terminal r;
     Receipt.trace_vector_hash := Receipt.trace_vector_hash r; capability := capability r;
     effect := effect r; reconciliation := reconciliation r;
     continuation := continuation r; bridge := bridge r |}.

(** ** [write] *)

(** Up to the INSERT: the parameters as JSON and the sealed receipt. *)
Definition write_prepare (a : write_args) : M store (string * Receipt) :=
  let! ' (eff, p1) := slift (_resolve_effect_surface (w_parameters a) (effect_columns a) false) in
  let '(p2, grade, snapshot) := promote_reconciliation p1 (reconciliation_grade a)
                                  (reconciliation_warrant_snapshot a) in
  let! pj := slift (_params_json p2) in
  let! now := on_env time_now in
  let! f := sget front in
  let! g := on_env (governed_inputs (w_jurisdiction a) (w_authority a)) in
  let! codex := sget (fun s => _pinned_codex_hash (s_env s)) in
  let! r := slift (seal_receipt f now codex g a eff p2 grade snapshot) in
  sret (pj, r).

(** From the INSERT on: the commit is deferred inside a transaction, and the
    frontier moves only after it. *)
Definition write_append (a : write_args) (pj : string) (r : Receipt) : M store Receipt :=
  let! _ := on_conn (dml (insert_row a pj r)) in
  let! depth := sget _txn_depth in
  let! rid := sget (fun s => seq (view s)) in
  let! _ := if depth =? 0 then on_conn commit else sret tt in
  let! _ := smod (fun s => set_front (advance r (front s)) s) in
  sret (with_id rid r).

Definition write (a : write_args) : M store Receipt := fun s =>
  if _read_only s then (Err (Exn ReadOnlyViolation "write() on a read-only store"), s)
  else (let! ' (pj, r) := write_prepare a in write_append a pj r) s.
End write.

(** ** Reading a row *)

Definition or_default (s d : string) : string := if str_eqb s "" then d else s.

(** [_expand]: a stored integer becomes the render form of its legend entry. *)
Definition _expand (v : string) : string :=
  match py_int_str v with
  | Some n => match LEGEND_BY_ID n with Some e => render e | None => v end
  | None => v
  end.

Definition cell_text (v : pyval) : string := match v with PStr s => s | _ => "" end.

Definition _row_to_receipt (r : Receipt) : result exn Receipt :=
  match json_loads (cell_text (parameters r)) with
  | None => Err (Exn ValueError "JSONDecodeError")
  | Some ps =>
      Ok {| op := _expand (op r); authority := authority r; parameters := ps;
            intent := _expand (intent r); jurisdiction := _expand (jurisdiction r);
            confidence := _expand (confidence r); timestamp := timestamp r;
            failed := failed r; session_dkn := session_dkn r; law_hash := law_hash r;
            legend_hash := legend_hash r; warrant_id := warrant_id r;
            intent_ref := intent_ref r; receipt_id := receipt_id r; h_s := h_s r;
            h_c := h_c r; h_m := h_m r; h_j := h_j r; h_r := h_r r;
            parent_h_r := parent_h_r r; mode := or_default (mode r) "strict";
            version := if version r =? 0 then 1 else version r;
            id_c_s := or_default (id_c_s r) "c_s.v1"; id_c_c := or_default (id_c_c r) "c_c.v1";
            id_c_m := or_default (id_c_m r) "c_m.v1+sigma_0";
            id_c_j := or_default (id_c_j r) "c_j.v1"; h_body := h_body r;
            terminal := terminal r; Receipt.trace_vector_hash := Receipt.trace_vector_hash r;
            capability := capability r; effect := effect r;
            reconciliation := reconciliation r; continuation := continuation r;
            bridge := bridge r |}
  end.

Definition all_receipts (d : db) : result exn (list Receipt) :=
  sequence (map _row_to_receipt (rows d)).

(** The filter is on the stored text. *)
Definition receipts_by_op (d : db) (o : string) : result exn (list Receipt) :=
  sequence (map _row_to_receipt (List.filter (fun r => str_eqb (op r) o) (rows d))).

Definition receipt_count (d : db) : Z := Z.of_nat (length (rows d)).
Definition committed_height (d : db) : Z := receipt_count d.
Definition refusal_count (d : db) : Z :=
  Z.of_nat (length (List.filter (fun r => str_eqb (op r) "gate_refuse") (rows d))).
Definition rid (r : Receipt) : Z := match receipt_id r with Some n => n | None => 0 end.
Definition receipts_since_count (d : db) (count : Z) : Z :=
  Z.of_nat (length (List.filter (fun r => count <? rid r) (rows d))).

(** The latest receipt that bears the identifier. *)
Fixpoint last_match {A} (f : A -> bool) (found : option A) (l : list A) : option A :=
  match l with
  | [] => found
  | x :: l' => last_match f (if f x then Some x else found) l'
  end.
Definition find_continuation (d : db) (continuation_id : string) :
    result exn (option Receipt) :=
  if str_eqb continuation_id "" then Ok None else
  let* rs := all_receipts d in
  Ok (last_match (fun r => pyval_eqb (col "continuation_id" (continuation r))
                             (PStr continuation_id)) None rs).

(** The dictionary key [json.loads(pj).get("op", "unknown")]. *)
Definition governed_op (r : Receipt) : result exn pyval :=
  match json_loads (cell_text (parameters r)) with
  | Some (PDict d) =>
      match match dict_get "op" d with Some v => v | None => PStr "unknown" end with
      | PList _ | PDict _ => Err (Exn TypeError "unhashable type")
      | v => Ok v
      end
  | Some _ => Err (Exn OtherError "AttributeError: no attribute 'get'")
  | None => Err (Exn ValueError "JSONDecodeError")
  end.

(** Admissions and refusals counted per operation, in order of appearance. *)
Fixpoint count_op (da dr : Z) (d : list (pyval * (Z * Z))) (o : pyval) :
    list (pyval * (Z * Z)) :=
  match d with
  | [] => [(o, (da, dr))]
  | (k, (a, r)) :: d' =>
      if pyval_eqb k o then (k, (a + da, r + dr)) :: d'
      else (k, (a, r)) :: count_op da dr d' o
  end.

(** Per governed operation, the refusals and the total they are divided by. *)
Definition refusal_rate_by_op (d : db) : result exn (list (pyval * (Z * Z))) :=
  let of_op o := List.filter (fun r => str_eqb (op r) o) (rows d) in
  let* admits := sequence (map governed_op (of_op "gate_admit")) in
  let* refuses := sequence (map governed_op (of_op "gate_refuse")) in
  let counts := foldl (count_op 0 1) (foldl (count_op 1 0) [] admits) refuses in
  Ok (map (fun kv => (fst kv, (snd (snd kv), fst (snd kv) + snd (snd kv)))) counts).

(** ** Verification *)

Definition stream_hash (d : db) : string := tip_of d.
Definition m2_stream_hash (d : db) : string := tip_of d.

(** [_verify_segment]: the receipts chain forward from [anchor]. *)
Fixpoint _verify_segment (rs : list Receipt) (anchor : string) : bool :=
  match rs with
  | [] => true
  | r :: rest =>
      if str_eqb (h_r r) "" || negb (str_eqb (parent_h_r r) anchor) then false
      else _verify_segment rest (h_r r)
  end.

(** The receipts after the first one whose [h_r] is the checkpoint. *)
Fixpoint after_checkpoint (cp : string) (rs : list Receipt) : option (list Receipt) :=
  match rs with
  | [] => None
  | r :: rest => if str_eqb (h_r r) cp then Some rest else after_checkpoint cp rest
  end.

Definition verify_stream_hash (d : db) (from_checkpoint : option string) : result exn bool :=
  let* rs := all_receipts d in
  match rs with
  | [] => Ok true
  | _ =>
      match from_checkpoint with
      | None => Ok (_verify_segment rs GENESIS)
      | Some cp => match after_checkpoint cp rs with
                   | Some rest => Ok (_verify_segment rest cp)
                   | None => Ok false
                   end
      end
  end.

Definition verify_from_seal (d : db) (seal_hash : string) : result exn bool :=
  let* rs := all_receipts d in Ok (_verify_segment rs seal_hash).

(** The keyword arguments of the recomputation leave the reconciliation columns
    at their default [None]. *)
Definition body_check_args (r : Receipt) : Receipt :=
  {| op := op r; authority := authority r; parameters := parameters r; intent := intent r;
     jurisdiction := jurisdiction r; confidence := confidence r; timestamp := timestamp r;
     failed := failed r; session_dkn := session_dkn r; law_hash := law_hash r;
     legend_hash := legend_hash r; warrant_id := warrant_id r; intent_ref := intent_ref r;
     receipt_id := receipt_id r; h_s := h_s r; h_c := h_c r; h_m := h_m r; h_j := h_j r;
     h_r := h_r r; parent_h_r := parent_h_r r; mode := mode r; version := version r;
     id_c_s := id_c_s r; id_c_c := id_c_c r; id_c_m := id_c_m r; id_c_j := id_c_j r;
     h_body := h_body r; terminal := terminal r;
     Receipt.trace_vector_hash := Receipt.trace_vector_hash r; capability := capability r;
     effect := effect r; reconciliation := []; continuation := continuation r;
     bridge := bridge r |}.

Section verify.
Context {U : Unicode}.

Definition check_body (r : Receipt) : result exn bool :=
  let* bad := if str_eqb (h_s r) "" then Ok false else
    let* hs := H_s (PStr (op r)) (parameters r) in Ok (negb (str_eqb (hex hs) (h_s r))) in
  if bad then Ok false
  else if str_eqb (h_body r) "" then Ok false
  else let* b := compute_h_body (body_check_args r) in Ok (str_eqb b (h_body r)).

(** The loop stops at the first receipt that fails or raises. *)
Fixpoint check_bodies (rs : list Receipt) : result exn bool :=
  match rs with
  | [] => Ok true
  | r :: rest => let* b := check_body r in if b then check_bodies rest else Ok false
  end.

Definition verify_receipt_bodies (d : db) (from_checkpoint : option string) :
    result exn bool :=
  let* rs := all_receipts d in
  match rs with
  | [] => Ok true
  | _ =>
      match from_checkpoint with
      | None => check_bodies rs
      | Some cp => match after_checkpoint cp rs with
                   | Some rest => check_bodies rest
                   | None => Ok false
                   end
      end
  end.

Definition verify_chain (d : db) (from_checkpoint : option string) :
    result exn VerificationResult :=
  let res l c detail := {| achieved := l; required := BODY; corruption := c;
                           vr_detail := detail |} in
  let* link := verify_stream_hash d from_checkpoint in
  if negb link then Ok (res LINKAGE (Some CORRUPT) "M2 chain linkage broken") else
  let* bodies := verify_receipt_bodies d from_checkpoint in
  if negb bodies then Ok (res LINKAGE (Some CORRUPT) "receipt body tamper")
  else Ok (res BODY None "LINKAGE + BODY established").
End verify.

(** [None] both when the chain is intact and when nothing before the corruption
    verifies. *)
Fixpoint frontier_scan (prior : string) (last_valid : option Z) (rs : list Receipt) : option Z :=
  match rs with
  | [] => None
  | r :: rest =>
      if str_eqb (h_r r) "" || negb (str_eqb (parent_h_r r) prior) then last_valid
      else frontier_scan (h_r r) (receipt_id r) rest
  end.
Definition last_valid_frontier (d : db) : result exn (option Z) :=
  let* rs := all_receipts d in Ok (frontier_scan GENESIS None rs).

(** ** Governed transactions *)

Definition schema_frame_intact (s : store) : bool :=
  str_eqb (schema_hash (front s)) EXPECTED_SCHEMA_HASH.

Definition next_savepoint : M env string := fun e =>
  (Ok ("iel_mut_" +:+ str_of_Z (sp_counter e)),
   upd_env (graph e) (policies e) (keys e) (sp_counter e + 1) (clock e) e).

(** [with store.transaction(validation): body].  Entering takes the frontier as a
    snapshot, opens a savepoint and counts one level deeper. *)
Definition txn_enter (v : ValidationResult) : M store (string * frontier) := fun s =>
  let snap := front s in
  match on_env next_savepoint s with
  | (Err x, s0) => (Err x, s0)
  | (Ok sp, s0) =>
      match on_conn (mt_enter sp v) s0 with
      | (Err x, s1) => (Err x, s1)
      | (Ok _, s1) => (Ok (sp, snap), add_depth 1 s1)
      end
  end.

(** Leaving with the outcome of the body: the frontier comes back whenever the
    block fails, even when undoing it fails. *)
Definition txn_leave {A} (sp : string) (snap : frontier) (r : result exn A) : M store A := fun s2 =>
  match r with
  | Err x =>
      match on_conn (mt_exit_exn sp) (add_depth (-1) s2) with
      | (Ok _, s3) => (Err x, set_front snap s3)
      | (Err y, s3) => (Err y, set_front snap s3)
      end
  | Ok a =>
      match on_conn (mt_exit_clean sp) (add_depth (-1) s2) with
      | (Ok _, s3) => (Ok a, s3)
      | (Err y, s3) => (Err y, set_front snap s3)
      end
  end.

Definition transaction {A} (v : ValidationResult) (body : M store A) : M store A := fun s =>
  match txn_enter v s with
  | (Err x, s0) => (Err x, s0)
  | (Ok (sp, snap), s1) => let '(r, s2) := body s1 in txn_leave sp snap r s2
  end.

Section governed_ops.
Context {U : Unicode} {E : Ed25519} {G : Engine}.

(** ** [migrate_schema] *)

Definition blank_intent (intent : string) : bool := str_eqb (strip intent) "".

(** [list(statements)], a single string standing for itself. *)
Definition statement_list (statements : pyval) : result exn (list pyval) :=
  match statements with
  | PNone => Err (Exn ValueError "schema migration requires a non-None list of statements")
  | PStr _ => Ok [statements]
  | PList l | PTuple l => Ok l
  | PDict d => Ok (map (fun kv => PStr (fst kv)) d)
  | _ => Err (Exn TypeError "object is not iterable")
  end.

Fixpoint first_unsafe (stmts : list pyval) : option string :=
  match stmts with
  | [] => None
  | x :: rest => match validate_migration_statement x with
                 | Some reason => Some reason | None => first_unsafe rest end
  end.

Definition exec_statement (stmt : pyval) (d : db) : result exn db :=
  let* t := exec_ddl (cell_text stmt) (tables d) in Ok (set_tables t d).
Fixpoint exec_all (stmts : list pyval) : M store unit :=
  match stmts with
  | [] => sret tt
  | x :: rest => let! _ := on_conn (ddl (exec_statement x)) in exec_all rest
  end.

Definition migration_result (before after : string) : pyval := PDict
  [("schema_hash_before", PStr before); ("schema_hash_after", PStr after);
   ("release_anchor", PStr EXPECTED_SCHEMA_HASH);
   ("drift_from_release_anchor", PBool (negb (str_eqb after EXPECTED_SCHEMA_HASH)))].

Definition migration_params (intent description before after : string) (stmts : list pyval) :
    pyval := PDict
  [("intent", PStr intent); ("description", PStr description);
   ("schema_hash_before", PStr before); ("schema_hash_after", PStr after);
   ("release_anchor", PStr EXPECTED_SCHEMA_HASH);
   ("drift_from_release_anchor", PBool (negb (str_eqb after EXPECTED_SCHEMA_HASH)));
   ("statements", PList stmts)].

Definition live_schema_hash : M store string := fun s =>
  (compute_schema_hash (tables (view s)), s).

Definition set_schema_hash (h : string) (s : store) : store :=
  set_front {| prior_h_r := prior_h_r (front s); prior_h_m := prior_h_m (front s);
               prior_intent_ref := prior_intent_ref (front s); schema_hash := h |} s.

Definition migrate_schema (statements : pyval) (intent description : string) :
    M store pyval := fun s =>
  if _read_only s then
    (Err (Exn ReadOnlyViolation "migrate_schema() on a read-only store"), s)
  else if blank_intent intent then
    (Err (Exn ValueError "schema migration requires explicit intent"), s)
  else
  (let! stmts := slift (statement_list statements) in
   match stmts with
   | [] => sraise (Exn ValueError "empty schema migration refused")
   | _ =>
   match first_unsafe stmts with
   | Some reason => sraise (Exn ValueError ("unsafe schema migration refused before mutation: "
                                            +:+ reason))
   | None =>
       let! before := live_schema_hash in
       let! after := transaction valid (
         let! _ := exec_all stmts in
         let! after := live_schema_hash in
         let! _ := write (plain_write "schema_migrated" "storage-frame"
                     (migration_params intent description before after stmts) (Some intent)) in
         sret after) in
       let! _ := smod (set_schema_hash after) in
       sret (migration_result before after)
   end end) s.

(** ** [seal_and_prune_epoch] *)

Definition sealed_params (intent description seal_hash : string) (boundary count : Z) : pyval :=
  PDict [("intent", PStr intent); ("description", PStr description);
         ("seal_hash", PStr seal_hash); ("sealed_through_receipt_id", PInt boundary);
         ("sealed_count", PInt count)].
Definition pruned_params (intent seal_hash : string) (boundary count : Z) : pyval :=
  PDict [("intent", PStr intent); ("seal_hash", PStr seal_hash);
         ("pruned_through_receipt_id", PInt boundary); ("pruned_count", PInt count)].

(** DELETE FROM receipts WHERE receipt_id <= boundary. *)
Definition delete_through (boundary : Z) (d : db) : result exn db :=
  Ok (set_rows (List.filter (fun r => boundary <? rid r) (rows d)) (seq d) d).

Definition live {A} (f : db -> result exn A) : M store A := fun s => (f (view s), s).

Definition prune_body (intent description seal_hash : string) (boundary count : Z) :
    M store (string * string) :=
  let! _ := write (plain_write "epoch_sealed" "storage-frame"
              (sealed_params intent description seal_hash boundary count) (Some intent)) in
  let! _ := write (plain_write "epoch_pruned" "storage-frame"
              (pruned_params intent seal_hash boundary count) (Some intent)) in
  let! tip_before := live (fun d => Ok (stream_hash d)) in
  let! _ := on_conn (dml (delete_through boundary)) in
  let! tip_after := live (fun d => Ok (stream_hash d)) in
  guard! str_eqb tip_after tip_before
    else Exn RuntimeError "epoch prune integrity error: chain tip moved during prune" in
  let! good := live (fun d => verify_from_seal d seal_hash) in
  guard! good
    else Exn RuntimeError "epoch prune integrity error: retained chain does not verify" in
  sret (tip_before, tip_after).

Definition seal_and_prune_epoch (seal_hash intent description : string) : M store pyval :=
  guard! negb (blank_intent intent)
    else Exn ValueError "epoch seal/prune requires explicit intent" in
  let! rs := live all_receipts in
  match find (fun r => str_eqb (h_r r) seal_hash) rs with
  | None => sraise (Exn ValueError "seal_hash not found in chain")
  | Some b =>
      let boundary := rid b in
      let prefix := List.filter (fun r => rid r <=? boundary) rs in
      let frontier := List.filter (fun r => boundary <? rid r) rs in
      guard! _verify_segment frontier seal_hash
        else Exn ValueError "frontier does not chain from seal_hash" in
      let count := Z.of_nat (length prefix) in
      let! ' (tb, ta) := transaction valid
                           (prune_body intent description seal_hash boundary count) in
      sret (PDict [("seal_hash", PStr seal_hash); ("boundary_receipt_id", PInt boundary);
                   ("pruned_count", PInt count);
                   ("retained_count", PInt (Z.of_nat (length frontier) + 2));
                   ("tip_before_prune", PStr tb); ("tip_after_prune", PStr ta)])
  end.
End governed_ops.

(** ** The archives: INSERT OR IGNORE, then a commit, whatever the depth; every
    exception is swallowed *)

Definition swallow (m : M store unit) : M store unit := fun s => (Ok tt, snd (m s)).
Definition insert_commit (f : db -> db) : M store unit :=
  swallow (let! _ := on_conn (dml (fun d => Ok (f d))) in on_conn commit).

Definition add_legend (l : legend_row) (d : db) : db :=
  if existsb (fun x => str_eqb (lr_hash x) (lr_hash l)) (legend_archive d) then d
  else {| rows := rows d; seq := seq d; tables := tables d;
          legend_archive := legend_archive d ++ [l]; scope_archive := scope_archive d;
          authority_model_archive := authority_model_archive d |}.
Definition seal_legend (l : legend_row) : M store unit := insert_commit (add_legend l).

(** The archived entries, the current legend, or nothing. *)
Inductive resolved_legend := Archived (entries : pyval) | CurrentLegend | Unresolved.
Definition resolve_legend (d : db) (h : string) : result exn resolved_legend :=
  match find (fun x => str_eqb (lr_hash x) h) (legend_archive d) with
  | Some x => match json_loads (entries_json x) with
              | Some v => Ok (Archived v) | None => Err (Exn ValueError "JSONDecodeError") end
  | None => match LEGEND_HASH with
            | Ok cur => Ok (if str_eqb h cur then CurrentLegend else Unresolved)
            | Err x => Err x
            end
  end.

Definition seal_scope (p : ProvenanceScope) : M store unit :=
  insert_commit (fun d =>
    {| rows := rows d; seq := seq d; tables := tables d; legend_archive := legend_archive d;
       scope_archive := archive_seal p (scope_archive d);
       authority_model_archive := authority_model_archive d |}).

Definition get_authority_model (d : db) (h : string) : option AuthorityModel :=
  find (fun m => str_eqb (model_hash m) h) (authority_model_archive d).
Definition seal_authority_model (m : AuthorityModel) : M store unit :=
  insert_commit (fun d =>
    match get_authority_model d (model_hash m) with
    | Some _ => d
    | None => {| rows := rows d; seq := seq d; tables := tables d;
                 legend_archive := legend_archive d; scope_archive := scope_archive d;
                 authority_model_archive := authority_model_archive d ++ [m] |}
    end).

(** ** An example store *)

(** An engine that takes every accepted statement to add an empty table. *)
Definition demo_engine : Engine :=
  {| real_text r := r; exec_ddl stmt t := Ok (t ++ [(stmt, [])]) |}.
Definition demo_env : env :=
  {| graph := ∅; policies := []; keys := []; sp_counter := 0;
     clock := ["1.5"; "2.5"; "3.5"; "4.5"; "5.5"]; _pinned_codex_hash := "" |}.
(** A new store; [fs] are the faults of its commits. *)
Definition demo_store (fs : list (option string)) : store :=
  let d := set_tables (bootstrap []) empty_db in
  {| s_conn := Conn d d false [] fs [] false; front := hydrate d EXPECTED_SCHEMA_HASH;
     _txn_depth := 0; _read_only := false; s_env := demo_env |}.
Definition demo_args : write_args :=
  plain_write "audit" "operator" (PDict [("b", PInt 1); ("a", PTuple [PStr "x"])]) (Some "look").
(** The store after one write. *)
Definition demo_write := @write nfc_id ed_demo demo_engine.
Definition demo_store1 : store :=
  Eval vm_compute in snd (demo_write demo_args (demo_store [])).

Example demo_store_opens :
  open_store None false false empty_db demo_env = Ok (demo_store []).
Proof. vm_compute. reflexivity. Qed.
