(* ===== verification/StoreFacts.v ===== *)
(** What the receipt store guarantees: the effect of a write on every outcome,
    the chain invariant, reading back and verifying what was written, the
    atomicity of governed transactions, migration and pruning. *)
From S2P Require Import Prelude Json Sha256 Binding BindingM2 Frame Authority Receipt Trace Capability Sqlite Integrity Archives Store.

(** * The steps of a computation on the store *)

Lemma on_env_step {A} (m : M env A) s r s' :
  on_env m s = (r, s') -> exists e, s' = set_env e s.
Proof. unfold on_env. destruct (m (s_env s)) as [x e]. intros [= _ <-]. by exists e. Qed.

Lemma on_conn_step {A} (m : M (conn db) A) s r s' :
  on_conn m s = (r, s') -> exists c, m (s_conn s) = (r, c) /\ s' = set_conn c s.
Proof. unfold on_conn. destruct (m (s_conn s)) as [x c]. intros [= <- <-]. by exists c. Qed.

Lemma commit_step (c : conn db) r c' : in_txn c = true -> commit c = (r, c') ->
  current c' = current c /\
  match r with
  | Ok _ => durable c' = current c /\ in_txn c' = false /\ savepoints c' = []
  | Err e => durable c' = durable c /\ in_txn c' = true /\ savepoints c' = savepoints c /\
             exists m, e = Exn OperationalError m /\ head (faults c) = Some (Some m)
  end.
Proof.
  intros Ht. unfold commit, commit_now. rewrite Ht.
  destruct (faults c) as [|[m|] fs]; intros [<- <-]%pair_ok; cbn; repeat split; by eauto.
Qed.

Lemma dml_step (f : db -> result exn db) (c : conn db) r c' : dml f c = (r, c') ->
  durable c' = durable c /\ savepoints c' = savepoints c /\ faults c' = faults c /\
  ro c' = ro c /\
  match r with
  | Ok _ => ro c = false /\ f (current c) = Ok (current c') /\ in_txn c' = true
  | Err e => current c' = current c /\
      (ro c = true /\ in_txn c' = in_txn c \/
       ro c = false /\ in_txn c' = true)
  end.
Proof.
  unfold dml. cbv zeta. destruct (ro c) eqn:Hr; [intros [<- <-]%pair_ok; repeat split; by auto|].
  destruct (f (current c)) as [d|e] eqn:Hf; [|intros [<- <-]%pair_ok; cbn; repeat split; by auto].
  destruct (busy c) as [|[] bs]; intros [<- <-]%pair_ok; cbn; repeat split; by auto.
Qed.

Section write_facts.
Context {U : Unicode} {E : Ed25519} {G : Engine}.

(** What the receipt and the row of a write were made of. *)
Inductive written (a : write_args) (s : store) (r row : Receipt) : Prop :=
| Written eff p1 params grade snapshot pj now codex g
    (wr_surface : _resolve_effect_surface (w_parameters a) (effect_columns a) false
                  = Ok (eff, p1))
    (wr_promote : promote_reconciliation p1 (reconciliation_grade a)
                    (reconciliation_warrant_snapshot a) = (params, grade, snapshot))
    (wr_pj : _params_json params = Ok pj)
    (wr_seal : seal_receipt (front s) now codex g a eff params grade snapshot = Ok r)
    (wr_row : row_of a pj (seq (view s) + 1) r = Ok row).

(** The database with one more row. *)
Definition append_row (row : Receipt) (d : db) : db := set_rows (rows d ++ [row]) (seq d + 1) d.

Lemma write_prepare_spec a s : exists e,
  match write_prepare a s with
  | (Ok (pj, r), s1) => s1 = set_env e s /\
      exists eff p1 params grade snapshot now codex g,
        _resolve_effect_surface (w_parameters a) (effect_columns a) false = Ok (eff, p1) /\
        promote_reconciliation p1 (reconciliation_grade a) (reconciliation_warrant_snapshot a)
          = (params, grade, snapshot) /\
        _params_json params = Ok pj /\
        seal_receipt (front s) now codex g a eff params grade snapshot = Ok r
  | (Err _, s1) => s1 = set_env e s
  end.
Proof.
  assert (Hs : s = set_env (s_env s) s) by (by destruct s).
  unfold write_prepare, sbind, slift.
  destruct (_resolve_effect_surface _ _ _) as [[eff p1]|] eqn:H1; [|by exists (s_env s)].
  destruct (promote_reconciliation _ _ _) as [[p2 grade] snapshot] eqn:H2.
  destruct (_params_json p2) as [pj|] eqn:H3; [|by exists (s_env s)].
  destruct (on_env time_now s) as [[now|] s1] eqn:H4;
    apply on_env_step in H4 as (e1 & ->); [|by exists e1].
  unfold sget. destruct (on_env _ (set_env e1 s)) as [[g|] s2] eqn:H5;
    apply on_env_step in H5 as (e2 & ->); [|by exists e2].
  exists e2. destruct (seal_receipt _ _ _ _ _ _ _ _ _) as [r|] eqn:H6; [|done].
  split; [done|]. by exists eff, p1, p2, grade, snapshot, now, (_pinned_codex_hash e2), g.
Qed.

(** The next commit fails, with [e]. *)
Definition commit_fault (s : store) (e : exn) : Prop :=
  exists m, e = Exn OperationalError m /\ head (faults (s_conn s)) = Some (Some m).

(** The tail of a write, on its three outcomes: done; the row refused; the row
    inserted and the commit refused. *)
Lemma write_append_spec a pj r s res s' : write_append a pj r s = (res, s') ->
  _txn_depth s' = _txn_depth s /\ _read_only s' = _read_only s /\ s_env s' = s_env s /\
  (_txn_depth s <> 0 -> savepoints (s_conn s') = savepoints (s_conn s) /\
                        durable (s_conn s') = durable (s_conn s) /\
                        (in_txn (s_conn s) = true -> in_txn (s_conn s') = true)) /\
  match res with
  | Ok r' => r' = with_id (seq (view s) + 1) r /\ front s' = advance r (front s) /\
      in_txn (s_conn s') = negb (_txn_depth s =? 0) /\
      (_txn_depth s = 0 -> durable (s_conn s') = view s' /\ savepoints (s_conn s') = []) /\
      exists row, row_of a pj (seq (view s) + 1) r = Ok row /\ view s' = append_row row (view s)
  | Err e => front s' = front s /\ durable (s_conn s') = durable (s_conn s) /\
      savepoints (s_conn s') = savepoints (s_conn s) /\
      (view s' = view s \/
       _txn_depth s = 0 /\ commit_fault s e /\ in_txn (s_conn s') = true /\
       exists row, row_of a pj (seq (view s) + 1) r = Ok row /\
         view s' = append_row row (view s))
  end.
Proof.
  unfold write_append, sbind. intros H.
  destruct (on_conn (dml (insert_row a pj r)) s) as [x s1] eqn:H1.
  apply on_conn_step in H1 as (c1 & H1 & ->). apply dml_step in H1 as (Hd & Hsp & Hf & _ & H1).
  destruct x as [u|e].
  2:{ apply pair_ok in H as [<- <-]. cbn. destruct H1 as [H1 Ht]. unfold view. cbn.
      rewrite H1. split_and!; auto. intros _. split_and!; auto.
      by destruct Ht as [[_ ->]|[_ ->]]. }
  destruct H1 as (_ & Hins & Htxn). unfold insert_row in Hins.
  apply rbind_ok in Hins as (row & Hrow & Hins). apply Ok_inj in Hins.
  change (current (s_conn s)) with (view s) in *. unfold sget in H. cbn [set_conn _txn_depth] in H.
  change (view (set_conn c1 s)) with (current c1) in H.
  rewrite <- Hins in H. cbn [seq set_rows] in H.
  destruct (_txn_depth s =? 0) eqn:Hdep.
  - apply Z.eqb_eq in Hdep. destruct (on_conn commit (set_conn c1 s)) as [y s2] eqn:H2.
    apply on_conn_step in H2 as (c2 & H2 & ->). cbn [s_conn set_conn] in H2.
    apply commit_step in H2 as [Hc2 H2]; [|done].
    destruct y as [u2|e].
    + apply pair_ok in H as [<- <-]. cbn. rewrite Hdep. destruct H2 as (H2 & H3 & H4).
      unfold view. cbn. rewrite H2, H3, H4, Hc2.
      split_and!; try done. exists row. split; [done|]. by rewrite <- Hins.
    + apply pair_ok in H as [<- <-]. cbn. rewrite Hdep. destruct H2 as (H2 & H3 & H4 & m & -> & Hfl).
      unfold view. cbn. rewrite H2, H3, H4, Hc2. rewrite Hd, Hsp. rewrite Hf in Hfl.
      split_and!; try done. right. split_and!; try done; [by exists m|]. exists row. split; [done|].
      by rewrite <- Hins.
  - apply pair_ok in H as [<- <-]. apply Z.eqb_neq in Hdep. cbn. unfold view. cbn.
    rewrite Htxn, Hd, Hsp. split_and!; try done. exists row. split; [done|].
    by rewrite <- Hins.
Qed.

(** A write, on every outcome. *)
Lemma write_spec a s res s' : write a s = (res, s') ->
  _txn_depth s' = _txn_depth s /\ _read_only s' = _read_only s /\
  (_txn_depth s <> 0 -> savepoints (s_conn s') = savepoints (s_conn s) /\
                        durable (s_conn s') = durable (s_conn s) /\
                        (in_txn (s_conn s) = true -> in_txn (s_conn s') = true)) /\
  match res with
  | Ok r' => _read_only s = false /\ exists r row, written a s r row /\
      r' = with_id (seq (view s) + 1) r /\ front s' = advance r (front s) /\
      in_txn (s_conn s') = negb (_txn_depth s =? 0) /\
      (_txn_depth s = 0 -> durable (s_conn s') = view s' /\ savepoints (s_conn s') = []) /\
      view s' = append_row row (view s)
  | Err e => front s' = front s /\ durable (s_conn s') = durable (s_conn s) /\
      savepoints (s_conn s') = savepoints (s_conn s) /\
      (view s' = view s \/
       _txn_depth s = 0 /\ commit_fault s e /\ in_txn (s_conn s') = true /\
       exists r row, written a s r row /\ view s' = append_row row (view s))
  end.
Proof.
  unfold write. destruct (_read_only s) eqn:Hro.
  { intros [<- <-]%pair_ok. rewrite Hro. split_and!; try done. by left. }
  unfold sbind. intros H. destruct (write_prepare_spec a s) as (e & Hp).
  destruct (write_prepare a s) as [[[pj r]|x] s1].
  - destruct Hp as (-> & eff & p1 & ps & gr & sn & now & cx & g & H1 & H2 & H3 & H4).
    apply write_append_spec in H as (Hd & Hr & _ & Hk & H). cbn in Hd, Hr, Hk.
    rewrite Hro in Hr. split; [done|]. split; [done|]. split; [done|].
    assert (Hw : forall row, row_of a pj (seq (view s) + 1) r = Ok row -> written a s r row)
      by (intros row Hrow; by econstructor).
    destruct res as [r'|x].
    + destruct H as (-> & Hf & Ht & Hdur & row & Hrow & Hv). split; [done|].
      exists r, row. split_and!; try done. by apply Hw.
    + destruct H as (Hf & Hdur & Hsp & [Hv|(H0 & He & Ht & row & Hrow & Hv)]);
        split_and!; try done; [by left|].
      right. split_and!; try done. exists r, row. split; [by apply Hw|done].
  - subst s1. apply pair_ok in H as [<- <-]. cbn. rewrite Hro. split_and!; try done. by left.
Qed.
End write_facts.

(** * The chain *)

(** The root a list of receipts ends in, from an anchor. *)
Definition segment_end (anchor : string) (rs : list Receipt) : string :=
  match last rs with Some r => h_r r | None => anchor end.

Lemma verify_segment_app rs x anchor :
  _verify_segment (rs ++ [x]) anchor =
  _verify_segment rs anchor &&
  (negb (str_eqb (h_r x) "") && str_eqb (parent_h_r x) (segment_end anchor rs)).
Proof.
  revert anchor. induction rs as [|r rs IH]; intros anchor.
  - simpl. unfold segment_end. simpl.
    destruct (str_eqb (h_r x) ""), (str_eqb (parent_h_r x) anchor); done.
  - cbn [app _verify_segment].
    destruct (str_eqb (h_r r) "" || _); [done|]. rewrite IH. do 3 f_equal.
    unfold segment_end. rewrite last_cons. by destruct (last rs).
Qed.

(** Linkage only looks at the roots. *)
Definition links (r : Receipt) : string * string := (h_r r, parent_h_r r).
Lemma verify_segment_links rs rs' anchor : map links rs = map links rs' ->
  _verify_segment rs anchor = _verify_segment rs' anchor.
Proof.
  revert rs' anchor. induction rs as [|r rs IH]; intros [|r' rs'] anchor; try done.
  cbn [map]. unfold links at 1 3. intros [= H1 H2 H]. cbn [_verify_segment].
  rewrite H1, H2. by rewrite (IH rs').
Qed.

Lemma row_links r x : _row_to_receipt r = Ok x ->
  links x = links r /\ receipt_id x = receipt_id r.
Proof.
  unfold _row_to_receipt. destruct (json_loads _); [|done]. intros H. by apply Ok_inj in H as <-.
Qed.

Lemma all_receipts_links d rs : all_receipts d = Ok rs ->
  map links rs = map links (rows d) /\ map receipt_id rs = map receipt_id (rows d).
Proof.
  unfold all_receipts. intros H%sequence_forall2.
  induction H as [|r x l l' Hx _ [IH1 IH2]]; [done|]. apply row_links in Hx as [H1 H2].
  simpl. by rewrite H1, H2, IH1, IH2.
Qed.

(** The rows chain forward from [anchor] and end where the frontier says. *)
Definition chained (anchor : string) (s : store) : Prop :=
  _verify_segment (rows (view s)) anchor = true /\
  segment_end anchor (rows (view s)) = prior_h_r (front s).

Section chain.
Context {U : Unicode} {E : Ed25519} {G : Engine}.

(** What a sealed receipt is made of. *)
Inductive sealed (f : frontier) (g : governed) (a : write_args) (eff : option cols)
    (params grade snapshot : pyval) (r : Receipt) : Prop :=
| Sealed k term cap cont br now body tvh
    (se_k : compute_commitments f g a params = Ok k)
    (se_term : terminal_columns a = Ok term)
    (se_cap : capability_columns a = Ok cap)
    (se_cont : continuation_columns a = Ok cont)
    (se_br : bridge_columns a = Ok br)
    (se_body : compute_h_body r = Ok body)
    (se_r : r = receipt_of f now k a params term cap
              (match eff with Some c => c | None => [] end)
              [("reconciliation_grade", grade); ("reconciliation_warrant_snapshot", snapshot)]
              cont br (body_version br) body tvh).

Lemma seal_receipt_sealed f now codex g a eff params grade snapshot r :
  seal_receipt f now codex g a eff params grade snapshot = Ok r ->
  sealed f g a eff params grade snapshot r.
Proof.
  unfold seal_receipt. intros (k & Hk & H)%rbind_ok.
  apply rbind_ok in H as (term & Ht & H). apply rbind_ok in H as (cap & Hc & H).
  apply rbind_ok in H as (cont & Hco & H). apply rbind_ok in H as (br & Hb & H).
  cbv zeta in H. apply rbind_ok in H as (body & Hbody & H).
  apply rbind_ok in H as (tvh & _ & H). apply Ok_inj in H. subst r.
  by apply (Sealed _ _ _ _ _ _ _ _ k term cap cont br now body tvh).
Qed.

Lemma compute_H_r_length l h : compute_H_r l = Ok h -> String.length h = 32%nat.
Proof.
  unfold compute_H_r. cbv zeta. destruct (forallb _ required_leaves); [|done].
  destruct (nodup_Z _); [|done]. intros (e & _ & H)%rbind_ok.
  apply rbind_ok in H as (root & _ & H). apply Ok_inj in H. subst h. apply sha256_length.
Qed.

Lemma commitments_root f g a params k : compute_commitments f g a params = Ok k ->
  String.length (k_r k) = 64%nat.
Proof.
  unfold compute_commitments. intros (? & _ & H)%rbind_ok.
  apply rbind_ok in H as (? & _ & H). apply rbind_ok in H as (? & _ & H).
  apply rbind_ok in H as (? & _ & H). apply rbind_ok in H as (hr & Hr & H).
  apply Ok_inj in H. subst k. cbn [k_r]. rewrite hex_length.
  by rewrite (compute_H_r_length _ _ Hr).
Qed.

Lemma row_of_links a pj n r row : row_of a pj n r = Ok row ->
  links row = links r /\ receipt_id row = Some n.
Proof.
  unfold row_of. intros H.
  repeat (apply rbind_ok in H as (? & _ & H)). by apply Ok_inj in H as <-.
Qed.

Lemma bridge_columns_version a br : bridge_columns a = Ok br ->
  body_version br = if is_none (w_bridge a) then 7 else 8.
Proof.
  unfold bridge_columns, _validate_bridge_record. destruct (is_none (w_bridge a)).
  - intros H. by apply Ok_inj in H as <-.
  - intros H. inv_ok. subst. done.
Qed.

(** The facts of a written receipt that its callers rely on. *)
Lemma written_receipt a s r row : written a s r row ->
  h_r r <> "" /\ parent_h_r r = prior_h_r (front s) /\ op r = w_op a /\
  compute_h_body r = Ok (h_body r) /\
  version r = (if is_none (w_bridge a) then 7 else 8) /\
  links row = links r /\ receipt_id row = Some (seq (view s) + 1).
Proof.
  intros [eff p1 ps gr sn pj now cx g _ _ _ Hs Hr].
  apply seal_receipt_sealed in Hs as [k term cap cont br now' body tvh Hk _ _ _ Hb Hbody ->].
  apply row_of_links in Hr as [Hl Hid]. apply commitments_root in Hk.
  apply bridge_columns_version in Hb. cbn [h_r parent_h_r op version receipt_of].
  split_and!; try done. intros Hz. by rewrite Hz in Hk.
Qed.

Lemma links_eq r r' : links r = links r' -> h_r r = h_r r' /\ parent_h_r r = parent_h_r r'.
Proof. unfold links. by intros [= -> ->]. Qed.

Lemma append_chained anchor s s' r row : chained anchor s ->
  h_r r <> "" -> parent_h_r r = prior_h_r (front s) -> links row = links r ->
  view s' = append_row row (view s) -> front s' = advance r (front s) -> chained anchor s'.
Proof.
  intros [Hseg Hend] Hne Hp [Hlr Hlp]%links_eq Hv Hf. unfold chained. rewrite Hv, Hf.
  cbn [append_row set_rows rows advance prior_h_r]. rewrite verify_segment_app, Hseg, Hend.
  rewrite Hlr, Hlp, Hp, str_eqb_refl. split.
  - destruct (str_eqb (h_r r) "") eqn:Ez; [by apply str_eqb_spec in Ez|done].
  - unfold segment_end. by rewrite last_snoc.
Qed.

Lemma tip_append row d : h_r row <> "" -> tip_of (append_row row d) = h_r row.
Proof.
  intros H. unfold tip_of, last_row. cbn [append_row set_rows rows]. rewrite last_snoc.
  unfold nonempty. destruct (str_eqb (h_r row) "") eqn:Ez; [by apply str_eqb_spec in Ez|done].
Qed.

(** C5: a write extends the chain by one receipt.  The receipt links to the previous
    tip and its root becomes the tip, in memory and in the database; it takes the
    next identifier; its body commitment recomputes; its body version is 8 with a
    bridge surface and 7 without; the chain invariant is preserved; and outside a
    transaction the row is durable. *)
Theorem write_extends_chain a s r s' anchor :
  write a s = (Ok r, s') -> chained anchor s ->
  chained anchor s' /\ parent_h_r r = prior_h_r (front s) /\
  prior_h_r (front s') = h_r r /\ stream_hash (view s') = h_r r /\
  receipt_id r = Some (seq (view s) + 1) /\ receipt_count (view s') = receipt_count (view s) + 1 /\
  compute_h_body r = Ok (h_body r) /\
  version r = (if is_none (w_bridge a) then 7 else 8) /\
  (_txn_depth s = 0 -> durable (s_conn s') = view s').
Proof.
  intros H Hc. apply write_spec in H as (_ & _ & _ & _ & r0 & row & Hw & -> & Hf & _ & Hd & Hv).
  destruct (written_receipt _ _ _ _ Hw) as (Hne & Hp & _ & Hb & Hver & Hl & Hid).
  pose proof (links_eq _ _ Hl) as [Hlr _].
  split; [by eapply append_chained|]. rewrite Hf, Hv. split_and!; try done.
  - unfold stream_hash. rewrite tip_append; [done|]. by rewrite Hlr.
  - unfold receipt_count. cbn [append_row set_rows rows]. rewrite length_app. simpl. lia.
  - intros H0. rewrite <- Hv. by apply Hd.
Qed.
End chain.

(** * Examples *)

Lemma write_extends_chain_witness :
  exists r s', demo_write demo_args demo_store1 = (Ok r, s') /\
    chained GENESIS s' /\ parent_h_r r = prior_h_r (front demo_store1) /\
    receipt_id r = Some 2.
Proof.
  destruct (demo_write demo_args demo_store1) as [[r|e] s'] eqn:H;
    [|vm_compute in H; discriminate H].
  exists r, s'. split; [reflexivity|].
  assert (Hc : chained GENESIS demo_store1) by (split; vm_compute; reflexivity).
  pose proof (@write_extends_chain nfc_id ed_demo demo_engine _ _ _ _ GENESIS H Hc)
    as (H1 & H2 & _ & _ & H3 & _).
  split; [exact H1|]. split; [exact H2|]. rewrite H3. vm_compute. reflexivity.
Defined.

(** A commit that fails after the INSERT leaves the row in the open transaction
    and the frontier where it was: the next write links to the same parent and
    commits both rows, and the chain no longer verifies. *)
Lemma commit_failure_forks_chain :
  let '(x1, s1) := demo_write demo_args (demo_store [Some "disk full"]) in
  let '(x2, s2) := demo_write demo_args s1 in
  x1 = Err (Exn OperationalError "disk full") /\ is_ok x2 = true /\
  map parent_h_r (rows (durable (s_conn s2))) = [GENESIS; GENESIS] /\
  verify_stream_hash (durable (s_conn s2)) None = Ok false.
Proof. vm_compute. repeat split. Qed.

(** The chain frontier scan has one answer for two situations. *)
Lemma last_valid_frontier_ambiguous :
  let broken := append_row (with_id 1 (demo_receipt (PStr "{}") 7)) empty_db in
  last_valid_frontier (view demo_store1) = Ok None /\
  verify_stream_hash (view demo_store1) None = Ok true /\
  last_valid_frontier broken = Ok None /\
  verify_stream_hash broken None = Ok false.
Proof. vm_compute. repeat split. Qed.
