(* ===== verification/StoreVerify.v ===== *)
(** Reading back and verifying what the store wrote: the round trip through a
    row, honest writes keep the chain verified, and where that fails. *)
From S2P Require Import Prelude Json Sha256 Binding BindingM2 Frame Authority Receipt Trace Capability Sqlite Integrity Archives Store StoreFacts.

(** * Canonical encodings do not see the order of a dictionary *)

Section canonical.
Context {U : Unicode}.

(** The keys of every dictionary stay distinct under normalisation. *)
Fixpoint keys_distinct (v : pyval) : bool :=
  match v with
  | PDict d => bool_decide (NoDup (map (fun kv => nfc (fst kv)) d))
               && forallb (fun kv => keys_distinct (snd kv)) d
  | PList l | PTuple l => forallb keys_distinct l
  | _ => true
  end.

Lemma py_eq_list_pointwise (f g : pyval -> pyval) l : Forall (fun v => py_eq (f v) (g v)) l ->
  py_eq (PList (map f l)) (PList (map g l)).
Proof.
  intros H. enough (forall pre, py_eq (PList (pre ++ map f l)) (PList (pre ++ map g l))) as Hp
    by exact (Hp []).
  induction H as [|v l Hv _ IH]; intros pre; simpl; [apply py_eq_refl|].
  specialize (IH (pre ++ [g v])). rewrite <- !app_assoc in IH. simpl in IH.
  eapply py_eq_trans; [by apply py_eq_list|exact IH].
Qed.

Lemma py_eq_dict_pointwise (h : string -> string) (f g : pyval -> pyval)
    (d : list (string * pyval)) :
  Forall (fun kv => py_eq (f (snd kv)) (g (snd kv))) d ->
  py_eq (PDict (map (fun kv => (h (fst kv), f (snd kv))) d))
        (PDict (map (fun kv => (h (fst kv), g (snd kv))) d)).
Proof.
  intros H.
  enough (forall pre, py_eq (PDict (pre ++ map (fun kv => (h (fst kv), f (snd kv))) d))
                            (PDict (pre ++ map (fun kv => (h (fst kv), g (snd kv))) d))) as Hp
    by exact (Hp []).
  induction H as [|[k v] d Hv _ IH]; intros pre; simpl; [apply py_eq_refl|].
  specialize (IH (pre ++ [(h k, g v)])). rewrite <- !app_assoc in IH. simpl in IH.
  eapply py_eq_trans; [by apply py_eq_dict|exact IH].
Qed.

Lemma normalize_canon v : keys_distinct v = true -> py_eq (normalize (canon v)) (normalize v).
Proof.
  induction v as [|b|z|r|s|l IH|l IH|d IH|] using pyval_ind'; simpl; intros Hk; try apply py_eq_refl.
  - rewrite map_map. apply (py_eq_list_pointwise (fun v => normalize (canon v)) normalize).
    rewrite forallb_forall in Hk. rewrite Forall_forall in *. intros x Hx.
    apply IH; [done|]. apply Hk. by apply list_elem_of_In.
  - rewrite map_map. apply (py_eq_list_pointwise (fun v => normalize (canon v)) normalize).
    rewrite forallb_forall in Hk. rewrite Forall_forall in *. intros x Hx.
    apply IH; [done|]. apply Hk. by apply list_elem_of_In.
  - apply andb_true_iff in Hk as [Hnd%bool_decide_eq_true Hk].
    rewrite forallb_forall in Hk.
    set (cd := map (fun kv => (fst kv, canon (snd kv))) d).
    assert (Hp : Permutation (map (fun kv => (nfc (fst kv), normalize (snd kv))) (sort_by fst cd))
                   (map (fun kv => (nfc (fst kv), normalize (canon (snd kv)))) d)).
    { rewrite (Permutation_map _ (sort_by_perm fst cd)). unfold cd. by rewrite map_map. }
    rewrite !dict_of_list_id; [|by rewrite map_map|].
    + eapply py_eq_trans; [by apply py_eq_perm|].
      apply (py_eq_dict_pointwise nfc (fun v => normalize (canon v)) normalize).
      rewrite Forall_forall in *. intros x Hx. apply IH; [done|]. apply Hk.
      by apply list_elem_of_In.
    + rewrite Hp, map_map. exact Hnd.
Qed.

Lemma canonical_json_py_eq v w t : py_eq (normalize v) (normalize w) ->
  _canonical_json w = Ok t -> _canonical_json v = Ok t.
Proof.
  unfold _canonical_json. intros H Hw.
  rewrite <- (json_dumps_py_eq style_compact_utf8 (normalize w) (normalize v)); try done.
  - by apply py_eq_sym.
  - by apply (normalize_ok style_compact_utf8 w t).
Qed.

Lemma normalize_field d1 k v w d2 : plain_keys (map fst (d1 ++ (k, v) :: d2)) = true ->
  UnicodeLaws U -> py_eq (normalize v) (normalize w) ->
  py_eq (normalize (PDict (d1 ++ (k, v) :: d2))) (normalize (PDict (d1 ++ (k, w) :: d2))).
Proof.
  intros Hk UL H. rewrite !normalize_dict; [|by rewrite map_app in *|done].
  rewrite !map_app. simpl. by apply py_eq_dict.
Qed.
End canonical.

(** * From a receipt to its row and back *)

Definition text_ok (v : pyval) : bool :=
  match v with PNone | PStr _ => true | _ => false end.
Definition cells_ok (keys : list string) (c : cols) : bool :=
  forallb (fun k => text_ok (col k c)) keys.

(** The nullable cells of the receipt are text or absent. *)
Definition text_cells (r : Receipt) : bool :=
  cells_ok terminal_keys (terminal r) && cells_ok capability_keys (capability r)
  && cells_ok effect_keys (effect r) && cells_ok reconciliation_keys (reconciliation r)
  && cells_ok continuation_keys (continuation r) && cells_ok bridge_keys (bridge r).

(** The compressible fields read back as they were: the stored text either is a
    legend number of the value or does not look like a legend number. *)
Definition texts_read_back (a : write_args) (r : Receipt) : bool :=
  forallb (fun fv => str_eqb (_expand (stored a (fst fv) (snd fv))) (snd fv))
    [("op", op r); ("intent", intent r); ("jurisdiction", jurisdiction r);
     ("confidence", confidence r)].

Definition read_back (n : Z) (r : Receipt) : Receipt :=
  {| op := op r; authority := authority r; parameters := canon (parameters r);
     intent := intent r; jurisdiction := jurisdiction r; confidence := confidence r;
     timestamp := timestamp r; failed := failed r; session_dkn := session_dkn r;
     law_hash := law_hash r; legend_hash := legend_hash r; warrant_id := warrant_id r;
     intent_ref := intent_ref r; receipt_id := Some n; h_s := h_s r; h_c := h_c r;
     h_m := h_m r; h_j := h_j r; h_r := h_r r; parent_h_r := parent_h_r r; mode := mode r;
     version := version r; id_c_s := id_c_s r; id_c_c := id_c_c r; id_c_m := id_c_m r;
     id_c_j := id_c_j r; h_body := h_body r; terminal := group terminal_keys (terminal r);
     Receipt.trace_vector_hash := Receipt.trace_vector_hash r;
     capability := group capability_keys (capability r);
     effect := group effect_keys (effect r);
     reconciliation := group reconciliation_keys (reconciliation r);
     continuation := group continuation_keys (continuation r);
     bridge := group bridge_keys (bridge r) |}.

Lemma col_group k keys c : k ∈ keys -> col k (group keys c) = col k c.
Proof. intros H. unfold col at 1. by rewrite group_keys_norm. Qed.

Lemma group_group keys c : group keys (group keys c) = group keys c.
Proof.
  unfold group at 1 3. apply map_ext_in. intros k Hk. f_equal. apply col_group.
  by apply list_elem_of_In.
Qed.

Section read_back.
Context {U : Unicode} {UL : UnicodeLaws U} {E : Ed25519} {G : Engine}.

Lemma store_cells_text keys c : cells_ok keys c = true -> store_cells keys c = Ok (group keys c).
Proof.
  unfold cells_ok, store_cells, group. induction keys as [|k keys IH]; simpl; [done|].
  rewrite andb_true_iff. intros [Hk H]. rewrite IH by done.
  by destruct (col k c).
Qed.

Lemma row_round_trip a pj n r row :
  row_of a pj n r = Ok row -> _params_json (parameters r) = Ok pj ->
  pyval_ok (parameters r) = true -> text_cells r = true -> texts_read_back a r = true ->
  mode r = "strict" -> 0 < version r ->
  id_c_s r = ID_C_S -> id_c_c r = ID_C_C -> id_c_m r = ID_C_M -> id_c_j r = ID_C_J ->
  _row_to_receipt row = Ok (read_back n r).
Proof.
  intros H Hpj Hok Hc Ht Hm Hv H1 H2 H3 H4. unfold text_cells in Hc.
  rewrite !andb_true_iff in Hc. destruct Hc as (((((Hc1 & Hc2) & Hc3) & Hc4) & Hc5) & Hc6).
  unfold row_of in H. rewrite !store_cells_text in H by done. cbn [rbind] in H.
  apply Ok_inj in H. subst row. unfold texts_read_back in Ht. cbn [forallb fst snd] in Ht.
  rewrite !andb_true_iff, !str_eqb_spec in Ht. destruct Ht as (T1 & T2 & T3 & T4 & _).
  unfold _row_to_receipt. cbn [parameters cell_text].
  rewrite (json_loads_dumps style_compact_ascii style_compact_ascii_wf (parameters r) pj Hok Hpj).
  cbn [op intent jurisdiction confidence version mode id_c_s id_c_c id_c_m id_c_j].
  rewrite T1, T2, T3, T4, Hm, H1, H2, H3, H4.
  replace (version r =? 0) with false by (symmetry; apply Z.eqb_neq; lia).
  unfold read_back. by rewrite Hm, H1, H2, H3, H4.
Qed.

(** The members of the body of the receipt that was read back. *)
Lemma read_back_members n r :
  group reconciliation_keys (reconciliation r) = group reconciliation_keys [] ->
  exists rest,
    body_members r = [("op", PStr (op r)); ("authority", PStr (authority r))]
                     ++ ("parameters", parameters r) :: rest /\
    body_members (body_check_args (read_back n r)) =
      [("op", PStr (op r)); ("authority", PStr (authority r))]
      ++ ("parameters", canon (parameters r)) :: rest.
Proof.
  intros Hrec. unfold body_members, core_members. cbn -[group from_version canon Z.leb].
  rewrite !group_group, Hrec. eexists. split; reflexivity.
Qed.

Lemma read_back_body n r :
  group reconciliation_keys (reconciliation r) = group reconciliation_keys [] ->
  keys_distinct (parameters r) = true -> compute_h_body r = Ok (h_body r) ->
  compute_h_body (body_check_args (read_back n r)) = Ok (h_body r).
Proof.
  intros Hrec Hk H. destruct (read_back_members n r Hrec) as (rest & H1 & H2).
  unfold compute_h_body in *. rewrite H2. rewrite H1 in H.
  apply rbind_ok in H as (b & Hb & H).
  assert (Hpl : plain_keys (map fst ([("op", PStr (op r)); ("authority", PStr (authority r))]
                  ++ ("parameters", canon (parameters r)) :: rest)) = true).
  { pose proof (body_keys_plain r) as Hp. rewrite H1 in Hp. exact Hp. }
  by rewrite (canonical_json_py_eq _ _ b (normalize_field _ _ _ _ _ Hpl UL
                (normalize_canon _ Hk)) Hb).
Qed.

Lemma read_back_h_s n r h :
  keys_distinct (parameters r) = true -> H_s (PStr (op r)) (parameters r) = Ok h ->
  H_s (PStr (op r)) (parameters (read_back n r)) = Ok h.
Proof.
  intros Hk. unfold H_s, c_s. cbn [parameters read_back is_pystr].
  destruct (parameters r) as [| | | | | | |d|] eqn:Hp; try done.
  change (is_pydict (canon (PDict d))) with true. cbn [is_pydict]. intros H.
  apply rbind_ok in H as (c & Hc & H). apply wrap_ok in Hc.
  pose proof (canonical_json_py_eq _ _ c (normalize_field [("op", PStr (op r))] "inputs" _ _ []
                eq_refl UL (normalize_canon (PDict d) Hk)) Hc) as Hcan.
  cbn [app] in Hcan. rewrite Hcan. exact H.
Qed.
End read_back.

(** The committed value of the reconciliation grade, from version 6 on. *)
Lemma reconciliation_member r : 6 <= version r ->
  dict_get "reconciliation_grade" (body_members r)
  = Some (col "reconciliation_grade" (reconciliation r)).
Proof.
  intros Hv. unfold body_members, from_version.
  repeat match goal with |- context [?n <=? version r] =>
    lazymatch n with 7 => fail | 8 => fail | _ =>
      replace (n <=? version r) with true by (symmetry; apply Z.leb_le; lia) end end.
  reflexivity.
Qed.

(** * Honest writes keep the store verified *)

Section honest.
Context {U : Unicode} {UL : UnicodeLaws U} {E : Ed25519} {G : Engine}.

(** What [ugk verify] asks of a store. *)
Definition fully_verified (d : db) : Prop := rmap vr_ok (verify_chain d None) = Ok true.

Lemma fully_verified_iff d : fully_verified d <->
  exists rs, all_receipts d = Ok rs /\ _verify_segment rs GENESIS = true /\
    check_bodies rs = Ok true.
Proof.
  unfold fully_verified, verify_chain, verify_stream_hash, verify_receipt_bodies.
  destruct (all_receipts d) as [rs|e]; cbn [rbind]; [|by split; [|intros (? & ? & _)]].
  destruct rs as [|r rs]; [cbn; split; [by exists []|done]|].
  destruct (_verify_segment (r :: rs) GENESIS) eqn:Hs; cbn [rbind negb].
  - destruct (check_bodies (r :: rs)) as [[]|e] eqn:Hb; cbn; (split; [|by intros (? & [= <-] & _ & ?); congruence]); try done.
    intros _. by exists (r :: rs).
  - split; [done|]. intros (? & [= <-] & ? & _). congruence.
Qed.

Lemma check_bodies_app rs x : check_bodies rs = Ok true -> check_body x = Ok true ->
  check_bodies (rs ++ [x]) = Ok true.
Proof.
  intros H Hx. induction rs as [|r rs IH]; cbn [app check_bodies].
  - by rewrite Hx.
  - cbn [check_bodies] in H. apply rbind_ok in H as (b & Hb & H). rewrite Hb. cbn [rbind].
    destruct b; [by apply IH|done].
Qed.

Lemma sequence_app {A} (l : list (result exn A)) m xs x :
  sequence l = Ok xs -> m = Ok x -> sequence (l ++ [m]) = Ok (xs ++ [x]).
Proof.
  revert xs. induction l as [|y l IH]; intros xs H ->; simpl in *.
  - by apply Ok_inj in H as <-.
  - apply rbind_ok in H as (z & -> & H). apply rbind_ok in H as (zs & Hz & H).
    apply Ok_inj in H as <-. by rewrite (IH zs Hz eq_refl).
Qed.

(** What makes a receipt come back as it was committed. *)
Record readable (a : write_args) (r : Receipt) : Prop := {
  rd_params : pyval_ok (parameters r) = true;
  rd_keys : keys_distinct (parameters r) = true;
  rd_cells : text_cells r = true;
  rd_texts : texts_read_back a r = true;
  rd_grade : group reconciliation_keys (reconciliation r) = group reconciliation_keys [];
}.

Lemma written_row a s r row : written a s r row -> readable a r ->
  _row_to_receipt row = Ok (read_back (seq (view s) + 1) r) /\
  check_body (read_back (seq (view s) + 1) r) = Ok true.
Proof.
  intros [eff p1 ps gr sn pj now cx g _ _ Hpj Hs Hr] [R1 R2 R3 R4 R5].
  apply seal_receipt_sealed in Hs as [k term cap cont br now' body tvh Hk _ _ _ Hb Hbody Hsr].
  assert (Hp : parameters r = ps) by by rewrite Hsr.
  assert (Hv : 0 < version r).
  { rewrite Hsr. cbn [version receipt_of]. rewrite (bridge_columns_version a br Hb).
    by destruct (is_none _). }
  assert (Hhb : h_body r = body) by by rewrite Hsr.
  split.
  - by apply (row_round_trip a pj _ r row Hr); try assumption; [rewrite Hp|rewrite Hsr..].
  - unfold compute_commitments in Hk. apply rbind_ok in Hk as (hs & Hhs & Hk).
    repeat (apply rbind_ok in Hk as (? & _ & Hk)). apply Ok_inj in Hk.
    unfold check_body. cbn [h_s read_back op h_body].
    assert (Hop : op r = w_op a) by by rewrite Hsr.
    assert (Hhsr : h_s r = hex hs) by (rewrite Hsr, <- Hk; done).
    rewrite (read_back_h_s _ r hs R2) by by rewrite Hop, Hp.
    cbn [rbind]. rewrite Hhsr, str_eqb_refl. cbn [negb].
    rewrite (read_back_body _ r R5 R2) by by rewrite Hhb.
    cbn [rbind]. rewrite str_eqb_refl.
    assert (Hne : str_eqb (h_body r) "" = false).
    { apply not_true_iff_false. rewrite str_eqb_spec, Hhb. intros Hz.
      unfold compute_h_body in Hbody. apply rbind_ok in Hbody as (b & _ & Hbody).
      apply Ok_inj, (f_equal String.length) in Hbody. rewrite sha256_hex_length, Hz in Hbody.
      discriminate Hbody. }
    rewrite Hne. by destruct (str_eqb (hex hs) "").
Qed.

(** C6: honest writes keep the store verified.  If the store verifies to the BODY
    level and its chain ends where its frontier says, then after a write of a
    receipt that is not reconciliation-graded, whose nullable cells are text,
    whose parameters are a JSON value with distinct keys and whose compressible
    fields are not mistaken for legend numbers, the store, read back from its
    rows, verifies to the BODY level again. *)
Theorem honest_write_verifies a s r s' :
  write a s = (Ok r, s') -> chained GENESIS s -> fully_verified (view s) -> readable a r ->
  fully_verified (view s').
Proof.
  intros H Hc Hv Hr. apply write_spec in H as (_ & _ & _ & _ & r0 & row & Hw & -> & _ & _ & _ & Hview).
  assert (Hr0 : readable a r0) by by destruct Hr.
  destruct (written_receipt _ _ _ _ Hw) as (Hne & Hp & _ & _ & _ & Hl & _).
  destruct (written_row _ _ _ _ Hw Hr0) as [Hrow Hbody].
  apply fully_verified_iff in Hv as (rs & Hrs & Hseg & Hbs).
  apply fully_verified_iff. exists (rs ++ [read_back (seq (view s) + 1) r0]).
  rewrite Hview. unfold all_receipts in *. cbn [append_row set_rows rows].
  rewrite map_app. split; [by apply sequence_app|]. split; [|by apply check_bodies_app].
  rewrite verify_segment_app, Hseg. cbn [h_r parent_h_r read_back].
  rewrite Hp. destruct Hc as [_ Hend].
  apply all_receipts_links in Hrs as [Hrs _].
  assert (segment_end GENESIS rs = prior_h_r (front s)) as ->.
  { rewrite <- Hend. unfold segment_end.
    apply (f_equal last) in Hrs. rewrite !fmap_last in Hrs.
    destruct (last rs), (last (rows (view s))); cbn in Hrs; try done.
    apply Some_inj' in Hrs. by apply links_eq in Hrs as [-> _]. }
  rewrite str_eqb_refl. destruct (str_eqb (h_r r0) "") eqn:Ez; [by apply str_eqb_spec in Ez|done].
Qed.

(** A verified-grade receipt never passes the body check.  From version 6 on the
    reconciliation columns are part of the committed body, but the verifier
    recomputes it without them: the honest receipt of a verified-grade
    reconciliation is reported as tampered. *)
Theorem verified_grade_fails_body_check r b :
  compute_h_body r = Ok (h_body r) -> 6 <= version r ->
  norm (col "reconciliation_grade" (reconciliation r)) <> PNone ->
  no_collision [h_body_preimage r; h_body_preimage (body_check_args r)] ->
  check_body r = Ok b -> b = false.
Proof.
  intros Hb Hv Hne Hnc H. unfold check_body in H.
  apply rbind_ok in H as (bad & _ & H). destruct bad; [by apply Ok_inj in H|].
  destruct (str_eqb (h_body r) ""); [by apply Ok_inj in H|].
  apply rbind_ok in H as (b' & Hb' & H). apply Ok_inj in H. subst b.
  apply not_true_iff_false. rewrite str_eqb_spec. intros ->. apply Hne.
  pose proof (h_body_determines r (body_check_args r) _ Hb Hb' Hnc "reconciliation_grade") as Hd.
  rewrite (reconciliation_member r), (reconciliation_member (body_check_args r)) in Hd by done.
  cbn [option_map] in Hd. by apply Some_inj' in Hd.
Qed.
End honest.

(** * Examples *)

Lemma honest_write_verifies_witness :
  exists r s', demo_write demo_args demo_store1 = (Ok r, s') /\
    @fully_verified nfc_id (view s').
Proof.
  destruct (demo_write demo_args demo_store1) as [[r|e] s'] eqn:H;
    [|vm_compute in H; discriminate H].
  exists r, s'. split; [reflexivity|].
  apply (@honest_write_verifies nfc_id nfc_id_laws ed_demo demo_engine demo_args demo_store1 r s' H).
  - split; vm_compute; reflexivity.
  - vm_compute. reflexivity.
  - vm_compute in H. apply pair_ok in H as [H _]. apply Ok_inj in H. rewrite <- H.
    split; vm_compute; reflexivity.
Defined.

(** A receipt of a verified-grade reconciliation, as the store writes it. *)
Definition graded_args : write_args :=
  plain_write "reconcile" "operator"
    (PDict [("reconciliation_grade", PStr "verified");
            ("reconciliation_warrant_snapshot", PStr "{}")]) None.
Definition graded_write : result exn Receipt * store :=
  Eval vm_compute in demo_write graded_args (demo_store []).
Definition graded_receipt : option Receipt :=
  match fst graded_write with Ok r => Some r | Err _ => None end.

Lemma verified_grade_fails_body_check_witness :
  exists r, graded_receipt = Some r /\ @check_body nfc_id r = Ok false.
Proof.
  destruct graded_receipt as [r|] eqn:H; [|vm_compute in H; discriminate H].
  exists r. split; [reflexivity|]. vm_compute in H. apply Some_inj' in H. subst r.
  match goal with |- check_body ?r = _ => set (g := r) end.
  destruct (@check_body nfc_id g) as [b|e] eqn:Hb; [|vm_compute in Hb; discriminate Hb].
  f_equal. apply (@verified_grade_fails_body_check nfc_id nfc_id_laws g b).
  - vm_compute. reflexivity.
  - vm_compute. discriminate.
  - vm_compute. discriminate.
  - apply no_collisionb_spec. vm_compute. reflexivity.
  - exact Hb.
Defined.

(** The store that just wrote such a receipt does not verify. *)
Example graded_store_unverified :
  rmap corruption (@verify_chain nfc_id (view (snd graded_write)) None)
  = Ok (Some CORRUPT).
Proof. vm_compute. reflexivity. Qed.

(** An effect column that is a number is committed as a number and stored as
    text: the receipt does not verify when read back. *)
Definition numeric_args : write_args :=
  plain_write "publish" "operator"
    (PDict [("effect_atomicity", PStr "pure"); ("idempotency_key", PInt 5)]) None.
Definition numeric_write : result exn Receipt * store :=
  Eval vm_compute in demo_write numeric_args (demo_store []).
Example numeric_column_unverified :
  rmap corruption (@verify_chain nfc_id (view (snd numeric_write)) None)
  = Ok (Some CORRUPT).
Proof. vm_compute. reflexivity. Qed.

(** A field that spells a legend number is expanded although it was written
    uncompressed. *)
Definition numeric_intent_args : write_args :=
  plain_write "audit" "operator" (PDict []) (Some "1001").
Definition numeric_intent_write : result exn Receipt * store :=
  Eval vm_compute in demo_write numeric_intent_args (demo_store []).
Example numeric_intent_unverified :
  let d := view (snd numeric_intent_write) in
  (rmap (map intent) (all_receipts d), rmap corruption (@verify_chain nfc_id d None))
  = (Ok ["UL-G-01"], Ok (Some CORRUPT)).
Proof. vm_compute. reflexivity. Qed.
