(* ===== verification/StoreTxn.v ===== *)
(** Governed transactions, schema migration and epoch pruning are all or
    nothing. *)
From S2P Require Import Prelude Json Sha256 Binding BindingM2 Frame Authority Receipt Trace Capability Sqlite Integrity Archives Store StoreFacts.

(** * Bodies that stay inside their transaction *)

(** Inside a transaction, a body keeps the savepoints, the durable contents, the
    depth and the mode of the store, whether it returns or raises. *)
Definition inside (s : store) : Prop := 0 < _txn_depth s /\ in_txn (s_conn s) = true.
Record same_frame (s s' : store) : Prop := {
  sf_sp : savepoints (s_conn s') = savepoints (s_conn s);
  sf_durable : durable (s_conn s') = durable (s_conn s);
  sf_depth : _txn_depth s' = _txn_depth s;
  sf_ro : _read_only s' = _read_only s;
  sf_txn : in_txn (s_conn s') = in_txn (s_conn s);
}.
Definition kept {A} (body : M store A) : Prop :=
  forall s, inside s -> same_frame s (snd (body s)).

#[export] Instance same_frame_refl : Reflexive same_frame.
Proof. by intros s. Qed.
#[export] Instance same_frame_trans : Transitive same_frame.
Proof. intros s1 s2 s3 [] []. split; congruence. Qed.

Lemma same_frame_inside s s' : same_frame s s' -> inside s -> inside s'.
Proof. intros [_ _ Hd _ Ht] [H1 H2]. split; [by rewrite Hd|by rewrite Ht]. Qed.

Lemma kept_ret {A} (a : A) : kept (sret a).
Proof. intros s _. reflexivity. Qed.
Lemma kept_raise {A} e : kept (@sraise store A e).
Proof. intros s _. reflexivity. Qed.
Lemma kept_read {A} (f : store -> result exn A) : kept (fun s => (f s, s)).
Proof. intros s _. reflexivity. Qed.

Lemma kept_bind {A B} (m : M store A) (k : A -> M store B) :
  kept m -> (forall a, kept (k a)) -> kept (sbind m k).
Proof.
  intros Hm Hk s Hs. unfold sbind. pose proof (Hm s Hs) as H1.
  destruct (m s) as [[a|e] s1]; cbn [snd] in *; [|done].
  transitivity s1; [done|]. apply Hk. by eapply same_frame_inside.
Qed.

Lemma kept_guard {A} (b : bool) e (m : M store A) : kept m -> kept (guard! b else e in m).
Proof. destruct b; [done|]. intros _. apply kept_raise. Qed.

Lemma kept_dml f : kept (on_conn (dml f)).
Proof.
  intros s [_ Ht]. unfold on_conn. destruct (dml f (s_conn s)) as [r c] eqn:H.
  apply dml_step in H as (H1 & H2 & _ & _ & H3). cbn. split; cbn; try done.
  destruct r; [by destruct H3 as (_ & _ & ->)|].
  by destruct H3 as (_ & [[_ ->]|[_ ->]]).
Qed.

Lemma kept_ddl f : kept (on_conn (ddl f)).
Proof.
  intros s [_ Ht]. unfold on_conn, ddl. destruct (ro (s_conn s)); [by split|].
  destruct (f (current (s_conn s))); cbn; split; cbn; rewrite ?Ht; done.
Qed.

Section kept_write.
Context {U : Unicode} {E : Ed25519} {G : Engine}.

Lemma kept_write a : kept (write a).
Proof.
  intros s [Hd Ht]. destruct (write a s) as [r s'] eqn:H.
  apply write_spec in H as (H1 & H2 & H3 & _). destruct H3 as (H3 & H4 & H5); [lia|].
  split; try done. rewrite Ht. by apply H5.
Qed.

Lemma kept_exec_all stmts : kept (exec_all stmts).
Proof.
  induction stmts as [|x l IH]; simpl; [apply kept_ret|].
  apply kept_bind; [apply kept_ddl|done].
Qed.

Lemma kept_prune i d h b n : kept (prune_body i d h b n).
Proof.
  unfold prune_body.
  repeat first [apply kept_write | apply kept_dml | apply kept_ret | apply kept_read
               | apply kept_guard | apply kept_bind; [|intros ?]].
Qed.
End kept_write.

(** * The transaction *)

(** Between operations: no transaction open, everything durable. *)
Record idle (s : store) : Prop := {
  idle_depth : _txn_depth s = 0;
  idle_txn : in_txn (s_conn s) = false;
  idle_sync : view s = durable (s_conn s);
}.

(** Nothing a caller can see has changed. *)
Definition unchanged (s s' : store) : Prop :=
  durable (s_conn s') = durable (s_conn s) /\ view s' = view s /\ front s' = front s.

(** Entering and leaving a transaction around anything that stays inside it. *)
Lemma txn_cases v s : idle s ->
  match txn_enter v s with
  | (Err _, s0) => _txn_depth s0 = _txn_depth s /\ _read_only s0 = _read_only s /\ unchanged s s0
  | (Ok (sp, snap), s1) =>
      ok v = true /\ view s1 = view s /\ front s1 = front s /\ inside s1 /\
      _read_only s1 = _read_only s /\
      forall A (r : result exn A) s2, same_frame s1 s2 ->
        let '(r', s3) := txn_leave sp snap r s2 in
        _txn_depth s3 = _txn_depth s /\ _read_only s3 = _read_only s /\
        match r' with
        | Ok a => r = Ok a /\ in_txn (s_conn s3) = false /\ durable (s_conn s3) = view s3 /\
            savepoints (s_conn s3) = [] /\ view s3 = view s2 /\ front s3 = front s2
        | Err e => unchanged s s3 /\
            ((exists a, r = Ok a) -> e = TransactionCommitError)
        end
  end.
Proof.
  intros [Hd Ht Hsync]. unfold txn_enter.
  destruct (on_env next_savepoint s) as [[sp|e] s0] eqn:H0; [|discriminate H0].
  apply on_env_step in H0 as (en & ->). unfold on_conn, mt_enter.
  destruct (ok v); [|by destruct s].
  cbn [s_conn set_env savepoint_begin]. rewrite Ht. cbn [negb].
  set (s1 := add_depth 1 _).
  split_and!; try done; [split; cbn; [lia|done]|].
  intros A r s2 [K1 K2 K3 K4 K5].
  change (savepoints (s_conn s1)) with
    ({| sp_name := sp; sp_snapshot := view s; sp_opens := true |} :: savepoints (s_conn s)) in K1.
  change (durable (s_conn s1)) with (durable (s_conn s)) in K2.
  change (_txn_depth s1) with (_txn_depth s + 1) in K3.
  change (_read_only s1) with (_read_only s) in K4.
  unfold txn_leave, on_conn, unchanged. cbn [s_conn add_depth]. destruct r as [a|x].
  - destruct (mt_exit_clean sp (s_conn s2)) as [[u|e] c3] eqn:He; cbn;
      pose proof (mt_exit_clean_spec sp _ _ _ _ _ K1 eq_refl eq_refl He) as Hx; cbn in Hx.
    + destruct Hx as (X1 & X2 & X3 & X4). unfold view. cbn.
      split_and!; try done; [lia|congruence].
    + unfold view in *. cbn. rewrite K2, <- Hsync in Hx. rewrite <- Hsync.
      split_and!; try done; [lia|by destruct Hx as [_ [?|?]]|tauto|].
      intros _. unfold mt_exit_clean in He.
      destruct (release sp (s_conn s2)) as [[?|?] ?]; apply pair_ok in He as [He _]; [done|].
      by apply Err_inj in He.
  - destruct (undo_restores sp _ _ (s_conn s2) K1 eq_refl) as (X1 & X2 & _).
    cbn [sp_snapshot] in X1, X2. rewrite K2, <- Hsync in X2.
    unfold view, mt_exit_exn in *.
    destruct (undo sp (s_conn s2)) as [[u|y] c3]; cbn in *;
      (split_and!; [lia|done|rewrite <- Hsync; by destruct X2|done|done|by intros [? ?]]).
Qed.

Lemma transaction_cases {A} v (body : M store A) s res s' : kept body -> idle s ->
  transaction v body s = (res, s') ->
  _txn_depth s' = _txn_depth s /\ _read_only s' = _read_only s /\
  match res with
  | Ok a => ok v = true /\ in_txn (s_conn s') = false /\ durable (s_conn s') = view s' /\
      savepoints (s_conn s') = [] /\
      exists s1 s2, view s1 = view s /\ front s1 = front s /\ inside s1 /\
        _read_only s1 = _read_only s /\
        body s1 = (Ok a, s2) /\ view s' = view s2 /\ front s' = front s2
  | Err _ => durable (s_conn s') = durable (s_conn s) /\ view s' = view s /\ front s' = front s
  end.
Proof.
  intros Hk Hi H. unfold transaction in H. pose proof (txn_cases v s Hi) as Ht.
  destruct (txn_enter v s) as [[[sp snap]|x] s1]; [|by apply pair_ok in H as [<- <-]].
  destruct Ht as (Hv & V1 & F1 & Hin & R1 & Hleave). pose proof (Hk s1 Hin) as Hf.
  destruct (body s1) as [r s2] eqn:Hb. cbn [snd] in Hf. specialize (Hleave A r s2 Hf).
  rewrite H in Hleave. destruct Hleave as (Hd & Hr & Hx). split; [done|]. split; [done|].
  destruct res as [a|e]; [|by destruct Hx].
  destruct Hx as (-> & T1 & T2 & T3 & T4 & T5). split_and!; try done. by exists s1, s2.
Qed.

(** C11: a governed transaction is all or nothing.  Started with no transaction open,
    over a body that stays inside it, [transaction] either returns what the body
    returned with its effects durable and its frontier kept, or raises with the
    durable rows, the rows this connection sees and the in-memory chain frontier
    all as they were: a refused validation, an exception of the body and a failed
    commit alike.  The nesting depth is restored. *)
Theorem transaction_atomic {A} v (body : M store A) s res s' : kept body -> idle s ->
  transaction v body s = (res, s') ->
  _txn_depth s' = 0 /\
  match res with
  | Ok a => ok v = true /\ idle s' /\
      exists s1 s2, view s1 = view s /\ front s1 = front s /\ body s1 = (Ok a, s2) /\
        durable (s_conn s') = view s2 /\ front s' = front s2
  | Err _ => durable (s_conn s') = durable (s_conn s) /\ view s' = view s /\ front s' = front s
  end.
Proof.
  intros Hk Hi H. pose proof (idle_depth _ Hi) as H0.
  apply transaction_cases in H as (Hd & _ & H); [|done..]. rewrite Hd. split; [done|].
  destruct res as [a|e]; [|done].
  destruct H as (Hv & Ht & Hdur & _ & s1 & s2 & H1 & H2 & _ & _ & H3 & H4 & H5).
  split; [done|]. split; [split; [congruence|done..]|].
  exists s1, s2. split_and!; try done. congruence.
Qed.

(** * Schema migration *)

Section governed.
Context {U : Unicode} {E : Ed25519} {G : Engine}.

Lemma exec_all_spec stmts s u s' : exec_all stmts s = (Ok u, s') ->
  rows (view s') = rows (view s) /\ front s' = front s /\ _txn_depth s' = _txn_depth s.
Proof.
  revert s. induction stmts as [|x l IH]; intros s H; simpl in H.
  - by apply pair_ok in H as [_ <-].
  - apply sbind_ok in H as (? & s1 & H1 & H). apply on_conn_step in H1 as (c & H1 & ->).
    apply IH in H as (-> & -> & ->). split_and!; try done.
    unfold ddl in H1. destruct (ro _); [done|]. unfold exec_statement in H1.
    destruct (exec_ddl _ _); [|done]. cbn in H1. by apply pair_ok in H1 as [_ <-].
Qed.

Lemma first_unsafe_none l : first_unsafe l = None <->
  Forall (fun x => validate_migration_statement x = None) l.
Proof.
  induction l as [|x l IH]; simpl; [by split|]. rewrite Forall_cons.
  destruct (validate_migration_statement x); [by split; [|intros []]|]. rewrite IH. naive_solver.
Qed.

Definition migration_body (stmts : list pyval) (intent description before : string) :
    M store string :=
  let! _ := exec_all stmts in
  let! after := live_schema_hash in
  let! _ := write (plain_write "schema_migrated" "storage-frame"
              (migration_params intent description before after stmts) (Some intent)) in
  sret after.

Lemma kept_migration stmts i d b : kept (migration_body stmts i d b).
Proof.
  unfold migration_body. apply kept_bind; [apply kept_exec_all|intros _].
  apply kept_bind; [apply kept_read|intros after].
  apply kept_bind; [apply kept_write|intros _; apply kept_ret].
Qed.

Lemma migration_body_spec stmts i d b s h s' : migration_body stmts i d b s = (Ok h, s') ->
  exists row, rows (view s') = rows (view s) ++ [row] /\ op row = "schema_migrated" /\
    parent_h_r row = prior_h_r (front s) /\ prior_h_r (front s') = h_r row /\
    compute_schema_hash (tables (view s')) = Ok h.
Proof.
  intros H. apply sbind_ok in H as (u & s1 & H1 & H). apply exec_all_spec in H1 as (Hr & Hf & _).
  apply sbind_ok in H as (after & s2 & H2 & H). apply pair_ok in H2 as [H2 <-].
  apply sbind_ok in H as (r & s3 & H3 & H). apply pair_ok in H as [H <-].
  apply Ok_inj in H. subst h.
  apply write_spec in H3 as (_ & _ & _ & _ & r0 & row & Hw & _ & Hf3 & _ & _ & Hv).
  destruct (written_receipt _ _ _ _ Hw) as (_ & Hp & Hop & _ & _ & Hl & _).
  apply links_eq in Hl as [Hl1 Hl2]. exists row. rewrite Hv, Hf3.
  cbn [append_row set_rows rows tables advance prior_h_r]. rewrite Hr, Hl1, Hl2, Hp, Hf.
  split_and!; try done. destruct Hw as [eff p1 ps gr sn pj now cx g _ _ _ _ Hrow].
  unfold row_of in Hrow. repeat (apply rbind_ok in Hrow as (? & _ & Hrow)).
  apply Ok_inj in Hrow. subst row. cbn [op]. by rewrite Hop.
Qed.

(** A live migration is refused before it mutates, or is one receipted
    transition.  [migrate_schema] either fails with rows, tables and frontier as
    they were, or has applied statements that all passed the lexical check,
    appended exactly one "schema_migrated" receipt that links to the old tip, made
    both durable, and refreshed the schema fingerprint to that of the live tables;
    a read-only store and a blank intent are always refused. *)
Theorem migrate_schema_atomic statements intent description s res s' : idle s ->
  migrate_schema statements intent description s = (res, s') ->
  match res with
  | Err _ => view s' = view s /\ durable (s_conn s') = durable (s_conn s) /\ front s' = front s
  | Ok _ => _read_only s = false /\ blank_intent intent = false /\
      (exists stmts, statement_list statements = Ok stmts /\ stmts <> [] /\
        Forall (fun x => validate_migration_statement x = None) stmts) /\
      (exists row, rows (view s') = rows (view s) ++ [row] /\ op row = "schema_migrated" /\
        parent_h_r row = prior_h_r (front s) /\ prior_h_r (front s') = h_r row) /\
      compute_schema_hash (tables (view s')) = Ok (schema_hash (front s')) /\
      durable (s_conn s') = view s' /\ idle s'
  end.
Proof.
  intros Hi H. unfold migrate_schema in H. destruct (_read_only s) eqn:Hro;
    [by apply pair_ok in H as [<- <-]|].
  destruct (blank_intent intent) eqn:Hbi; [by apply pair_ok in H as [<- <-]|].
  unfold sbind at 1, slift in H.
  destruct (statement_list statements) as [stmts|e] eqn:Hst; [|by apply pair_ok in H as [<- <-]].
  destruct stmts as [|x l]; [by apply pair_ok in H as [<- <-]|].
  destruct (first_unsafe (x :: l)) eqn:Hu; [by apply pair_ok in H as [<- <-]|].
  unfold sbind at 1, live_schema_hash at 1 in H.
  destruct (compute_schema_hash (tables (view s))) as [before|e];
    [|by apply pair_ok in H as [<- <-]].
  unfold sbind at 1 in H. fold (migration_body (x :: l) intent description before) in H.
  destruct (transaction valid _ s) as [[after|e] s1] eqn:Ht;
    apply transaction_cases in Ht as (Hd & _ & Ht); try done; try apply kept_migration.
  2:{ apply pair_ok in H as [<- <-]. by destruct Ht as (-> & -> & ->). }
  apply pair_ok in H as [<- <-].
  destruct Ht as (_ & Htx & Hdur & _ & s2 & s3 & H1 & H2 & _ & _ & Hb & H3 & H4).
  apply migration_body_spec in Hb as (row & R1 & R2 & R3 & R4 & R5).
  change (view (set_schema_hash after s1)) with (view s1).
  change (front (set_schema_hash after s1)) with
    {| prior_h_r := prior_h_r (front s1); prior_h_m := prior_h_m (front s1);
       prior_intent_ref := prior_intent_ref (front s1); schema_hash := after |}.
  cbn [prior_h_r schema_hash]. rewrite H3, H4 in *. rewrite H1 in R1. rewrite H2 in R3.
  split_and!; try done.
  - exists (x :: l). split_and!; try done. by apply first_unsafe_none.
  - by exists row.
  - split; [by rewrite <- (idle_depth _ Hi), <- Hd|done|]. unfold view in *. cbn. congruence.
Qed.
End governed.

(** * Epoch pruning *)

(** Identifiers are those of an AUTOINCREMENT column. *)
Definition ids_bounded (d : db) : Prop := Forall (fun r => rid r <= seq d) (rows d).

Lemma filter_app_keep {A} (f : A -> bool) l k :
  Forall (fun x => f x = true) k -> List.filter f (l ++ k) = List.filter f l ++ k.
Proof.
  intros H. rewrite List.filter_app. f_equal. induction H as [|x k Hx _ IH]; [done|].
  simpl. by rewrite Hx, IH.
Qed.

Section prune.
Context {U : Unicode} {E : Ed25519} {G : Engine}.

Lemma in_all_receipts d rs x : all_receipts d = Ok rs -> In x rs ->
  exists y, In y (rows d) /\ links x = links y /\ receipt_id x = receipt_id y.
Proof.
  unfold all_receipts. intros H%sequence_forall2 Hin.
  apply list_elem_of_In, list_elem_of_lookup in Hin as (i & Hi).
  destruct (Forall2_lookup_r _ _ _ _ _ H Hi) as (y & Hy & Hr). apply row_links in Hr.
  exists y. split; [|done]. apply list_elem_of_In. by eapply list_elem_of_lookup_2.
Qed.

(** A write, seen from the chain. *)
Lemma write_row a s r s' : write a s = (Ok r, s') -> exists row,
  view s' = append_row row (view s) /\ rid row = seq (view s) + 1 /\ h_r row <> "" /\
  parent_h_r row = prior_h_r (front s) /\ prior_h_r (front s') = h_r row.
Proof.
  intros H. apply write_spec in H as (_ & _ & _ & _ & r0 & row & Hw & _ & Hf & _ & _ & Hv).
  destruct (written_receipt _ _ _ _ Hw) as (Hne & Hp & _ & _ & _ & Hl & Hid).
  apply links_eq in Hl as [H1 H2]. exists row. rewrite Hf. unfold rid. rewrite Hid, H1, H2.
  by split_and!.
Qed.

Lemma prune_body_spec i d seal b n s x s' : prune_body i d seal b n s = (Ok x, s') ->
  b <= seq (view s) ->
  exists r1 r2, rows (view s') = List.filter (fun r => b <? rid r) (rows (view s)) ++ [r1; r2] /\
    parent_h_r r1 = prior_h_r (front s) /\ parent_h_r r2 = h_r r1 /\
    prior_h_r (front s') = h_r r2 /\ h_r r2 <> "" /\
    verify_from_seal (view s') seal = Ok true.
Proof.
  intros H Hb. unfold prune_body in H.
  apply sbind_ok in H as (w1 & s1 & H1 & H). apply write_row in H1 as (r1 & V1 & I1 & N1 & P1 & F1).
  apply sbind_ok in H as (w2 & s2 & H2 & H). apply write_row in H2 as (r2 & V2 & I2 & N2 & P2 & F2).
  apply sbind_ok in H as (tb & s3 & H3 & H). apply pair_ok in H3 as [H3 <-]. apply Ok_inj in H3.
  apply sbind_ok in H as (u & s4 & H4 & H). apply on_conn_step in H4 as (c & H4 & ->).
  apply dml_step in H4 as (_ & _ & _ & _ & _ & H4 & _). unfold delete_through in H4.
  apply Ok_inj in H4. change (current (s_conn s2)) with (view s2) in H4.
  apply sbind_ok in H as (ta & s5 & H5 & H). apply pair_ok in H5 as [H5 <-]. apply Ok_inj in H5.
  destruct (str_eqb ta tb) eqn:Htip; [|discriminate H]. apply str_eqb_spec in Htip. subst ta.
  apply sbind_ok in H as (good & s6 & H6 & H). apply pair_ok in H6 as [H6 <-].
  destruct good; [|discriminate H]. apply pair_ok in H as [H <-]. apply Ok_inj in H. subst x.
  change (view (set_conn c s2)) with (current c) in *. exists r1, r2.
  assert (Hr2 : rows (view s2) = rows (view s) ++ [r1; r2]).
  { rewrite V2, V1. cbn [append_row set_rows rows]. by rewrite <- app_assoc. }
  assert (Hs1 : seq (view s1) = seq (view s) + 1) by by rewrite V1.
  rewrite V2, tip_append in H3 by done. subst tb.
  split_and!; try done.
  - rewrite <- H4. cbn [set_rows rows]. rewrite Hr2. apply filter_app_keep.
    repeat constructor; apply Z.ltb_lt; lia.
  - by rewrite P2, F1.
Qed.

(** Pruning an epoch is all or nothing and keeps the tail.  [seal_and_prune_epoch]
    either fails with rows and frontier as they were, or has durably deleted
    exactly the rows up to the sealed one, kept every later row, appended the two
    provenance receipts after them, and left a chain that verifies from the seal
    and ends in the frontier, so that writes extend it. *)
Theorem prune_atomic seal intent description s res s' : idle s -> ids_bounded (view s) ->
  seal_and_prune_epoch seal intent description s = (res, s') ->
  match res with
  | Err _ => view s' = view s /\ durable (s_conn s') = durable (s_conn s) /\ front s' = front s
  | Ok _ => exists b r1 r2, In b (rows (view s)) /\ h_r b = seal /\
      rows (view s') = List.filter (fun r => rid b <? rid r) (rows (view s)) ++ [r1; r2] /\
      parent_h_r r1 = prior_h_r (front s) /\ parent_h_r r2 = h_r r1 /\
      stream_hash (view s') = h_r r2 /\ chained seal s' /\
      durable (s_conn s') = view s' /\ idle s'
  end.
Proof.
  intros Hi Hids H. unfold seal_and_prune_epoch in H.
  destruct (negb (blank_intent intent)); [|by apply pair_ok in H as [<- <-]].
  unfold sbind at 1, live in H.
  destruct (all_receipts (view s)) as [rs|e] eqn:Hrs; [|by apply pair_ok in H as [<- <-]].
  destruct (find _ rs) as [b|] eqn:Hf; [|by apply pair_ok in H as [<- <-]].
  destruct (_verify_segment _ seal); [|by apply pair_ok in H as [<- <-]].
  apply find_some in Hf as [Hin Hseal]. apply str_eqb_spec in Hseal.
  destruct (in_all_receipts _ _ _ Hrs Hin) as (b0 & Hb0 & Hl & Hid).
  apply links_eq in Hl as [Hlr _]. replace (rid b) with (rid b0) in H by (unfold rid; by rewrite Hid).
  unfold sbind in H.
  destruct (transaction valid _ s) as [[[tb ta]|e] s1] eqn:Ht;
    apply transaction_cases in Ht as (Hd & _ & Ht); try done; try apply kept_prune.
  2:{ apply pair_ok in H as [<- <-]. by destruct Ht as (-> & -> & ->). }
  apply pair_ok in H as [<- <-].
  destruct Ht as (_ & Htx & Hdur & _ & s2 & s3 & H1 & H2 & _ & _ & Hb & H3 & H4).
  apply prune_body_spec in Hb as (r1 & r2 & R1 & R2 & R3 & R4 & Rne & R5).
  2:{ rewrite H1. unfold ids_bounded in Hids. rewrite Forall_forall in Hids. apply Hids. by apply list_elem_of_In. }
  rewrite H1 in R1. rewrite H2 in R2. exists b0, r1, r2.
  unfold verify_from_seal in R5. apply rbind_ok in R5 as (rs3 & Hrs3 & R5). apply Ok_inj in R5.
  apply all_receipts_links in Hrs3 as [Hl3 _]. rewrite (verify_segment_links _ _ _ Hl3) in R5.
  assert (Hlast : last (rows (view s3)) = Some r2).
  { rewrite R1. change [r1; r2] with ([r1] ++ [r2]). by rewrite app_assoc, last_snoc. }
  split_and!; try done; [congruence|by rewrite H3| | |].
  - rewrite H3. unfold stream_hash, tip_of, last_row, nonempty. rewrite Hlast.
    destruct (str_eqb (h_r r2) "") eqn:Ez; [by apply str_eqb_spec in Ez|done].
  - split; [by rewrite H3|]. unfold segment_end. by rewrite H3, H4, Hlast, R4.
  - split; [by rewrite <- (idle_depth _ Hi), <- Hd|done|done].
Qed.
End prune.

(** * Examples *)

Lemma demo_store1_idle : idle demo_store1.
Proof. split; vm_compute; reflexivity. Qed.

(** Two writes in one transaction whose commit fails: neither is left. *)
Definition two_writes : M store Receipt :=
  let! _ := demo_write demo_args in demo_write demo_args.
Lemma transaction_atomic_witness :
  let s := set_conn (Conn (view demo_store1) (view demo_store1) false [] [Some "disk full"] [] false) demo_store1 in
  exists s', transaction valid two_writes s = (Err TransactionCommitError, s') /\
    view s' = view s /\ front s' = front s.
Proof.
  intros s. destruct (transaction valid two_writes s) as [res s'] eqn:H.
  assert (Hr : res = Err TransactionCommitError).
  { apply (f_equal fst) in H. vm_compute in H. symmetry. exact H. }
  subst res. exists s'. split; [reflexivity|].
  apply (transaction_atomic valid two_writes s (Err TransactionCommitError) s').
  - apply kept_bind; [apply kept_write|intros _; apply kept_write].
  - split; vm_compute; reflexivity.
  - exact H.
Defined.

Definition demo_migrate := @migrate_schema nfc_id ed_demo demo_engine.
Lemma migrate_schema_atomic_witness :
  exists v s', demo_migrate (PStr "CREATE TABLE t (x TEXT)") "add a table" "" demo_store1
               = (Ok v, s') /\
    compute_schema_hash (tables (view s')) = Ok (schema_hash (front s')).
Proof.
  destruct (demo_migrate (PStr "CREATE TABLE t (x TEXT)") "add a table" "" demo_store1)
    as [[v|e] s'] eqn:H; [|vm_compute in H; discriminate H].
  exists v, s'. split; [reflexivity|].
  apply (@migrate_schema_atomic nfc_id ed_demo demo_engine _ _ _ _ _ _ demo_store1_idle H).
Defined.

Definition demo_prune := @seal_and_prune_epoch nfc_id ed_demo demo_engine.
Lemma prune_atomic_witness :
  exists v s', demo_prune (stream_hash (view demo_store1)) "close" "first epoch" demo_store1
               = (Ok v, s') /\
    chained (stream_hash (view demo_store1)) s'.
Proof.
  destruct (demo_prune (stream_hash (view demo_store1)) "close" "first epoch" demo_store1)
    as [[v|e] s'] eqn:H; [|vm_compute in H; discriminate H].
  exists v, s'. split; [reflexivity|].
  assert (Hids : ids_bounded (view demo_store1)).
  { vm_compute. repeat constructor. discriminate. }
  destruct (@prune_atomic nfc_id ed_demo demo_engine _ _ _ _ _ _ demo_store1_idle Hids H)
    as (b & r1 & r2 & _ & _ & _ & _ & _ & _ & Hc & _).
  exact Hc.
Defined.

(** Sealing an archive row commits at any depth: inside a transaction it ends the
    transaction, and the RELEASE then fails. *)
Lemma seal_inside_transaction :
  let body := let! _ := seal_legend {| lr_hash := "h"; entries_json := "[]"; phase_code := "";
                                       entry_count := 0; sealed_at := "" |} in
              demo_write demo_args in
  let '(x, s') := transaction valid body demo_store1 in
  x = Err TransactionCommitError /\
  map lr_hash (legend_archive (durable (s_conn s'))) = ["h"] /\
  length (rows (view s')) = 2%nat /\ in_txn (s_conn s') = true.
Proof. vm_compute. repeat split. Qed.

(** A write whose cell cannot be bound leaves the implicit transaction open: the
    next governed transaction returns without its row being durable. *)
Lemma unbindable_cell_defers_commit :
  let bad := plain_write "publish" "operator"
    (PDict [("effect_atomicity", PStr "pure"); ("idempotency_key", PList [])]) None in
  let '(x1, s1) := demo_write bad demo_store1 in
  let '(x2, s2) := transaction valid (demo_write demo_args) s1 in
  is_ok x1 = false /\ is_ok x2 = true /\
  length (rows (view s2)) = 2%nat /\ length (rows (durable (s_conn s2))) = 1%nat.
Proof. vm_compute. repeat split. Qed.

(** The lexical check takes a unique index on the receipts table for safe. *)
Example unique_index_accepted :
  validate_migration_statement (PStr "CREATE UNIQUE INDEX u ON receipts(op)") = None.
Proof. vm_compute. reflexivity. Qed.
