(* ===== verification/Will.v ===== *)
(** Intent declarations and their coverage ([ugk/intent.py], [ugk/will.py]): the
    content-addressed declarations and revocations, the store that keeps them,
    and the fixpoint that decides which operations they cover. *)
From S2P Require Import Prelude Json Sha256 Binding Sqlite.

(** ** Declarations and revocations *)

Definition WL_001 := "WL-001".
Definition WL_002 := "WL-002".
Definition WL_003 := "WL-003".
Definition WL_004 := "WL-004".
Definition WL_005 := "WL-005".

Record IntentDeclaration := {
  declaration_hash : string;
  declared_ops : list string;
  d_scope_type : string;
  d_scope_ref : string;
  d_authority : string;
  d_timestamp : string;
}.

Definition declaration_body (ops : list string) (scope_type scope_ref authority timestamp : string) :
    pyval := PDict
  [("authority", PStr authority); ("declared_ops", PList (map PStr ops));
   ("scope_ref", PStr scope_ref); ("scope_type", PStr scope_type);
   ("timestamp", PStr timestamp)].

(** [timestamp or time.strftime(...)] *)
Definition stamp (now : string) (timestamp : option string) : string :=
  match timestamp with Some t => if str_eqb t "" then now else t | None => now end.

(** [IntentDeclaration.create]; [now] is the clock, read when no timestamp is given. *)
Definition declaration_create (now : string) (ops : list string)
    (authority scope_type scope_ref : string) (timestamp : option string) :
    result exn IntentDeclaration :=
  let ts := stamp now timestamp in
  let ops := sorted_str (remove_dups ops) in
  let* b := Binding.canonical_json (declaration_body ops scope_type scope_ref authority ts) in
  Ok {| declaration_hash := sha256_hex b; declared_ops := ops; d_scope_type := scope_type;
        d_scope_ref := scope_ref; d_authority := authority; d_timestamp := ts |}.

Definition declaration_verify_hash (d : IntentDeclaration) : result exn bool :=
  let* b := Binding.canonical_json (declaration_body (declared_ops d) (d_scope_type d)
              (d_scope_ref d) (d_authority d) (d_timestamp d)) in
  Ok (str_eqb (sha256_hex b) (declaration_hash d)).

Definition covers_op (d : IntentDeclaration) (o : string) : bool := mem_str o (declared_ops d).

Record IntentRevocation := {
  revocation_hash : string;
  revoked_declaration_hash : string;
  r_authority : string;
  r_timestamp : string;
}.

Definition revocation_create (now h authority : string) (timestamp : option string) :
    result exn IntentRevocation :=
  let ts := stamp now timestamp in
  let* b := Binding.canonical_json (PDict
    [("authority", PStr authority); ("revoked_declaration_hash", PStr h);
     ("timestamp", PStr ts)]) in
  Ok {| revocation_hash := sha256_hex b; revoked_declaration_hash := h;
        r_authority := authority; r_timestamp := ts |}.

(** ** The store *)

(** A row of [intent_declarations]; [row_ops] is the column [declared_ops_json]. *)
Record intent_row := {
  row_hash : string;
  row_ops : string;
  row_scope_type : string;
  row_scope_ref : string;
  row_authority : string;
  row_timestamp : string;
  revoked : bool;
}.
Record intent_db := { intents : list intent_row; revocations : list IntentRevocation }.

Definition IntentStore : Type := conn intent_db.
(** [IntentStore(db_path)] on a new database. *)
Definition intent_store_new : IntentStore := open_conn {| intents := []; revocations := [] |}.

(** [try: ... except Exception: pass] *)
Definition try_pass {S} (m : M S unit) : M S unit := fun s => (Ok tt, snd (m s)).

Definition find_intent (h : string) (l : list intent_row) : option intent_row :=
  find (fun r => str_eqb (row_hash r) h) l.

(** INSERT OR IGNORE INTO intent_declarations *)
Definition insert_intent (d : IntentDeclaration) (ops_json : string) (db : intent_db) : intent_db :=
  match find_intent (declaration_hash d) (intents db) with
  | Some _ => db
  | None =>
      {| intents := intents db ++
           [{| row_hash := declaration_hash d; row_ops := ops_json;
               row_scope_type := d_scope_type d; row_scope_ref := d_scope_ref d;
               row_authority := d_authority d; row_timestamp := d_timestamp d;
               revoked := false |}];
         revocations := revocations db |}
  end.

Definition declare (d : IntentDeclaration) : M IntentStore unit :=
  let! ops_json := slift (json_dumps style_compact_ascii (PList (map PStr (declared_ops d)))) in
  try_pass (let! _ := dml (fun db => Ok (insert_intent d ops_json db)) in commit).

(** INSERT OR IGNORE INTO intent_revocations *)
Definition insert_revocation (r : IntentRevocation) (db : intent_db) : intent_db :=
  if existsb (fun x => str_eqb (revocation_hash x) (revocation_hash r)) (revocations db) then db
  else {| intents := intents db; revocations := revocations db ++ [r] |}.

(** UPDATE intent_declarations SET revoked=1 WHERE declaration_hash=? *)
Definition mark_revoked (h : string) (db : intent_db) : intent_db :=
  {| intents := map (fun r => if str_eqb (row_hash r) h then
       {| row_hash := row_hash r; row_ops := row_ops r; row_scope_type := row_scope_type r;
          row_scope_ref := row_scope_ref r; row_authority := row_authority r;
          row_timestamp := row_timestamp r; revoked := true |} else r) (intents db);
     revocations := revocations db |}.

Definition revoke (r : IntentRevocation) : M IntentStore unit :=
  try_pass (let! _ := dml (fun db => Ok (insert_revocation r db)) in
            let! _ := dml (fun db => Ok (mark_revoked (revoked_declaration_hash r) db)) in
            commit).

(** [tuple(sorted(json.loads(ops_json)))], on a list of strings. *)
Definition strings_of (v : pyval) : option (list string) :=
  match v with
  | PList l => foldr (fun x acc => match x, acc with
                                   | PStr s, Some l => Some (s :: l) | _, _ => None end)
                     (Some []) l
  | _ => None
  end.
Definition _row_to_declaration (r : intent_row) : result exn IntentDeclaration :=
  match json_loads (row_ops r) with
  | None => Err (Exn ValueError "JSONDecodeError")
  | Some v =>
      match strings_of v with
      | None => Err (Exn TypeError "declared_ops")
      | Some ops =>
          Ok {| declaration_hash := row_hash r; declared_ops := sorted_str ops;
                d_scope_type := row_scope_type r; d_scope_ref := row_scope_ref r;
                d_authority := row_authority r; d_timestamp := row_timestamp r |}
      end
  end.

Definition intent_get (s : IntentStore) (h : string) : result exn (option IntentDeclaration) :=
  match find_intent h (intents (current s)) with
  | Some r => rmap Some (_row_to_declaration r)
  | None => Ok None
  end.

Definition is_revoked (s : IntentStore) (h : string) : bool :=
  match find_intent h (intents (current s)) with Some r => revoked r | None => false end.

Definition active_row (scope_ref : string) (r : intent_row) : bool :=
  negb (revoked r) && (str_eqb (row_scope_ref r) "" || str_eqb (row_scope_ref r) scope_ref).

(** The unrevoked declarations of open scope or of this one, in insertion order. *)
Definition active_declarations (s : IntentStore) (scope_ref : string) :
    result exn (list IntentDeclaration) :=
  sequence (map _row_to_declaration (List.filter (active_row scope_ref) (intents (current s)))).

Definition all_declarations (s : IntentStore) : result exn (list IntentDeclaration) :=
  sequence (map _row_to_declaration (intents (current s))).

(** ** Coverage *)

Definition COVERED := "COVERED".
Definition OUTSIDE := "OUTSIDE".

Record CoverageOutcome := {
  co_status : string;
  refusal_code : option string;
  co_intent_ref : option string;
}.

(** [production_edges]: an operation and the operations it produces. *)
Definition edges := gmap string (gset string).

(** The products of the covered operations. *)
Definition products (es : edges) (covered : gset string) : gset string :=
  map_fold (fun src targets new => if decide (src ∈ covered) then new ∪ targets else new) ∅ es.

(** All products there are: what bounds the number of rounds. *)
Definition all_products (es : edges) : gset string :=
  map_fold (fun _ targets new => new ∪ targets) ∅ es.

Fixpoint closure_loop (fuel : nat) (es : edges) (depth : option Z) (steps : Z)
    (covered : gset string) : option (gset string) :=
  if match depth with None => true | Some d => steps <? d end then
    match fuel with
    | O => None
    | S fuel =>
        let new := products es covered ∖ covered in
        if decide (new = ∅) then Some covered
        else closure_loop fuel es depth (steps + 1) (covered ∪ new)
    end
  else Some covered.

Definition _closure (seed : gset string) (es : edges) (depth : option Z) : gset string :=
  match closure_loop (S (size (all_products es))) es depth 0 seed with
  | Some covered => covered
  | None => seed
  end.

Definition ops_set (d : IntentDeclaration) : gset string := list_to_set (declared_ops d).

(** [sorted(declarations, key=lambda d: len(d.declared_ops))], stable. *)
Fixpoint insert_len (d : IntentDeclaration) (l : list IntentDeclaration) : list IntentDeclaration :=
  match l with
  | [] => [d]
  | x :: l' => if (length (declared_ops d) <=? length (declared_ops x))%nat then d :: l
               else x :: insert_len d l'
  end.
Definition by_length (l : list IntentDeclaration) : list IntentDeclaration :=
  foldr insert_len [] l.

Definition _find_cover (o : string) (ds : list IntentDeclaration) (es : edges) (depth : option Z) :
    string :=
  match find (fun d => covers_op d o) (by_length ds) with
  | Some d => declaration_hash d
  | None =>
      match find (fun d => bool_decide (o ∈ _closure (ops_set d) es depth)) (by_length ds) with
      | Some d => declaration_hash d
      | None => ""
      end
  end.

Definition seed_of (ds : list IntentDeclaration) : gset string :=
  foldr (fun d acc => ops_set d ∪ acc) ∅ ds.

Definition covers (o : string) (ds : list IntentDeclaration) (es : edges) (depth : option Z) :
    CoverageOutcome :=
  let outside code := {| co_status := OUTSIDE; refusal_code := Some code; co_intent_ref := None |} in
  let seed := seed_of ds in
  if decide (seed = ∅) then outside WL_005
  else if decide (o ∈ _closure seed es depth) then
    {| co_status := COVERED; refusal_code := None;
       co_intent_ref := Some (_find_cover o ds es depth) |}
  else outside WL_001.

(** * The fixpoint *)

(** What is produced from a seed in at most [n] rounds. *)
Inductive produced (es : edges) (seed : gset string) : nat -> string -> Prop :=
| produced_seed n o : o ∈ seed -> produced es seed n o
| produced_edge n src targets o : produced es seed n src -> es !! src = Some targets ->
    o ∈ targets -> produced es seed (S n) o.

(** In the closure of the given depth. *)
Definition intended (es : edges) (depth : option Z) (seed : gset string) (o : string) : Prop :=
  exists n, produced es seed n o /\
    match depth with None => True | Some d => Z.of_nat n <= Z.max 0 d end.

Lemma products_spec es covered o : o ∈ products es covered <->
  exists src targets, es !! src = Some targets /\ src ∈ covered /\ o ∈ targets.
Proof.
  unfold products. apply (map_fold_weak_ind (fun new m => o ∈ new <->
    exists src targets, m !! src = Some targets /\ src ∈ covered /\ o ∈ targets)).
  - split; [set_solver|]. intros (src & ts & H & _). by rewrite lookup_empty in H.
  - intros src ts m new Hm IH. destruct (decide (src ∈ covered)) as [Hs|Hs].
    + rewrite elem_of_union, IH. split.
      * intros [(s & t & Hst & Hsc & Ho)|Ho]; [|exists src, ts; by rewrite lookup_insert_eq].
        exists s, t. rewrite lookup_insert_ne; [done|]. by intros ->; rewrite Hm in Hst.
      * intros (s & t & [[<- <-]|[Hne Hst]]%lookup_insert_Some & Hsc & Ho); [by right|].
        left. by exists s, t.
    + rewrite IH. split.
      * intros (s & t & Hst & Hsc & Ho). exists s, t. rewrite lookup_insert_ne; [done|].
        by intros ->; rewrite Hm in Hst.
      * intros (s & t & [[<- <-]|[Hne Hst]]%lookup_insert_Some & Hsc & Ho); [done|].
        by exists s, t.
Qed.

Lemma all_products_spec es o : o ∈ all_products es <->
  exists src targets, es !! src = Some targets /\ o ∈ targets.
Proof.
  unfold all_products. apply (map_fold_weak_ind (fun new m => o ∈ new <->
    exists src targets, m !! src = Some targets /\ o ∈ targets)).
  - split; [set_solver|]. intros (src & ts & H & _). by rewrite lookup_empty in H.
  - intros src ts m new Hm IH. rewrite elem_of_union, IH. split.
    + intros [(s & t & Hst & Ho)|Ho]; [|exists src, ts; by rewrite lookup_insert_eq].
      exists s, t. rewrite lookup_insert_ne; [done|]. by intros ->; rewrite Hm in Hst.
    + intros (s & t & [[<- <-]|[Hne Hst]]%lookup_insert_Some & Ho); [by right|].
      left. by exists s, t.
Qed.

Lemma products_bounded es covered : products es covered ⊆ all_products es.
Proof.
  intros o (src & ts & H & _ & Ho)%products_spec. apply all_products_spec. by exists src, ts.
Qed.

Lemma produced_le es seed n m o : (n <= m)%nat -> produced es seed n o -> produced es seed m o.
Proof.
  intros Hle H. revert m Hle. induction H as [n o Ho|n src ts o H IH Hs Ho]; intros m Hle.
  - by constructor.
  - destruct m as [|m]; [lia|]. apply (produced_edge _ _ m src ts); [apply IH; lia|done|done].
Qed.

(** One more round of the loop is one more round of production. *)
Lemma produced_step es seed k covered : (forall o, o ∈ covered <-> produced es seed k o) ->
  forall o, o ∈ covered ∪ products es covered <-> produced es seed (S k) o.
Proof.
  intros Hc o. rewrite elem_of_union, products_spec, Hc. split.
  - intros [H|(src & ts & Hs & Hsc & Ho)]; [by apply (produced_le es seed k); [lia|]|].
    apply (produced_edge _ _ k src ts); [by apply Hc|done|done].
  - inversion 1 as [? ? Ho|? src ts ? Hp Hs Ho]; subst; [left; by constructor|].
    right. exists src, ts. by rewrite Hc.
Qed.

Lemma produced_stable es seed k covered : (forall o, o ∈ covered <-> produced es seed k o) ->
  products es covered ⊆ covered -> forall n o, produced es seed n o -> o ∈ covered.
Proof.
  intros Hc Hs n o H. induction H as [n o Ho|n src ts o H IH Hl Ho].
  - apply Hc. by constructor.
  - apply Hs, products_spec. by exists src, ts.
Qed.

Lemma union_difference_new (covered new : gset string) :
  covered ∪ new ∖ covered = covered ∪ new.
Proof. apply set_eq. intros o. destruct (decide (o ∈ covered)); set_solver. Qed.

Lemma closure_loop_spec fuel es depth seed k covered :
  (size (all_products es ∖ covered) < fuel)%nat ->
  (forall o, o ∈ covered <-> produced es seed k o) ->
  match depth with None => True | Some d => Z.of_nat k <= Z.max 0 d end ->
  exists r, closure_loop fuel es depth (Z.of_nat k) covered = Some r /\
    forall o, o ∈ r <-> intended es depth seed o.
Proof.
  revert k covered. induction fuel as [|fuel IH]; intros k covered Hf Hc Hd; [lia|].
  cbn [closure_loop].
  destruct (match depth with None => true | Some d => Z.of_nat k <? d end) eqn:Hgo.
  - set (new := products es covered ∖ covered). destruct (decide (new = ∅)) as [He|He].
    + exists covered. split; [done|]. intros o. split.
      * intros Ho. exists k. split; [by apply Hc|done].
      * intros (n & Hp & _). apply (produced_stable es seed k covered Hc) with n; [|done].
        unfold new in He. intros x Hx. destruct (decide (x ∈ covered)); set_solver.
    + replace (Z.of_nat k + 1) with (Z.of_nat (S k)) by lia. apply IH.
      * assert (size (all_products es ∖ (covered ∪ new)) < size (all_products es ∖ covered))%nat.
        { apply subset_size. split; [set_solver|]. intros Hsub. apply set_choose_L in He as [x Hx].
          pose proof (products_bounded es covered x) as Hb. unfold new in *. set_solver. }
        lia.
      * unfold new. rewrite union_difference_new. by apply produced_step.
      * destruct depth as [d|]; [|done]. apply Z.ltb_lt in Hgo. lia.
  - destruct depth as [d|]; [|done]. apply Z.ltb_ge in Hgo. exists covered. split; [done|].
    intros o. rewrite Hc. split; [intros Hp; by exists k|].
    intros (n & Hp & Hn). apply (produced_le es seed n); [lia|done].
Qed.

Lemma closure_runs es depth seed : exists r,
  closure_loop (S (size (all_products es))) es depth 0 seed = Some r /\
  _closure seed es depth = r /\ forall o, o ∈ r <-> intended es depth seed o.
Proof.
  destruct (closure_loop_spec (S (size (all_products es))) es depth seed 0 seed)
    as (r & Hr & Hspec).
  - assert (size (all_products es ∖ seed) <= size (all_products es))%nat; [|lia].
    apply subseteq_size. set_solver.
  - intros o. split; [by constructor|]. by inversion 1.
  - destruct depth; [lia|done].
  - change (Z.of_nat 0) with 0 in Hr. exists r. split; [done|]. unfold _closure. by rewrite Hr.
Qed.

Lemma elem_of_closure es depth seed o : o ∈ _closure seed es depth <-> intended es depth seed o.
Proof. destruct (closure_runs es depth seed) as (r & _ & -> & H). apply H. Qed.

(** C31: the intent closure terminates and is the least fixpoint.  With as many
    rounds as there are products (and one more to see that nothing is new) the
    loop always stops; an operation is in its result exactly when a chain of
    production edges leads to it from the declared operations, of at most the
    given depth when one is given. *)
Theorem closure_terminates es depth seed : exists r,
  closure_loop (S (size (all_products es))) es depth 0 seed = Some r /\
  _closure seed es depth = r /\ forall o, o ∈ r <-> intended es depth seed o.
Proof. apply closure_runs. Qed.

(** * Coverage *)

Lemma insert_len_perm d l : Permutation (insert_len d l) (d :: l).
Proof.
  induction l as [|x l IH]; simpl; [done|]. destruct (_ <=? _)%nat; [done|].
  rewrite IH. apply perm_swap.
Qed.
Lemma by_length_perm l : Permutation (by_length l) l.
Proof. induction l as [|d l IH]; simpl; [done|]. by rewrite insert_len_perm, IH. Qed.
Lemma elem_of_by_length d l : d ∈ by_length l <-> d ∈ l.
Proof. by rewrite by_length_perm. Qed.

Lemma elem_of_seed o ds : o ∈ seed_of ds <-> exists d, d ∈ ds /\ o ∈ ops_set d.
Proof.
  induction ds as [|d ds IH]; simpl.
  - split; [set_solver|]. intros (d & Hd & _). by apply elem_of_nil in Hd.
  - rewrite elem_of_union, IH. split.
    + intros [H|(x & Hx & H)]; [exists d|exists x]; by rewrite elem_of_cons; auto.
    + intros (x & [->|Hx]%elem_of_cons & H); [by left|right]. by exists x.
Qed.

(** A production chain starts in one declaration. *)
Lemma intended_seed es depth ds o : intended es depth (seed_of ds) o <->
  exists d, d ∈ ds /\ intended es depth (ops_set d) o.
Proof.
  split.
  - intros (n & Hp & Hn). assert (exists d, d ∈ ds /\ produced es (ops_set d) n o) as (d & Hd & H).
    { clear Hn. induction Hp as [n o (d & Hd & Ho)%elem_of_seed|n src ts o H (d & Hd & IH) Hs Ho].
      - exists d. split; [done|]. by constructor.
      - exists d. split; [done|]. by apply (produced_edge _ _ n src ts). }
    exists d. split; [done|]. by exists n.
  - intros (d & Hd & n & Hp & Hn). exists n. split; [|done]. clear Hn.
    induction Hp as [n o Ho|n src ts o H IH Hs Ho].
    + constructor. apply elem_of_seed. by exists d.
    + by apply (produced_edge _ _ n src ts).
Qed.

Lemma find_cover_spec o ds es depth d0 : d0 ∈ ds -> intended es depth (ops_set d0) o ->
  exists d, d ∈ ds /\ intended es depth (ops_set d) o /\
    _find_cover o ds es depth = declaration_hash d.
Proof.
  intros Hd0 H0. unfold _find_cover.
  destruct (find (fun d => covers_op d o) (by_length ds)) as [d|] eqn:Hf.
  - apply find_some in Hf as [Hin Hc]. exists d.
    apply list_elem_of_In, (proj1 (elem_of_by_length _ _)) in Hin. split; [done|]. split; [|done].
    exists 0%nat. split; [constructor|destruct depth; [lia|done]].
    apply elem_of_list_to_set. by apply mem_str_spec.
  - destruct (find (fun d => bool_decide (o ∈ _closure (ops_set d) es depth)) (by_length ds))
      as [d|] eqn:Hg.
    + apply find_some in Hg as [Hin Hc%bool_decide_eq_true]. exists d.
      apply list_elem_of_In, (proj1 (elem_of_by_length _ _)) in Hin. by rewrite <- elem_of_closure.
    + exfalso. assert (Hin : In d0 (by_length ds)).
      { by apply list_elem_of_In, (proj2 (elem_of_by_length _ _)). }
      apply (find_none _ _ Hg d0), bool_decide_eq_false in Hin.
      by apply Hin, elem_of_closure.
Qed.

(** C30: coverage is decided by intent alone.  An operation is COVERED exactly when
    a chain of production edges (of at most the given depth) leads to it from the
    operations of some active declaration, and the reference it is given is the
    hash of a declaration that intends it; with no declared operation at all the
    refusal is WL-005, and WL-001 when there are some but none leads to it. *)
Theorem covers_spec o ds es depth :
  match co_status (covers o ds es depth), refusal_code (covers o ds es depth),
        co_intent_ref (covers o ds es depth) with
  | s, None, Some h => s = COVERED /\
      exists d, d ∈ ds /\ declaration_hash d = h /\ intended es depth (ops_set d) o
  | s, Some code, None => s = OUTSIDE /\
      (forall d, d ∈ ds -> ~ intended es depth (ops_set d) o) /\
      (code = WL_005 /\ (forall d, d ∈ ds -> declared_ops d = []) \/
       code = WL_001 /\ exists d, d ∈ ds /\ declared_ops d <> [])
  | _, _, _ => False
  end.
Proof.
  unfold covers. cbv zeta. destruct (decide (seed_of ds = ∅)) as [He|He]; cbn.
  - split; [done|]. assert (Hnil : forall d, d ∈ ds -> declared_ops d = []).
    { intros d Hd. destruct (declared_ops d) as [|x l] eqn:Hops; [done|].
      assert (x ∈ seed_of ds) as Hx by (apply elem_of_seed; exists d; unfold ops_set;
        rewrite Hops; set_solver). by rewrite He in Hx; apply elem_of_empty in Hx. }
    split; [|by left]. intros d Hd (n & Hp & _). apply Hnil in Hd.
    induction Hp as [n o Ho|]; [|done]. unfold ops_set in Ho. by rewrite Hd in Ho.
  - assert (Hsome : exists d, d ∈ ds /\ declared_ops d <> []).
    { apply set_choose_L in He as (x & (d & Hd & Hx)%elem_of_seed). exists d. split; [done|].
      intros Hn. unfold ops_set in Hx. by rewrite Hn in Hx. }
    destruct (decide (o ∈ _closure (seed_of ds) es depth)) as [Ho|Ho]; cbn.
    + split; [done|]. apply elem_of_closure, intended_seed in Ho as (d & Hd & Hi).
      destruct (find_cover_spec o ds es depth d Hd Hi) as (d' & H1 & H2 & H3).
      by exists d'.
    + split; [done|]. split; [|by right]. intros d Hd Hi. apply Ho.
      apply elem_of_closure, intended_seed. by exists d.
Qed.

(** * The intent store *)

Lemma find_intent_row h l r : find_intent h l = Some r -> r ∈ l /\ row_hash r = h.
Proof.
  intros H. apply find_some in H as [Hin Hh]. apply str_eqb_spec in Hh.
  by apply list_elem_of_In in Hin.
Qed.
Lemma find_intent_app h l k : find_intent h (l ++ k) =
  match find_intent h l with Some r => Some r | None => find_intent h k end.
Proof. unfold find_intent. induction l as [|x l IH]; simpl; [done|]. by destruct (str_eqb _ _). Qed.
Lemma find_intent_unique h l r : NoDup (map row_hash l) -> r ∈ l -> row_hash r = h ->
  find_intent h l = Some r.
Proof.
  unfold find_intent. induction l as [|x l IH]; simpl; [intros _ H; by apply elem_of_nil in H|].
  intros [Hx Hnd]%NoDup_cons [->|Hin]%elem_of_cons <-; [by rewrite str_eqb_refl|].
  destruct (str_eqb (row_hash x) (row_hash r)) eqn:He; [|by apply IH].
  apply str_eqb_spec in He. exfalso. apply Hx. rewrite He.
  by apply (list_elem_of_fmap_2 row_hash).
Qed.

#[local] Arguments find_intent : simpl never.

(** The primary key. *)
Definition intent_wf (db : intent_db) : Prop := NoDup (map row_hash (intents db)).

(** What a change of the contents may do to the rows: each is kept, and stays
    revoked when it was; the key stays a key. *)
Record intent_ext (db db' : intent_db) : Prop := {
  ie_wf : intent_wf db -> intent_wf db';
  ie_revoked : forall h r, find_intent h (intents db) = Some r -> revoked r = true ->
    exists r', find_intent h (intents db') = Some r' /\ revoked r' = true;
}.
#[export] Instance intent_ext_refl : Reflexive intent_ext.
Proof. intros db. split; [done|]. by eauto. Qed.
#[export] Instance intent_ext_trans : Transitive intent_ext.
Proof.
  intros a b c [H1 H2] [H3 H4]. split; [auto|]. intros h r Hf Hr.
  destruct (H2 h r Hf Hr) as (r' & H5 & H6). by apply (H4 h r').
Qed.

Lemma insert_intent_ext d j db : intent_ext db (insert_intent d j db).
Proof.
  unfold insert_intent. destruct (find_intent _ _) as [x|] eqn:Hf; [reflexivity|].
  split; unfold intent_wf; cbn.
  - rewrite map_app. intros H. apply NoDup_app. split; [done|]. split; [|by apply NoDup_singleton].
    intros h Hh [->|He]%elem_of_cons; [|by apply elem_of_nil in He].
    apply (list_elem_of_fmap_1 row_hash) in Hh as (x & Hx & Hin).
    apply list_elem_of_In in Hin. apply (find_none _ _ Hf) in Hin. cbn in Hx.
    by rewrite Hx, str_eqb_refl in Hin.
  - intros h r Hr Hrev. exists r. by rewrite find_intent_app, Hr.
Qed.

Lemma insert_revocation_intents r db : intents (insert_revocation r db) = intents db.
Proof. unfold insert_revocation. by destruct (existsb _ _). Qed.
Lemma insert_revocation_ext r db : intent_ext db (insert_revocation r db).
Proof. split; unfold intent_wf; rewrite insert_revocation_intents; [done|by eauto]. Qed.

Lemma find_mark_revoked h k db : find_intent h (intents (mark_revoked k db)) =
  option_map (fun r => if str_eqb (row_hash r) k then
    {| row_hash := row_hash r; row_ops := row_ops r; row_scope_type := row_scope_type r;
       row_scope_ref := row_scope_ref r; row_authority := row_authority r;
       row_timestamp := row_timestamp r; revoked := true |} else r) (find_intent h (intents db)).
Proof.
  unfold find_intent. cbn. induction (intents db) as [|x l IH]; cbn; [done|].
  destruct (str_eqb (row_hash x) k) eqn:Hk; cbn; destruct (str_eqb (row_hash x) h); cbn;
    by rewrite ?Hk.
Qed.
Lemma mark_revoked_ext k db : intent_ext db (mark_revoked k db).
Proof.
  split.
  - unfold intent_wf. cbn. rewrite map_map. intros H.
    rewrite (map_ext _ row_hash); [done|]. intros r. by destruct (str_eqb _ _).
  - intros h r Hf Hr. rewrite find_mark_revoked, Hf. cbn. eexists. split; [done|].
    by destruct (str_eqb _ _).
Qed.

(** A data change of the store, whether it goes through or not. *)
Lemma dml_ext f (s : IntentStore) : (forall db db', f db = Ok db' -> intent_ext db db') ->
  intent_ext (current s) (current (snd (dml f s))).
Proof.
  intros Hf. unfold dml. destruct (ro s); [reflexivity|]. cbv zeta.
  destruct (f (current s)) as [db'|e] eqn:H; [|reflexivity].
  destruct (busy s) as [|[] bs]; cbn; try reflexivity; by apply Hf.
Qed.
Lemma commit_ext (s : IntentStore) : current (snd (commit s)) = current s.
Proof.
  unfold commit, commit_now. destruct (in_txn s); [|done].
  by destruct (faults s) as [|[m|] fs].
Qed.

(** The steps of a store: declarations and revocations, each whether or not its
    statements go through. *)
Inductive intent_step : IntentStore -> IntentStore -> Prop :=
| step_declare d s : intent_step s (snd (declare d s))
| step_revoke r s : intent_step s (snd (revoke r s)).

Ltac split_bind := unfold try_pass, sbind, slift; cbn [snd].

Lemma intent_step_ext s s' : intent_step s s' -> intent_ext (current s) (current s').
Proof.
  intros [d s0|r s0].
  - unfold declare. split_bind. destruct (json_dumps _ _) as [j|]; [|reflexivity]. cbn [snd].
    pose proof (dml_ext (fun db => Ok (insert_intent d j db)) s0) as H.
    destruct (dml _ s0) as [[u|e] s1]; cbn [snd] in H |- *; rewrite ?commit_ext;
      apply H; intros db db' <-%Ok_inj; apply insert_intent_ext.
  - unfold revoke. split_bind.
    pose proof (dml_ext (fun db => Ok (insert_revocation r db)) s0) as H.
    destruct (dml _ s0) as [[u|e] s1]; cbn [snd] in H |- *;
      [|apply H; intros db db' <-%Ok_inj; apply insert_revocation_ext].
    transitivity (current s1); [apply H; intros db db' <-%Ok_inj; apply insert_revocation_ext|].
    pose proof (dml_ext (fun db => Ok (mark_revoked (revoked_declaration_hash r) db)) s1) as H1.
    destruct (dml _ s1) as [[u1|e] s2]; cbn [snd] in H1 |- *; rewrite ?commit_ext;
      apply H1; intros db db' <-%Ok_inj; apply mark_revoked_ext.
Qed.

Lemma intent_steps_ext s s' : rtc intent_step s s' -> intent_ext (current s) (current s').
Proof.
  induction 1 as [s|s1 s2 s3 H _ IH]; [reflexivity|].
  transitivity (current s2); [by apply intent_step_ext|done].
Qed.

Lemma row_to_declaration_hash r d : _row_to_declaration r = Ok d ->
  declaration_hash d = row_hash r.
Proof.
  unfold _row_to_declaration. destruct (json_loads _) as [v|]; [|done].
  destruct (strings_of v); [|done]. by intros <-%Ok_inj.
Qed.

Lemma sequence_image {E A B} (f : A -> result E B) l ys y : sequence (map f l) = Ok ys -> y ∈ ys ->
  exists x, x ∈ l /\ f x = Ok y.
Proof.
  revert ys. induction l as [|x l IH]; simpl; intros ys.
  - intros <-%Ok_inj H. by apply elem_of_nil in H.
  - intros (y0 & Hy0 & H)%rbind_ok Hin. apply rbind_ok in H as (ys' & Hys & H).
    apply Ok_inj in H. subst ys. apply elem_of_cons in Hin as [->|Hin].
    + exists x. split; [by left|done].
    + destruct (IH ys' Hys Hin) as (x' & Hx' & Hf). exists x'. split; [by right|done].
Qed.

(** A revocation is permanent.  Once a declaration of a store is revoked, no
    later sequence of declarations and revocations, including declaring the very
    same artifact again and statements that fail, makes it active again: it stays
    revoked, and no scope's active declarations contain it. *)
Theorem revocation_permanent h s s' : intent_wf (current s) -> is_revoked s h = true ->
  rtc intent_step s s' ->
  is_revoked s' h = true /\
  forall scope_ref ds, active_declarations s' scope_ref = Ok ds -> h ∉ map declaration_hash ds.
Proof.
  intros Hwf Hrev Hsteps. apply intent_steps_ext in Hsteps as [Hw Hr]. apply Hw in Hwf.
  unfold is_revoked in Hrev. destruct (find_intent h (intents (current s))) as [r|] eqn:Hf; [|done].
  destruct (Hr h r Hf Hrev) as (r' & Hf' & Hrev'). unfold is_revoked. rewrite Hf'.
  split; [done|]. intros sc ds Hds Hin.
  apply (list_elem_of_fmap_1 declaration_hash) in Hin as (d & -> & Hd).
  apply (sequence_image _ _ _ _ Hds) in Hd as (x & Hx & Hxd).
  apply list_elem_of_In, filter_In in Hx as [Hx Ha]. apply row_to_declaration_hash in Hxd.
  apply list_elem_of_In in Hx. pose proof (find_intent_unique _ _ _ Hwf Hx eq_refl) as Hu.
  rewrite <- Hxd, Hf' in Hu. apply Some_inj' in Hu. subst x.
  unfold active_row in Ha. by rewrite Hrev' in Ha.
Qed.

(** * Declaring *)

Lemma strings_of_map l : strings_of (PList (map PStr l)) = Some l.
Proof. simpl. induction l as [|x l IH]; simpl; [done|]. by rewrite IH. Qed.

Lemma json_strings_round_trip l t :
  json_dumps style_compact_ascii (PList (map PStr l)) = Ok t ->
  json_loads t = Some (PList (map PStr l)).
Proof.
  intros H. assert (pyval_ok (PList (map PStr l)) = true) as Hok by (clear; by induction l).
  rewrite (json_loads_dumps _ style_compact_ascii_wf _ _ Hok H). simpl. do 2 f_equal.
  rewrite map_map. by apply map_ext.
Qed.

Lemma sorted_str_sorted l : sorted_str (sorted_str l) = sorted_str l.
Proof. apply sort_by_idemp. Qed.

Lemma declared_sorted now ops a st sr ts d : declaration_create now ops a st sr ts = Ok d ->
  declared_ops d = sorted_str (remove_dups ops) /\ d_scope_ref d = sr /\
  declaration_verify_hash d = Ok true.
Proof.
  unfold declaration_create. intros (b & Hb & H)%rbind_ok. apply Ok_inj in H. subst d.
  split; [done|]. split; [done|]. unfold declaration_verify_hash.
  cbn [declared_ops d_scope_type d_scope_ref d_authority d_timestamp declaration_hash].
  rewrite Hb. cbn [rbind].
  by rewrite str_eqb_refl.
Qed.

Lemma sequence_last {E A} (l : list (result E A)) x ys : sequence (l ++ [Ok x]) = Ok ys -> x ∈ ys.
Proof.
  revert ys. induction l as [|y l IH]; simpl; intros ys H; [apply Ok_inj in H; subst; by left|].
  apply rbind_ok in H as (y' & _ & H). apply rbind_ok in H as (l' & Hl & H).
  apply Ok_inj in H. subst ys. right. by apply IH.
Qed.

(** A declaration is kept as it was made.  A declaration made by [create] and
    stored for the first time, on a connection whose statements go through, is
    durable, read back equal to itself, verifies its own hash, lists the declared
    operations without repetition, and is active in its scope, in every scope
    when its scope is open. *)
Theorem declare_round_trip now ops a st sr ts d s s' :
  declaration_create now ops a st sr ts = Ok d ->
  find_intent (declaration_hash d) (intents (current s)) = None ->
  ro s = false -> busy s = [] -> faults s = [] ->
  declare d s = (Ok tt, s') ->
  durable s' = current s' /\ intent_get s' (declaration_hash d) = Ok (Some d) /\
  declaration_verify_hash d = Ok true /\
  NoDup (declared_ops d) /\ (forall o, covers_op d o = true <-> o ∈ ops) /\
  (forall scope_ref ds, sr = "" \/ sr = scope_ref ->
     active_declarations s' scope_ref = Ok ds -> d ∈ ds).
Proof.
  intros Hc Hnone Hro Hbusy Hfaults H. destruct (declared_sorted _ _ _ _ _ _ _ Hc) as (Hops & Hsr & Hvh).
  unfold declare, try_pass, sbind, slift, dml, commit, commit_now in H.
  destruct (json_dumps _ _) as [j|] eqn:Hj; [|done].
  rewrite Hro, Hbusy in H. cbn in H. rewrite Hfaults in H. apply pair_ok in H as [_ <-]. cbn.
  unfold insert_intent. rewrite Hnone. cbn.
  set (row := {| row_hash := declaration_hash d; row_ops := j; row_scope_type := d_scope_type d;
                 row_scope_ref := d_scope_ref d; row_authority := d_authority d;
                 row_timestamp := d_timestamp d; revoked := false |}).
  assert (Hrow : _row_to_declaration row = Ok d).
  { unfold _row_to_declaration. cbn [row row_ops]. rewrite (json_strings_round_trip _ _ Hj), strings_of_map.
    cbn. rewrite Hops, sorted_str_sorted, <- Hops. by destruct d. }
  split; [done|]. split.
  { unfold intent_get. cbn. assert (find_intent (declaration_hash d) (intents (current s) ++ [row])
      = Some row) as ->; [|by rewrite Hrow].
    rewrite find_intent_app, Hnone. unfold find_intent. cbn. by rewrite str_eqb_refl. }
  split; [done|]. rewrite Hops. split_and!.
  - rewrite sorted_str_perm. apply NoDup_remove_dups.
  - intros o. unfold covers_op. by rewrite mem_str_spec, Hops, sorted_str_perm, elem_of_remove_dups.
  - intros sc ds Hsc Hds. unfold active_declarations in Hds. cbn in Hds.
    rewrite List.filter_app, map_app in Hds. cbn [List.filter] in Hds.
    replace (active_row sc row) with true in Hds.
    2:{ unfold active_row. cbn. rewrite Hsr. destruct Hsc as [->| ->]; [done|].
        by rewrite str_eqb_refl, orb_true_r. }
    cbn [map] in Hds. rewrite Hrow in Hds. by apply sequence_last in Hds.
Qed.

(** * Examples *)

Definition demo_declaration : IntentDeclaration := Eval vm_compute in
  match declaration_create "2026-01-01T00:00:00Z" ["b"; "a"; "b"] "root" "session" "" None with
  | Ok d => d | Err _ => {| declaration_hash := ""; declared_ops := []; d_scope_type := "";
                            d_scope_ref := ""; d_authority := ""; d_timestamp := "" |} end.
Definition demo_revocation : IntentRevocation :=
  {| revocation_hash := "r"; revoked_declaration_hash := declaration_hash demo_declaration;
     r_authority := "root"; r_timestamp := "t" |}.
Definition demo_declared : IntentStore :=
  Eval vm_compute in snd (declare demo_declaration intent_store_new).
Definition demo_revoked : IntentStore :=
  Eval vm_compute in snd (revoke demo_revocation demo_declared).

Lemma declare_round_trip_witness :
  intent_get demo_declared (declaration_hash demo_declaration) = Ok (Some demo_declaration).
Proof.
  apply (declare_round_trip "2026-01-01T00:00:00Z" ["b"; "a"; "b"] "root" "session" "" None
           demo_declaration intent_store_new demo_declared);
    vm_compute; reflexivity.
Defined.

(** Declaring the revoked artifact again changes nothing. *)
Lemma revocation_permanent_witness :
  is_revoked (snd (declare demo_declaration demo_revoked)) (declaration_hash demo_declaration) = true.
Proof.
  apply (revocation_permanent (declaration_hash demo_declaration) demo_revoked).
  - apply NoDup_singleton.
  - reflexivity.
  - apply rtc_once, step_declare.
Defined.

Definition demo_edges : edges := {["a" := {["c"]}; "c" := {["d"]}]}.
Example covers_chain :
  covers "d" [demo_declaration] demo_edges None
  = {| co_status := COVERED; refusal_code := None;
       co_intent_ref := Some (declaration_hash demo_declaration) |} /\
  refusal_code (covers "d" [demo_declaration] demo_edges (Some 1)) = Some WL_001 /\
  refusal_code (covers "d" [] demo_edges None) = Some WL_005.
Proof. vm_compute. repeat split. Qed.

(** Revoking first leaves no mark on the declaration that comes after it. *)
Lemma revocation_before_declaration :
  let s := snd (declare demo_declaration (snd (revoke demo_revocation intent_store_new))) in
  revocations (durable s) = [demo_revocation] /\
  is_revoked s (declaration_hash demo_declaration) = false /\
  active_declarations s "" = Ok [demo_declaration].
Proof. vm_compute. repeat split. Qed.

(** A revocation that meets a lock is lost without a word. *)
Lemma revocation_lost :
  let s := Conn (durable demo_declared) (current demo_declared) false [] [] [true] false in
  fst (revoke demo_revocation s) = Ok tt /\
  active_declarations (snd (revoke demo_revocation s)) "" = Ok [demo_declaration].
Proof. vm_compute. repeat split. Qed.
