(* ===== verification/Warrant.v ===== *)
(** Decision warrants ([ugk/governance/warrant.py]): the content-addressed
    warrant, the store that materialises it, its queries and the walk over the
    links between warrants. *)
From S2P Require Import Prelude Json Sha256 Binding Receipt Sqlite.

Definition RESULT_ADMIT : Z := 9001.
Definition RESULT_REFUSE : Z := 9002.
Definition ANALYSIS_AUTH_SUFFICIENT : Z := 9101.
Definition ANALYSIS_JURIS_VALID : Z := 9102.
Definition ANALYSIS_INV_SATISFIED : Z := 9103.
Definition GENESIS_WARRANT_HASH : string := concat_str (repeat "0" 64).

Definition WarrantStoreError (m : string) : exn := Exn WarrantStoreErrorC m.

Record DecisionWarrant := {
  warrant_hash : string;
  prior_warrant_hash : string;
  constitutional_basis : list Z;
  authority_result : Z;
  jurisdiction_result : Z;
  w_result : Z;
  dw_law_hash : string;
  dw_legend_hash : string;
  dw_timestamp : string;
}.

Definition warrant_body (prior : string) (basis : list Z) (authority_r juris_r res : Z)
    (law legend ts : string) : pyval := PDict
  [("authority_result", PInt authority_r); ("constitutional_basis", PList (map PInt basis));
   ("jurisdiction_result", PInt juris_r); ("law_hash", PStr law); ("legend_hash", PStr legend);
   ("prior_warrant_hash", PStr prior); ("result", PInt res); ("timestamp", PStr ts)].

Definition body_dict (w : DecisionWarrant) : pyval :=
  warrant_body (prior_warrant_hash w) (constitutional_basis w) (authority_result w)
    (jurisdiction_result w) (w_result w) (dw_law_hash w) (dw_legend_hash w) (dw_timestamp w).

(** [sorted] on integers. *)
Fixpoint insert_Z (x : Z) (l : list Z) : list Z :=
  match l with
  | [] => [x]
  | y :: l' => if x <=? y then x :: l else y :: insert_Z x l'
  end.
Definition sorted_Z (l : list Z) : list Z := foldr insert_Z [] l.

(** [DecisionWarrant.create]; [now] is the clock, read when no timestamp is given. *)
Definition warrant_create (now : string) (basis : list Z) (law legend prior : string)
    (authority_r juris_r res : Z) (timestamp : option string) : result exn DecisionWarrant :=
  let ts := match timestamp with Some t => if str_eqb t "" then now else t | None => now end in
  let basis := sorted_Z basis in
  let* b := Binding.canonical_json
              (warrant_body prior basis authority_r juris_r res law legend ts) in
  Ok {| warrant_hash := sha256_hex b; prior_warrant_hash := prior;
        constitutional_basis := basis; authority_result := authority_r;
        jurisdiction_result := juris_r; w_result := res; dw_law_hash := law;
        dw_legend_hash := legend; dw_timestamp := ts |}.

(** The call with the defaults of the signature. *)
Definition warrant_admit (now : string) (basis : list Z) (law legend : string) :
    result exn DecisionWarrant :=
  warrant_create now basis law legend GENESIS_WARRANT_HASH ANALYSIS_AUTH_SUFFICIENT
    ANALYSIS_JURIS_VALID RESULT_ADMIT None.
Definition create_refusal_warrant (now : string) (basis : list Z) (law legend : string) :
    result exn DecisionWarrant :=
  warrant_create now basis law legend GENESIS_WARRANT_HASH ANALYSIS_AUTH_SUFFICIENT
    ANALYSIS_JURIS_VALID RESULT_REFUSE None.

Definition warrant_verify_hash (w : DecisionWarrant) : result exn bool :=
  let* b := Binding.canonical_json (body_dict w) in
  Ok (str_eqb (warrant_hash w) (sha256_hex b)).

Definition mem_basis (n : Z) (l : list Z) : bool := existsb (Z.eqb n) l.
Definition cites_invariant (w : DecisionWarrant) (csil : Z) : bool :=
  mem_basis csil (constitutional_basis w).

(** ** The store *)

(** A row: the warrant with its basis as JSON text. *)
Record warrant_row := { wr : DecisionWarrant; basis_json : string }.
Definition WarrantStore : Type := conn (list warrant_row).
Definition warrant_store_new : WarrantStore := open_conn [].

(** [tuple(sorted(json.loads(basis_json)))], on a list of integers. *)
Definition ints_of (v : pyval) : option (list Z) :=
  match v with
  | PList l => foldr (fun x acc => match x, acc with
                                   | PInt n, Some l => Some (n :: l) | _, _ => None end)
                     (Some []) l
  | _ => None
  end.
Definition _row_to_warrant (r : warrant_row) : result exn DecisionWarrant :=
  match json_loads (basis_json r) with
  | None => Err (Exn ValueError "JSONDecodeError")
  | Some v =>
      match ints_of v with
      | None => Err (Exn TypeError "constitutional_basis")
      | Some b =>
          let w := wr r in
          Ok {| warrant_hash := warrant_hash w; prior_warrant_hash := prior_warrant_hash w;
                constitutional_basis := sorted_Z b; authority_result := authority_result w;
                jurisdiction_result := jurisdiction_result w; w_result := w_result w;
                dw_law_hash := dw_law_hash w; dw_legend_hash := dw_legend_hash w;
                dw_timestamp := dw_timestamp w |}
      end
  end.

Definition find_row (h : string) (l : list warrant_row) : option warrant_row :=
  find (fun r => str_eqb (warrant_hash (wr r)) h) l.

Definition warrant_get (s : WarrantStore) (h : string) : result exn (option DecisionWarrant) :=
  match find_row h (current s) with
  | Some r => rmap Some (_row_to_warrant r)
  | None => Ok None
  end.

(** INSERT OR IGNORE INTO warrants; an integer must fit its column. *)
Definition insert_warrant (w : DecisionWarrant) (bj : string) (l : list warrant_row) :
    result exn (list warrant_row) :=
  if forallb fits_int64 [authority_result w; jurisdiction_result w; w_result w] then
    Ok match find_row (warrant_hash w) l with
       | Some _ => l
       | None => l ++ [{| wr := w; basis_json := bj |}]
       end
  else Err (Exn OtherError "OverflowError: Python int too large").

Definition warrant_write (w : DecisionWarrant) : M WarrantStore string :=
  let! good := slift (warrant_verify_hash w) in
  guard! good else WarrantStoreError "warrant_hash does not verify" in
  let! bj := slift (json_dumps style_compact_ascii (PList (map PInt (constitutional_basis w)))) in
  fun s =>
    match (let! _ := dml (insert_warrant w bj) in commit) s with
    | (Err _, s') => (Err (WarrantStoreError "warrant write failed"), s')
    | (Ok _, s') =>
        match warrant_get s' (warrant_hash w) with
        | Err e => (Err e, s')
        | Ok None => (Err (WarrantStoreError "warrant write did not materialize durably"), s')
        | Ok (Some stored) =>
            if pyval_eqb (body_dict stored) (body_dict w) then (Ok (warrant_hash w), s')
            else (Err (WarrantStoreError "warrant write did not materialize durably"), s')
        end
    end.

Definition all_warrants (s : WarrantStore) : result exn (list DecisionWarrant) :=
  sequence (map _row_to_warrant (current s)).
Definition warrant_count (s : WarrantStore) : Z := Z.of_nat (length (current s)).

Definition basis_query (s : WarrantStore) (csil : Z) : result exn (list DecisionWarrant) :=
  let* ws := all_warrants s in
  Ok (List.filter (fun w => cites_invariant w csil) ws).
Definition basis_query_for_law (s : WarrantStore) (csil : Z) (law : string) :
    result exn (list DecisionWarrant) :=
  let* ws := basis_query s csil in
  Ok (List.filter (fun w => str_eqb (dw_law_hash w) law) ws).

(** The loop of [lineage_from]; [n] counts down from [max_depth]. *)
Fixpoint lineage_loop (n : nat) (s : WarrantStore) (visited : list string) (h : string) :
    result exn (list DecisionWarrant) :=
  if str_eqb h "" || str_eqb h GENESIS_WARRANT_HASH || mem_str h visited then Ok [] else
  match n with
  | O => Ok []
  | S n =>
      let* w := warrant_get s h in
      match w with
      | None => Ok []
      | Some w =>
          let* rest := lineage_loop n s (h :: visited) (prior_warrant_hash w) in
          Ok (w :: rest)
      end
  end.
Definition lineage_from (s : WarrantStore) (h : string) (max_depth : Z) :
    result exn (list DecisionWarrant) := lineage_loop (Z.to_nat max_depth) s [] h.

(** ** [is_acyclic] *)

(** The dictionary from hashes to warrants: the last one counts. *)
Definition by_hash (ws : list DecisionWarrant) (h : string) : option DecisionWarrant :=
  find (fun w => str_eqb (warrant_hash w) h) (rev ws).

(** [_dfs]; [n] bounds the recursion depth, the sets are those the closure holds. *)
Fixpoint _dfs (n : nat) (ws : list DecisionWarrant) (visited in_stack : gset string)
    (wh : string) : option (bool * gset string * gset string) :=
  match n with
  | O => None
  | S n =>
      if decide (wh ∈ in_stack) then Some (false, visited, in_stack)
      else if bool_decide (wh ∈ visited) || str_eqb wh GENESIS_WARRANT_HASH
      then Some (true, visited, in_stack)
      else
        let stack1 := {[wh]} ∪ in_stack in
        match by_hash ws wh with
        | Some w =>
            if str_eqb (prior_warrant_hash w) GENESIS_WARRANT_HASH then
              Some (true, {[wh]} ∪ visited, stack1 ∖ {[wh]})
            else
              match _dfs n ws visited stack1 (prior_warrant_hash w) with
              | None => None
              | Some (false, v, st) => Some (false, v, st)
              | Some (true, v, st) => Some (true, {[wh]} ∪ v, st ∖ {[wh]})
              end
        | None => Some (true, {[wh]} ∪ visited, stack1 ∖ {[wh]})
        end
  end.

(** [all(_dfs(w.warrant_hash) for w in warrants)] *)
Fixpoint dfs_all (n : nat) (ws : list DecisionWarrant) (visited in_stack : gset string)
    (todo : list DecisionWarrant) : option bool :=
  match todo with
  | [] => Some true
  | w :: rest =>
      match _dfs n ws visited in_stack (warrant_hash w) with
      | None => None
      | Some (false, _, _) => Some false
      | Some (true, v, st) => dfs_all n ws v st rest
      end
  end.

Definition is_acyclic (s : WarrantStore) : result exn (option bool) :=
  let* ws := all_warrants s in
  Ok (dfs_all (S (length ws)) ws ∅ ∅ ws).

(** * Writing a warrant *)

#[local] Arguments find_row : simpl never.

Lemma find_row_app h l k : find_row h (l ++ k) =
  match find_row h l with Some r => Some r | None => find_row h k end.
Proof. unfold find_row. induction l as [|x l IH]; simpl; [done|]. by destruct (str_eqb _ _). Qed.

Lemma ints_eqb (a b : list Z) : pyval_eqb (PList (map PInt a)) (PList (map PInt b)) = true -> a = b.
Proof.
  revert b. induction a as [|x a IH]; intros [|y b]; simpl; try done.
  intros [He%Z.eqb_eq H]%andb_true_iff. subst y. f_equal. by apply IH.
Qed.

(** Decides the comparisons of two literal keys. *)
Ltac ground_keys :=
  repeat match goal with
  | H : context [str_eqb ?a ?b] |- _ =>
      is_ground a; is_ground b;
      let r := eval vm_compute in (str_eqb a b) in change (str_eqb a b) with r in H
  | |- context [str_eqb ?a ?b] =>
      is_ground a; is_ground b;
      let r := eval vm_compute in (str_eqb a b) in change (str_eqb a b) with r
  end.

Lemma body_dict_refl w : pyval_eqb (body_dict w) (body_dict w) = true.
Proof.
  unfold body_dict, warrant_body.
  cbn [pyval_eqb length Nat.eqb dict_get andb]. ground_keys. cbv iota.
  rewrite !str_eqb_refl, !Z.eqb_refl. cbn [andb].
  rewrite andb_true_r. induction (constitutional_basis w) as [|x l IH]; cbn; [done|].
  by rewrite Z.eqb_refl.
Qed.

Lemma warrant_body_eqb w w' : warrant_hash w = warrant_hash w' ->
  pyval_eqb (body_dict w) (body_dict w') = true -> w = w'.
Proof.
  intros Hh H.
  assert (He : prior_warrant_hash w = prior_warrant_hash w' /\
    constitutional_basis w = constitutional_basis w' /\ authority_result w = authority_result w' /\
    jurisdiction_result w = jurisdiction_result w' /\ w_result w = w_result w' /\
    dw_law_hash w = dw_law_hash w' /\ dw_legend_hash w = dw_legend_hash w' /\
    dw_timestamp w = dw_timestamp w').
  { unfold body_dict, warrant_body in H.
    cbn [pyval_eqb length Nat.eqb dict_get str_eqb andb] in H.
    ground_keys. cbv iota in H.
    repeat (apply andb_true_iff in H as [? H]).
    repeat match goal with
    | H : str_eqb _ _ = true |- _ => apply str_eqb_spec in H
    | H : (_ =? _) = true |- _ => apply Z.eqb_eq in H
    end.
    split_and!; try done. by apply ints_eqb. }
  destruct w, w'. cbn in *. by destruct He as (-> & -> & -> & -> & -> & -> & -> & ->); subst.
Qed.

Lemma row_to_warrant_hash r w : _row_to_warrant r = Ok w -> warrant_hash w = warrant_hash (wr r).
Proof.
  unfold _row_to_warrant. destruct (json_loads _); [|done]. destruct (ints_of _); [|done].
  by intros <-%Ok_inj.
Qed.

(** Warrants are only ever added. *)
Lemma insert_warrant_prefix w bj l l' : insert_warrant w bj l = Ok l' -> l `prefix_of` l'.
Proof.
  unfold insert_warrant. destruct (forallb _ _); [|done]. intros <-%Ok_inj.
  destruct (find_row _ _); [done|]. by eexists.
Qed.

Lemma warrant_insert_prefix w bj (s : WarrantStore) r s' :
  (let! _ := dml (insert_warrant w bj) in commit) s = (r, s') ->
  current s `prefix_of` current s' /\
  (is_ok r = true -> durable s' = current s' /\ in_txn s' = false).
Proof.
  unfold sbind, dml. destruct (ro s); [by intros [<- <-]%pair_ok|]. cbv zeta.
  destruct (insert_warrant w bj (current s)) as [l'|e] eqn:Hi;
    [|intros [<- <-]%pair_ok; by split].
  apply insert_warrant_prefix in Hi.
  destruct (busy s) as [|[] bs]; try (intros [<- <-]%pair_ok; by split);
    unfold commit, commit_now; cbn;
    destruct (faults s) as [|[m|] fs]; intros [<- <-]%pair_ok; by split.
Qed.

(** A warrant is cited only when it is there.  [write] returns the warrant's hash
    only if that hash verifies and the warrant itself is read back, and then the
    store is durable; otherwise it raises; no outcome removes or changes a warrant
    that was there. *)
Theorem warrant_write_materializes w s res s' : warrant_write w s = (res, s') ->
  current s `prefix_of` current s' /\
  match res with
  | Ok h => h = warrant_hash w /\ warrant_verify_hash w = Ok true /\
      warrant_get s' h = Ok (Some w) /\ durable s' = current s'
  | Err _ => True
  end.
Proof.
  unfold warrant_write. unfold sbind at 1, slift at 1.
  destruct (warrant_verify_hash w) as [[]|e] eqn:Hv; try (by intros [<- <-]%pair_ok).
  unfold sbind at 1, slift at 1.
  destruct (json_dumps _ _) as [bj|e]; [|by intros [<- <-]%pair_ok].
  destruct ((let! _ := dml (insert_warrant w bj) in commit) s) as [[u|e] s1] eqn:Hi;
    apply warrant_insert_prefix in Hi as [Hp Hd]; [|by intros [<- <-]%pair_ok].
  destruct (warrant_get s1 (warrant_hash w)) as [[w'|]|e] eqn:Hg; try (by intros [<- <-]%pair_ok).
  destruct (pyval_eqb _ _) eqn:He; intros [<- <-]%pair_ok; [|done].
  split; [done|]. split; [done|]. split; [done|]. split; [|by apply Hd].
  assert (Hh : warrant_hash w' = warrant_hash w).
  { unfold warrant_get in Hg. destruct (find_row _ _) as [r|] eqn:Hf; [|done].
    destruct (_row_to_warrant r) as [x|] eqn:Hr; [|done]. cbn in Hg.
    apply Ok_inj, Some_inj' in Hg. subst x. apply row_to_warrant_hash in Hr. rewrite Hr.
    apply find_some in Hf as [_ Hf]. by apply str_eqb_spec. }
  by rewrite (warrant_body_eqb _ _ Hh He) in Hg.
Qed.

Lemma insert_Z_perm x l : Permutation (insert_Z x l) (x :: l).
Proof.
  induction l as [|y l IH]; simpl; [done|]. destruct (x <=? y); [done|].
  rewrite IH. apply perm_swap.
Qed.
Lemma sorted_Z_perm l : Permutation (sorted_Z l) l.
Proof. induction l as [|x l IH]; simpl; [done|]. by rewrite insert_Z_perm, IH. Qed.
Lemma insert_Z_sorted x l : Sorted Z.le l -> Sorted Z.le (insert_Z x l).
Proof.
  induction l as [|y l IH]; simpl; intros H; [by repeat constructor|].
  destruct (x <=? y) eqn:E; [apply Z.leb_le in E; constructor; [done|by constructor]|].
  apply Z.leb_gt in E. inversion H as [|? ? Hs Hh]; subst. constructor; [by apply IH|].
  destruct l as [|z l]; simpl; [constructor; lia|].
  destruct (x <=? z); constructor; [lia|by inversion Hh].
Qed.
Lemma sorted_Z_sorted l : Sorted Z.le (sorted_Z l).
Proof. induction l as [|x l IH]; simpl; [constructor|by apply insert_Z_sorted]. Qed.
Lemma sorted_Z_id l : Sorted Z.le l -> sorted_Z l = l.
Proof.
  induction l as [|x l IH]; simpl; [done|]. intros H. inversion H as [|? ? Hs Hh]; subst.
  rewrite (IH Hs). destruct l as [|y l]; [done|]. inversion Hh; subst. simpl.
  by rewrite (proj2 (Z.leb_le x y)).
Qed.

Lemma ints_of_map l : ints_of (PList (map PInt l)) = Some l.
Proof. simpl. induction l as [|x l IH]; simpl; [done|]. by rewrite IH. Qed.
Lemma json_ints_round_trip l t : json_dumps style_compact_ascii (PList (map PInt l)) = Ok t ->
  json_loads t = Some (PList (map PInt l)).
Proof.
  intros H. assert (pyval_ok (PList (map PInt l)) = true) as Hok by (clear; by induction l).
  rewrite (json_loads_dumps _ style_compact_ascii_wf _ _ Hok H). simpl. do 2 f_equal.
  rewrite map_map. by apply map_ext.
Qed.

Lemma ints_dumps l : exists t, json_dumps style_compact_ascii (PList (map PInt l)) = Ok t.
Proof.
  simpl. assert (exists ts, sequence (map (json_dumps style_compact_ascii) (map PInt l)) = Ok ts)
    as [ts Hts].
  { induction l as [|x l [ts IH]]; simpl; [by eexists|]. rewrite IH. by eexists. }
  rewrite Hts. by eexists.
Qed.

(** A created warrant verifies, and its basis is the sorted one. *)
Lemma warrant_create_spec now basis law legend prior a j res ts w :
  warrant_create now basis law legend prior a j res ts = Ok w ->
  warrant_verify_hash w = Ok true /\ constitutional_basis w = sorted_Z basis /\
  authority_result w = a /\ jurisdiction_result w = j /\ w_result w = res /\
  dw_law_hash w = law /\ dw_legend_hash w = legend.
Proof.
  unfold warrant_create. intros (b & Hb & H)%rbind_ok. apply Ok_inj in H. subst w.
  split; [|done]. unfold warrant_verify_hash, body_dict.
  cbn [prior_warrant_hash constitutional_basis authority_result jurisdiction_result w_result
       dw_law_hash dw_legend_hash dw_timestamp warrant_hash].
  rewrite Hb. cbn [rbind]. by rewrite str_eqb_refl.
Qed.

(** A warrant made by [create] can be stored.  On a connection whose statements
    go through, a fresh warrant with results that fit their columns is written
    without an exception and read back equal to itself. *)
Theorem warrant_round_trip now basis law legend prior a j res ts w s :
  warrant_create now basis law legend prior a j res ts = Ok w ->
  find_row (warrant_hash w) (current s) = None ->
  fits_int64 a = true -> fits_int64 j = true -> fits_int64 res = true ->
  ro s = false -> busy s = [] -> faults s = [] ->
  exists s', warrant_write w s = (Ok (warrant_hash w), s') /\
    warrant_get s' (warrant_hash w) = Ok (Some w) /\
    warrant_count s' = warrant_count s + 1 /\
    (forall csil, cites_invariant w csil = true <-> csil ∈ basis).
Proof.
  intros Hc Hn Ha Hj Hr Hro Hb Hf.
  apply warrant_create_spec in Hc as (Hv & Hbas & H1 & H2 & H3 & _).
  destruct (ints_dumps (constitutional_basis w)) as [bj Hbj].
  set (row := {| wr := w; basis_json := bj |}).
  set (s' := Conn (current s ++ [row]) (current s ++ [row]) false [] [] [] false).
  assert (Hins : (let! _ := dml (insert_warrant w bj) in commit) s = (Ok tt, s')).
  { unfold sbind, dml, commit, commit_now, insert_warrant. rewrite Hro, Hn. cbv zeta.
    rewrite H1, H2, H3. cbn [forallb]. rewrite Ha, Hj, Hr. cbn [andb]. rewrite Hb. cbn.
    by rewrite Hf. }
  assert (Hget : warrant_get s' (warrant_hash w) = Ok (Some w)).
  { unfold warrant_get, s', row. cbn [current]. rewrite find_row_app, Hn. unfold find_row. cbn [find wr].
    rewrite str_eqb_refl. unfold _row_to_warrant. cbn [basis_json wr].
    rewrite (json_ints_round_trip _ _ Hbj), ints_of_map. cbn.
    rewrite sorted_Z_id by (rewrite Hbas; apply sorted_Z_sorted). by destruct w. }
  exists s'. split_and!; [|done| |].
  - unfold warrant_write. unfold sbind at 1, slift at 1. rewrite Hv.
    unfold sbind at 1, slift at 1. rewrite Hbj, Hins, Hget.
    by rewrite body_dict_refl.
  - unfold warrant_count, s'. cbn. rewrite length_app. cbn. lia.
  - intros csil. unfold cites_invariant, mem_basis. rewrite Hbas, existsb_exists.
    transitivity (csil ∈ sorted_Z basis); [|by rewrite sorted_Z_perm]. split.
    + intros (x & Hx & <-%Z.eqb_eq). by apply list_elem_of_In.
    + intros H. exists csil. split; [by apply list_elem_of_In|apply Z.eqb_refl].
Qed.

(** * Links between warrants *)

(** A link the walks follow: never to the genesis hash. *)
Definition prior_link (ws : list DecisionWarrant) (h h' : string) : Prop :=
  exists w, by_hash ws h = Some w /\ h' = prior_warrant_hash w /\ h' <> GENESIS_WARRANT_HASH.

Lemma by_hash_elem ws h w : by_hash ws h = Some w -> w ∈ ws /\ warrant_hash w = h.
Proof.
  unfold by_hash. intros [H1 H2]%find_some. apply str_eqb_spec in H2.
  apply in_rev, list_elem_of_In in H1. done.
Qed.

(** Following links from [h] ends. *)
Definition safe (ws : list DecisionWarrant) (h : string) : Prop :=
  Acc (fun y x => prior_link ws x y) h.

Lemma safe_no_cycle ws h : safe ws h -> ~ tc (prior_link ws) h h.
Proof.
  induction 1 as [h _ IH]. intros H. inversion H as [x y Hl|x y z Hl Ht]; subst.
  - by apply (IH h).
  - apply (IH y Hl). by eapply tc_r.
Qed.

Section dfs.
Context (ws : list DecisionWarrant).
Let link := prior_link ws.

Lemma stack_bounded (stack : gset string) : (forall s, s ∈ stack -> is_Some (by_hash ws s)) ->
  (size stack <= length ws)%nat.
Proof.
  intros H. assert (stack ⊆ list_to_set (map warrant_hash ws)) as Hs.
  { intros s Hin. destruct (H s Hin) as [w Hw]. apply by_hash_elem in Hw as [Hw <-].
    apply elem_of_list_to_set. by apply (list_elem_of_fmap_2 warrant_hash). }
  apply subseteq_size in Hs. etransitivity; [exact Hs|]. rewrite <- (length_map warrant_hash ws).
  generalize (map warrant_hash ws). clear. intros l. induction l as [|x l IH]; simpl;
    [done|]. rewrite size_union_alt, size_singleton.
  assert (size (list_to_set l ∖ {[x]} : gset string) <= size (list_to_set l : gset string))%nat;
    [|lia]. apply subseteq_size. set_solver.
Qed.

(** What a call of [_dfs] answers. *)
Definition dfs_post (visited stack : gset string) (wh : string)
    (r : option (bool * gset string * gset string)) : Prop :=
  match r with
  | None => False
  | Some (false, _, _) => exists h, tc link h h
  | Some (true, v, st) => (wh = GENESIS_WARRANT_HASH \/ safe ws wh) /\
      (forall x, x ∈ v -> safe ws x) /\ st = stack
  end.

Lemma leaf_post (visited stack : gset string) wh : wh ∉ stack ->
  (forall x, x ∈ visited -> safe ws x) -> safe ws wh ->
  dfs_post visited stack wh
    (Some (true, {[wh]} ∪ visited, ({[wh]} ∪ stack) ∖ {[wh]})).
Proof.
  intros Hn Hv Hs. split_and!; [by right| |set_solver].
  intros x [->%elem_of_singleton|Hx]%elem_of_union; [done|by apply Hv].
Qed.

Lemma dfs_spec n visited stack wh :
  (forall x, x ∈ visited -> safe ws x) -> (forall s, s ∈ stack -> tc link s wh) ->
  (forall s, s ∈ stack -> is_Some (by_hash ws s)) -> (length ws < n + size stack)%nat ->
  dfs_post visited stack wh (_dfs n ws visited stack wh).
Proof.
  revert stack wh visited. induction n as [|n IH]; intros stack wh visited Hv Hst Hdom Hn.
  { apply stack_bounded in Hdom. lia. }
  cbn [_dfs]. destruct (decide (wh ∈ stack)) as [Hs|Hs]; [exists wh; by apply Hst|].
  destruct (bool_decide (wh ∈ visited)) eqn:Hvis; cbn [orb].
  { apply bool_decide_eq_true in Hvis. split_and!; auto. }
  destruct (str_eqb wh GENESIS_WARRANT_HASH) eqn:Hg.
  { apply str_eqb_spec in Hg. split_and!; auto. }
  destruct (by_hash ws wh) as [w|] eqn:Hw.
  2:{ apply leaf_post; [done|done|]. constructor. intros y (w & Hw' & _). by rewrite Hw in Hw'. }
  destruct (str_eqb (prior_warrant_hash w) GENESIS_WARRANT_HASH) eqn:Hp.
  { apply str_eqb_spec in Hp. apply leaf_post; [done|done|]. constructor.
    intros y (w' & Hw' & -> & Hne). rewrite Hw in Hw'. apply Some_inj' in Hw'. by subst w'. }
  assert (Hl : link wh (prior_warrant_hash w)).
  { exists w. split; [done|]. split; [done|]. intros Hx. by rewrite Hx, str_eqb_refl in Hp. }
  assert (IH' : dfs_post visited ({[wh]} ∪ stack) (prior_warrant_hash w)
                  (_dfs n ws visited ({[wh]} ∪ stack) (prior_warrant_hash w))).
  { apply IH; [done| | |].
    - intros s [->%elem_of_singleton|Hin]%elem_of_union; [by apply tc_once|].
      apply (tc_r _ wh); [by apply Hst|done].
    - intros s [->%elem_of_singleton|Hin]%elem_of_union; [by exists w|by apply Hdom].
    - rewrite size_union_alt, size_singleton.
      replace (stack ∖ {[wh]}) with stack by set_solver. lia. }
  destruct (_dfs n ws visited _ _) as [[[[] v] st]|]; [|exact IH'|destruct IH'].
  destruct IH' as (Hsafe & Hv' & ->). apply str_eqb_false in Hp.
  destruct Hsafe as [Hsafe|Hsafe]; [done|].
  apply leaf_post; [done|done|]. constructor. intros y (w' & Hw' & -> & _).
  rewrite Hw in Hw'. apply Some_inj' in Hw'. by subst w'.
Qed.

Lemma dfs_all_spec todo visited : (forall x, x ∈ visited -> safe ws x) ->
  match dfs_all (S (length ws)) ws visited ∅ todo with
  | None => False
  | Some false => exists h, tc link h h
  | Some true => forall w, w ∈ todo ->
      warrant_hash w = GENESIS_WARRANT_HASH \/ safe ws (warrant_hash w)
  end.
Proof.
  revert visited. induction todo as [|w todo IH]; intros visited Hv.
  { intros w Hw. by apply elem_of_nil in Hw. }
  assert (Hd := dfs_spec (S (length ws)) visited ∅ (warrant_hash w) Hv). cbn [dfs_all].
  destruct (_dfs _ _ _ _ _) as [[[[] v] st]|]; cbn [dfs_post] in Hd.
  - destruct Hd as (Hw & Hv' & ->);
      [intros s Hs; by apply elem_of_empty in Hs|intros s Hs; by apply elem_of_empty in Hs|lia|].
    specialize (IH v Hv'). destruct (dfs_all _ _ v ∅ todo) as [[]|]; [|done|done].
    intros x [->|Hx]%elem_of_cons; [done|by apply IH].
  - apply Hd; [intros s Hs; by apply elem_of_empty in Hs|intros s Hs; by apply elem_of_empty in Hs|lia].
  - apply Hd; [intros s Hs; by apply elem_of_empty in Hs|intros s Hs; by apply elem_of_empty in Hs|lia].
Qed.

(** A cycle leads through a stored warrant whose hash is not the genesis hash. *)
Lemma cycle_stored h : tc link h h ->
  h <> GENESIS_WARRANT_HASH /\ exists w, w ∈ ws /\ warrant_hash w = h.
Proof.
  intros H. split.
  - revert H. generalize h at 1. intros x H. induction H as [x y (w & _ & _ & Hne)|]; done.
  - inversion H as [x y Hl|x y z Hl _]; subst; destruct Hl as (w & Hw & _);
      apply by_hash_elem in Hw as [Hw Hh]; by exists w.
Qed.
End dfs.

(** The cycle check of the warrant store is exact and terminates.  With one
    level of recursion more than there are warrants the search always answers,
    and it answers True exactly when no warrant is reached again by following the
    links to prior warrants; it only fails where reading the warrants fails. *)
Theorem is_acyclic_spec s :
  match all_warrants s with
  | Ok ws => exists b, is_acyclic s = Ok (Some b) /\
      (b = true <-> forall h, ~ tc (prior_link ws) h h)
  | Err e => is_acyclic s = Err e
  end.
Proof.
  unfold is_acyclic. destruct (all_warrants s) as [ws|e]; [|done]. cbn [rbind].
  pose proof (dfs_all_spec ws ws ∅) as H.
  destruct (dfs_all _ ws ∅ ∅ ws) as [b|];
    [|destruct H; intros x Hx; by apply elem_of_empty in Hx].
  exists b. split; [done|]. destruct b.
  - split; [|done]. intros _ h Hc. destruct (cycle_stored ws h Hc) as (Hne & w & Hw & <-).
    destruct (H ltac:(intros x Hx; by apply elem_of_empty in Hx) w Hw) as [|Hs]; [done|].
    by apply (safe_no_cycle ws _ Hs).
  - split; [done|]. intros Hn. destruct H as [h Hh]; [intros x Hx; by apply elem_of_empty in Hx|].
    by destruct (Hn h).
Qed.

(** ** The lineage of a warrant *)

(** The walk returns a chain of stored warrants, one link after the other, without
    repetition and within the depth. *)
Lemma lineage_loop_spec n s visited h l : lineage_loop n s visited h = Ok l ->
  (length l <= n)%nat /\ NoDup (map warrant_hash l) /\
  (forall w, w ∈ l -> warrant_hash w ∉ visited /\ warrant_get s (warrant_hash w) = Ok (Some w)) /\
  match l with
  | [] => True
  | w :: rest => warrant_hash w = h /\
      match rest with [] => True | x :: _ => warrant_hash x = prior_warrant_hash w end
  end.
Proof.
  revert visited h l. induction n as [|n IH]; intros visited h l; cbn [lineage_loop];
    destruct (str_eqb h "" || str_eqb h GENESIS_WARRANT_HASH || mem_str h visited) eqn:Hc;
    try (intros <-%Ok_inj; split_and!; [simpl; lia|constructor|intros w Hw; by apply elem_of_nil in Hw|done]).
  apply orb_false_iff in Hc as [_ Hv]. apply mem_str_false in Hv.
  intros ([w|] & Hg & H)%rbind_ok;
    [|apply Ok_inj in H; subst l; split_and!;
      [simpl; lia|constructor|intros w Hw; by apply elem_of_nil in Hw|done]].
  apply rbind_ok in H as (rest & Hr & H). apply Ok_inj in H. subst l.
  assert (Hh : warrant_hash w = h).
  { unfold warrant_get in Hg. destruct (find_row _ _) as [r|] eqn:Hf; [|done].
    destruct (_row_to_warrant r) as [x|] eqn:Hx; [|done]. cbn in Hg.
    apply Ok_inj, Some_inj' in Hg. subst x. rewrite (row_to_warrant_hash _ _ Hx).
    apply find_some in Hf as [_ Hf]. by apply str_eqb_spec. }
  destruct (IH _ _ _ Hr) as (H1 & H2 & H3 & H4). split_and!.
  - simpl. lia.
  - simpl. constructor; [|done]. intros (x & Hx & Hin)%(list_elem_of_fmap_1 warrant_hash).
    destruct (H3 x Hin) as [Hn _]. apply Hn. rewrite <- Hx, Hh. by left.
  - intros x [->|Hin]%elem_of_cons; [by rewrite Hh|]. destruct (H3 x Hin) as [Hn Hgx].
    split; [|done]. intros Hin'. apply Hn. by right.
  - done.
  - destruct rest as [|x rest]; [done|]. by destruct H4.
Qed.

(** * Examples *)

Definition demo_warrant : DecisionWarrant := Eval vm_compute in
  match warrant_admit "2026-01-01T00:00:00Z" [1010; 1003; 1008] "law" "legend" with
  | Ok w => w
  | Err _ => {| warrant_hash := ""; prior_warrant_hash := ""; constitutional_basis := [];
                authority_result := 0; jurisdiction_result := 0; w_result := 0;
                dw_law_hash := ""; dw_legend_hash := ""; dw_timestamp := "" |} end.
Definition demo_warrants : WarrantStore :=
  Eval vm_compute in snd (warrant_write demo_warrant warrant_store_new).

Lemma warrant_write_materializes_witness :
  warrant_get demo_warrants (warrant_hash demo_warrant) = Ok (Some demo_warrant).
Proof.
  apply (warrant_write_materializes demo_warrant warrant_store_new
           (Ok (warrant_hash demo_warrant)) demo_warrants).
  vm_compute. reflexivity.
Defined.

Lemma warrant_round_trip_witness : exists s',
  warrant_write demo_warrant warrant_store_new = (Ok (warrant_hash demo_warrant), s') /\
  warrant_get s' (warrant_hash demo_warrant) = Ok (Some demo_warrant).
Proof.
  assert (Hc : warrant_create "2026-01-01T00:00:00Z" [1010; 1003; 1008] "law" "legend"
    GENESIS_WARRANT_HASH ANALYSIS_AUTH_SUFFICIENT ANALYSIS_JURIS_VALID RESULT_ADMIT None
    = Ok demo_warrant) by (vm_compute; reflexivity).
  pose proof (warrant_round_trip _ _ _ _ _ _ _ _ _ _ warrant_store_new Hc eq_refl eq_refl eq_refl
    eq_refl eq_refl eq_refl eq_refl) as (s' & H1 & H2 & _).
  exists s'. split; [exact H1|exact H2].
Defined.

(** Two rows that name each other are a cycle; the walk visits each once. *)
Example cyclic_rows :
  let w h p := {| wr := {| warrant_hash := h; prior_warrant_hash := p;
    constitutional_basis := []; authority_result := 0; jurisdiction_result := 0; w_result := 0;
    dw_law_hash := ""; dw_legend_hash := ""; dw_timestamp := "" |}; basis_json := "[]" |} in
  is_acyclic (open_conn [w "a" "b"; w "b" "a"]) = Ok (Some false) /\
  is_acyclic (open_conn [w "a" "b"; w "b" GENESIS_WARRANT_HASH]) = Ok (Some true) /\
  rmap (map warrant_hash) (lineage_from (open_conn [w "a" "b"; w "b" "a"]) "a" 100)
  = Ok ["a"; "b"].
Proof. vm_compute. repeat split. Qed.
