(* ===== verification/Effects.v ===== *)
(** What the in-doubt detectors of the external effect classes share: the effect fields
    of a receipt, the order of a report, and the shape of a scan for an intent without
    its outcome. *)
From S2P Require Import Prelude Json Receipt.

(** ** The effect fields of a receipt *)

(** [_params]: the parameters overlaid with the typed columns that are set. *)
Definition effect_view (m2c : list (string * string)) (r : Receipt) : cols :=
  foldl (fun v mc => if is_none (col (snd mc) (effect r)) then v
                     else dict_set (fst mc) (col (snd mc) (effect r)) v)
        (dict_part (parameters r)) m2c.

(** [p.get("effect_atomicity") == cls and p.get("phase") == phase] *)
Definition is_phase (cls : string) (p : cols) (phase : string) : bool :=
  pyval_eqb (col "effect_atomicity" p) (PStr cls) && pyval_eqb (col "phase" p) (PStr phase).
Definition in_phases (cls : string) (p : cols) (phases : list string) : bool :=
  pyval_eqb (col "effect_atomicity" p) (PStr cls)
  && existsb (fun ph => pyval_eqb (col "phase" p) (PStr ph)) phases.

(** A component of a sort key: [o[...] or ""].  A key that is neither text nor
    empty can only come from the parameters of a receipt without columns; it
    sorts as empty here. *)
Definition sort_text (v : pyval) : string := match v with PStr s => s | _ => "" end.

(** Lexicographic order on the triples the descriptors are sorted by. *)
Definition key3 : Type := string * string * string.
Definition key3_leb (a b : key3) : bool :=
  let '(a1, a2, a3) := a in
  let '(b1, b2, b3) := b in
  if negb (str_eqb a1 b1) then String.leb a1 b1
  else if negb (str_eqb a2 b2) then String.leb a2 b2
  else String.leb a3 b3.
Fixpoint insert3 {A} (key : A -> key3) (x : A) (l : list A) : list A :=
  match l with
  | [] => [x]
  | y :: l' => if key3_leb (key x) (key y) then x :: l else y :: insert3 key x l'
  end.
(** [l.sort(key=...)], stable. *)
Definition sort3 {A} (key : A -> key3) (l : list A) : list A := foldr (insert3 key) [] l.

(** * What the detectors report *)

Lemma insert3_perm {A} (key : A -> key3) x l : Permutation (insert3 key x l) (x :: l).
Proof.
  induction l as [|y l IH]; simpl; [done|]. destruct (key3_leb _ _); [done|].
  rewrite IH. apply perm_swap.
Qed.
Lemma sort3_perm {A} (key : A -> key3) l : Permutation (sort3 key l) l.
Proof. induction l as [|x l IH]; simpl; [done|]. by rewrite insert3_perm, IH. Qed.

Lemma elem_of_sort3 {A} (key : A -> key3) l x : x ∈ sort3 key l <-> x ∈ l.
Proof. by rewrite sort3_perm. Qed.

Lemma elem_of_Filter {A} (f : A -> bool) l x : x ∈ List.filter f l <-> x ∈ l /\ f x = true.
Proof. by rewrite !list_elem_of_In, filter_In. Qed.

Lemma filter_Permutation {A} (f : A -> bool) l k :
  Permutation l k -> Permutation (List.filter f l) (List.filter f k).
Proof.
  induction 1 as [|x l k _ IH|x y l|l k m _ IH1 _ IH2]; simpl; [done| | |by transitivity (List.filter f k)].
  - destruct (f x); [by constructor|done].
  - destruct (f x), (f y); try done. apply perm_swap.
Qed.

Lemma existsb_false {A} (f : A -> bool) l : existsb f l = false <-> forall x, x ∈ l -> f x = false.
Proof.
  split.
  - intros H x Hx. apply not_true_is_false. intros Hf.
    assert (existsb f l = true) as Ht by (apply existsb_exists; exists x; by rewrite <- list_elem_of_In).
    congruence.
  - intros H. apply not_true_is_false. intros (x & Hx & Hf)%existsb_exists.
    apply list_elem_of_In in Hx. apply H in Hx. congruence.
Qed.

Lemma existsb_perm {A} (f : A -> bool) l k : Permutation l k -> existsb f l = existsb f k.
Proof.
  intros Hp. destruct (existsb f k) eqn:H.
  - apply existsb_exists in H as (x & Hx & Hf). apply existsb_exists. exists x.
    split; [|done]. rewrite <- list_elem_of_In in *. by rewrite Hp.
  - apply existsb_false. intros x. rewrite Hp. by apply existsb_false.
Qed.

(** Both detectors of PREPAREs have this shape. *)
Lemma elem_of_detected {A} (key : A -> key3) (describe : Receipt -> A)
    (intent terminal : Receipt -> bool) (clears : Receipt -> Receipt -> bool) rs o :
  o ∈ sort3 key (map describe (List.filter
        (fun r => negb (existsb (fun t => clears t r) (List.filter terminal rs)))
        (List.filter intent rs))) <->
  exists r, r ∈ rs /\ intent r = true /\ o = describe r /\
    forall t, t ∈ rs -> terminal t = true -> clears t r = false.
Proof.
  rewrite elem_of_sort3. split.
  - intros (r & -> & Hr)%list_elem_of_fmap_1. apply elem_of_Filter in Hr as [Hr Hc].
    apply elem_of_Filter in Hr as [Hr Hi]. exists r. split_and!; try done.
    apply negb_true_iff in Hc. intros t Ht Htt.
    apply (proj1 (existsb_false _ _) Hc). by apply elem_of_Filter.
  - intros (r & Hr & Hi & -> & Hc). apply list_elem_of_fmap_2. apply elem_of_Filter.
    split; [by apply elem_of_Filter|]. apply negb_true_iff, existsb_false.
    intros t [Ht Htt]%elem_of_Filter. by apply Hc.
Qed.

Lemma detected_perm {A} (key : A -> key3) (describe describe' : Receipt -> A)
    (intent terminal : Receipt -> bool) (clears : Receipt -> Receipt -> bool) rs rs' :
  Permutation rs rs' -> (forall r, describe r = describe' r) ->
  Permutation
    (sort3 key (map describe (List.filter
        (fun r => negb (existsb (fun t => clears t r) (List.filter terminal rs)))
        (List.filter intent rs))))
    (sort3 key (map describe' (List.filter
        (fun r => negb (existsb (fun t => clears t r) (List.filter terminal rs')))
        (List.filter intent rs')))).
Proof.
  intros Hp Hd. rewrite !sort3_perm, (map_ext _ _ Hd). apply Permutation_map.
  erewrite filter_ext; [apply filter_Permutation, filter_Permutation, Hp|].
  intros r. cbn. f_equal. apply existsb_perm. by apply filter_Permutation.
Qed.

(** The phases of the terminals do not depend on the order of the receipts. *)
Lemma sorted_dups_perm l k : Permutation l k ->
  sorted_str (remove_dups l) = sorted_str (remove_dups k).
Proof.
  intros Hp. apply (sort_by_perm_eq id).
  - rewrite map_id. apply NoDup_remove_dups.
  - apply NoDup_Permutation; try apply NoDup_remove_dups. intros x.
    rewrite !elem_of_remove_dups. by rewrite Hp.
Qed.

(** Is some terminal among the receipts one that clears this intent? *)
Definition resolved (terminal : Receipt -> bool) (clears : Receipt -> Receipt -> bool)
    (rs : list Receipt) (r : Receipt) : Prop :=
  exists t, t ∈ rs /\ terminal t = true /\ clears t r = true.

Lemma unresolved terminal clears rs r :
  (forall t, t ∈ rs -> terminal t = true -> clears t r = false) <->
  ~ resolved terminal clears rs r.
Proof.
  split.
  - intros H (t & Ht & Htt & Hc). by rewrite (H t Ht Htt) in Hc.
  - intros H t Ht Htt. apply not_true_is_false. intros Hc. apply H. by exists t.
Qed.
