(* ===== verification/EffectsIrr.v ===== *)
(** The in-doubt detector of irreversible effects ([ugk/integrity/external_irreversible.py]):
    a pure scan of a list of receipts for PREPAREs without a terminal. *)
From S2P Require Import Prelude Json Receipt Effects.

Module Irreversible.

Definition EXTERNAL_IRREVERSIBLE := "external_irreversible".
Definition _TERMINAL_PHASES := ["commit"; "abort"].
Definition _M2C : list (string * string) :=
  [("effect_atomicity", "effect_atomicity"); ("phase", "effect_phase");
   ("idempotency_key", "effect_idempotency_key"); ("prepare_ref", "effect_prepare_ref");
   ("abort_reason", "effect_abort_reason"); ("gate_admit_ref", "effect_gate_admit_ref")].
Definition _params (r : Receipt) : cols := effect_view _M2C r.

Record orphan := {
  o_op : string;
  o_key : pyval;
  o_prepare_ref : string;
  o_state : string;
  o_prepare_ts : string;
  o_gate_admit_ref : pyval;
  key_has_terminal : bool;
  key_terminal_phases : list string;
}.

Definition is_prepare (r : Receipt) : bool :=
  is_phase EXTERNAL_IRREVERSIBLE (_params r) "prepare".
Definition is_terminal (r : Receipt) : bool :=
  negb (is_prepare r) && in_phases EXTERNAL_IRREVERSIBLE (_params r) _TERMINAL_PHASES.

(** A terminal of the same key that points back to this PREPARE. *)
Definition clears (t r : Receipt) : bool :=
  pyval_eqb (col "idempotency_key" (_params t)) (col "idempotency_key" (_params r))
  && pyval_eqb (col "prepare_ref" (_params t)) (PStr (h_r r)).

Definition describe (terminals : list Receipt) (r : Receipt) : orphan :=
  let p := _params r in
  let phases := sorted_str (remove_dups (map (fun t => sort_text (col "phase" (_params t)))
    (List.filter (fun t => pyval_eqb (col "idempotency_key" (_params t)) (col "idempotency_key" p))
       terminals))) in
  {| o_op := op r; o_key := col "idempotency_key" p; o_prepare_ref := h_r r;
     o_state := "in_doubt"; o_prepare_ts := timestamp r;
     o_gate_admit_ref := col "gate_admit_ref" p;
     key_has_terminal := match phases with [] => false | _ => true end;
     key_terminal_phases := phases |}.

Definition orphan_key (o : orphan) : key3 := (o_op o, sort_text (o_key o), o_prepare_ref o).

Definition detect_orphan_prepares (rs : list Receipt) : list orphan :=
  let prepares := List.filter is_prepare rs in
  let terminals := List.filter is_terminal rs in
  sort3 orphan_key (map (describe terminals)
    (List.filter (fun r => negb (existsb (fun t => clears t r) terminals)) prepares)).

Definition count_phase (rs : list Receipt) (phase : string) : Z :=
  Z.of_nat (length (List.filter (fun r => is_phase EXTERNAL_IRREVERSIBLE (_params r) phase) rs)).

(** [summarize], and [probe], which is the same. *)
Record census := {
  n_prepare : Z; n_commit : Z; n_abort : Z;
  orphans : list orphan;
  n_orphans : Z;
}.
Definition summarize (rs : list Receipt) : census :=
  let os := detect_orphan_prepares rs in
  {| n_prepare := count_phase rs "prepare"; n_commit := count_phase rs "commit";
     n_abort := count_phase rs "abort"; orphans := os; n_orphans := Z.of_nat (length os) |}.
Definition probe := summarize.
End Irreversible.

(** * What the detector reports *)

(** An irreversible effect is reported in doubt exactly when it is.  The reported
    descriptors are those of the PREPARE receipts to which no COMMIT or ABORT of
    the same idempotency key points back; they are as many as the census counts;
    reordering the receipts only reorders the report; and one more receipt puts
    nothing in doubt but itself. *)
Theorem orphans_exact rs :
  (forall o, o ∈ Irreversible.detect_orphan_prepares rs <-> exists r, r ∈ rs /\
     Irreversible.is_prepare r = true /\
     o = Irreversible.describe (List.filter Irreversible.is_terminal rs) r /\
     ~ resolved Irreversible.is_terminal Irreversible.clears rs r) /\
  Irreversible.n_orphans (Irreversible.summarize rs)
    = Z.of_nat (length (Irreversible.detect_orphan_prepares rs)) /\
  (forall rs', Permutation rs rs' -> Permutation (Irreversible.detect_orphan_prepares rs)
                                       (Irreversible.detect_orphan_prepares rs')) /\
  (forall t o, o ∈ Irreversible.detect_orphan_prepares (rs ++ [t]) ->
     Irreversible.is_prepare t = true /\ Irreversible.o_prepare_ref o = h_r t \/
     exists o', o' ∈ Irreversible.detect_orphan_prepares rs /\
       Irreversible.o_prepare_ref o' = Irreversible.o_prepare_ref o).
Proof.
  assert (Hspec : forall rs o, o ∈ Irreversible.detect_orphan_prepares rs <-> exists r, r ∈ rs /\
     Irreversible.is_prepare r = true /\
     o = Irreversible.describe (List.filter Irreversible.is_terminal rs) r /\
     ~ resolved Irreversible.is_terminal Irreversible.clears rs r).
  { intros rs0 o. unfold Irreversible.detect_orphan_prepares. rewrite elem_of_detected.
    by setoid_rewrite unresolved. }
  split_and!.
  - apply Hspec.
  - done.
  - intros rs' Hp. apply detected_perm; [done|]. intros r.
    unfold Irreversible.describe. cbv zeta.
    rewrite (sorted_dups_perm _ (map (fun t => sort_text (col "phase" (Irreversible._params t)))
      (List.filter (fun t => pyval_eqb (col "idempotency_key" (Irreversible._params t))
                               (col "idempotency_key" (Irreversible._params r)))
         (List.filter Irreversible.is_terminal rs')))); [done|].
    apply Permutation_map, filter_Permutation, filter_Permutation, Hp.
  - intros t o (r & Hr & Hp & -> & Hn)%Hspec. apply elem_of_app in Hr as [Hr|Hr].
    + right. eexists. split; [apply Hspec; exists r; split_and!; [done|done|reflexivity|]|done].
      intros (x & Hx & H). apply Hn. exists x. split; [|done]. apply elem_of_app. by left.
    + apply list_elem_of_singleton in Hr. subst r. by left.
Qed.
