(* ===== verification/EffectsRev.v ===== *)
(** The in-doubt detectors of reversible effects ([ugk/integrity/external_reversible.py]):
    the forward arc, the compensation arc, and the guard that decides whether an effect
    can still be compensated. *)
From S2P Require Import Prelude Json Receipt Effects.

Module Reversible.

Definition EXTERNAL_REVERSIBLE := "external_reversible".
Definition _FORWARD_TERMINAL_PHASES := ["commit"; "abort"].
Definition _COMP_TERMINAL_PHASES := ["compensated"; "compensation_failed"].
Definition _M2C : list (string * string) :=
  [("effect_atomicity", "effect_atomicity"); ("phase", "effect_phase");
   ("idempotency_key", "effect_idempotency_key"); ("prepare_ref", "effect_prepare_ref");
   ("compensate_ref", "effect_compensate_ref");
   ("compensation_idempotency_key", "effect_compensation_idempotency_key");
   ("abort_reason", "effect_abort_reason"); ("gate_admit_ref", "effect_gate_admit_ref")].
Definition _params (r : Receipt) : cols := effect_view _M2C r.

Definition rev_phase (phase : string) (r : Receipt) : bool :=
  is_phase EXTERNAL_REVERSIBLE (_params r) phase.

(** *** The forward arc *)

Record orphan := {
  o_op : string;
  o_key : pyval;
  o_prepare_ref : string;
  o_state : string;
  o_arc : string;
  o_gate_admit_ref : pyval;
}.

Definition is_prepare (r : Receipt) : bool := rev_phase "prepare" r.
Definition is_terminal (r : Receipt) : bool :=
  negb (is_prepare r) && in_phases EXTERNAL_REVERSIBLE (_params r) _FORWARD_TERMINAL_PHASES.
Definition clears (t r : Receipt) : bool :=
  pyval_eqb (col "idempotency_key" (_params t)) (col "idempotency_key" (_params r))
  && pyval_eqb (col "prepare_ref" (_params t)) (PStr (h_r r)).
Definition describe (r : Receipt) : orphan :=
  {| o_op := op r; o_key := col "idempotency_key" (_params r); o_prepare_ref := h_r r;
     o_state := "in_doubt"; o_arc := "forward";
     o_gate_admit_ref := col "gate_admit_ref" (_params r) |}.
Definition orphan_key (o : orphan) : key3 := (o_op o, sort_text (o_key o), o_prepare_ref o).

Definition detect_orphan_prepares (rs : list Receipt) : list orphan :=
  let terminals := List.filter is_terminal rs in
  sort3 orphan_key (map describe
    (List.filter (fun r => negb (existsb (fun t => clears t r) terminals))
       (List.filter is_prepare rs))).

(** *** The compensation arc *)

Record comp_orphan := {
  c_op : string;
  c_compensate_ref : pyval;
  c_key : pyval;
  c_compensate_h_r : string;
  c_state : string;
  c_arc : string;
}.

Definition is_compensate (r : Receipt) : bool := rev_phase "compensate" r.
Definition is_comp_terminal (r : Receipt) : bool :=
  negb (is_compensate r) && in_phases EXTERNAL_REVERSIBLE (_params r) _COMP_TERMINAL_PHASES.
Definition comp_clears (t r : Receipt) : bool :=
  pyval_eqb (col "compensate_ref" (_params t)) (col "compensate_ref" (_params r))
  && pyval_eqb (col "compensation_idempotency_key" (_params t))
               (col "compensation_idempotency_key" (_params r)).
Definition comp_describe (r : Receipt) : comp_orphan :=
  {| c_op := op r; c_compensate_ref := col "compensate_ref" (_params r);
     c_key := col "compensation_idempotency_key" (_params r); c_compensate_h_r := h_r r;
     c_state := "in_doubt"; c_arc := "compensation" |}.
Definition comp_orphan_key (o : comp_orphan) : key3 :=
  (c_op o, sort_text (c_compensate_ref o), sort_text (c_key o)).

Definition detect_orphan_compensates (rs : list Receipt) : list comp_orphan :=
  let terminals := List.filter is_comp_terminal rs in
  sort3 comp_orphan_key (map comp_describe
    (List.filter (fun r => negb (existsb (fun t => comp_clears t r) terminals))
       (List.filter is_compensate rs))).

Definition detect_orphans (rs : list Receipt) : list orphan * list comp_orphan :=
  (detect_orphan_prepares rs, detect_orphan_compensates rs).

(** *** The compensation guard *)

Record scan := {
  committed : option (string * pyval);
  aborted : bool;
  already_compensated : bool;
}.
Definition scan_step (prepare_ref : string) (s : scan) (r : Receipt) : scan :=
  let p := _params r in
  if negb (pyval_eqb (col "effect_atomicity" p) (PStr EXTERNAL_REVERSIBLE)) then s
  else if pyval_eqb (col "phase" p) (PStr "commit")
          && pyval_eqb (col "prepare_ref" p) (PStr prepare_ref) then
    {| committed := Some (op r, col "idempotency_key" p); aborted := aborted s;
       already_compensated := already_compensated s |}
  else if pyval_eqb (col "phase" p) (PStr "abort")
          && pyval_eqb (col "prepare_ref" p) (PStr prepare_ref) then
    {| committed := committed s; aborted := true; already_compensated := already_compensated s |}
  else if pyval_eqb (col "phase" p) (PStr "compensate")
          && pyval_eqb (col "compensate_ref" p) (PStr prepare_ref) then
    {| committed := committed s; aborted := aborted s; already_compensated := true |}
  else s.

(** The operation and the key of the committed forward effect, if it can still be
    compensated. *)
Definition find_committed_forward (rs : list Receipt) (prepare_ref : string) :
    option (string * pyval) :=
  let s := foldl (scan_step prepare_ref)
             {| committed := None; aborted := false; already_compensated := false |} rs in
  if aborted s || already_compensated s then None else committed s.
End Reversible.

(** * What the detectors report *)

(** Both arcs of a reversible effect are reported in doubt exactly when they are:
    a forward PREPARE without a COMMIT or ABORT of its key that points back to it,
    a COMPENSATE without a COMPENSATED or COMPENSATION_FAILED of its reference and
    compensation key; reordering the receipts only reorders the reports. *)
Theorem reversible_orphans_exact rs :
  (forall o, o ∈ Reversible.detect_orphan_prepares rs <-> exists r, r ∈ rs /\
     Reversible.is_prepare r = true /\ o = Reversible.describe r /\
     ~ resolved Reversible.is_terminal Reversible.clears rs r) /\
  (forall o, o ∈ Reversible.detect_orphan_compensates rs <-> exists r, r ∈ rs /\
     Reversible.is_compensate r = true /\ o = Reversible.comp_describe r /\
     ~ resolved Reversible.is_comp_terminal Reversible.comp_clears rs r) /\
  (forall rs', Permutation rs rs' ->
     Permutation (Reversible.detect_orphan_prepares rs) (Reversible.detect_orphan_prepares rs') /\
     Permutation (Reversible.detect_orphan_compensates rs)
                 (Reversible.detect_orphan_compensates rs')).
Proof.
  split_and!.
  - intros o. unfold Reversible.detect_orphan_prepares. rewrite elem_of_detected.
    by setoid_rewrite unresolved.
  - intros o. unfold Reversible.detect_orphan_compensates. rewrite elem_of_detected.
    by setoid_rewrite unresolved.
  - intros rs' Hp. split; by apply detected_perm.
Qed.

Section compensable.
Import Reversible.
Context (ref : string).

Definition commits (r : Receipt) : bool :=
  rev_phase "commit" r && pyval_eqb (col "prepare_ref" (_params r)) (PStr ref).
Definition aborts (r : Receipt) : bool :=
  rev_phase "abort" r && pyval_eqb (col "prepare_ref" (_params r)) (PStr ref).
Definition compensates (r : Receipt) : bool :=
  rev_phase "compensate" r && pyval_eqb (col "compensate_ref" (_params r)) (PStr ref).

Lemma scan_step_spec s r : scan_step ref s r =
  {| committed := if commits r then Some (op r, col "idempotency_key" (_params r)) else committed s;
     aborted := aborts r || aborted s; already_compensated := compensates r || already_compensated s |}.
Proof.
  unfold scan_step, commits, aborts, compensates, rev_phase, is_phase. cbv zeta.
  destruct (pyval_eqb (col "effect_atomicity" (_params r)) (PStr EXTERNAL_REVERSIBLE));
    cbn [negb andb]; [|by destruct s].
  assert (Hph : forall a b, pyval_eqb (col "phase" (_params r)) (PStr a) = true ->
    pyval_eqb (col "phase" (_params r)) (PStr b) = true -> a = b).
  { intros a b Ha%pyval_eqb_str Hb%pyval_eqb_str. congruence. }
  destruct (pyval_eqb (col "phase" (_params r)) (PStr "commit")) eqn:H1;
    destruct (pyval_eqb (col "phase" (_params r)) (PStr "abort")) eqn:H2;
    try (by pose proof (Hph _ _ H1 H2));
    destruct (pyval_eqb (col "phase" (_params r)) (PStr "compensate")) eqn:H3;
    try (by pose proof (Hph _ _ H1 H3)); try (by pose proof (Hph _ _ H2 H3)); cbn [andb orb].
  - destruct (pyval_eqb (col "prepare_ref" (_params r)) (PStr ref)); [done|by destruct s].
  - destruct (pyval_eqb (col "prepare_ref" (_params r)) (PStr ref)); [done|by destruct s].
  - destruct (pyval_eqb (col "compensate_ref" (_params r)) (PStr ref)); [done|by destruct s].
  - by destruct s.
Qed.

Lemma scan_all rs s : foldl (scan_step ref) s rs =
  {| committed := match last (List.filter commits rs) with
                  | Some r => Some (op r, col "idempotency_key" (_params r)) | None => committed s end;
     aborted := existsb aborts rs || aborted s;
     already_compensated := existsb compensates rs || already_compensated s |}.
Proof.
  revert s. induction rs as [|r rs IH]; intros s; [by destruct s|]. cbn [foldl existsb List.filter].
  rewrite IH, scan_step_spec. cbn [committed aborted already_compensated]. f_equal.
  - destruct (commits r); [|done]. destruct (List.filter commits rs) as [|x l] eqn:Hf; [done|].
    rewrite (last_cons r (x :: l)), (last_cons x l). by destruct (last l).
  - destruct (aborts r), (existsb aborts rs); by rewrite ?orb_true_r, ?orb_false_r.
  - destruct (compensates r), (existsb compensates rs); by rewrite ?orb_true_r, ?orb_false_r.
Qed.

(** Only a performed and not yet offset effect can be compensated.
    [find_committed_forward] answers exactly when some COMMIT names the PREPARE,
    no ABORT does and no COMPENSATE has been written for it, with the operation
    and the idempotency key of the last such COMMIT. *)
Theorem find_committed_forward_spec rs c :
  find_committed_forward rs ref = Some c <->
  (exists r, last (List.filter commits rs) = Some r /\
     c = (op r, col "idempotency_key" (_params r))) /\
  (forall r, r ∈ rs -> aborts r = false /\ compensates r = false).
Proof.
  unfold find_committed_forward. cbv zeta. rewrite scan_all.
  cbn [committed aborted already_compensated]. rewrite !orb_false_r.
  destruct (existsb aborts rs || existsb compensates rs) eqn:H.
  - split; [done|]. intros [_ Hn]. exfalso.
    assert (existsb aborts rs = false) as Ha by (apply existsb_false; intros r Hr; by apply Hn).
    assert (existsb compensates rs = false) as Hc by (apply existsb_false; intros r Hr; by apply Hn).
    by rewrite Ha, Hc in H.
  - apply orb_false_iff in H as [Ha Hc]. rewrite existsb_false in Ha, Hc.
    destruct (last (List.filter commits rs)) as [r|]; split.
    + intros <-%Some_inj'. split; [by exists r|]. auto.
    + intros [(r' & <-%Some_inj' & ->) _]. done.
    + done.
    + by intros [(r & ? & _) _].
Qed.
End compensable.
