(* ===== verification/Csh.v ===== *)
(** The finality layer ([ugk/csh.py]): attestations, the sealed validator set, the
    inception certificate, rotation, equivocation and the quorum. *)
From S2P Require Import Prelude Json Sha256 Binding Receipt Frame.

(** ** Signed artifacts *)

Record Attestation := {
  att_mosaic_root : string;
  att_hash : string;               (** [constitutional_hash] *)
  att_phase_code : string;
  epoch : Z;
  att_timestamp : string;
  att_signature : string;
  att_pubkey : string;
}.
Definition attestation_body (h : string) (ep : Z) (root phase ts : string) : pyval := PDict
  [("constitutional_hash", PStr h); ("epoch", PInt ep); ("mosaic_root", PStr root);
   ("phase_code", PStr phase); ("timestamp", PStr ts)].
Definition sig_payload (a : Attestation) : result exn string :=
  Binding.canonical_json (attestation_body (att_hash a) (epoch a) (att_mosaic_root a)
                    (att_phase_code a) (att_timestamp a)).

Record ValidatorSet := {
  validators : list string;
  n_validators : Z;
  sealed_by : string;
  sealed_hash : string;
  seal_signature : string;
  sealer_pubkey : string;
}.
Definition seal_body (n : Z) (by_ : string) (vs : list string) : pyval := PDict
  [("n_validators", PInt n); ("sealed_by", PStr by_); ("validators", PList (map PStr vs))].
Definition seal_payload (v : ValidatorSet) : result exn string :=
  Binding.canonical_json (seal_body (n_validators v) (sealed_by v) (validators v)).
Definition vs_contains (v : ValidatorSet) (root : string) : bool := mem_str root (validators v).
Definition compute_sealed_hash (vs : list string) : result exn string :=
  let* b := Binding.canonical_json (PDict [("validators", PList (map PStr (sorted_str vs)))]) in
  Ok (sha256_hex b).

Record InceptionCertificate := {
  ic_type : string;
  ic_phase_code : string;
  ic_constitutional_hash : string;
  ic_mosaic_root : string;
  ic_dimension_id : string;
  ic_n_validators : Z;
  validator_set_hash : string;
  sunset_declared : bool;
  ic_timestamp : string;
  ic_signature : string;
  governor_pubkey : string;
}.
Definition ic_payload (c : InceptionCertificate) : result exn string :=
  Binding.canonical_json (PDict
    [("constitutional_hash", PStr (ic_constitutional_hash c));
     ("dimension_id", PStr (ic_dimension_id c)); ("ic_type", PStr (ic_type c));
     ("mosaic_root", PStr (ic_mosaic_root c)); ("n_validators", PInt (ic_n_validators c));
     ("phase_code", PStr (ic_phase_code c)); ("sunset_declared", PBool (sunset_declared c));
     ("timestamp", PStr (ic_timestamp c)); ("validator_set_hash", PStr (validator_set_hash c))]).
Definition ic_hash (c : InceptionCertificate) : result exn string :=
  let* b := ic_payload c in Ok (sha256_hex b).

(** [rule_type] of a rotation follows from the number of successors. *)
Record RotationRule := {
  rule_type : string;
  current_holder : string;
  successors : list string;
  governed_by_ic : string;
  declared_at : string;
}.
Definition declare_rotation_rule (holder : string) (succ : list string) (ic ts : string) :
    RotationRule :=
  {| rule_type := if 1 <? Z.of_nat (length succ) then "chain" else "single_successor";
     current_holder := holder; successors := succ; governed_by_ic := ic; declared_at := ts |}.

Section csh.
Context {E : Ed25519}.

Definition att_verify (a : Attestation) : result exn bool :=
  let* p := sig_payload a in ed_verify p (att_signature a) (att_pubkey a).
Definition create_attestation (priv pub h phase : string) (ep : Z) (ts : string) :
    result exn Attestation :=
  let* root := mosaic_id pub DEFAULT_ALGORITHM_ID in
  let* p := Binding.canonical_json (attestation_body h ep root phase ts) in
  Ok {| att_mosaic_root := root; att_hash := h; att_phase_code := phase; epoch := ep;
        att_timestamp := ts; att_signature := ed_sign p priv; att_pubkey := pub |}.

Definition verify_seal (v : ValidatorSet) : result exn bool :=
  let* p := seal_payload v in ed_verify p (seal_signature v) (sealer_pubkey v).
Definition seal_validator_set (priv pub : string) (vs : list string) : result exn ValidatorSet :=
  let* root := mosaic_id pub DEFAULT_ALGORITHM_ID in
  let sorted := sorted_str vs in
  let n := Z.of_nat (length sorted) in
  let* h := compute_sealed_hash sorted in
  let* p := Binding.canonical_json (seal_body n root sorted) in
  Ok {| validators := sorted; n_validators := n; sealed_by := root; sealed_hash := h;
        seal_signature := ed_sign p priv; sealer_pubkey := pub |}.

Definition ic_verify (c : InceptionCertificate) : result exn bool :=
  let* p := ic_payload c in ed_verify p (ic_signature c) (governor_pubkey c).
Definition create_launch_ic (priv pub h dimension phase vs_hash : string) (n : Z) (ts : string) :
    result exn InceptionCertificate :=
  let* root := mosaic_id pub DEFAULT_ALGORITHM_ID in
  let ic sg := {| ic_type := "trusted-genesis"; ic_phase_code := phase;
                  ic_constitutional_hash := h; ic_mosaic_root := root;
                  ic_dimension_id := dimension; ic_n_validators := n;
                  validator_set_hash := vs_hash; sunset_declared := true; ic_timestamp := ts;
                  ic_signature := sg; governor_pubkey := pub |} in
  let* p := ic_payload (ic "") in Ok (ic (ed_sign p priv)).

(** ** Equivocation *)

(** [by_validator.setdefault(key, set()).add(hash)] *)
Fixpoint add_vote (k : string * Z) (h : string) (d : list ((string * Z) * gset string)) :
    list ((string * Z) * gset string) :=
  match d with
  | [] => [(k, {[h]})]
  | (k', hs) :: d' => if bool_decide (k = k') then (k', {[h]} ∪ hs) :: d'
                      else (k', hs) :: add_vote k h d'
  end.
Definition by_validator (atts : list Attestation) : list ((string * Z) * gset string) :=
  foldl (fun d a => add_vote (att_mosaic_root a, epoch a) (att_hash a) d) [] atts.
Definition detect_equivocation (atts : list Attestation) : list string :=
  sorted_str (remove_dups (map (fun kv => fst (fst kv))
    (List.filter (fun kv => (1 <? size (snd kv))%nat) (by_validator atts)))).

(** ** Finality *)

(** ceil((2N+1)/3), at least 1. *)
Definition _quorum_threshold (n : Z) : Z := Z.max 1 ((2 * n + 1 + 2) / 3).

Record MCIR := {
  m_hash : string;
  valid_attestations : list Attestation;
  invalid_attestations : list Attestation;
  equivocators : list string;
  quorum_threshold : Z;
  quorum_achieved : bool;
  finality_hash : string;
}.

(** One attestation at a time; the checks are in order and the first that fails
    decides. *)
Fixpoint sift (eqv : list string) (vs : ValidatorSet) (h : string)
    (atts valid invalid : list Attestation) (seen : list string) :
    result exn (list Attestation * list Attestation) :=
  match atts with
  | [] => Ok (valid, invalid)
  | a :: rest =>
      let reject := sift eqv vs h rest valid (invalid ++ [a]) seen in
      if mem_str (att_mosaic_root a) eqv then reject
      else if negb (vs_contains vs (att_mosaic_root a)) then reject
      else if negb (str_eqb (att_hash a) h) then reject
      else
        let* good := att_verify a in
        if negb good then reject
        else if mem_str (att_mosaic_root a) seen then sift eqv vs h rest valid invalid seen
        else sift eqv vs h rest (valid ++ [a]) invalid (att_mosaic_root a :: seen)
  end.

Definition achieve_finality (atts : list Attestation) (vs : ValidatorSet) (h : string) :
    result exn MCIR :=
  let eqv := detect_equivocation atts in
  let* ' (valid, invalid) := sift eqv vs h atts [] [] [] in
  let threshold := _quorum_threshold (n_validators vs) in
  let quorum_ok := threshold <=? Z.of_nat (length valid) in
  let* fh := if quorum_ok then
      let* b := Binding.canonical_json (PDict [("signatures",
                  PList (map PStr (sorted_str (map att_signature valid))))]) in
      Ok (sha256_hex b)
    else Ok "" in
  Ok {| m_hash := h; valid_attestations := valid; invalid_attestations := invalid;
        equivocators := eqv; quorum_threshold := threshold; quorum_achieved := quorum_ok;
        finality_hash := fh |}.
End csh.

(** * Equivocation, declaratively *)

Lemma add_vote_keys k h d : NoDup (map fst d) -> NoDup (map fst (add_vote k h d)) /\
  forall k', k' ∈ map fst (add_vote k h d) <-> k' = k \/ k' ∈ map fst d.
Proof.
  induction d as [|[k1 hs] d IH]; cbn [map fst add_vote]; intros Hn.
  - split; [by apply NoDup_singleton|]. intros k'. by rewrite elem_of_cons.
  - apply NoDup_cons in Hn as [Hk Hn]. destruct (IH Hn) as [H1 H2].
    case_bool_decide as He; [subst k1|]; cbn [map fst].
    + split; [by apply NoDup_cons|]. intros k'. rewrite !elem_of_cons. tauto.
    + split; [|intros k'; rewrite !elem_of_cons, H2; tauto].
      apply NoDup_cons. split; [|done]. rewrite H2. intros [?|?]; [congruence|done].
Qed.

Lemma add_vote_spec k h d k' h' : NoDup (map fst d) ->
  (exists hs, (k', hs) ∈ add_vote k h d /\ h' ∈ hs) <->
  (k' = k /\ h' = h) \/ (exists hs, (k', hs) ∈ d /\ h' ∈ hs).
Proof.
  induction d as [|[k1 hs] d IH]; cbn [add_vote map fst]; intros Hn.
  - split.
    + intros (x & Hx & Hh). apply list_elem_of_singleton in Hx. injection Hx as -> ->.
      apply elem_of_singleton in Hh as ->. by left.
    + intros [[-> ->]|(x & Hx & _)]; [|by apply elem_of_nil in Hx].
      exists {[h]}. split; [by left|by apply elem_of_singleton].
  - apply NoDup_cons in Hn as [Hk Hn]. specialize (IH Hn). setoid_rewrite elem_of_cons.
    case_bool_decide as He; [subst k1|]; setoid_rewrite elem_of_cons; split.
    + intros (x & [[= -> ->]|Hx] & Hh); [|right; exists x; auto].
      apply elem_of_union in Hh as [->%elem_of_singleton|Hh]; [by left|]. right. exists hs. auto.
    + intros [[-> ->]|(x & [[= -> ->]|Hx] & Hh)]; [exists ({[h]} ∪ hs)|exists ({[h]} ∪ hs)|exists x; auto];
        (split; [by left|]); apply elem_of_union; [left; by apply elem_of_singleton|by right].
    + intros (x & [Hx|Hx] & Hh); [right; exists x; auto|].
      destruct (proj1 IH) as [H|(y & Hy & Hh')]; [by exists x|by left|right; exists y; auto].
    + intros [H|(x & [Hx|Hx] & Hh)].
      * destruct (proj2 IH) as (y & Hy & Hh'); [by left|]. exists y. auto.
      * exists x. auto.
      * destruct (proj2 IH) as (y & Hy & Hh'); [right; by exists x|]. exists y. auto.
Qed.

Lemma by_validator_spec atts :
  NoDup (map fst (by_validator atts)) /\
  forall k h, (exists hs, (k, hs) ∈ by_validator atts /\ h ∈ hs) <->
    exists a, a ∈ atts /\ k = (att_mosaic_root a, epoch a) /\ h = att_hash a.
Proof.
  unfold by_validator.
  assert (H : forall d, NoDup (map fst d) ->
    let d' := foldl (fun d a => add_vote (att_mosaic_root a, epoch a) (att_hash a) d) d atts in
    NoDup (map fst d') /\ forall k h, (exists hs, (k, hs) ∈ d' /\ h ∈ hs) <->
      (exists hs, (k, hs) ∈ d /\ h ∈ hs) \/
      exists a, a ∈ atts /\ k = (att_mosaic_root a, epoch a) /\ h = att_hash a).
  { induction atts as [|a atts IH]; intros d Hn; cbn [foldl].
    - split; [done|]. intros k h. split; [auto|]. intros [?|(a & Ha & _)]; [done|by apply elem_of_nil in Ha].
    - destruct (add_vote_keys (att_mosaic_root a, epoch a) (att_hash a) d Hn) as [Hn' _].
      destruct (IH _ Hn') as [H1 H2]. split; [done|]. intros k h. rewrite H2, add_vote_spec by done.
      setoid_rewrite elem_of_cons. split.
      + intros [[[-> ->]|?]|(b & Hb & H)]; [right; exists a; auto|by left|right; exists b; auto].
      + intros [?|(b & [->|Hb] & -> & ->)]; [auto|auto|right; by exists b]. }
  destruct (H [] (NoDup_nil_2)) as [H1 H2]. split; [done|]. intros k h. rewrite H2.
  split; [|auto]. intros [(hs & Hs & _)|?]; [by apply elem_of_nil in Hs|done].
Qed.

Lemma size_two (X : gset string) : (1 < size X)%nat <-> exists x y, x ∈ X /\ y ∈ X /\ x <> y.
Proof.
  split.
  - intros H. destruct (size_pos_elem_of X) as [x Hx]; [lia|].
    destruct (size_pos_elem_of (X ∖ {[x]})) as [y Hy].
    { rewrite size_difference, size_singleton; [lia|set_solver]. }
    exists x, y. set_solver.
  - intros (x & y & Hx & Hy & Hne). assert ({[x; y]} ⊆ X) as Hs by set_solver.
    apply subseteq_size in Hs. rewrite size_union, !size_singleton in Hs; [lia|set_solver].
Qed.

(** Two attestations of one validator and one epoch that disagree. *)
Definition equivocates (atts : list Attestation) (root : string) : Prop :=
  exists a b, a ∈ atts /\ b ∈ atts /\ att_mosaic_root a = root /\ att_mosaic_root b = root /\
    epoch a = epoch b /\ att_hash a <> att_hash b.

Lemma detect_equivocation_spec atts root : root ∈ detect_equivocation atts <-> equivocates atts root.
Proof.
  destruct (by_validator_spec atts) as [Hn Hspec]. unfold detect_equivocation, equivocates.
  rewrite sorted_str_perm, elem_of_remove_dups, list_elem_of_fmap. split.
  - intros ([[r ep] hs] & -> & Hx). cbn [fst].
    rewrite list_elem_of_In, filter_In, <- list_elem_of_In in Hx. destruct Hx as [Hx Hsz].
    apply Nat.ltb_lt, size_two in Hsz as (x & y & Hx' & Hy' & Hne).
    destruct (proj1 (Hspec (r, ep) x)) as (a & Ha & [= -> ->] & ->); [by exists hs|].
    destruct (proj1 (Hspec (att_mosaic_root a, epoch a) y)) as (b & Hb & [= Hr He] & ->); [by exists hs|].
    exists a, b. by split_and!.
  - intros (a & b & Ha & Hb & <- & Hr & He & Hne).
    destruct (proj2 (Hspec (att_mosaic_root a, epoch a) (att_hash a))) as (hs & Hs & Hha); [by exists a|].
    destruct (proj2 (Hspec (att_mosaic_root a, epoch a) (att_hash b))) as (hs' & Hs' & Hhb).
    { exists b. rewrite <- Hr, He. auto. }
    assert (hs' = hs) as ->.
    { apply list_elem_of_lookup in Hs as [i Hi]. apply list_elem_of_lookup in Hs' as [j Hj].
      assert (i = j) as ->.
      { eapply (NoDup_lookup (map fst (by_validator atts))); [done|..];
          rewrite list_lookup_fmap; [by rewrite Hi|by rewrite Hj]. }
      rewrite Hi in Hj. by injection Hj. }
    exists (att_mosaic_root a, epoch a, hs). split; [done|].
    rewrite list_elem_of_In, filter_In, <- list_elem_of_In. split; [done|].
    apply Nat.ltb_lt, size_two. by exists (att_hash a), (att_hash b).
Qed.

(** * The quorum *)

Lemma nodup_sub_length (l k : list string) : NoDup l -> l ⊆ k -> (length l <= length k)%nat.
Proof. intros Hn Hs. by apply submseteq_length, NoDup_submseteq. Qed.

Lemma filter_length_split {A} (P : A -> Prop) `{forall x, Decision (P x)} (l : list A) :
  (length (filter P l) + length (filter (fun x => ~ P x) l) = length l)%nat.
Proof.
  induction l as [|x l IH]; [done|]. rewrite !filter_cons.
  destruct (decide (P x)), (decide (~ P x)); cbn [length]; try done; lia.
Qed.

Lemma overlap_length (vs q1 q2 : list string) : NoDup q1 -> NoDup q2 -> q1 ⊆ vs -> q2 ⊆ vs ->
  (length q1 + length q2 <= length vs + length (filter (.∈ q1) q2))%nat.
Proof.
  intros H1 H2 Hs1 Hs2. pose proof (filter_length_split (.∈ q1) q2).
  assert (length (q1 ++ filter (.∉ q1) q2) <= length vs)%nat.
  { apply nodup_sub_length.
    - apply NoDup_app. split_and!; [done| |by apply NoDup_filter].
      intros x Hx Hf%list_elem_of_filter. tauto.
    - intros x [Hx|[_ Hx]%list_elem_of_filter]%elem_of_app; auto. }
  rewrite length_app in *. lia.
Qed.

(** The quorum is the smallest two-thirds majority.  For a set of N validators the
    threshold is at least one, at most N, more than two thirds of N and minimal such;
    any two quorums of validators without repetition share more than a third of them,
    however the two are chosen. *)
Lemma quorum_bounds n : 1 <= n ->
  1 <= _quorum_threshold n <= n /\
  2 * n < 3 * _quorum_threshold n /\ 3 * (_quorum_threshold n - 1) <= 2 * n /\
  forall vs q1 q2 : list string, Z.of_nat (length vs) = n -> NoDup q1 -> NoDup q2 ->
    q1 ⊆ vs -> q2 ⊆ vs ->
    _quorum_threshold n <= Z.of_nat (length q1) -> _quorum_threshold n <= Z.of_nat (length q2) ->
    exists common, NoDup common /\ common ⊆ q1 /\ common ⊆ q2 /\ n < 3 * Z.of_nat (length common).
Proof.
  intros Hn. unfold _quorum_threshold. pose proof (Z.div_mod (2 * n + 1 + 2) 3 ltac:(lia)).
  pose proof (Z.mod_pos_bound (2 * n + 1 + 2) 3 ltac:(lia)). split_and!; try lia.
  intros vs q1 q2 Hvs Hq1 Hq2 Hs1 Hs2 Hl1 Hl2.
  exists (filter (.∈ q1) q2). split_and!; [by apply NoDup_filter| | |].
  - intros x [Hx _]%list_elem_of_filter. done.
  - intros x [_ Hx]%list_elem_of_filter. done.
  - pose proof (overlap_length vs q1 q2 Hq1 Hq2 Hs1 Hs2). lia.
Qed.


Section finality.
Context {E : Ed25519}.

(** An attestation that counts for [h]. *)
Definition counts (atts : list Attestation) (vs : ValidatorSet) (h : string) (a : Attestation) : Prop :=
  a ∈ atts /\ ~ equivocates atts (att_mosaic_root a) /\ att_mosaic_root a ∈ validators vs /\
  att_hash a = h /\ att_verify a = Ok true.

Lemma sift_spec eqv vs h atts valid invalid seen valid' invalid' :
  sift eqv vs h atts valid invalid seen = Ok (valid', invalid') ->
  (forall r, r ∈ seen <-> r ∈ map att_mosaic_root valid) -> NoDup (map att_mosaic_root valid) ->
  exists new, valid' = valid ++ new /\ NoDup (map att_mosaic_root valid') /\
    (forall a, a ∈ new -> a ∈ atts /\ att_mosaic_root a ∉ eqv /\
       att_mosaic_root a ∈ validators vs /\ att_hash a = h /\ att_verify a = Ok true) /\
    (forall a, a ∈ atts -> att_mosaic_root a ∉ eqv -> att_mosaic_root a ∈ validators vs ->
       att_hash a = h -> att_verify a = Ok true -> att_mosaic_root a ∈ map att_mosaic_root valid').
Proof.
  revert valid invalid seen. induction atts as [|a atts IH]; intros valid invalid seen H Hseen Hn; cbn [sift] in H.
  { apply Ok_inj, pair_ok in H as [<- _]. exists []. rewrite app_nil_r.
    split_and!; [done|done|intros a Ha; by apply elem_of_nil in Ha|intros a Ha; by apply elem_of_nil in Ha]. }
  assert (Hskip : forall valid invalid seen,
    sift eqv vs h atts valid invalid seen = Ok (valid', invalid') ->
    (forall r, r ∈ seen <-> r ∈ map att_mosaic_root valid) -> NoDup (map att_mosaic_root valid) ->
    (att_mosaic_root a ∉ eqv -> att_mosaic_root a ∈ validators vs -> att_hash a = h ->
       att_verify a = Ok true -> att_mosaic_root a ∈ map att_mosaic_root valid) ->
    exists new, valid' = valid ++ new /\ NoDup (map att_mosaic_root valid') /\
    (forall x, x ∈ new -> x ∈ a :: atts /\ att_mosaic_root x ∉ eqv /\
       att_mosaic_root x ∈ validators vs /\ att_hash x = h /\ att_verify x = Ok true) /\
    (forall x, x ∈ a :: atts -> att_mosaic_root x ∉ eqv -> att_mosaic_root x ∈ validators vs ->
       att_hash x = h -> att_verify x = Ok true -> att_mosaic_root x ∈ map att_mosaic_root valid')).
  { intros v i s Hs Hse Hnd Ha. destruct (IH v i s Hs Hse Hnd) as (new & -> & H1 & H2 & H3).
    exists new. split_and!; [done|done| |].
    - intros x Hx. destruct (H2 x Hx) as (? & ?). split; [by right|done].
    - intros x [->|Hx]%elem_of_cons; [|by apply H3]. intros. rewrite map_app. apply elem_of_app. left. auto. }
  destruct (mem_str (att_mosaic_root a) eqv) eqn:Hm.
  { apply mem_str_spec in Hm. apply (Hskip _ _ _ H); auto. done. }
  destruct (vs_contains vs (att_mosaic_root a)) eqn:Hv; cbn [negb] in H.
  2:{ apply mem_str_false in Hv. apply (Hskip _ _ _ H); auto. done. }
  destruct (str_eqb (att_hash a) h) eqn:Hh; cbn [negb] in H.
  2:{ apply str_eqb_false in Hh. apply (Hskip _ _ _ H); auto. done. }
  apply rbind_ok in H as (good & Hg & H). destruct good; cbn [negb] in H.
  2:{ apply (Hskip _ _ _ H); auto. congruence. }
  destruct (mem_str (att_mosaic_root a) seen) eqn:Hs.
  { apply mem_str_spec, Hseen in Hs. apply (Hskip _ _ _ H); auto. }
  apply mem_str_false in Hs. apply mem_str_false in Hm. apply mem_str_spec in Hv. apply str_eqb_spec in Hh.
  destruct (Hskip _ _ _ H) as (new & -> & H1 & H2 & H3).
  - intros r. rewrite map_app, elem_of_cons, elem_of_app, Hseen. cbn [map].
    rewrite list_elem_of_singleton. tauto.
  - rewrite map_app. apply NoDup_app. split_and!; [done| |apply NoDup_singleton].
    intros r Hr Hra%list_elem_of_singleton. subst r. by apply Hs, Hseen.
  - intros. rewrite map_app. apply elem_of_app. right. by left.
  - exists (a :: new). rewrite <- app_assoc in *. cbn [app] in *. split_and!; [done|done| |done].
    intros x [->|Hx]%elem_of_cons; [|by apply H2]. split_and!; try done. by left.
Qed.

Lemma finality_valid atts vs h m : achieve_finality atts vs h = Ok m ->
  NoDup (map att_mosaic_root (valid_attestations m)) /\
  (forall a, a ∈ valid_attestations m -> counts atts vs h a) /\
  (forall a, counts atts vs h a -> att_mosaic_root a ∈ map att_mosaic_root (valid_attestations m)) /\
  quorum_achieved m = (_quorum_threshold (n_validators vs) <=? Z.of_nat (length (valid_attestations m))) /\
  equivocators m = detect_equivocation atts /\
  (if quorum_achieved m then
     rmap sha256_hex (Binding.canonical_json (PDict [("signatures",
       PList (map PStr (sorted_str (map att_signature (valid_attestations m)))))])) = Ok (finality_hash m)
   else finality_hash m = "").
Proof.
  unfold achieve_finality. intros H. apply rbind_ok in H as ([valid invalid] & Hs & H). cbv zeta in H.
  apply rbind_ok in H as (fh & Hf & H). apply Ok_inj in H. subst m.
  cbn [valid_attestations quorum_achieved equivocators finality_hash].
  destruct (sift_spec _ _ _ _ _ _ _ _ _ Hs) as (new & Hnew & H1 & H2 & H3); [done|constructor|].
  cbn [app] in Hnew. subst valid. split_and!; [done| | |done|done|].
  - intros a Ha. destruct (H2 a Ha) as (? & He & ? & ? & ?). rewrite detect_equivocation_spec in He.
    by split_and!.
  - intros a (? & He & ? & ? & ?). rewrite <- detect_equivocation_spec in He. by apply H3.
  - destruct (_ <=? _).
    + apply rbind_ok in Hf as (b & -> & Hf). apply Ok_inj in Hf. by subst fh.
    + by apply Ok_inj in Hf.
Qed.

Lemma quorum_spec atts vs h m : achieve_finality atts vs h = Ok m ->
  quorum_achieved m = true <-> exists roots, NoDup roots /\
     _quorum_threshold (n_validators vs) <= Z.of_nat (length roots) /\
     forall r, r ∈ roots -> exists a, counts atts vs h a /\ att_mosaic_root a = r.
Proof.
  intros H. destruct (finality_valid _ _ _ _ H) as (Hn & Hc & Hall & -> & _).
  rewrite Z.leb_le. split.
  - intros Hle. exists (map att_mosaic_root (valid_attestations m)). split_and!; [done|by rewrite length_map|].
    intros r (a & -> & Ha)%list_elem_of_fmap. exists a. auto.
  - intros (roots & Hr & Ht & Hx).
    enough (length roots <= length (map att_mosaic_root (valid_attestations m)))%nat
      by (rewrite length_map in *; lia).
    apply nodup_sub_length; [done|]. intros r (a & Ha & <-)%Hx. auto.
Qed.

(** C26: the finality verdict is a count of validators.  Whenever the evaluation answers,
    quorum is achieved exactly when as many validators of the sealed set as the threshold
    each have an attestation of this hash that verifies, and none of them attested two
    hashes in one epoch; the verdict does not depend on the order or multiplicity of the
    attestations.  With quorum the finality hash is the digest of the sorted signatures of
    the attestations counted, one for each validator; without it there is none.  The
    evaluation fixes neither an epoch nor a phase: attestations of different epochs count
    together ([quorum_mixes_epochs]). *)
Theorem finality_exact atts vs h m : achieve_finality atts vs h = Ok m ->
  (quorum_achieved m = true <-> exists roots, NoDup roots /\
     _quorum_threshold (n_validators vs) <= Z.of_nat (length roots) /\
     forall r, r ∈ roots -> exists a, counts atts vs h a /\ att_mosaic_root a = r) /\
  (forall atts' m', (forall a, a ∈ atts <-> a ∈ atts') -> achieve_finality atts' vs h = Ok m' ->
     quorum_achieved m' = quorum_achieved m) /\
  (quorum_achieved m = true -> exists b,
     Binding.canonical_json (PDict [("signatures",
       PList (map PStr (sorted_str (map att_signature (valid_attestations m)))))]) = Ok b /\
     finality_hash m = sha256_hex b) /\
  NoDup (map att_mosaic_root (valid_attestations m)) /\
  (forall a, a ∈ valid_attestations m -> counts atts vs h a) /\
  (quorum_achieved m = false -> finality_hash m = "").
Proof.
  intros H. pose proof (quorum_spec _ _ _ _ H) as Hq.
  destruct (finality_valid _ _ _ _ H) as (Hn & Hc & _ & _ & _ & Hh). split_and!; [done| | |done|done|].
  - intros atts' m' He H'. apply eq_true_iff_eq. rewrite Hq, (quorum_spec _ _ _ _ H').
    unfold counts, equivocates. by setoid_rewrite He.
  - intros Ht. rewrite Ht in Hh. destruct (Binding.canonical_json _) as [b|]; [|done].
    apply Ok_inj in Hh. by exists b.
  - intros Hf. by rewrite Hf in Hh.
Qed.

(** C27: two conflicting finalities cost a third of the validators.  If two evaluations over
    the same set of N distinct validators achieve quorum for different hashes, more than
    N/3 validators have a verifying attestation of both. *)
Theorem conflicting_finality_overlap atts1 atts2 vs h1 h2 m1 m2 :
  achieve_finality atts1 vs h1 = Ok m1 -> achieve_finality atts2 vs h2 = Ok m2 ->
  quorum_achieved m1 = true -> quorum_achieved m2 = true -> h1 <> h2 ->
  NoDup (validators vs) -> n_validators vs = Z.of_nat (length (validators vs)) ->
  1 <= n_validators vs ->
  exists traitors, NoDup traitors /\ traitors ⊆ validators vs /\
    n_validators vs < 3 * Z.of_nat (length traitors) /\
    forall r, r ∈ traitors -> exists a b, a ∈ atts1 /\ b ∈ atts2 /\
      att_mosaic_root a = r /\ att_mosaic_root b = r /\
      att_hash a = h1 /\ att_hash b = h2 /\ att_verify a = Ok true /\ att_verify b = Ok true.
Proof.
  intros F1 F2 Q1 Q2 Hne Hnd Hn Hpos.
  apply (quorum_spec _ _ _ _ F1) in Q1 as (q1 & N1 & T1 & C1).
  apply (quorum_spec _ _ _ _ F2) in Q2 as (q2 & N2 & T2 & C2).
  assert (Hsub : forall atts h q, (forall r, r ∈ q -> exists a, counts atts vs h a /\ att_mosaic_root a = r) ->
    q ⊆ validators vs) by (intros atts h q Hc r (a & (_ & _ & Hin & _) & <-)%Hc; done).
  destruct (quorum_bounds _ Hpos) as (_ & _ & _ & Hov).
  destruct (Hov (validators vs) q1 q2) as (c & Nc & Cs1 & Cs2 & Hlen); eauto.
  exists c. split_and!; [done|intros r Hr; eapply Hsub; eauto|done|].
  intros r Hr. destruct (C1 r) as (a & (? & _ & _ & ? & ?) & ?); [auto|].
  destruct (C2 r) as (b & (? & _ & _ & ? & ?) & ?); [auto|]. exists a, b. by split_and!.
Qed.

(** What the verdict does not look at.  The key an attestation verifies under is the one it
    carries, never the one its validator is named after, so the attestations of the whole
    set may be made with one key. *)
Lemma one_key_reaches_quorum pub atts vs h m : achieve_finality atts vs h = Ok m ->
  (forall a, a ∈ atts -> att_pubkey a = pub /\ att_hash a = h /\
     (let* p := sig_payload a in ed_verify p (att_signature a) pub) = Ok true) ->
  validators vs ⊆ map att_mosaic_root atts -> NoDup (validators vs) ->
  n_validators vs = Z.of_nat (length (validators vs)) -> 1 <= n_validators vs ->
  quorum_achieved m = true.
Proof.
  intros H Ha Hs Hn Hl Hp. apply (quorum_spec _ _ _ _ H). exists (validators vs).
  split_and!; [done|rewrite <- Hl; by apply quorum_bounds|].
  intros r Hr. pose proof (Hs r Hr) as (a & -> & Hin)%list_elem_of_fmap. exists a. split; [|done].
  destruct (Ha a Hin) as (Hk & Hh & Hv). split_and!; try done.
  - intros (b & c & Hb & Hc & _ & _ & _ & Hne). apply Hne.
    destruct (Ha b Hb) as (_ & -> & _). by destruct (Ha c Hc) as (_ & -> & _).
  - unfold att_verify. by rewrite Hk.
Qed.

(** Equivocation is decided before any signature is checked: an attestation nobody signed
    takes the validator it names out of the quorum. *)
Lemma unsigned_attestation_excludes a b atts vs h m : a ∈ atts ->
  att_mosaic_root b = att_mosaic_root a -> epoch b = epoch a -> att_hash b <> att_hash a ->
  achieve_finality (b :: atts) vs h = Ok m ->
  att_mosaic_root a ∈ equivocators m /\
  att_mosaic_root a ∉ map att_mosaic_root (valid_attestations m).
Proof.
  intros Ha Hr He Hh H. destruct (finality_valid _ _ _ _ H) as (_ & Hc & _ & _ & -> & _).
  assert (equivocates (b :: atts) (att_mosaic_root a)) as Hq.
  { exists b, a. split_and!; [by left|by right|done..]. }
  split; [by apply detect_equivocation_spec|].
  intros (x & Hx & (_ & Hno & _)%Hc)%list_elem_of_fmap. apply Hno. by rewrite <- Hx.
Qed.
End finality.

(** * Concrete runs *)

Definition demo_validators : result exn ValidatorSet :=
  @seal_validator_set ed_demo "p1" "k1" ["v3"; "v1"; "v2"; "v4"].
Definition demo_att_in (ep : Z) (root h : string) : Attestation :=
  let a sg := {| att_mosaic_root := root; att_hash := h; att_phase_code := "PHASE0"; epoch := ep;
                 att_timestamp := "t"; att_signature := sg; att_pubkey := "k" |} in
  match sig_payload (a "") with Ok p => a (@ed_sign ed_demo p "k") | Err _ => a "" end.
Definition demo_att : string -> string -> Attestation := demo_att_in 1.
Definition demo_atts1 : list Attestation :=
  Eval vm_compute in map (fun r => demo_att r "H1") ["v1"; "v2"; "v3"].
Definition demo_atts2 : list Attestation :=
  Eval vm_compute in map (fun r => demo_att r "H2") ["v2"; "v3"; "v4"].
Definition demo_vs : ValidatorSet := Eval vm_compute in
  match demo_validators with Ok v => v | Err _ => Build_ValidatorSet [] 0 "" "" "" "" end.
Definition demo_final (atts : list Attestation) (h : string) : result exn MCIR :=
  @achieve_finality ed_demo atts demo_vs h.
Definition demo_mcir1 : result exn MCIR := Eval vm_compute in demo_final demo_atts1 "H1".
Definition demo_mcir2 : result exn MCIR := Eval vm_compute in demo_final demo_atts2 "H2".
Lemma demo_run1 : demo_final demo_atts1 "H1" = demo_mcir1. Proof. vm_compute. reflexivity. Qed.
Lemma demo_run2 : demo_final demo_atts2 "H2" = demo_mcir2. Proof. vm_compute. reflexivity. Qed.

Lemma finality_exact_witness : exists m, demo_final demo_atts1 "H1" = Ok m /\
  exists roots : list string, NoDup roots /\ 3 <= Z.of_nat (length roots).
Proof.
  destruct demo_mcir1 as [m|] eqn:Hm; [|discriminate Hm]. exists m.
  pose proof (eq_trans demo_run1 Hm) as H. split; [exact H|].
  destruct (@finality_exact ed_demo _ _ _ _ H) as ((Hq & _) & _).
  destruct Hq as (roots & Hn & Hle & _); [by (apply Ok_inj in Hm; subst m)|].
  exists roots. split; [exact Hn|exact Hle].
Defined.

Lemma conflicting_finality_overlap_witness : exists traitors : list string, NoDup traitors /\
  4 < 3 * Z.of_nat (length traitors).
Proof.
  destruct demo_mcir1 as [m1|] eqn:H1; [|discriminate H1].
  destruct demo_mcir2 as [m2|] eqn:H2; [|discriminate H2].
  destruct (@conflicting_finality_overlap ed_demo _ _ _ _ _ _ _
    (eq_trans demo_run1 H1) (eq_trans demo_run2 H2)) as (t & Hn & _ & Hl & _).
  - by (apply Ok_inj in H1; subst m1).
  - by (apply Ok_inj in H2; subst m2).
  - discriminate.
  - apply (bool_decide_unpack (NoDup (validators demo_vs))). reflexivity.
  - reflexivity.
  - by apply Z.leb_le.
  - exists t. split; [exact Hn|exact Hl].
Defined.

(** Three validators who attested in three different epochs, one of them another hash in a
    fourth, are a quorum of four; the epoch in which a kernel wants finality is no argument. *)
Definition scattered : list Attestation := Eval vm_compute in
  [demo_att_in 1 "v1" "H1"; demo_att_in 2 "v2" "H1"; demo_att_in 3 "v3" "H1"; demo_att_in 4 "v3" "H2"].
Theorem quorum_mixes_epochs : match demo_final scattered "H1" with
  | Ok m => quorum_achieved m = true /\ map epoch (valid_attestations m) = [1; 2; 3] /\ equivocators m = []
  | Err _ => False
  end.
Proof. vm_compute. auto. Qed.
