(* ===== verification/Kernel.v ===== *)
(** The governance kernel ([ugk/kernel.py], with the registries of
    [ugk/schema.py] and [ugk/ops.py] and the signature check of
    [ugk/governance/governor.py]): its state, its receipts, the trails of the
    external effect classes and [execute]. *)
From S2P Require Import Prelude Json Sha256 Binding BindingM2 Frame Authority Receipt Trace Capability Sqlite Integrity Archives Store Will Warrant Effects EffectsIrr EffectsRev.

(** ** The operation registries *)

Definition _KERNEL_OPS : list string := ["gate_admit"; "gate_refuse"].
Definition _UNIVERSAL_OPS : list string :=
  ["session_open"; "session_close"; "crp_evidence"; "test_checkpoint"; "legend_seal";
   "session_summary"].
Definition APPLICATION_OPS : list string :=
  ["authority_model_set"; "namespace_claim"; "namespace_allocate"; "namespace_delegate";
   "namespace_revoke"; "namespace_invalidate"; "namespace_supersede"; "namespace_adjudicate"].

(** What a deployment supplies: the files of its genesis directory and the
    operations its deployer adds to [ops.py]. *)
Class Deployment := {
  GOVERNOR_PUBKEY_HEX : string;
  _PHASE_CODE : string;
  deployed_ops : list string;
}.
Definition GOVERNANCE_OPS `{Deployment} : list string :=
  _UNIVERSAL_OPS ++ APPLICATION_OPS ++ deployed_ops.

(** ** Governor signatures *)

Definition unset_key (pubkey : string) : bool := starts_with "GOVERNOR_KEY_UNSET" pubkey.

Definition verify_governor {E : Ed25519} (pubkey_hex message sig_hex : string) : bool :=
  if unset_key pubkey_hex then false
  else match ed_verify message sig_hex pubkey_hex with Ok b => b | Err _ => false end.

(** ** State *)

Inductive status := UNINITIALIZED | ACTIVE.
#[export] Instance status_eq_dec : EqDecision status.
Proof. solve_decision. Defined.

Inductive EffectAtomicity :=
| PURE | STORE_LOCAL | EXTERNAL_REVERSIBLE | EXTERNAL_IRREVERSIBLE | NON_ATOMIC.
#[export] Instance atomicity_eq_dec : EqDecision EffectAtomicity.
Proof. solve_decision. Defined.
Definition atomicity_value (a : EffectAtomicity) : string :=
  match a with
  | PURE => "pure" | STORE_LOCAL => "store_local"
  | EXTERNAL_REVERSIBLE => "external_reversible"
  | EXTERNAL_IRREVERSIBLE => "external_irreversible" | NON_ATOMIC => "non_atomic"
  end.

(** The frame hashes the ceremony computes. *)
Record kframe := {
  k_law_hash : string;
  k_legend_hash : string;
  k_mosaic_root : string;
  k_dimension_id : string;
  k_manifest_hash : string;
}.
(** The session: its identity, its key in every receipt, the count at its start. *)
Record ksession := {
  k_identity : option SessionIdentity;
  k_session_dkn : string;
  k_session_open_count : Z;
  k_scope_id : string;
}.
(** What the deployment configures. *)
Record kconfig := {
  k_require_governor_sig : bool;
  k_require_intent : bool;
  k_require_scoped_intent : bool;
  k_authority_model : option AuthorityModel;
  k_op_csil : list (string * Z);
  k_dcap_policy : option sufficiency_policy;
}.

Record kernel := {
  k_store : store;
  k_authority : string;
  k_status : status;
  k_frame : kframe;
  k_session : ksession;
  k_refused : list (string * Z);
  k_config : kconfig;
  k_warrants : option WarrantStore;
  k_wills : option IntentStore;
}.
Definition with_store (s : store) (k : kernel) : kernel :=
  {| k_store := s; k_authority := k_authority k; k_status := k_status k; k_frame := k_frame k;
     k_session := k_session k; k_refused := k_refused k; k_config := k_config k;
     k_warrants := k_warrants k; k_wills := k_wills k |}.
Definition with_refused (r : list (string * Z)) (k : kernel) : kernel :=
  {| k_store := k_store k; k_authority := k_authority k; k_status := k_status k;
     k_frame := k_frame k; k_session := k_session k; k_refused := r; k_config := k_config k;
     k_warrants := k_warrants k; k_wills := k_wills k |}.
Definition with_warrants (w : option WarrantStore) (k : kernel) : kernel :=
  {| k_store := k_store k; k_authority := k_authority k; k_status := k_status k;
     k_frame := k_frame k; k_session := k_session k; k_refused := k_refused k;
     k_config := k_config k; k_warrants := w; k_wills := k_wills k |}.

Definition on_store {A} (m : M store A) : M kernel A := fun k =>
  let '(r, s) := m (k_store k) in (r, with_store s k).

(** ** Exceptions *)

Definition GateRefusal (reason : string) : exn := Exn GateRefusalC reason.
Definition KernelInternalOp (m : string) : exn := Exn KernelInternalOpC m.
Definition GovernanceNotFounded (o : string) : exn := Exn GovernanceNotFoundedC o.
Definition UndeclaredOp (o : string) : exn := Exn UndeclaredOpC o.
Definition ProtocolError (reason : string) : exn := Exn ProtocolErrorC reason.
Definition GovernorSignatureRequired (reason : string) : exn :=
  Exn GovernorSignatureRequiredC reason.
Definition TerminalWriteExhausted : exn := Exn TerminalWriteExhaustedC "".
Definition ReconciliationRefused (reason : string) : exn := Exn ReconciliationRefusedC reason.
Definition CompensationRefused (reason : string) : exn := Exn CompensationRefusedC reason.

(** What [except Exception] catches. *)
Definition is_exception (e : exn) : bool :=
  bool_decide (exn_cls e <> BaseExceptionC).

Definition MAX_OUTCOME_WRITE_ATTEMPTS : nat := 3.

Definition _is_retryable_terminal_write_error (e : exn) : bool :=
  match exn_cls e with
  | OperationalError => contains "locked" (lower (exn_msg e)) || contains "busy" (lower (exn_msg e))
  | TransactionCommitErrorC => true
  | _ => false
  end.

(** ** Writing receipts *)

Section kernel.
Context {U : Unicode} {E : Ed25519} {G : Engine} {D : Deployment}.

(** The keyword arguments the kernel passes to [store.write]; the others keep
    their defaults. *)
Record kwargs := {
  kw_op : string;
  kw_authority : string;
  kw_parameters : pyval;
  kw_failed : bool;
  kw_intent : string;
  kw_jurisdiction : string;
  kw_legend : bool;             (** passes [legend_hash] *)
  kw_warrant_id : string;
  kw_intent_ref : string;
  kw_effect_columns : option cols;
}.
Definition write_of (k : kernel) (a : kwargs) : write_args :=
  {| w_op := kw_op a; w_authority := kw_authority a; w_parameters := kw_parameters a;
     w_failed := kw_failed a; w_intent := Some (kw_intent a);
     w_jurisdiction := kw_jurisdiction a; w_confidence := "high";
     w_session_dkn := k_session_dkn (k_session k); w_law_hash := k_law_hash (k_frame k);
     w_legend_hash := if kw_legend a then k_legend_hash (k_frame k) else "";
     w_warrant_id := kw_warrant_id a; w_intent_ref := kw_intent_ref a; compress := false;
     commit_terminal_outcome := false; terminal_outcome_override := None;
     commit_capability_evidence := false; capability_ledger := None;
     effect_columns := kw_effect_columns a; reconciliation_grade := PNone;
     reconciliation_warrant_snapshot := PNone; w_continuation := PNone; w_bridge := PNone;
     bridge_verifier := None |}.
Definition kwrite (a : kwargs) : M kernel Receipt := fun k => on_store (write (write_of k a)) k.

(** A receipt of the kernel itself: no warrant, no intent reference, no effect. *)
Definition kernel_receipt (o authority : string) (parameters : pyval) (failed : bool)
    (intent : string) (legend : bool) : kwargs :=
  {| kw_op := o; kw_authority := authority; kw_parameters := parameters; kw_failed := failed;
     kw_intent := intent; kw_jurisdiction := "kernel"; kw_legend := legend;
     kw_warrant_id := ""; kw_intent_ref := ""; kw_effect_columns := None |}.

(** [_emit_protocol_error]: best effort, it never hides the rejection. *)
Definition _emit_protocol_error (o reason authority : string) : M kernel unit :=
  try_pass (let! _ := kwrite (kernel_receipt "protocol_error" authority
                        (PDict [("op", PStr o); ("reason", PStr reason)]) true
                        "protocol_error" false) in
            sret tt).
Definition reject {A} (o reason authority : string) (e : exn) : M kernel A :=
  let! _ := _emit_protocol_error o reason authority in sraise e.

(** [_emit_effect_abort] *)
Definition _emit_effect_abort (o authority : string) (parameters : cols)
    (atomicity : option EffectAtomicity) (reason jurisdiction intent_ref admit_ref : string) :
    M kernel Receipt :=
  let p := dict_set "effect_aborted" (PBool true) parameters in
  let '(p, ec) := match atomicity with
    | Some a => (p, Some [("effect_atomicity", PStr (atomicity_value a));
                          ("effect_abort_reason", PStr reason);
                          ("effect_gate_admit_ref", PStr admit_ref)])
    | None =>
        let p := dict_set "abort_reason" (PStr reason) p in
        (if str_eqb admit_ref "" then p else dict_set "gate_admit_ref" (PStr admit_ref) p, None)
    end in
  kwrite {| kw_op := o; kw_authority := authority; kw_parameters := PDict p; kw_failed := true;
            kw_intent := o; kw_jurisdiction := jurisdiction; kw_legend := true;
            kw_warrant_id := ""; kw_intent_ref := intent_ref; kw_effect_columns := ec |}.

(** ** The trails of external effects *)

(** The operation a phase receipt is about. *)
Record trail := {
  t_op : string;
  t_authority : string;
  t_params : cols;
  t_key : pyval;
  t_jurisdiction : string;
  t_intent_ref : string;
  t_warrant_id : string;
}.
Definition opt_str (o : option string) : pyval := match o with Some s => PStr s | None => PNone end.

Definition phase_receipt (t : trail) (failed : bool) (ec : cols) : kwargs :=
  {| kw_op := t_op t; kw_authority := t_authority t; kw_parameters := PDict (t_params t);
     kw_failed := failed; kw_intent := t_op t; kw_jurisdiction := t_jurisdiction t;
     kw_legend := true; kw_warrant_id := t_warrant_id t; kw_intent_ref := t_intent_ref t;
     kw_effect_columns := Some ec |}.

Definition _emit_irreversible (t : trail) (phase : string) (failed : bool)
    (prepare_ref gate_admit_ref abort_reason : option string) : M kernel Receipt :=
  kwrite (phase_receipt t failed
    [("effect_atomicity", PStr (atomicity_value EXTERNAL_IRREVERSIBLE)); ("effect_phase", PStr phase);
     ("effect_idempotency_key", t_key t); ("effect_gate_admit_ref", opt_str gate_admit_ref);
     ("effect_prepare_ref", opt_str prepare_ref); ("effect_abort_reason", opt_str abort_reason)]).

Definition _emit_reversible (t : trail) (phase : string) (failed : bool)
    (prepare_ref gate_admit_ref abort_reason compensate_ref : option string)
    (compensation_key : pyval) : M kernel Receipt :=
  kwrite (phase_receipt t failed
    [("effect_atomicity", PStr (atomicity_value EXTERNAL_REVERSIBLE)); ("effect_phase", PStr phase);
     ("effect_idempotency_key", t_key t); ("effect_gate_admit_ref", opt_str gate_admit_ref);
     ("effect_prepare_ref", opt_str prepare_ref);
     ("effect_compensate_ref", opt_str compensate_ref);
     ("effect_compensation_idempotency_key", compensation_key);
     ("effect_abort_reason", opt_str abort_reason)]).

(** The bounded retry of a store write, and of nothing else. *)
Fixpoint retry_terminal (attempts : nat) (emit : M kernel Receipt) : M kernel Receipt := fun k =>
  match attempts with
  | O => (Err TerminalWriteExhausted, k)
  | S n =>
      match emit k with
      | (Ok r, k') => (Ok r, k')
      | (Err e, k') =>
          if _is_retryable_terminal_write_error e then retry_terminal n emit k'
          else (Err e, k')
      end
  end.

Definition _emit_terminal_durable (t : trail) (phase : string) (failed : bool)
    (prepare_ref abort_reason : option string) : M kernel Receipt :=
  retry_terminal MAX_OUTCOME_WRITE_ATTEMPTS
    (_emit_irreversible t phase failed prepare_ref None abort_reason).

Definition _emit_reversible_terminal_durable (t : trail) (phase : string) (failed : bool)
    (prepare_ref abort_reason compensate_ref : option string) (compensation_key : pyval) :
    M kernel Receipt :=
  retry_terminal MAX_OUTCOME_WRITE_ATTEMPTS
    (_emit_reversible t phase failed prepare_ref None abort_reason compensate_ref compensation_key).

(** A caller's callable: it may read and write whatever the kernel reaches. *)
Definition callable : Type := M kernel pyval.

(** An intent, the effect, and the record of its outcome: of its return, or of an
    exception that is handled; no record otherwise. *)
Definition around (intent : M kernel Receipt) (eff : callable)
    (returned : Receipt -> M kernel Receipt) (handled : exn -> bool)
    (raised : Receipt -> M kernel Receipt) : callable :=
  let! p := intent in
  fun k =>
    match eff k with
    | (Ok v, k') => (let! _ := returned p in sret v) k'
    | (Err e, k') => if handled e then (let! _ := raised p in sraise e) k' else (Err e, k')
    end.

(** PREPARE, the effect, and the terminal of its outcome: COMMIT when it returns,
    ABORT when it proves it did nothing, none otherwise. *)
Definition not_performed (e : exn) : bool := bool_decide (exn_cls e = ExternalEffectNotPerformedC).
Definition forward_trail (prepare : M kernel Receipt)
    (terminal : string -> bool -> string -> option string -> M kernel Receipt)
    (eff : callable) : callable :=
  around prepare eff (fun p => terminal "commit" false (h_r p) None) not_performed
    (fun p => terminal "abort" true (h_r p) (Some "external_effect_not_performed")).

Definition _execute_external_irreversible (t : trail) (eff : callable) (admit_ref : string) :
    callable :=
  forward_trail (_emit_irreversible t "prepare" false None (Some admit_ref) None)
    (fun phase failed ref reason => _emit_terminal_durable t phase failed (Some ref) reason) eff.

Definition _execute_external_reversible (t : trail) (eff : callable) (admit_ref : string) :
    callable :=
  forward_trail (_emit_reversible t "prepare" false None (Some admit_ref) None None PNone)
    (fun phase failed ref reason =>
       _emit_reversible_terminal_durable t phase failed (Some ref) reason None PNone) eff.

(** ** The arguments of [execute] *)

(** [warrant_basis]: absent, a list of legend addresses, or a value that is not a
    list or that [sorted] rejects. *)
Inductive basis_arg := NoBasis | Basis (l : list Z) | BadBasis (why : string).

Record exec_args := {
  x_op : string;
  x_authority : pyval;
  x_parameters : pyval;
  x_gate : option callable;
  x_effect : option callable;
  x_atomicity : option EffectAtomicity;
  x_idempotency_key : pyval;
  x_gate_margin : pyval;
  x_layer : string;
  x_jurisdiction : string;
  x_governor_sig : option string;
  x_warrant_basis : basis_arg;
  x_intent_ref : string;            (** None and the empty string are both falsy *)
  x_authority_set : pyval;
  x_capability_verdicts : list (string * string);
  x_required_locality : option string;
  x_now : string;                   (** what the clock shows a warrant of this call *)
}.

(** ** Preflight: the protocol boundary, before any write *)

(** The path of the first float, in iteration order. *)
Fixpoint float_at (path : string) (v : pyval) : option string :=
  match v with
  | PFloat _ => Some path
  | PDict d =>
      (fix go (d : list (string * pyval)) : option string :=
         match d with
         | [] => None
         | (k, x) :: d' => match float_at (path +:+ "." +:+ k) x with
                           | Some p => Some p | None => go d' end
         end) d
  | PList l | PTuple l =>
      (fix go (i : Z) (l : list pyval) : option string :=
         match l with
         | [] => None
         | x :: l' => match float_at (path +:+ "[" +:+ str_of_Z i +:+ "]") x with
                      | Some p => Some p | None => go (i + 1) l' end
         end) 0 l
  | _ => None
  end.
Definition _reject_floats_in_governance_input (v : pyval) : result exn unit :=
  match float_at "parameters" v with
  | Some p => Err (ProtocolError ("float_present: non-integer number at " +:+ p))
  | None => Ok tt
  end.

(** [try: _params_json(v) except (TypeError, ValueError): raise ProtocolError] *)
Definition serializable (v : pyval) (what : string) : result exn unit :=
  match _params_json v with
  | Ok _ => Ok tt
  | Err e => match exn_cls e with
             | TypeError | ValueError => Err (ProtocolError (what +:+ " not JSON-serializable"))
             | _ => Err e
             end
  end.

Definition preflight_authority (k : kernel) (a : exec_args) : result exn string :=
  match x_authority a with
  | PNone => Ok (k_authority k)
  | PStr s => if str_eqb s "" then Err (ProtocolError "authority must be a non-empty string")
              else Ok s
  | _ => Err (ProtocolError "authority must be a non-empty string")
  end.

Definition preflight_parameters (a : exec_args) : result exn cols :=
  match x_parameters a with
  | PNone => Ok []
  | PDict d => Ok d
  | _ => Err (ProtocolError "parameters must be a dict or None")
  end.

Definition preflight_authority_set (a : exec_args) : result exn unit :=
  match x_authority_set a with
  | PNone => Ok tt
  | PList l | PTuple l => serializable (PDict [("authority_set", PList l)]) "authority_set"
  | _ => Err (ProtocolError "authority_set must be a list")
  end.

Definition nonempty_key (v : pyval) : bool :=
  match v with PStr s => negb (str_eqb s "") | _ => false end.

Definition preflight_effect (a : exec_args) : result exn unit :=
  match x_effect a, x_atomicity a with
  | None, _ => Ok tt
  | Some _, None => Err (ProtocolError "effect supplied without an EffectAtomicity declaration")
  | Some _, Some EXTERNAL_REVERSIBLE =>
      if nonempty_key (x_idempotency_key a) then Ok tt
      else Err (ProtocolError "EXTERNAL_REVERSIBLE requires a non-empty idempotency_key")
  | Some _, Some EXTERNAL_IRREVERSIBLE =>
      if nonempty_key (x_idempotency_key a) then Ok tt
      else Err (ProtocolError "EXTERNAL_IRREVERSIBLE requires a non-empty idempotency_key")
  | Some _, Some _ => Ok tt
  end.

(** The authority and the parameters of a call that passes. *)
Definition preflight (k : kernel) (a : exec_args) : result exn (string * cols) :=
  let* authority := preflight_authority k a in
  let* parameters := preflight_parameters a in
  let* _ := serializable (PDict parameters) "parameters" in
  let* _ := _reject_floats_in_governance_input (PDict parameters) in
  let* _ := match x_warrant_basis a with
            | BadBasis why => Err (ProtocolError why) | _ => Ok tt end in
  let* _ := preflight_authority_set a in
  let* _ := preflight_effect a in
  Ok (authority, parameters).

(** ** Steps 1 to 3: jurisdiction *)

Definition universal (o : string) : bool := mem_str o _UNIVERSAL_OPS.
Definition kernel_op (o : string) : bool := mem_str o _KERNEL_OPS.

Definition governor_message (o : string) (parameters : cols) : result exn string :=
  Binding.canonical_json (PDict [("op", PStr o); ("parameters", PDict parameters)]).

Definition check_governor (a : exec_args) (authority : string) (parameters : cols) :
    M kernel unit := fun k =>
  if k_require_governor_sig (k_config k) && negb (universal (x_op a))
     && bool_decide (k_status k = ACTIVE) then
    match x_governor_sig a with
    | None => reject (x_op a) "governor_sig" authority
                (GovernorSignatureRequired "no signature provided") k
    | Some sg =>
        (let! msg := slift (governor_message (x_op a) parameters) in
         if verify_governor GOVERNOR_PUBKEY_HEX msg sg then sret tt
         else reject (x_op a) "governor_sig" authority
                (GovernorSignatureRequired "signature verification failed")) k
    end
  else (Ok tt, k).

Definition jurisdiction_steps (a : exec_args) (authority : string) (parameters : cols) :
    M kernel unit :=
  let o := x_op a in
  if kernel_op o then reject o "kernel_internal" authority (KernelInternalOp o)
  else fun k =>
  if negb (universal o) && bool_decide (k_status k = UNINITIALIZED) then
    reject o "not_founded" authority (GovernanceNotFounded o) k
  else
    (let! _ := check_governor a authority parameters in
     if mem_str o GOVERNANCE_OPS then sret tt
     else reject o "undeclared" authority (UndeclaredOp o)) k.

(** ** The authority model *)

Definition model_of (k : kernel) (o : string) : option AuthorityModel :=
  if kernel_op o || universal o then None else k_authority_model (k_config k).
(** [not warrant_basis] *)
Definition no_basis (b : basis_arg) : bool :=
  match b with NoBasis | Basis [] => true | _ => false end.

Definition authority_model_step (a : exec_args) (authority : string) :
    M kernel (option AuthorityModel) := fun k =>
  let o := x_op a in
  match model_of k o with
  | None => (Ok None, k)
  | Some m =>
      if require_gate m && negb (bool_decide (is_Some (x_gate a))) then
        reject o "require_gate" authority (KernelInternalOp "require_gate=True") k
      else if require_warrant m && no_basis (x_warrant_basis a) then
        reject o "require_warrant" authority (KernelInternalOp "require_warrant=True") k
      else (Ok (Some m), k)
  end.

(** ** Refusals *)

Definition bump (layer : string) (l : list (string * Z)) : list (string * Z) :=
  map (fun kv => if str_eqb (fst kv) layer then (fst kv, snd kv + 1) else kv) l.
Definition count_refusal (layer : string) : M kernel unit :=
  smod (fun k => with_refused (bump layer (k_refused k)) k).

(** The refusal warrant of a caller that declared a basis; its failures are
    swallowed. *)
Definition refusal_warrant (a : exec_args) : M kernel unit := fun k =>
  match x_warrant_basis a, k_warrants k with
  | Basis l, Some ws =>
      match create_refusal_warrant (x_now a) (sorted_Z l) (k_law_hash (k_frame k))
              (k_legend_hash (k_frame k)) with
      | Ok w => let '(_, ws') := warrant_write w ws in (Ok tt, with_warrants (Some ws') k)
      | Err _ => (Ok tt, k)
      end
  | _, _ => (Ok tt, k)
  end.

Definition refusal_params (o : string) (parameters : cols) (more : list (string * pyval)) : pyval :=
  PDict ([("op", PStr o); ("parameters", PDict parameters)] ++ more).

(** Step 4: the gate. *)
Definition gate_step (a : exec_args) (authority : string) (parameters : cols) : M kernel unit :=
  match x_gate a with
  | None => sret tt
  | Some gate => fun k =>
      match gate k with
      | (Err e, k') =>
          if is_exception e then
            reject (x_op a) "gate_exception" authority (ProtocolError "gate callable raised") k'
          else (Err e, k')
      | (Ok admitted, k') =>
          if truthy admitted then (Ok tt, k') else
          (let! _ := kwrite (kernel_receipt "gate_refuse" authority
                       (refusal_params (x_op a) parameters []) true "gate_refuse" false) in
           let! _ := count_refusal (x_layer a) in
           let! _ := refusal_warrant a in
           sraise (GateRefusal "gate returned False")) k'
      end
  end.

(** Step 4a: capability sufficiency, for enumerated scopes only. *)
Definition capability_step (a : exec_args) (authority : string) (parameters : cols) :
    M kernel unit := fun k =>
  if kernel_op (x_op a) then (Ok tt, k) else
  let pol := match k_dcap_policy (k_config k) with
             | Some p => p | None => CAPABILITY_SUFFICIENCY_POLICY end in
  match find_enforced_entry pol (x_jurisdiction a) (x_op a) with
  | None => (Ok tt, k)
  | Some e =>
      let verdict := dict_get (capability_class e) (x_capability_verdicts a) in
      let '(refuse, cause) := enforce_decision (x_jurisdiction a) (x_op a) verdict pol in
      if refuse then
        (let! _ := kwrite (kernel_receipt "gate_refuse" authority
                     (refusal_params (x_op a) parameters
                        [("refusal_cause", PStr cause);
                         ("capability_class", PStr (capability_class e));
                         ("enforced_jurisdiction", PStr (x_jurisdiction a));
                         ("refusal_axis", PStr "authority");
                         ("refusal_reason", PStr "authority_missing")])
                     true "gate_refuse" false) in
         let! _ := count_refusal (x_layer a) in
         sraise (GateRefusal "authority_missing")) k
      else (Ok tt, k)
  end.

(** Step 4c: the locality a caller asks for. *)
Definition locality_step (a : exec_args) (authority : string) (parameters : cols) :
    M kernel unit :=
  match x_required_locality a with
  | Some loc =>
      if negb (kernel_op (x_op a)) && negb (str_eqb (x_jurisdiction a) loc) then
        let! _ := kwrite (kernel_receipt "gate_refuse" authority
                    (refusal_params (x_op a) parameters
                       [("required_locality", PStr loc);
                        ("supplied_jurisdiction", PStr (x_jurisdiction a));
                        ("refusal_axis", PStr "locality");
                        ("refusal_reason", PStr "locality_required")])
                    true "gate_refuse" false) in
        let! _ := count_refusal (x_layer a) in
        sraise (GateRefusal "locality_required")
      else sret tt
  | None => sret tt
  end.

(** Step 4b: will coverage; the intent reference of the receipts. *)
Definition refuse_intent (o reason : string) : M kernel string := fun k =>
  (let! _ := kwrite (kernel_receipt "gate_refuse" (k_authority k)
               (PDict [("op", PStr o); ("reason", PStr reason); ("refusal_axis", PStr "intent");
                       ("refusal_reason", PStr "intent_required_missing")])
               true "conform" true) in
   sraise (GateRefusal "intent_required_missing")) k.

Definition active_for (k : kernel) (ws : IntentStore) : result exn (list IntentDeclaration) :=
  let* ds := active_declarations ws (k_session_dkn (k_session k)) in
  Ok (if k_require_scoped_intent (k_config k)
      then List.filter (fun d => negb (str_eqb (d_scope_ref d) "")) ds else ds).

Definition intent_step_of (a : exec_args) : M kernel string := fun k =>
  let o := x_op a in
  let given := x_intent_ref a in
  match k_wills k with
  | None => (Ok given, k)
  | Some ws =>
      if kernel_op o || universal o then (Ok given, k) else
      match active_for k ws with
      | Err e => (Err e, k)
      | Ok active =>
          if negb (str_eqb given "") then
            match intent_get ws given with
            | Err e => (Err e, k)
            | Ok resolved =>
                match resolved with
                | Some d => if covers_op d o then (Ok given, k)
                            else if k_require_intent (k_config k)
                            then refuse_intent o "WL-002 intent_ref unresolvable" k
                            else (Ok given, k)
                | None => if k_require_intent (k_config k)
                          then refuse_intent o "WL-002 intent_ref unresolvable" k
                          else (Ok given, k)
                end
            end
          else
            let outcome := covers o active ∅ None in
            if str_eqb (co_status outcome) COVERED then
              (Ok match co_intent_ref outcome with Some h => h | None => "" end, k)
            else if k_require_intent (k_config k) then
              refuse_intent o match refusal_code outcome with Some c => c | None => "" end k
            else (Ok "", k)
      end
  end.

(** Everything up to the admission: all the refusals there are. *)
Record cleared := {
  c_authority : string;
  c_parameters : cols;
  c_model : option AuthorityModel;
  c_intent_ref : string;
}.
Definition refusal_horizon (a : exec_args) : M kernel cleared := fun k =>
  match preflight k a with
  | Err e => (Err e, k)
  | Ok (authority, parameters) =>
      (let! _ := jurisdiction_steps a authority parameters in
       let! model := authority_model_step a authority in
       let! _ := gate_step a authority parameters in
       let! _ := capability_step a authority parameters in
       let! _ := locality_step a authority parameters in
       let! ref := intent_step_of a in
       sret {| c_authority := authority; c_parameters := parameters; c_model := model;
               c_intent_ref := ref |}) k
  end.

(** ** Steps 5 to 8: admission and outcome *)

Definition class_columns (a : exec_args) : option cols :=
  match x_effect a, x_atomicity a with
  | Some _, Some c => Some [("effect_atomicity", PStr (atomicity_value c))]
  | _, _ => None
  end.

Definition admit_params (a : exec_args) (c : cleared) : pyval :=
  PDict ([("op", PStr (x_op a)); ("parameters", PDict (c_parameters c))]
         ++ if is_none (x_gate_margin a) then [] else [("gate_margin", x_gate_margin a)]).

Definition write_admit (a : exec_args) (c : cleared) : M kernel Receipt :=
  kwrite {| kw_op := "gate_admit"; kw_authority := c_authority c; kw_parameters := admit_params a c;
            kw_failed := false; kw_intent := "gate_admit"; kw_jurisdiction := "kernel";
            kw_legend := true; kw_warrant_id := ""; kw_intent_ref := "";
            kw_effect_columns := class_columns a |}.

(** The decision warrant of a declared basis; its failures only matter when the
    authority model requires a warrant. *)
Definition materialize (a : exec_args) (l : list Z) (required : bool) : M kernel string := fun k =>
  match warrant_admit (x_now a) (sorted_Z l) (k_law_hash (k_frame k)) (k_legend_hash (k_frame k)) with
  | Err e => (Err e, k)
  | Ok w =>
      match k_warrants k with
      | None => if required then (Err (Exn RuntimeError "no WarrantStore attached"), k)
                else (Ok "", k)
      | Some ws =>
          match warrant_write w ws with
          | (Err e, ws') => (Err e, with_warrants (Some ws') k)
          | (Ok id, ws') =>
              let k' := with_warrants (Some ws') k in
              match warrant_get ws' (warrant_hash w) with
              | Err e => (Err e, k')
              | Ok (Some _) =>
                  if str_eqb id (warrant_hash w) then (Ok (warrant_hash w), k')
                  else (Err (Exn RuntimeError "warrant write not durably readable"), k')
              | Ok None => (Err (Exn RuntimeError "warrant write not durably readable"), k')
              end
          end
      end
  end.
Definition warrant_step (a : exec_args) (c : cleared) : M kernel string := fun k =>
  let required := match c_model c with Some m => require_warrant m | None => false end in
  match x_warrant_basis a with
  | Basis l =>
      match materialize a l required k with
      | (Ok id, k') => (Ok id, k')
      | (Err e, k') =>
          if required then
            (Err (KernelInternalOp "warrant materialization failed under require_warrant=True"), k')
          else (Ok "", k')
      end
  | _ => (Ok "", k)
  end.

(** [_params]: the parameters with the authority set and the legend coordinate. *)
Definition outcome_params (k : kernel) (a : exec_args) (c : cleared) : cols :=
  let p := c_parameters c in
  let p := match x_authority_set a with
           | PList (x :: l) | PTuple (x :: l) => dict_set "authority_set" (PList (x :: l)) p
           | _ => p
           end in
  match dict_get (x_op a) (k_op_csil (k_config k)) with
  | Some n => if n =? 0 then p else dict_set "op_csil" (PInt n) p
  | None => p
  end.

Definition success_receipt (a : exec_args) (c : cleared) (p : cols) (warrant_id : string) : kwargs :=
  {| kw_op := x_op a; kw_authority := c_authority c; kw_parameters := PDict p;
     kw_failed := false; kw_intent := x_op a; kw_jurisdiction := x_jurisdiction a;
     kw_legend := true; kw_warrant_id := warrant_id; kw_intent_ref := c_intent_ref c;
     kw_effect_columns := class_columns a |}.

(** The effect and the success receipt in one transaction.  [phase] is where a
    failure happened. *)
Definition seam_body (eff : callable) (success : M kernel Receipt) (k : kernel) :
    result exn pyval * string * kernel :=
  match eff k with
  | (Err e, k') => (Err e, "effect_failure", k')
  | (Ok v, k') =>
      match success k' with
      | (Err e, k'') => (Err e, "success_receipt_failure", k'')
      | (Ok _, k'') => (Ok v, "success_receipt_failure", k'')
      end
  end.
Definition seam (eff : callable) (success : M kernel Receipt) (k : kernel) :
    result exn pyval * string * kernel :=
  match txn_enter valid (k_store k) with
  | (Err e, s) => (Err e, "effect_failure", with_store s k)
  | (Ok (sp, snap), s) =>
      let '(r, phase, k2) := seam_body eff success (with_store s k) in
      let '(r', s3) := txn_leave sp snap r (k_store k2) in
      (r', phase, with_store s3 k2)
  end.
Definition atomic_outcome (a : exec_args) (c : cleared) (eff : callable)
    (success : M kernel Receipt) (admit_ref : string) : callable := fun k =>
  match seam eff success k with
  | (Ok v, _, k') => (Ok v, k')
  | (Err e, phase, k') =>
      let reason := if bool_decide (exn_cls e = TransactionCommitErrorC)
                    then "commit_release_failure" else phase in
      (let! _ := _emit_effect_abort (x_op a) (c_authority c) (c_parameters c) (x_atomicity a)
                   reason (x_jurisdiction a) (c_intent_ref c) admit_ref in
       sraise e) k'
  end.

(** The success receipt first, then the effect. *)
Definition legacy_outcome (a : exec_args) (c : cleared) (success : M kernel Receipt) : callable :=
  let! _ := success in
  match x_effect a with
  | None => sret PNone
  | Some eff => fun k =>
      match eff k with
      | (Ok v, k') => (Ok v, k')
      | (Err e, k') =>
          if is_exception e then
            (let! _ := kwrite {| kw_op := x_op a; kw_authority := c_authority c;
                         kw_parameters := PDict (c_parameters c); kw_failed := true;
                         kw_intent := x_op a; kw_jurisdiction := x_jurisdiction a;
                         kw_legend := false; kw_warrant_id := ""; kw_intent_ref := "";
                         kw_effect_columns := None |} in
             sraise e) k'
          else (Err e, k')
      end
  end.

Definition outcome (a : exec_args) (c : cleared) (admit_ref warrant_id : string) : callable := fun k =>
  let p := outcome_params k a c in
  let t := {| t_op := x_op a; t_authority := c_authority c; t_params := p;
              t_key := x_idempotency_key a; t_jurisdiction := x_jurisdiction a;
              t_intent_ref := c_intent_ref c; t_warrant_id := warrant_id |} in
  let success := kwrite (success_receipt a c p warrant_id) in
  match x_effect a, x_atomicity a with
  | Some eff, Some EXTERNAL_REVERSIBLE => _execute_external_reversible t eff admit_ref k
  | Some eff, Some EXTERNAL_IRREVERSIBLE => _execute_external_irreversible t eff admit_ref k
  | Some eff, Some PURE | Some eff, Some STORE_LOCAL =>
      atomic_outcome a c eff success admit_ref k
  | _, _ => legacy_outcome a c success k
  end.

Definition admitted (a : exec_args) (c : cleared) : callable :=
  let! r := write_admit a c in
  let! warrant_id := warrant_step a c in
  outcome a c (h_r r) warrant_id.

Definition execute (a : exec_args) : callable :=
  let! c := refusal_horizon a in admitted a c.
End kernel.

(** ** An example deployment *)

Definition demo_deployment : Deployment :=
  {| GOVERNOR_PUBKEY_HEX := "GOVERNOR_KEY_UNSET"; _PHASE_CODE := "1.0";
     deployed_ops := ["transfer"] |}.
Definition demo_config : kconfig :=
  {| k_require_governor_sig := false; k_require_intent := false; k_require_scoped_intent := false;
     k_authority_model := None; k_op_csil := []; k_dcap_policy := None |}.
(** An active kernel on a new store; [fs] are the faults of its commits. *)
Definition demo_kernel (fs : list (option string)) : kernel :=
  {| k_store := demo_store fs; k_authority := "operator"; k_status := ACTIVE;
     k_frame := {| k_law_hash := "law"; k_legend_hash := "legend"; k_mosaic_root := "";
                   k_dimension_id := ""; k_manifest_hash := "" |};
     k_session := {| k_identity := None; k_session_dkn := "session"; k_session_open_count := 0;
                     k_scope_id := "" |};
     k_refused := [("S", 0); ("C", 0); ("I", 0)]; k_config := demo_config; k_warrants := None; k_wills := None |}.
(** A call without gate whose effect has the given class. *)
Definition demo_call (c : EffectAtomicity) (ps : cols) (eff : callable) : exec_args :=
  {| x_op := "transfer"; x_authority := PNone; x_parameters := PDict ps; x_gate := None;
     x_effect := Some eff; x_atomicity := Some c; x_idempotency_key := PStr "key-1";
     x_gate_margin := PNone; x_layer := "I"; x_jurisdiction := "session";
     x_governor_sig := None; x_warrant_basis := NoBasis; x_intent_ref := "";
     x_authority_set := PNone; x_capability_verdicts := []; x_required_locality := None;
     x_now := "0" |}.
Definition demo_execute := @execute nfc_id ed_demo demo_engine demo_deployment.
