(* ===== verification/KernelFacts.v ===== *)
(** What the governance kernel guarantees about [execute]: the receipts of every
    outcome, the order of admission and effect, the atomic seam, the bounded
    retry and the detection of effects in doubt. *)
From S2P Require Import Prelude Json Sha256 Binding BindingM2 Frame Authority Receipt Trace Capability Sqlite Integrity Archives Store StoreFacts StoreTxn Will Warrant Effects EffectsIrr EffectsRev Kernel.

(** * Computations that only add to the chain *)

(** From [s] to [s']: while no commit fails, rows are only added, each linked to the
    tip; the depth and the mode stay; inside a transaction nothing becomes
    durable; outside, nothing stays undurable. *)
Record advances (s s' : store) : Prop := {
  adv_depth : _txn_depth s' = _txn_depth s;
  adv_ro : _read_only s' = _read_only s;
  adv_inside : _txn_depth s <> 0 ->
    savepoints (s_conn s') = savepoints (s_conn s) /\
    durable (s_conn s') = durable (s_conn s) /\
    (in_txn (s_conn s) = true -> in_txn (s_conn s') = true);
  adv_faults : faults (s_conn s) = [] -> faults (s_conn s') = [];
  adv_rows : faults (s_conn s) = [] -> exists l, rows (view s') = rows (view s) ++ l;
  adv_chain : faults (s_conn s) = [] -> forall anchor, chained anchor s -> chained anchor s';
  adv_sync : faults (s_conn s) = [] -> _txn_depth s = 0 ->
    view s = durable (s_conn s) -> view s' = durable (s_conn s');
}.

#[export] Instance advances_refl : Reflexive advances.
Proof. intros s. split; try done. intros _. exists []. by rewrite app_nil_r. Qed.
#[export] Instance advances_trans : Transitive advances.
Proof.
  intros s1 s2 s3 [D1 R1 I1 F1 A1 C1 S1] [D2 R2 I2 F2 A2 C2 S2]. split; try congruence.
  - intros Hd. destruct (I1 Hd) as (? & ? & ?). rewrite <- D1 in Hd.
    destruct (I2 Hd) as (? & ? & ?). split_and!; try congruence. auto.
  - auto.
  - intros Hf. destruct (A1 Hf) as (l & Hl), (A2 (F1 Hf)) as (l' & Hl').
    exists (l ++ l'). by rewrite Hl', Hl, app_assoc.
  - auto.
  - intros Hf Hd Hs. apply S2; [auto|congruence|auto].
Qed.

Lemma advances_frame s s' : advances s s' -> inside s -> same_frame s s'.
Proof.
  intros [Hd Hr Hi _ _ _ _] [H0 Ht]. destruct Hi as (H1 & H2 & H3); [lia|].
  split; try done. rewrite Ht. by apply H3.
Qed.

(** Inserting and committing never makes the next commit fail. *)
Lemma commit_faults (c : conn db) : faults c = [] -> faults (snd (commit c)) = [].
Proof. intros H. unfold commit, commit_now. rewrite H. by destruct (in_txn c). Qed.

Section advancing.
Context {U : Unicode} {E : Ed25519} {G : Engine}.

Lemma write_append_faults a pj r s : faults (s_conn s) = [] ->
  faults (s_conn (snd (write_append a pj r s))) = [].
Proof.
  intros Hf. unfold write_append, sbind.
  destruct (on_conn (dml (insert_row a pj r)) s) as [x s1] eqn:H1.
  apply on_conn_step in H1 as (c1 & H1 & ->). apply dml_step in H1 as (_ & _ & H & _).
  rewrite Hf in H. destruct x as [u|e]; [|done].
  unfold sget. destruct (_txn_depth _ =? 0); [|done].
  pose proof (commit_faults c1 H) as H2. unfold on_conn. cbn [s_conn set_conn].
  destruct (commit c1) as [[u2|e] c2]; done.
Qed.

Lemma write_faults a s : faults (s_conn s) = [] -> faults (s_conn (snd (write a s))) = [].
Proof.
  intros Hf. unfold write. destruct (_read_only s); [done|]. unfold sbind.
  destruct (write_prepare_spec a s) as (e & Hp).
  destruct (write_prepare a s) as [[[pj r]|x] s1].
  - destruct Hp as [-> _]. by apply write_append_faults.
  - by rewrite Hp.
Qed.

Lemma no_commit_fault s e : faults (s_conn s) = [] -> ~ commit_fault s e.
Proof. intros Hf (m & _ & H). by rewrite Hf in H. Qed.

Lemma write_advances a s : advances s (snd (write a s)).
Proof.
  pose proof (write_faults a s) as Hf. destruct (write a s) as [res s'] eqn:H.
  apply write_spec in H as (H1 & H2 & H3 & H4). cbn [snd] in *. split; try done.
  - intros H0. destruct res as [r'|e].
    + destruct H4 as (_ & r & row & _ & _ & _ & _ & _ & ->). by exists [row].
    + destruct H4 as (_ & _ & _ & [->|(_ & Hc & _)]); [exists []; by rewrite app_nil_r|].
      by apply no_commit_fault in Hc.
  - intros H0 anchor Hc. destruct res as [r'|e].
    + destruct H4 as (_ & r & row & Hw & _ & Hfr & _ & _ & Hv).
      destruct (written_receipt _ _ _ _ Hw) as (Hne & Hp & _ & _ & _ & Hl & _).
      by eapply append_chained.
    + destruct H4 as (Hfr & _ & _ & [Hv|(_ & Hcf & _)]); [|by apply no_commit_fault in Hcf].
      unfold chained. by rewrite Hv, Hfr.
  - intros H0 Hd Hs. destruct res as [r'|e].
    + destruct H4 as (_ & r & row & _ & _ & _ & _ & Hdur & _). by destruct (Hdur Hd) as [-> _].
    + destruct H4 as (_ & Hdur & _ & [Hv|(_ & Hcf & _)]); [|by apply no_commit_fault in Hcf].
      by rewrite Hv, Hdur.
Qed.
End advancing.

(** * The row of a kernel receipt *)

Section kernel_facts.
Context {U : Unicode} {E : Ed25519} {G : Engine} {D : Deployment}.

Lemma store_cells_col keys c cs k : store_cells keys c = Ok cs -> k ∈ keys ->
  text_cell (col k c) = Ok (col k cs).
Proof.
  unfold store_cells. intros H%sequence_forall2 Hk. revert H.
  generalize cs. clear cs. induction keys as [|x keys IH]; intros cs H; [by apply elem_of_nil in Hk|].
  cbn [map] in H. inversion H as [|? y ? cs' Hy Hcs]; subst. apply rbind_ok in Hy as (v & Hv & Hy).
  apply Ok_inj in Hy. subst y. destruct (decide (k = x)) as [->|Hne].
  - unfold col at 2. cbn [dict_get]. by rewrite str_eqb_refl.
  - apply elem_of_cons in Hk as [?|Hk]; [done|]. rewrite (IH Hk _ Hcs). unfold col. cbn [dict_get].
    by rewrite (proj2 (str_eqb_false k x) Hne).
Qed.

(** ** The parameters of a row *)

Definition is_dict (v : pyval) : bool := match v with PDict _ => true | _ => false end.
(** The stored text, where it reads back at all, reads back as a dictionary. *)
Definition dict_cell (r : Receipt) : Prop :=
  forall v, json_loads (cell_text (parameters r)) = Some v -> is_dict v = true.

Lemma params_json_dict d t v : _params_json (PDict d) = Ok t -> json_loads t = Some v -> is_dict v = true.
Proof.
  unfold _params_json. cbn [json_dumps]. intros (ts & _ & <-%Ok_inj)%rbind_ok.
  generalize (join (item_sep style_compact_ascii) ts +:+ "}"). intros body.
  unfold json_loads. change (String.length ("{" +:+ body)) with (S (String.length body)).
  generalize (String.length body). intros n.
  change (parse_value (S n) ("{" +:+ body)) with
    (match skip_ws body with
     | String c' r => if is_char 125 c' then Some (PDict [], r)
         else match parse_members n body with
              | Some (l, r) => Some (PDict (dict_of_list l), r) | None => None end
     | EmptyString => None end).
  destruct (skip_ws body) as [|c r]; [done|].
  destruct (is_char 125 c); [destruct (skip_ws r); [by intros <-%Some_inj'|done]|].
  destruct (parse_members _ _) as [[l r']|]; [|done]. destruct (skip_ws r'); [by intros <-%Some_inj'|done].
Qed.

Lemma surface_dict p ec cs p' : _resolve_effect_surface p ec false = Ok (cs, p') ->
  is_dict p = true -> is_dict p' = true.
Proof.
  unfold _resolve_effect_surface. destruct ec as [c|].
  - destruct (is_none _); [by intros [_ <-]%Ok_inj%pair_ok|]. intros (? & _ & H)%rbind_ok. cbv zeta in H.
    destruct (diverging _ _); [done|]. by apply Ok_inj, pair_ok in H as [_ <-].
  - intros (x & _ & H)%rbind_ok. destruct (_ || _); by apply Ok_inj, pair_ok in H as [_ <-].
Qed.
Lemma promote_dict p g s p' g' s' : promote_reconciliation p g s = (p', g', s') ->
  is_dict p = true -> is_dict p' = true.
Proof.
  unfold promote_reconciliation. destruct p; try done. destruct (_ || _); by intros [[<- _]%pair_ok _]%pair_ok.
Qed.

(** Parameters without a reserved key are committed as they come. *)
Definition reserved_keys : list string :=
  _EFFECT_MARKER_KEYS ++ ["reconciliation_grade"; "reconciliation_warrant_snapshot"].
Definition plain (d : cols) : bool := forallb (fun kv => negb (mem_str (fst kv) reserved_keys)) d.

Lemma plain_key d k : plain d = true -> k ∈ reserved_keys -> k ∉ map fst d.
Proof.
  unfold plain. rewrite forallb_forall. intros H Hk ([k' v] & -> & Hin)%list_elem_of_fmap.
  apply list_elem_of_In, H in Hin. cbn [fst] in *. apply negb_true_iff in Hin. by apply mem_str_false in Hin.
Qed.
Lemma plain_strip d : plain d = true -> strip_markers d = d.
Proof.
  unfold plain, strip_markers. induction d as [|[k v] d IH]; cbn [forallb List.filter fst]; [done|].
  intros [Hk Hd]%andb_true_iff. rewrite (IH Hd), (proj2 (mem_str_false k _)); [done|].
  apply negb_true_iff in Hk. rewrite mem_str_false in Hk. intros Hx. apply Hk.
  unfold reserved_keys. apply elem_of_app. by left.
Qed.
Lemma plain_surface d ec x : plain d = true -> _resolve_effect_surface (PDict d) ec false = Ok x ->
  snd x = PDict d.
Proof.
  intros Hp. pose proof (plain_strip d Hp) as Hs. unfold _resolve_effect_surface. destruct ec as [c|].
  - destruct (is_none _); [by intros <-%Ok_inj|]. intros (? & _ & H)%rbind_ok. cbv zeta in H.
    destruct (diverging _ _); [done|]. apply Ok_inj in H as <-. cbn [snd dict_part]. by rewrite Hs.
  - intros (cs & _ & H)%rbind_ok. destruct (_ || _); apply Ok_inj in H as <-; [done|].
    cbn [snd dict_part]. by rewrite Hs.
Qed.
Lemma plain_promote d g s : plain d = true -> promote_reconciliation (PDict d) g s = (PDict d, g, s).
Proof.
  intros Hp. unfold promote_reconciliation.
  rewrite !(proj2 (mem_str_false _ _)); [done|apply (plain_key d _ Hp)..]; unfold reserved_keys; cbn; set_solver.
Qed.

(** A receipt outside every effect trail: it is written with no phase, and without typed
    columns only if its parameters spell no effect class. *)
Definition untracked_args (a : kwargs) : bool :=
  match kw_effect_columns a with
  | None => is_none (col "effect_atomicity" (dict_part (kw_parameters a)))
  | Some ec => is_none (col "effect_phase" ec)
  end.
Definition untracked (r : Receipt) : Prop := col "effect_phase" (effect r) = PNone.

(** What the stored row of a kernel receipt shows. *)
Record entered (a : kwargs) (x row : Receipt) : Prop := {
  en_op : op row = kw_op a;
  en_authority : authority row = kw_authority a;
  en_failed : failed row = kw_failed a;
  en_intent : intent row = kw_intent a;
  en_jurisdiction : jurisdiction row = kw_jurisdiction a;
  en_warrant : warrant_id row = kw_warrant_id a;
  en_intent_ref : intent_ref row = kw_intent_ref a;
  en_root : h_r row = h_r x;
  en_effect ec k : kw_effect_columns a = Some ec -> is_none (col "effect_atomicity" ec) = false ->
    k ∈ map snd _EFFECT_MARKER_MAP -> text_cell (col k ec) = Ok (col k (effect row));
  en_dict : is_dict (kw_parameters a) = true -> dict_cell row;
  en_params d : kw_parameters a = PDict d -> plain d = true ->
    exists pj, _params_json (PDict d) = Ok pj /\ parameters row = PStr pj;
  en_version : 4 <= version row;
  en_rooted : h_r row <> "";
  en_untracked : untracked_args a = true -> untracked row;
}.

Lemma is_none_true v : is_none v = true -> v = PNone.
Proof. by destruct v. Qed.

Lemma untracked_surface p ec cs p' : _resolve_effect_surface p ec false = Ok (cs, p') ->
  match ec with
  | None => is_none (col "effect_atomicity" (dict_part p))
  | Some ec => is_none (col "effect_phase" ec)
  end = true ->
  col "effect_phase" (match cs with Some c => c | None => [] end) = PNone.
Proof.
  unfold _resolve_effect_surface. destruct ec as [c|].
  - destruct (is_none (col "effect_atomicity" c)); [by intros [<- _]%Ok_inj%pair_ok|].
    intros (? & _ & H)%rbind_ok Hn. cbv zeta in H. destruct (diverging _ _); [done|].
    apply Ok_inj, pair_ok in H as [<- _]. by apply is_none_true in Hn.
  - unfold _derive_effect_columns. destruct p as [| | | | | | |d|]; cbn [dict_part];
      try by intros [<- _]%Ok_inj%pair_ok.
    intros H Hn. rewrite Hn in H. by apply Ok_inj, pair_ok in H as [<- _].
Qed.

Lemma effect_surface p ec cs p' :
  _resolve_effect_surface p (Some ec) false = Ok (cs, p') ->
  is_none (col "effect_atomicity" ec) = false ->
  exists c, cs = Some c /\ forall k, k ∈ map snd _EFFECT_MARKER_MAP -> col k c = col k ec.
Proof.
  unfold _resolve_effect_surface. intros H Hn. rewrite Hn in H.
  apply rbind_ok in H as (? & _ & H). cbv zeta in H. destruct (diverging _ _); [done|].
  apply Ok_inj, pair_ok in H as [<- _]. eexists. split; [done|].
  intros k Hk. unfold col. cbn [map _EFFECT_MARKER_MAP fst snd dict_get] in *.
  repeat (apply elem_of_cons in Hk as [->|Hk]; [vm_compute; reflexivity|]).
  by apply elem_of_nil in Hk.
Qed.

Lemma written_entered k a r row : written (write_of k a) (k_store k) r row ->
  forall n, entered a (with_id n r) row.
Proof.
  intros [eff p1 ps gr sn pj now cx g Hsur Hpr Hpj Hs Hr] n.
  apply seal_receipt_sealed in Hs as [kk term cap cont br now' body tvh Hroot _ _ _ _ _ Hsr].
  unfold row_of in Hr. do 2 apply rbind_ok in Hr as (? & _ & Hr).
  apply rbind_ok in Hr as (eff' & Heff & Hr). do 3 apply rbind_ok in Hr as (? & _ & Hr).
  apply Ok_inj in Hr. subst row r. split; try reflexivity.
  4:{ cbn [version receipt_of]. destruct br; cbn [body_version]; lia. }
  4:{ cbn [h_r receipt_of]. intros Hz. apply commitments_root in Hroot. by rewrite Hz in Hroot. }
  4:{ intros Hn. cbn [effect_columns w_parameters write_of] in Hsur.
      apply untracked_surface in Hsur; [|exact Hn]. unfold untracked. cbn [effect receipt_of] in Heff |- *.
      apply (store_cells_col effect_keys _ _ "effect_phase") in Heff; [|unfold effect_keys; set_solver].
      rewrite Hsur in Heff. by apply Ok_inj in Heff. }
  2:{ intros Hd v. cbn [parameters receipt_of cell_text]. cbn [w_parameters write_of] in Hsur.
      pose proof (promote_dict _ _ _ _ _ _ Hpr (surface_dict _ _ _ _ Hsur Hd)) as Hps.
      destruct ps; try done. apply (params_json_dict _ _ _ Hpj). }
  2:{ intros d Hd Hp. cbn [effect_columns write_of w_parameters] in Hsur. rewrite Hd in Hsur.
      apply plain_surface in Hsur; [|done]. cbn [snd] in Hsur. subst p1.
      rewrite plain_promote in Hpr by done. apply pair_ok in Hpr as [[<- _]%pair_ok _]. by exists pj. }
  intros ec c Hec Hn Hk. cbn [effect receipt_of] in Heff |- *.
  cbn [effect_columns write_of w_parameters] in Hsur. rewrite Hec in Hsur.
  destruct (effect_surface _ _ _ _ Hsur Hn) as (cc & -> & Hc). rewrite <- Hc by done.
  apply (store_cells_col effect_keys); [done|]. revert Hk. clear.
  intros Hk. cbn [map _EFFECT_MARKER_MAP snd] in Hk. unfold effect_keys. set_solver.
Qed.

(** ** Kernels at rest *)

Definition kview (k : kernel) : db := view (k_store k).

(** No transaction is open in the kernel's sense, no commit will fail, everything
    written is durable, and the chain is sound from its anchor. *)
Record calm (anchor : string) (k : kernel) : Prop := {
  calm_faults : faults (s_conn (k_store k)) = [];
  calm_depth : _txn_depth (k_store k) = 0;
  calm_sync : view (k_store k) = durable (s_conn (k_store k));
  calm_chain : chained anchor (k_store k);
}.

Lemma calm_advances anchor k k' : calm anchor k -> advances (k_store k) (k_store k') -> calm anchor k'.
Proof. intros [F C S K] [D' R I F' A C' S']. split; auto. congruence. Qed.

Definition grows (k k' : kernel) (l : list Receipt) : Prop :=
  rows (kview k') = rows (kview k) ++ l.

Lemma kwrite_cases anchor a k r k' : calm anchor k -> kwrite a k = (r, k') ->
  k' = with_store (k_store k') k /\ advances (k_store k) (k_store k') /\ calm anchor k' /\
  match r with
  | Ok x => idle (k_store k') /\ exists row, entered a x row /\ grows k k' [row]
  | Err _ => grows k k' []
  end.
Proof.
  intros Hc H. unfold kwrite, on_store in H.
  pose proof (write_advances (write_of k a) (k_store k)) as Ha.
  destruct (write (write_of k a) (k_store k)) as [x s'] eqn:Hw. cbn [snd] in Ha.
  apply pair_ok in H as [-> <-].
  assert (Hc' : calm anchor (with_store s' k)) by (by eapply calm_advances).
  split_and!; try done. destruct Hc as [F C S K].
  apply write_spec in Hw as (H1 & _ & _ & H4). unfold grows, kview. cbn [k_store with_store].
  destruct r as [x|e].
  - destruct H4 as (_ & r0 & row & Hwr & -> & _ & Ht & Hdur & Hv). destruct (Hdur C) as [Hd _].
    split; [split; cbn; [congruence|by rewrite Ht, C|by rewrite Hd]|].
    exists row. split; [by eapply written_entered|]. by rewrite Hv.
  - rewrite app_nil_r. destruct H4 as (_ & _ & _ & [->|(_ & Hcf & _)]); [done|].
    by apply no_commit_fault in Hcf.
Qed.

(** ** Postconditions on the result, the rows added and the state reached *)

Context (anchor : string).

(** Run at rest, [m] comes to rest with [Q] of what it returned or raised, of the
    rows it added and of the kernel it left. *)
Definition leads {A} (m : M kernel A) (k : kernel)
    (Q : result exn A -> list Receipt -> kernel -> Prop) : Prop :=
  calm anchor k ->
  exists l, calm anchor (snd (m k)) /\ grows k (snd (m k)) l /\ Q (fst (m k)) l (snd (m k)).

Lemma grows_refl k : grows k k [].
Proof. unfold grows. by rewrite app_nil_r. Qed.
Lemma grows_trans k k1 k2 l l1 : grows k k1 l -> grows k1 k2 l1 -> grows k k2 (l ++ l1).
Proof. unfold grows. intros -> ->. by rewrite app_assoc. Qed.

Lemma leads_mono {A} (m : M kernel A) k (Q R : result exn A -> list Receipt -> kernel -> Prop) :
  leads m k Q -> (forall r l k', Q r l k' -> R r l k') -> leads m k R.
Proof. intros H HQ Hc. destruct (H Hc) as (l & ? & ? & ?). exists l. auto. Qed.

(** The postcondition may speak of the run. *)
Lemma leads_run {A} (m : M kernel A) k (Q : result exn A -> list Receipt -> kernel -> Prop) :
  leads m k Q -> leads m k (fun r l k' => Q r l k' /\ m k = (r, k')).
Proof. intros H Hc. destruct (H Hc) as (l & ? & ? & ?). exists l. split_and!; [done..|]. by destruct (m k). Qed.

(** What changes nothing in the store. *)
Lemma leads_pure {A} (m : M kernel A) k (Q : result exn A -> list Receipt -> kernel -> Prop) :
  k_store (snd (m k)) = k_store k -> Q (fst (m k)) [] (snd (m k)) -> leads m k Q.
Proof.
  intros Hs HQ Hc. exists []. split_and!; [|unfold grows, kview; by rewrite Hs, app_nil_r|done].
  destruct Hc. by split; rewrite ?Hs.
Qed.

Lemma leads_bind {A B} (m : M kernel A) (f : A -> M kernel B) k
    (Q : result exn B -> list Receipt -> kernel -> Prop) :
  leads m k (fun r l k1 => match r with
    | Ok a => leads (f a) k1 (fun r' l' k2 => Q r' (l ++ l') k2)
    | Err e => Q (Err e) l k1
    end) ->
  leads (sbind m f) k Q.
Proof.
  intros H Hc. destruct (H Hc) as (l & Hc1 & Hg1 & H1). unfold sbind.
  destruct (m k) as [[a|e] k1]; cbn [fst snd] in *; [|by exists l].
  destruct (H1 Hc1) as (l' & Hc2 & Hg2 & HQ). exists (l ++ l').
  split_and!; [done|by eapply grows_trans|done].
Qed.

(** A lawful computation in place of one whose rows are known. *)
Lemma leads_lawful {A} (m : M kernel A) k (Q : result exn A -> list Receipt -> kernel -> Prop) :
  advances (k_store k) (k_store (snd (m k))) ->
  (forall l, calm anchor (snd (m k)) -> Q (fst (m k)) l (snd (m k))) -> leads m k Q.
Proof.
  intros Ha HQ Hc. destruct (adv_rows _ _ Ha) as (l & Hl); [by destruct Hc|].
  assert (Hc' : calm anchor (snd (m k))) by by eapply calm_advances.
  exists l. auto.
Qed.

Lemma leads_kwrite a k (Q : result exn Receipt -> list Receipt -> kernel -> Prop) :
  (forall x row s, entered a x row -> idle s -> Q (Ok x) [row] (with_store s k)) ->
  (forall e s, Q (Err e) [] (with_store s k)) ->
  leads (kwrite a) k Q.
Proof.
  intros H1 H2 Hc. destruct (kwrite a k) as [r k'] eqn:Hw.
  destruct (kwrite_cases anchor a k r k' Hc Hw) as (Hk & _ & Hc' & H). cbn [fst snd].
  destruct r as [x|e].
  - destruct H as (Hi & row & Hen & Hg). exists [row]. split_and!; try done. rewrite Hk. by apply H1.
  - exists []. split_and!; try done. rewrite Hk. apply H2.
Qed.

(** ** The refusals *)

(** The operation, the outcome, and parameters that are a dictionary. *)
Record recorded (o : string) (f : bool) (r : Receipt) : Prop := {
  rc_op : op r = o;
  rc_failed : failed r = f;
  rc_dict : dict_cell r;
  rc_version : 4 <= version r;
  rc_root : h_r r <> "";
}.
(** A receipt of the kernel that is part of no effect trail. *)
Definition decision (o : string) (f : bool) (r : Receipt) : Prop :=
  recorded o f r /\ untracked r.

(** What a refusal leaves: nothing, if its receipt cannot be written; the record of
    a rejected protocol; the refusal of a gate. *)
Inductive refused : exn -> list Receipt -> Prop :=
| rf_silent e : refused e []
| rf_rejected e r : decision "protocol_error" true r -> refused e [r]
| rf_refused m r : decision "gate_refuse" true r -> refused (GateRefusal m) [r].

Definition horizon_post {A} (r : result exn A) (l : list Receipt) (_ : kernel) : Prop :=
  match r with Ok _ => l = [] | Err e => refused e l end.

Lemma entered_recorded a x row : entered a x row ->
  is_dict (kw_parameters a) = true -> recorded (kw_op a) (kw_failed a) row.
Proof.
  intros H Hd. split; [by apply (en_op _ _ _ H)|by apply (en_failed _ _ _ H)|by apply (en_dict _ _ _ H)
    |by apply (en_version _ _ _ H)|by apply (en_rooted _ _ _ H)].
Qed.
Lemma entered_decision a x row : entered a x row ->
  is_dict (kw_parameters a) = true -> untracked_args a = true -> decision (kw_op a) (kw_failed a) row.
Proof. intros H Hd Hu. split; [by apply (entered_recorded a x)|by apply (en_untracked _ _ _ H)]. Qed.

Lemma leads_reject {A} o reason who (e : exn) k : leads (@reject _ _ _ A o reason who e) k horizon_post.
Proof.
  unfold reject. apply leads_bind.
  apply (leads_mono _ _ (fun r l k' => r = Ok tt /\ (l = [] \/ exists row, l = [row] /\
           decision "protocol_error" true row))).
  - intros Hc. unfold _emit_protocol_error, try_pass. cbn [fst snd].
    destruct (leads_bind (kwrite (kernel_receipt "protocol_error" who
        (PDict [("op", PStr o); ("reason", PStr reason)]) true "protocol_error" false))
      (fun _ => sret tt) k (fun _ l _ => l = [] \/ exists row, l = [row] /\
           decision "protocol_error" true row)) as (l & H1 & H2 & H3); [|done|by exists l].
    apply leads_kwrite; [|by left].
    intros x row s Hen _. apply leads_pure; [done|]. right. exists row. split; [done|].
    by apply (entered_decision _ _ _ Hen).
  - intros r l k' [-> Hl]. apply leads_pure; [done|]. cbn. rewrite app_nil_r.
    destruct Hl as [->|(row & -> & Hd)]; by constructor.
Qed.

(** What returns without a row, or refuses. *)
Lemma leads_then {A B} (m : M kernel A) (f : A -> M kernel B) k :
  leads m k horizon_post -> (forall a k', leads (f a) k' horizon_post) ->
  leads (sbind m f) k horizon_post.
Proof.
  intros Hm Hf. apply leads_bind. apply (leads_mono _ _ _ _ Hm). intros [a|e] l k'; [|done].
  intros ->. apply Hf.
Qed.

Lemma leads_refusal {A} a m (f : M kernel unit) k :
  kw_op a = "gate_refuse" -> kw_failed a = true -> is_dict (kw_parameters a) = true ->
  untracked_args a = true ->
  (forall k', k_store (snd (f k')) = k_store k' /\ fst (f k') = Ok tt) ->
  leads (let! _ := kwrite a in let! _ := f in @sraise _ A (GateRefusal m)) k horizon_post.
Proof.
  intros Ho Hf Hp Ht Hu. apply leads_bind, leads_kwrite; [|intros; constructor].
  intros x row s Hen _. apply leads_bind. destruct (Hu (with_store s k)) as [Hs Hr].
  apply leads_pure; [done|]. rewrite Hr. apply leads_pure; [done|].
  apply rf_refused. rewrite <- Ho, <- Hf. by apply (entered_decision _ x).
Qed.

Lemma leads_ok {A} (a : A) k : leads (sret a) k horizon_post.
Proof. by apply leads_pure. Qed.

Lemma count_refusal_pure layer k : k_store (snd (count_refusal layer k)) = k_store k /\
  fst (count_refusal layer k) = Ok tt.
Proof. done. Qed.
Lemma refusal_warrant_pure a k : k_store (snd (refusal_warrant a k)) = k_store k /\
  fst (refusal_warrant a k) = Ok tt.
Proof.
  unfold refusal_warrant. destruct (x_warrant_basis a), (k_warrants k); try done.
  destruct (create_refusal_warrant _ _ _ _); [|done]. by destruct (warrant_write _ _).
Qed.

Lemma leads_jurisdiction a who ps k : leads (jurisdiction_steps a who ps) k horizon_post.
Proof.
  unfold jurisdiction_steps. destruct (kernel_op (x_op a)); [apply leads_reject|].
  unfold leads. destruct (negb (universal (x_op a)) && bool_decide (k_status k = UNINITIALIZED));
    [apply leads_reject|].
  apply leads_then.
  - unfold leads, check_governor. destruct (_ && _ && _); [|by apply leads_ok].
    destruct (x_governor_sig a); [|apply leads_reject].
    apply leads_then; [|intros; case_goal; [by apply leads_ok|apply leads_reject]].
    apply leads_pure; [done|]. unfold slift. cbn [fst].
    destruct (governor_message (x_op a) ps); [done|constructor].
  - intros. case_goal; [by apply leads_ok|apply leads_reject].
Qed.

Lemma leads_authority_model a who k : leads (authority_model_step a who) k horizon_post.
Proof.
  unfold leads, authority_model_step. destruct (model_of k (x_op a)) as [m|]; [|by apply leads_ok].
  destruct (require_gate m && _); [apply leads_reject|].
  destruct (require_warrant m && _); [apply leads_reject|]. by apply leads_ok.
Qed.

Lemma leads_capability a who ps k : leads (capability_step a who ps) k horizon_post.
Proof.
  unfold leads, capability_step. destruct (kernel_op (x_op a)); [by apply leads_ok|]. cbv zeta.
  destruct (find_enforced_entry _ _ _) as [e|]; [|by apply leads_ok].
  destruct (enforce_decision _ _ _ _) as [[] cause]; [|by apply leads_ok].
  apply leads_refusal; [done..|]. apply count_refusal_pure.
Qed.

Lemma leads_locality a who ps k : leads (locality_step a who ps) k horizon_post.
Proof.
  unfold locality_step. destruct (x_required_locality a); [|apply leads_ok].
  case_goal; [|apply leads_ok]. apply leads_refusal; [done..|]. apply count_refusal_pure.
Qed.

Lemma leads_refuse_intent o reason k : leads (refuse_intent o reason) k horizon_post.
Proof.
  unfold leads, refuse_intent. apply leads_bind, leads_kwrite; [|intros; constructor].
  intros x row s Hen _. apply leads_pure; [done|]. apply rf_refused.
  by apply (entered_decision _ x) in Hen.
Qed.

Lemma leads_intent a k : leads (intent_step_of a) k horizon_post.
Proof.
  unfold leads, intent_step_of. cbv zeta. destruct (k_wills k) as [ws|]; [|by apply leads_ok].
  destruct (kernel_op _ || _); [by apply leads_ok|].
  destruct (active_for k ws); [|apply leads_pure; [done|constructor]].
  repeat first [by apply leads_ok | apply leads_refuse_intent
               | apply leads_pure; [done|constructor] | case_goal].
Qed.

(** ** Callables *)

(** A gate or an effect that, whatever it does elsewhere, only adds to the chain. *)
Definition lawful {A} (m : M kernel A) : Prop :=
  forall k, advances (k_store k) (k_store (snd (m k))).

Lemma lawful_quiet {A} (m : M kernel A) : (forall k, k_store (snd (m k)) = k_store k) -> lawful m.
Proof. intros H k. by rewrite H. Qed.
Lemma lawful_kwrite a : lawful (kwrite a).
Proof.
  intros k. unfold kwrite, on_store. pose proof (write_advances (write_of k a) (k_store k)) as H.
  by destruct (write (write_of k a) (k_store k)).
Qed.
Lemma lawful_bind {A B} (m : M kernel A) (f : A -> M kernel B) :
  lawful m -> (forall a, lawful (f a)) -> lawful (sbind m f).
Proof.
  intros Hm Hf k. unfold sbind. pose proof (Hm k) as H.
  destruct (m k) as [[a|e] k']; cbn [snd] in *; [|done]. transitivity (k_store k'); [done|]. apply Hf.
Qed.

(** No gate, or one that only reads. *)
Definition quiet_gate (a : exec_args) : Prop :=
  forall g, x_gate a = Some g -> forall k, k_store (snd (g k)) = k_store k.

Definition gate_post {A} (a : exec_args) (r : result exn A) (l : list Receipt) (_ : kernel) : Prop :=
  exists lg l', l = lg ++ l' /\ (quiet_gate a -> lg = []) /\
    match r with Ok _ => l' = [] | Err e => refused e l' end.

(** After a lawful callable, whatever it returned or raised. *)
Lemma leads_try {A B} (m : M kernel A) (f : result exn A -> M kernel B) k
    (Q : result exn B -> list Receipt -> kernel -> Prop) :
  advances (k_store k) (k_store (snd (m k))) ->
  (forall lm, grows k (snd (m k)) lm ->
     leads (f (fst (m k))) (snd (m k)) (fun r l k' => Q r (lm ++ l) k')) ->
  leads (fun k => f (fst (m k)) (snd (m k))) k Q.
Proof.
  intros Ha Hf Hc. destruct (adv_rows _ _ Ha) as (lm & Hlm); [by destruct Hc|].
  assert (Hc1 : calm anchor (snd (m k))) by by eapply calm_advances.
  destruct (Hf lm Hlm Hc1) as (l & H1 & H2 & H3). exists (lm ++ l).
  split_and!; [done|by eapply grows_trans|done].
Qed.

Definition gate_branch (a : exec_args) (who : string) (ps : cols) (r : result exn pyval) :
    M kernel unit :=
  match r with
  | Err e => if is_exception e then
               reject (x_op a) "gate_exception" who (ProtocolError "gate callable raised")
             else sraise e
  | Ok admitted => if truthy admitted then sret tt else
      let! _ := kwrite (kernel_receipt "gate_refuse" who
                  (refusal_params (x_op a) ps []) true "gate_refuse" false) in
      let! _ := (let! _ := count_refusal (x_layer a) in refusal_warrant a) in
      sraise (GateRefusal "gate returned False")
  end.

Lemma gate_step_branch a who ps gate k : x_gate a = Some gate ->
  gate_step a who ps k = gate_branch a who ps (fst (gate k)) (snd (gate k)).
Proof.
  unfold gate_step. intros ->. destruct (gate k) as [[v|e] k']; cbn [fst snd gate_branch].
  - destruct (truthy v); [done|]. unfold sbind, count_refusal, smod.
    destruct (kwrite _ k') as [[x|e] k1]; [|done].
    by destruct (refusal_warrant a _) as [[[]|e] k2].
  - by destruct (is_exception e).
Qed.

Lemma leads_eq {A} (m m' : M kernel A) k Q : m k = m' k -> leads m' k Q -> leads m k Q.
Proof. unfold leads. by intros ->. Qed.

Lemma leads_gate a who ps k : (forall g, x_gate a = Some g -> lawful g) ->
  leads (gate_step a who ps) k (gate_post a).
Proof.
  intros Hg. destruct (x_gate a) as [gate|] eqn:Hx.
  - apply (leads_eq _ (fun k => gate_branch a who ps (fst (gate k)) (snd (gate k))) _ _
             (gate_step_branch a who ps gate k Hx)).
    apply (leads_try gate (gate_branch a who ps)); [by apply Hg|]. intros lm Hlm.
    apply (leads_mono _ _ horizon_post); [|intros r l k' H; exists lm, l; split_and!; [done| |done]].
    2:{ intros Hq. unfold grows, kview in Hlm. rewrite (Hq gate Hx k) in Hlm.
        rewrite <- (app_nil_r (rows _)) in Hlm at 1. by apply app_inv_head in Hlm. }
    unfold gate_branch. destruct (fst (gate k)) as [v|e].
    + destruct (truthy v); [by apply leads_ok|].
      apply leads_refusal; try done. intros k2. unfold sbind, count_refusal, smod. apply (refusal_warrant_pure a (with_refused _ k2)).
    + destruct (is_exception e); [apply leads_reject|apply leads_pure; [done|constructor]].
  - unfold gate_step. rewrite Hx. apply leads_pure; [done|by exists [], []].
Qed.

Lemma leads_horizon a k : (forall g, x_gate a = Some g -> lawful g) ->
  leads (refusal_horizon a) k (gate_post a).
Proof.
  intros Hg. unfold leads, refusal_horizon. destruct (preflight k a) as [[who ps]|e].
  2:{ apply leads_pure; [done|]. exists [], []. split_and!; try done. constructor. }
  assert (Hlift : forall B (m : M kernel B) k, leads m k horizon_post ->
    leads m k (gate_post a)).
  { intros B m k0 H. apply (leads_mono _ _ _ _ H). intros r l k' Hp. by exists [], l. }
  apply leads_bind. apply (leads_mono _ _ _ _ (leads_jurisdiction a who ps k)).
  intros [u|e] l k1 H1; [|by exists [], l]. cbn in H1. subst l.
  apply leads_bind. apply (leads_mono _ _ _ _ (leads_authority_model a who k1)).
  intros [m|e] l k2 H2; [|by exists [], l]. cbn in H2. subst l.
  apply leads_bind. apply (leads_mono _ _ _ _ (leads_gate a who ps k2 Hg)).
  intros [u'|e] l k3 (lg & l' & -> & Hl & H3); [|by exists lg, l']. subst l'.
  rewrite app_nil_r. cbn [app].
  apply (leads_mono _ _ horizon_post); [|intros r l k' H; by exists lg, l].
  apply leads_then; [apply leads_capability|intros _ k4].
  apply leads_then; [apply leads_locality|intros _ k5].
  apply leads_then; [apply leads_intent|intros ref k6]. by apply leads_ok.
Qed.

(** ** The seam of effect and success receipt *)

Lemma kwrite_ok a k x k' : kwrite a k = (Ok x, k') ->
  exists row, entered a x row /\ grows k k' [row].
Proof.
  unfold kwrite, on_store. destruct (write (write_of k a) (k_store k)) as [r s'] eqn:Hw.
  intros [-> <-]%pair_ok. apply write_spec in Hw as (_ & _ & _ & _ & r0 & row & Hwr & -> & _ & _ & _ & Hv).
  exists row. split; [by eapply written_entered|]. unfold grows, kview. cbn. by rewrite Hv.
Qed.

Lemma txn_enter_faults v s : faults (s_conn (snd (txn_enter v s))) = faults (s_conn s).
Proof.
  unfold txn_enter, on_env, next_savepoint, on_conn, mt_enter. cbn [s_conn set_env].
  by destruct (ok v).
Qed.
Lemma release_faults n (c : conn db) : faults c = [] -> faults (snd (release n c)) = [].
Proof.
  intros H. unfold release, commit_now. rewrite H.
  destruct (find_sp n (savepoints c)) as [[s b]|]; [|done]. by destruct (sp_opens s).
Qed.
Lemma undo_faults n (c : conn db) : faults c = [] -> faults (snd (undo n c)) = [].
Proof.
  intros H. unfold undo, sbind, rollback_to.
  destruct (find_sp n (savepoints c)) as [[s b]|]; [|done]. by apply release_faults.
Qed.
Lemma txn_leave_faults {A} sp snap (r : result exn A) s : faults (s_conn s) = [] ->
  faults (s_conn (snd (txn_leave sp snap r s))) = [].
Proof.
  intros H. unfold txn_leave, on_conn, mt_exit_clean, mt_exit_exn. cbn [s_conn add_depth].
  pose proof (release_faults sp (s_conn s) H) as Hr. pose proof (undo_faults sp (s_conn s) H) as Hu.
  destruct r as [a|x].
  - destruct (release sp (s_conn s)) as [[u|e] c]; cbn [snd] in *; [done|]. by apply undo_faults.
  - by destruct (undo sp (s_conn s)) as [[u|e] c].
Qed.

Lemma seam_spec eff b k : calm anchor k -> idle (k_store k) -> lawful eff ->
  let '(r, _, k') := seam eff (kwrite b) k in
  calm anchor k' /\
  match r with
  | Ok v => exists k1 le x row, fst (eff k1) = Ok v /\ grows k1 (snd (eff k1)) le /\
      entered b x row /\ grows k k' (le ++ [row])
  | Err _ => grows k k' []
  end.
Proof.
  intros [F C S K] Hi Hl. unfold seam.
  pose proof (txn_cases valid (k_store k) Hi) as Ht. pose proof (txn_enter_faults valid (k_store k)) as Hf.
  destruct (txn_enter valid (k_store k)) as [[[sp snap]|x] s1]; cbn [snd] in Hf; rewrite F in Hf.
  2:{ destruct Ht as (T1 & T2 & T3 & T4 & T5). split.
      - split; cbn; [done|congruence|congruence|]. unfold chained. by rewrite T4, T5.
      - unfold grows, kview. cbn. by rewrite T4, app_nil_r. }
  destruct Ht as (_ & V1 & F1 & Hin & _ & Hleave).
  assert (Hc1 : chained anchor s1) by (unfold chained; by rewrite V1, F1).
  set (k1 := with_store s1 k). pose proof (Hl k1) as He.
  assert (Hb : exists r ph k2, seam_body eff (kwrite b) k1 = (r, ph, k2) /\
    advances s1 (k_store k2) /\
    match r with
    | Ok v => exists le x row, fst (eff k1) = Ok v /\ grows k1 (snd (eff k1)) le /\
        entered b x row /\ grows k1 k2 (le ++ [row])
    | Err _ => True end).
  { unfold seam_body. destruct (eff k1) as [[v|e] k2] eqn:Heff; cbn [fst snd] in He |- *; [|by do 3 eexists].
    pose proof (lawful_kwrite b k2) as Hw.
    destruct (kwrite b k2) as [[x|e] k3] eqn:Hk; cbn [snd] in Hw; do 3 eexists;
      (split; [done|split; [by transitivity (k_store k2)|]]); [|done].
    apply kwrite_ok in Hk as (row & Hen & Hg). destruct (adv_rows _ _ He Hf) as (le & Hle).
    exists le, x, row. split_and!; try done. by eapply grows_trans. }
  destruct Hb as (r & ph & k2 & -> & Ha & Hr). cbv zeta.
  specialize (Hleave _ r (k_store k2) (advances_frame _ _ Ha Hin)).
  pose proof (txn_leave_faults sp snap r (k_store k2) (adv_faults _ _ Ha Hf)) as Hf3.
  destruct (txn_leave sp snap r (k_store k2)) as [r' s3]; cbn [snd] in Hf3.
  destruct Hleave as (L1 & _ & L3). split.
  - destruct r' as [v|e].
    + destruct L3 as (-> & _ & L5 & _ & L7 & L8). split; cbn; [done|congruence|done|].
      pose proof (adv_chain _ _ Ha Hf anchor Hc1) as Hch. unfold chained. by rewrite L7, L8.
    + destruct L3 as ((X1 & X2 & X3) & _). split; cbn; [done|congruence|congruence|].
      unfold chained. by rewrite X2, X3.
  - unfold grows, kview. cbn [k_store with_store]. destruct r' as [v|e].
    + destruct L3 as (-> & _ & _ & _ & L7 & _). destruct Hr as (le & x & row & H1 & H2 & H3 & H4).
      exists k1, le, x, row. split_and!; [done..|]. rewrite L7, <- V1. exact H4.
    + destruct L3 as ((_ & X2 & _) & _). by rewrite X2, app_nil_r.
Qed.

(** ** The trails of external effects *)

(** A receipt of the trail of an external effect, as stored. *)
Record phase_row (a : exec_args) (cls ph : string) (f : bool) (ref : pyval) (r : Receipt) : Prop := {
  ph_recorded : recorded (x_op a) f r;
  ph_class : col "effect_atomicity" (effect r) = PStr cls;
  ph_phase : col "effect_phase" (effect r) = PStr ph;
  ph_key : text_cell (x_idempotency_key a) = Ok (col "effect_idempotency_key" (effect r));
  ph_ref : col "effect_prepare_ref" (effect r) = ref;
}.

Lemma phase_entered a t cls ph f key ref ec x row :
  t_op t = x_op a -> entered (phase_receipt t f ec) x row ->
  col "effect_atomicity" ec = PStr cls -> col "effect_phase" ec = PStr ph ->
  col "effect_idempotency_key" ec = key -> x_idempotency_key a = key ->
  col "effect_prepare_ref" ec = ref -> text_cell ref = Ok ref ->
  phase_row a cls ph f ref row.
Proof.
  intros Ht Hen H1 H2 H3 H4 H5 H6.
  assert (Hcol : forall c, c ∈ map snd _EFFECT_MARKER_MAP -> text_cell (col c ec) = Ok (col c (effect row))).
  { intros c Hc. apply (en_effect _ _ _ Hen ec c); [done|by rewrite H1|done]. }
  apply entered_recorded in Hen; [|done]. cbn in Hen. rewrite Ht in Hen.
  split; [done| | | |].
  - specialize (Hcol "effect_atomicity" ltac:(set_solver)). rewrite H1 in Hcol. by apply Ok_inj in Hcol.
  - specialize (Hcol "effect_phase" ltac:(set_solver)). rewrite H2 in Hcol. by apply Ok_inj in Hcol.
  - specialize (Hcol "effect_idempotency_key" ltac:(set_solver)). by rewrite H4, <- H3.
  - specialize (Hcol "effect_prepare_ref" ltac:(set_solver)). rewrite H5, H6 in Hcol. by apply Ok_inj in Hcol.
Qed.

(** The bounded retry adds at most the one receipt it was asked for. *)
Lemma leads_retry n emit k (P : Receipt -> Receipt -> Prop) :
  (forall k, leads emit k (fun r l _ => match r with
     | Ok x => exists row, l = [row] /\ P x row | Err _ => l = [] end)) ->
  leads (retry_terminal n emit) k (fun r l _ => match r with
     | Ok x => exists row, l = [row] /\ P x row | Err _ => l = [] end).
Proof.
  intros He. revert k. induction n as [|n IH]; intros k Hc.
  - exists []. split_and!; [done|apply grows_refl|done].
  - destruct (He k Hc) as (l & Hc1 & Hg & HQ). cbn [retry_terminal].
    destruct (emit k) as [[x|e] k1]; cbn [fst snd] in Hc1, Hg, HQ; [by exists l|]. subst l.
    destruct (_is_retryable_terminal_write_error e); [|by exists []].
    destruct (IH k1 Hc1) as (l' & H1 & H2 & H3). exists l'. split_and!; [done| |done].
    by apply (grows_trans _ _ _ _ _ Hg H2).
Qed.

Lemma leads_emit a k : leads (kwrite a) k (fun r l _ => match r with
  | Ok x => exists row, l = [row] /\ entered a x row | Err _ => l = [] end).
Proof. apply leads_kwrite; [|done]. intros x row s Hen _. by exists row. Qed.

(** What an effect between an intent and the record of its outcome leaves: nothing, if
    the intent cannot be written; the intent, the receipts of the effect, and the record its
    outcome calls for, or none when it cannot be written or there is none to write. *)
Definition around_post (eff : callable) (handled : exn -> bool) (P : Receipt -> Prop)
    (returned raised : Receipt -> Receipt -> Prop)
    (r : result exn pyval) (l : list Receipt) (_ : kernel) : Prop :=
  (exists e, r = Err e /\ l = []) \/
  exists p le k1, P p /\ grows k1 (snd (eff k1)) le /\
    ((exists v c, fst (eff k1) = Ok v /\ r = Ok v /\ l = p :: le ++ [c] /\ returned p c) \/
     (exists e c, fst (eff k1) = Err e /\ handled e = true /\ r = Err e /\ l = p :: le ++ [c] /\
        raised p c) \/
     (exists e, r = Err e /\ l = p :: le /\
        (fst (eff k1) = Err e /\ handled e = false \/
         (exists v, fst (eff k1) = Ok v) \/
         (exists e', fst (eff k1) = Err e' /\ handled e' = true)))).

Lemma leads_around intent eff returned handled raised k (P : Receipt -> Prop)
    (R F : Receipt -> Receipt -> Prop) : lawful eff ->
  leads intent k (fun r l _ => match r with
     | Ok x => exists p, l = [p] /\ P p /\ h_r p = h_r x | Err _ => l = [] end) ->
  (forall x p k, P p -> h_r p = h_r x -> leads (returned x) k (fun r l _ => match r with
     | Ok _ => exists c, l = [c] /\ R p c | Err _ => l = [] end)) ->
  (forall x p k, P p -> h_r p = h_r x -> leads (raised x) k (fun r l _ => match r with
     | Ok _ => exists c, l = [c] /\ F p c | Err _ => l = [] end)) ->
  leads (around intent eff returned handled raised) k (around_post eff handled P R F).
Proof.
  intros Hl Hp Hr Hf. unfold around. apply leads_bind.
  apply (leads_mono _ _ _ _ Hp). intros [x|e] l k1; [|intros ->; left; by exists e].
  intros (p & -> & HP & Hx).
  pose (f := fun r : result exn pyval => match r with
    | Ok v => let! _ := returned x in sret v
    | Err e => if handled e then let! _ := raised x in sraise e else sraise e end).
  apply (leads_eq _ (fun k => f (fst (eff k)) (snd (eff k)))).
  { unfold f. destruct (eff k1) as [[v|e] k2]; [done|]. cbn [fst snd]. by destruct (handled e). }
  apply (leads_try eff f); [apply Hl|]. intros le Hle. unfold f.
  destruct (fst (eff k1)) as [v|e] eqn:Heff; [|destruct (handled e) eqn:He].
  - apply leads_bind. apply (leads_mono _ _ _ _ (Hr x p (snd (eff k1)) HP Hx)).
    intros [y|e] l k2; [intros (c & -> & Hc)|intros ->]; (apply leads_pure; [done|]) || idtac;
      right; exists p, le, k1; (do 2 (split; [done|])); rewrite ?app_nil_r.
    + left. by exists v, c.
    + right. right. exists e. split_and!; [done|done|]. right. left. by exists v.
  - apply leads_bind. apply (leads_mono _ _ _ _ (Hf x p (snd (eff k1)) HP Hx)).
    intros [y|e'] l k2; [intros (c & -> & Hc)|intros ->]; (apply leads_pure; [done|]) || idtac;
      right; exists p, le, k1; (do 2 (split; [done|])); rewrite ?app_nil_r.
    + right. left. by exists e, c.
    + right. right. exists e'. split_and!; [done|done|]. right. right. by exists e.
  - apply leads_pure; [done|]. right. exists p, le, k1. do 2 (split; [done|]). right. right.
    exists e. rewrite app_nil_r. split_and!; [done|done|]. by left.
Qed.

(** The trail of an external effect. *)
Definition forward_post (a : exec_args) (cls : string) (eff : callable) :
    result exn pyval -> list Receipt -> kernel -> Prop :=
  around_post eff not_performed (phase_row a cls "prepare" false PNone)
    (fun p c => phase_row a cls "commit" false (PStr (h_r p)) c)
    (fun p c => phase_row a cls "abort" true (PStr (h_r p)) c).

(** Run an effect between a PREPARE and the terminal of its outcome. *)
Lemma leads_forward a cls eff prepare terminal k : lawful eff ->
  (forall k, leads prepare k (fun r l _ => match r with
     | Ok x => exists p, l = [p] /\ phase_row a cls "prepare" false PNone p /\ h_r p = h_r x
     | Err _ => l = [] end)) ->
  (forall ph f ref reason k, leads (terminal ph f ref reason) k (fun r l _ => match r with
     | Ok _ => exists c, l = [c] /\ phase_row a cls ph f (PStr ref) c | Err _ => l = [] end)) ->
  leads (forward_trail prepare terminal eff) k (forward_post a cls eff).
Proof.
  intros Hl Hp Ht. unfold forward_trail, forward_post. apply leads_around; [done|apply Hp|..];
    intros x p k1 _ ->; apply Ht.
Qed.

(** * The abstract specification of [execute] *)

(** What the effect of the call answered and the receipts it wrote, where it was run. *)
Definition ran (a : exec_args) (res : result exn pyval) (le : list Receipt) : Prop :=
  exists eff k, x_effect a = Some eff /\ fst (eff k) = res /\ grows k (snd (eff k)) le.

(** The parameters of the call spell no effect class. *)
Definition unmarked (a : exec_args) : bool := is_none (py_get "effect_atomicity" (x_parameters a)).
(** The receipt of the operation itself: it has the parameters of the call, so it is outside the
    effect trails only if these spell no effect class. *)
Definition performed (a : exec_args) (f : bool) (r : Receipt) : Prop :=
  recorded (x_op a) f r /\ (unmarked a = true -> untracked r).

Definition seam_class (c : EffectAtomicity) : bool :=
  match c with PURE | STORE_LOCAL => true | _ => false end.
Definition external_class (c : EffectAtomicity) : bool :=
  match c with EXTERNAL_REVERSIBLE | EXTERNAL_IRREVERSIBLE => true | _ => false end.

(** What an execution answers, and the receipts it may leave behind it; [le] are
    the receipts of the effect itself. *)
Inductive behaviour (a : exec_args) : result exn pyval -> list Receipt -> Prop :=
| tr_refused e l : refused e l -> behaviour a (Err e) l
| tr_unfinished e adm : decision "gate_admit" false adm -> behaviour a (Err e) [adm]
| tr_sealed c adm le done v : x_atomicity a = Some c -> seam_class c = true -> ran a (Ok v) le ->
    decision "gate_admit" false adm -> performed a false done ->
    behaviour a (Ok v) (adm :: le ++ [done])
| tr_rolled_back c adm abort e : x_atomicity a = Some c -> seam_class c = true ->
    decision "gate_admit" false adm -> decision (x_op a) true abort ->
    behaviour a (Err e) [adm; abort]
| tr_no_effect adm done : x_effect a = None ->
    decision "gate_admit" false adm -> performed a false done ->
    behaviour a (Ok PNone) [adm; done]
| tr_after adm done le v : x_atomicity a = Some NON_ATOMIC -> ran a (Ok v) le ->
    decision "gate_admit" false adm -> performed a false done ->
    behaviour a (Ok v) (adm :: done :: le)
| tr_after_failed adm done le bad e e' : x_atomicity a = Some NON_ATOMIC -> ran a (Err e) le ->
    decision "gate_admit" false adm -> performed a false done ->
    bad = [] \/ e' = e /\ (exists b, bad = [b] /\ performed a true b) ->
    behaviour a (Err e') (adm :: done :: le ++ bad)
| tr_committed c adm p le t v : x_atomicity a = Some c -> external_class c = true -> ran a (Ok v) le ->
    decision "gate_admit" false adm ->
    phase_row a (atomicity_value c) "prepare" false PNone p ->
    phase_row a (atomicity_value c) "commit" false (PStr (h_r p)) t ->
    behaviour a (Ok v) (adm :: p :: le ++ [t])
| tr_aborted c adm p le t e : x_atomicity a = Some c -> external_class c = true -> ran a (Err e) le ->
    exn_cls e = ExternalEffectNotPerformedC -> decision "gate_admit" false adm ->
    phase_row a (atomicity_value c) "prepare" false PNone p ->
    phase_row a (atomicity_value c) "abort" true (PStr (h_r p)) t ->
    behaviour a (Err e) (adm :: p :: le ++ [t])
| tr_in_doubt c adm p le e res : x_atomicity a = Some c -> external_class c = true -> ran a res le ->
    decision "gate_admit" false adm ->
    phase_row a (atomicity_value c) "prepare" false PNone p ->
    behaviour a (Err e) (adm :: p :: le).

(** ** The outcome after an admission *)

Lemma col_dict_set k k' v d : col k (dict_set k' v d) = if str_eqb k k' then v else col k d.
Proof.
  unfold col. induction d as [|[k2 v2] d IH]; cbn [dict_set dict_get].
  - by destruct (str_eqb k k').
  - destruct (str_eqb k' k2) eqn:H1; cbn [dict_get].
    + apply str_eqb_spec in H1 as ->. by destruct (str_eqb k k2).
    + destruct (str_eqb k k2) eqn:H2; [|done]. apply str_eqb_spec in H2 as ->.
      destruct (str_eqb k2 k') eqn:H3; [|done]. apply str_eqb_spec in H3 as ->.
      by rewrite str_eqb_refl in H1.
Qed.

(** The parameters of the admission spell an effect class only if those of the call do. *)
Definition carries (a : exec_args) (c : cleared) : Prop :=
  unmarked a = true -> is_none (col "effect_atomicity" (c_parameters c)) = true.

Lemma horizon_ok a k c k1 : refusal_horizon a k = (Ok c, k1) ->
  preflight_authority k a = Ok (c_authority c) /\ preflight_parameters a = Ok (c_parameters c).
Proof.
  unfold refusal_horizon. destruct (preflight k a) as [[who ps]|e] eqn:Hp; [|by intros [? _]%pair_ok].
  unfold preflight in Hp. apply rbind_ok in Hp as (w & Hw & Hp). apply rbind_ok in Hp as (q & Hq & Hp).
  repeat (apply rbind_ok in Hp as (? & _ & Hp)). apply Ok_inj, pair_ok in Hp as [-> ->]. intros H. repeat (apply sbind_ok in H as (? & ? & _ & H)). by apply pair_ok in H as [<-%Ok_inj _].
Qed.

Lemma horizon_carries a k c k1 : refusal_horizon a k = (Ok c, k1) -> carries a c.
Proof.
  intros H. apply horizon_ok in H as [_ H]. unfold preflight_parameters, carries, unmarked in *.
  destruct (x_parameters a) as [| | | | | | |d|]; try done; by apply Ok_inj in H as <-.
Qed.

Lemma success_untracked k a c wid : carries a c ->
  unmarked a = true -> untracked_args (success_receipt a c (outcome_params k a c) wid) = true.
Proof.
  intros Hc Hu. unfold untracked_args. cbn [kw_effect_columns success_receipt kw_parameters dict_part].
  unfold class_columns. destruct (x_effect a), (x_atomicity a); try done;
    (specialize (Hc Hu); unfold outcome_params; cbv zeta;
     destruct (dict_get (x_op a) _) as [n|]; [destruct (n =? 0)|];
     (destruct (x_authority_set a) as [| | | | |l|l| |]; try destruct l);
     rewrite ?col_dict_set; exact Hc).
Qed.

Lemma leads_phase a t cls ph f ref ec k : t_op t = x_op a ->
  col "effect_atomicity" ec = PStr cls -> col "effect_phase" ec = PStr ph ->
  col "effect_idempotency_key" ec = x_idempotency_key a ->
  col "effect_prepare_ref" ec = ref -> text_cell ref = Ok ref ->
  leads (kwrite (phase_receipt t f ec)) k (fun r l _ => match r with
    | Ok x => exists row, l = [row] /\ phase_row a cls ph f ref row /\ h_r row = h_r x
    | Err _ => l = [] end).
Proof.
  intros. apply (leads_mono _ _ _ _ (leads_emit _ k)). intros [x|e] l _; [|done].
  intros (row & -> & Hen). exists row. split_and!; [done| |by apply (en_root _ _ _ Hen)].
  by apply (phase_entered a t cls ph f (x_idempotency_key a) ref ec x row).
Qed.

(** What an external outcome leaves, class by class. *)
Lemma leads_external_class a c eff admit_ref t k : external_class c = true ->
  lawful eff -> t_op t = x_op a -> t_key t = x_idempotency_key a ->
  leads (match c with EXTERNAL_REVERSIBLE => _execute_external_reversible t eff admit_ref
         | _ => _execute_external_irreversible t eff admit_ref end) k
    (forward_post a (atomicity_value c) eff).
Proof.
  intros Hext Hl Ht Hk.
  set (cls := atomicity_value c).
  destruct c; try done; apply leads_forward; try done; intros;
    first [by apply leads_phase | idtac];
    (eapply leads_mono; [apply (leads_retry _ _ _ (fun x row =>
       phase_row a cls ph f (PStr ref) row /\ h_r row = h_r x)); intros; by apply leads_phase|]);
    intros [x|e] l _ Hpost; [|done| |done]; destruct Hpost as (row & -> & Hrow & _); by exists row.
Qed.

Lemma leads_external a c eff admit_ref t k : x_atomicity a = Some c -> external_class c = true ->
  x_effect a = Some eff -> lawful eff -> t_op t = x_op a -> t_key t = x_idempotency_key a ->
  forall adm, decision "gate_admit" false adm ->
  leads (match c with EXTERNAL_REVERSIBLE => _execute_external_reversible t eff admit_ref
         | _ => _execute_external_irreversible t eff admit_ref end) k
    (fun r l _ => behaviour a r (adm :: l)).
Proof.
  intros Hat Hext Hx Hl Ht Hk adm Hadm.
  apply (leads_mono _ _ _ _ (leads_external_class a c eff admit_ref t k Hext Hl Ht Hk)).
  intros r l _ [(e & -> & ->)|(p & le & k1 & Hp & Hle & H)]; [by apply tr_unfinished|].
  assert (Hran : forall res, fst (eff k1) = res -> ran a res le) by (intros res <-; by exists eff, k1).
  destruct H as [(v & t' & H1 & -> & -> & H2)|[(e & t' & H1 & He & -> & -> & H2)|(e & -> & -> & H1)]].
  - by apply (tr_committed a c); auto.
  - apply bool_decide_eq_true in He. by apply (tr_aborted a c); auto.
  - apply (tr_in_doubt a c adm p le e (fst (eff k1))); auto.
Qed.

Lemma leads_atomic a c cl eff b admit_ref k : x_atomicity a = Some cl -> seam_class cl = true ->
  x_effect a = Some eff -> lawful eff -> idle (k_store k) ->
  kw_op b = x_op a -> kw_failed b = false -> is_dict (kw_parameters b) = true ->
  (unmarked a = true -> untracked_args b = true) ->
  forall adm, decision "gate_admit" false adm ->
  leads (atomic_outcome a c eff (kwrite b) admit_ref) k (fun r l _ => behaviour a r (adm :: l)).
Proof.
  intros Hat Hcl Hx Hl Hi Ho Hf Hp Hu adm Hadm Hc.
  pose proof (seam_spec eff b k Hc Hi Hl) as Hs. unfold atomic_outcome.
  destruct (seam eff (kwrite b) k) as [[[v|e] phase] k1]; destruct Hs as [Hc1 Hs].
  - destruct Hs as (k2 & le & x & row & H1 & H2 & H3 & H4). exists (le ++ [row]). split_and!; [done|done|].
    apply (tr_sealed a cl); auto; [by exists eff, k2|].
    split; [rewrite <- Ho, <- Hf; by apply (entered_recorded _ x)|].
    intros H. by apply (en_untracked _ _ _ H3), Hu.
  - cbv zeta. set (m := _emit_effect_abort _ _ _ _ _ _ _ _).
    assert (Hm : leads (let! _ := m in @sraise _ pyval e) k1 (fun r l _ => behaviour a r (adm :: l))).
    { apply leads_bind. unfold m, _emit_effect_abort. rewrite Hat. apply leads_kwrite.
      - intros x row s Hen _. apply leads_pure; [done|].
        apply (tr_rolled_back a cl); auto. by apply (entered_decision _ x) in Hen.
      - intros. by apply tr_unfinished. }
    destruct (Hm Hc1) as (l & H1 & H2 & H3). exists l. split_and!; [done| |done].
    by apply (grows_trans _ _ _ _ _ Hs H2).
Qed.

Lemma leads_legacy a c b k : kw_op b = x_op a -> kw_failed b = false ->
  is_dict (kw_parameters b) = true -> (unmarked a = true -> untracked_args b = true) -> carries a c ->
  (forall eff, x_effect a = Some eff -> lawful eff /\ x_atomicity a = Some NON_ATOMIC) ->
  forall adm, decision "gate_admit" false adm ->
  leads (legacy_outcome a c (kwrite b)) k (fun r l _ => behaviour a r (adm :: l)).
Proof.
  intros Ho Hf Hp Hu Hca Hl adm Hadm. unfold legacy_outcome. apply leads_bind, leads_kwrite.
  2:{ intros. by apply tr_unfinished. }
  intros x done s Hen0 _. assert (Hen : performed a false done).
  { split; [rewrite <- Ho, <- Hf; by apply (entered_recorded _ x)|].
    intros H. by apply (en_untracked _ _ _ Hen0), Hu. }
  destruct (x_effect a) as [eff|] eqn:Hx; [|apply leads_pure; [done|by apply tr_no_effect]].
  destruct (Hl eff eq_refl) as [He Hat]. set (k1 := with_store s k).
  pose (f := fun r : result exn pyval => match r with
    | Ok v => sret v
    | Err e => if is_exception e then
        let! _ := kwrite {| kw_op := x_op a; kw_authority := c_authority c;
                     kw_parameters := PDict (c_parameters c); kw_failed := true;
                     kw_intent := x_op a; kw_jurisdiction := x_jurisdiction a;
                     kw_legend := false; kw_warrant_id := ""; kw_intent_ref := "";
                     kw_effect_columns := None |} in sraise e
      else sraise e end).
  apply (leads_eq _ (fun k => f (fst (eff k)) (snd (eff k)))).
  { unfold f. destruct (eff k1) as [[v|e] k2]; [done|]. cbn [fst snd]. by destruct (is_exception e). }
  apply (leads_try eff f); [apply He|]. intros le Hle. unfold f.
  destruct (fst (eff k1)) as [v|e] eqn:Heff.
  - apply leads_pure; [done|]. rewrite app_nil_r. apply tr_after; auto. by exists eff, k1.
  - assert (Hran : ran a (Err e) le) by by exists eff, k1.
    destruct (is_exception e).
    + apply leads_bind, leads_kwrite.
      * intros y bad s' Hen' _. apply leads_pure; [done|]. apply (tr_after_failed a adm done le [bad] e); auto.
        right. split; [done|]. exists bad. split; [done|].
        split; [by apply (entered_recorded _ y) in Hen'|]. intros H. by apply (en_untracked _ _ _ Hen'), Hca.
      * intros e' s'. rewrite app_nil_r. cbn [app]. rewrite <- (app_nil_r le).
        apply (tr_after_failed a adm done le [] e); auto.
    + apply leads_pure; [done|]. apply (tr_after_failed a adm done le [] e); auto.
Qed.

Lemma warrant_step_store a c k : k_store (snd (warrant_step a c k)) = k_store k.
Proof.
  unfold warrant_step. destruct (x_warrant_basis a) as [|l|]; try done.
  set (req := match c_model c with Some m => require_warrant m | None => false end).
  assert (H : k_store (snd (materialize a l req k)) = k_store k).
  { unfold materialize. destruct (warrant_admit _ _ _ _) as [w|]; [|done].
    destruct (k_warrants k) as [ws|]; [|by destruct req].
    destruct (warrant_write w ws) as [[id|e] ws']; [|done].
    destruct (warrant_get ws' _) as [[y|]|]; try done. by destruct (str_eqb _ _). }
  destruct (materialize a l req k) as [[id|e] k']; cbn [snd] in H |- *; [done|]. by destruct req.
Qed.

Lemma preflight_class a k x : preflight k a = Ok x -> forall eff, x_effect a = Some eff ->
  exists c, x_atomicity a = Some c /\
    (external_class c = true -> nonempty_key (x_idempotency_key a) = true).
Proof.
  unfold preflight. intros H eff Hx. do 6 apply rbind_ok in H as (? & _ & H).
  apply rbind_ok in H as (? & H & _). unfold preflight_effect in H. rewrite Hx in H.
  destruct (x_atomicity a) as [c|]; [|done]. exists c. split; [done|].
  destruct c; try done; by destruct (nonempty_key _).
Qed.

Lemma leads_outcome a c admit_ref wid k : idle (k_store k) -> carries a c ->
  (forall eff, x_effect a = Some eff -> lawful eff /\ exists cl, x_atomicity a = Some cl) ->
  forall adm, decision "gate_admit" false adm ->
  leads (outcome a c admit_ref wid) k (fun r l _ => behaviour a r (adm :: l)).
Proof.
  intros Hi Hca Hl adm Hadm. unfold leads, outcome. cbv zeta.
  pose proof (success_untracked k a c wid Hca) as Hu.
  destruct (x_effect a) as [eff|] eqn:Hx; [destruct (Hl eff eq_refl) as [He [cl Hat]]; rewrite Hat|].
  - destruct cl; first
      [by apply (leads_atomic a c _ eff _ admit_ref k Hat)
      |by apply (leads_external a _ eff admit_ref _ k Hat)
      |apply leads_legacy; try done; intros eff' Hx'; rewrite Hx in Hx';
         apply Some_inj' in Hx' as <-; done].
  - apply leads_legacy; try done. intros eff Hx'. by rewrite Hx in Hx'.
Qed.

Lemma admit_untracked a c : untracked_args
  {| kw_op := "gate_admit"; kw_authority := c_authority c; kw_parameters := admit_params a c;
     kw_failed := false; kw_intent := "gate_admit"; kw_jurisdiction := "kernel"; kw_legend := true;
     kw_warrant_id := ""; kw_intent_ref := ""; kw_effect_columns := class_columns a |} = true.
Proof.
  unfold untracked_args, class_columns, admit_params. cbn [kw_effect_columns kw_parameters dict_part].
  destruct (x_effect a), (x_atomicity a); try done; by destruct (is_none (x_gate_margin a)).
Qed.

Lemma leads_admitted a c k : carries a c ->
  (forall eff, x_effect a = Some eff -> lawful eff /\ exists cl, x_atomicity a = Some cl) ->
  leads (admitted a c) k (fun r l _ => behaviour a r l).
Proof.
  intros Hca Hl. unfold admitted. apply leads_bind, leads_kwrite.
  2:{ intros. apply tr_refused, rf_silent. }
  intros x adm s Hen Hi. apply entered_decision in Hen; [|done|apply admit_untracked]. cbn [kw_op kw_failed write_admit] in Hen.
  apply leads_bind, leads_pure; [apply warrant_step_store|].
  pose proof (warrant_step_store a c (with_store s k)) as Hw.
  destruct (warrant_step a c (with_store s k)) as [[wid|e] k1]; cbn [fst snd] in *.
  - apply (leads_outcome a c (h_r x) wid k1); [by rewrite Hw|done|done|done].
  - by apply tr_unfinished.
Qed.

(** The postcondition of a whole call. *)
Lemma leads_execute a k :
  (forall g, x_gate a = Some g -> lawful g) -> (forall f, x_effect a = Some f -> lawful f) ->
  leads (execute a) k (fun r l _ => exists lg l', l = lg ++ l' /\
    (quiet_gate a -> lg = []) /\ behaviour a r l').
Proof.
  intros Hg Hl. unfold execute. apply leads_bind.
  destruct (preflight k a) as [y|e] eqn:Hpre.
  2:{ apply (leads_eq _ (sraise e)); [unfold refusal_horizon; by rewrite Hpre|].
      apply leads_pure; [done|].
      exists [], []. split_and!; try done. apply tr_refused, rf_silent. }
  apply (leads_mono _ _ _ _ (leads_run _ _ _ (leads_horizon a k Hg))).
  intros [c|e] l k1 ((lg & l' & -> & H1 & H2) & Hrun).
  - apply horizon_carries in Hrun. subst l'. rewrite app_nil_r. apply (leads_mono _ _ (fun r l _ => behaviour a r l)).
    + apply leads_admitted; [done|]. intros eff Hx. split; [by apply Hl|].
      destruct (preflight_class a k y Hpre eff Hx) as (cl & ? & _). by exists cl.
    + intros r' l' k2 Hb. by exists lg, l'.
  - exists lg, l'. split_and!; try done. by apply tr_refused.
Qed.

(** C1: [execute] refines its specification.  Started at rest (no transaction open, no
    commit failing, the chain sound), with a gate and an effect that only add
    receipts, every call answers and leaves exactly what [behaviour] allows: a
    refusal leaves no admission; an admitted pure or store-local effect is sealed with its
    success receipt or rolled back behind one abort receipt, its own receipts gone;
    an external effect runs after its PREPARE and is followed by a COMMIT when it
    returned, by an ABORT only when it declared that it did nothing, and is left in doubt
    otherwise; only a non-atomic effect runs after its success receipt.  The
    receipts of the gate come first; the kernel is at rest again, its chain sound,
    so that calls compose. *)
Theorem execute_refines_behaviour a k r k' :
  execute a k = (r, k') -> calm anchor k ->
  (forall g, x_gate a = Some g -> lawful g) -> (forall f, x_effect a = Some f -> lawful f) ->
  calm anchor k' /\ exists lg l, grows k k' (lg ++ l) /\ (quiet_gate a -> lg = []) /\
    behaviour a r l.
Proof.
  intros H Hc Hg Hl.
  destruct (leads_execute a k Hg Hl Hc) as (l & Hc' & Hgr & lg & l' & -> & H1 & H2).
  rewrite H in *. cbn [fst snd] in *. split; [done|]. by exists lg, l'.
Qed.
End kernel_facts.
