(* ===== verification/ExecuteFacts.v ===== *)
(** More on [execute]: the effect runs at most once and only on an admitted kernel,
    the order of the rejections, the bounds of the retry, the detection of what is
    left in doubt; and what computing with it showed. *)
From S2P Require Import Prelude Json Sha256 Binding BindingM2 Frame Authority Receipt Trace Capability Sqlite Integrity Archives Store StoreFacts StoreTxn Will Warrant Effects EffectsIrr EffectsRev Kernel KernelFacts.

Section execute_facts.
Context {U : Unicode} {E : Ed25519} {G : Engine} {D : Deployment}.

(** * Every step before the admission only adds receipts *)

Lemma lawful_if {A} (b : bool) (m m' : M kernel A) : lawful m -> lawful m' ->
  lawful (if b then m else m').
Proof. by destruct b. Qed.
Lemma lawful_ret {A} (a : A) : lawful (sret a).
Proof. by apply lawful_quiet. Qed.
Lemma lawful_raise {A} e : lawful (@sraise kernel A e).
Proof. by apply lawful_quiet. Qed.
Lemma lawful_lift {A} (r : result exn A) : lawful (slift r).
Proof. by apply lawful_quiet. Qed.
Lemma lawful_try m : lawful m -> lawful (try_pass m).
Proof. intros H k. apply H. Qed.

Lemma lawful_reject {A} o reason who e : lawful (@reject _ _ _ A o reason who e).
Proof.
  apply lawful_bind; [|intros; apply lawful_raise]. apply lawful_try.
  apply lawful_bind; [apply lawful_kwrite|]. intros; apply lawful_ret.
Qed.

Lemma lawful_refusal {A} b (f : M kernel unit) e : lawful f ->
  lawful (let! _ := kwrite b in let! _ := f in @sraise _ A e).
Proof.
  intros H. apply lawful_bind; [apply lawful_kwrite|]. intros _.
  apply lawful_bind; [done|]. intros _. apply lawful_raise.
Qed.

Lemma lawful_jurisdiction a who ps : lawful (jurisdiction_steps a who ps).
Proof.
  unfold jurisdiction_steps. apply lawful_if; [apply lawful_reject|]. intros k.
  destruct (negb _ && bool_decide (k_status k = UNINITIALIZED)); [apply lawful_reject|].
  apply lawful_bind; [|intros _; apply lawful_if; [apply lawful_ret|apply lawful_reject]].
  intros k'. unfold check_governor. destruct (_ && _ && _); [|reflexivity].
  destruct (x_governor_sig a); [|apply lawful_reject].
  apply lawful_bind; [apply lawful_lift|]. intros m. apply lawful_if; [apply lawful_ret|].
  apply lawful_reject.
Qed.

Lemma lawful_authority_model a who : lawful (authority_model_step a who).
Proof.
  intros k. unfold authority_model_step. destruct (model_of k (x_op a)); [|reflexivity].
  repeat (case_goal; [apply lawful_reject|]). reflexivity.
Qed.

Lemma lawful_gate a who ps : (forall g, x_gate a = Some g -> lawful g) ->
  lawful (gate_step a who ps).
Proof.
  intros Hg k. destruct (x_gate a) as [g|] eqn:Hx; [|unfold gate_step; by rewrite Hx].
  rewrite (gate_step_branch a who ps g k Hx). etransitivity; [by apply (Hg g)|].
  unfold gate_branch. destruct (fst (g k)) as [v|e].
  - apply lawful_if; [apply lawful_ret|]. apply lawful_refusal, lawful_quiet.
    intros k1. apply (refusal_warrant_pure a (with_refused _ k1)).
  - apply lawful_if; [apply lawful_reject|apply lawful_raise].
Qed.

Lemma lawful_capability a who ps : lawful (capability_step a who ps).
Proof.
  intros k. unfold capability_step. destruct (kernel_op (x_op a)); [reflexivity|]. cbv zeta.
  destruct (find_enforced_entry _ _ _); [|reflexivity].
  destruct (enforce_decision _ _ _ _) as [[] ?]; [|reflexivity].
  by apply lawful_refusal, lawful_quiet.
Qed.

Lemma lawful_locality a who ps : lawful (locality_step a who ps).
Proof.
  unfold locality_step. destruct (x_required_locality a); [|apply lawful_ret].
  apply lawful_if; [|apply lawful_ret]. by apply lawful_refusal, lawful_quiet.
Qed.

Lemma lawful_intent a : lawful (intent_step_of a).
Proof.
  assert (Hr : forall o reason, lawful (refuse_intent o reason)).
  { intros o reason k. unfold refuse_intent.
    apply (lawful_bind (kwrite _) (fun _ => sraise _)); [apply lawful_kwrite|].
    intros. apply lawful_raise. }
  intros k. unfold intent_step_of. cbv zeta. destruct (k_wills k); [|reflexivity].
  destruct (kernel_op _ || _); [reflexivity|]. destruct (active_for k i); [|reflexivity].
  repeat first [reflexivity | apply Hr | case_goal].
Qed.

Lemma lawful_horizon a : (forall g, x_gate a = Some g -> lawful g) -> lawful (refusal_horizon a).
Proof.
  intros Hg k. unfold refusal_horizon. destruct (preflight k a) as [[who ps]|e]; [|reflexivity].
  apply lawful_bind; [apply lawful_jurisdiction|intros _].
  apply lawful_bind; [apply lawful_authority_model|intros m].
  apply lawful_bind; [by apply lawful_gate|intros _].
  apply lawful_bind; [apply lawful_capability|intros _].
  apply lawful_bind; [apply lawful_locality|intros _].
  apply lawful_bind; [apply lawful_intent|intros ref]. apply lawful_ret.
Qed.

(** * The effect runs at most once, on an admitted kernel *)

(** [F] consults its callable on at most one kernel, and there [P] holds: its answer
    does not depend on what the callable does elsewhere. *)
Definition consulted {A} (F : callable -> result exn A * kernel) (P : kernel -> Prop) : Prop :=
  exists o : option kernel, (forall k1, o = Some k1 -> P k1) /\
    forall f g, (forall k1, o = Some k1 -> f k1 = g k1) -> F f = F g.

Lemma consulted_never {A} (F : callable -> result exn A * kernel) P :
  (forall f g, F f = F g) -> consulted F P.
Proof. intros H. by exists None. Qed.

Lemma consulted_once {A} (F : callable -> result exn A * kernel) h k1 (P : kernel -> Prop) :
  (forall f, F f = h (f k1)) -> P k1 -> consulted F P.
Proof.
  intros Hh HP. exists (Some k1). split; [by intros k2 <-%Some_inj'|].
  intros f g Hfg. by rewrite !Hh, (Hfg k1 eq_refl).
Qed.

Lemma consulted_ext {A} (F F' : callable -> result exn A * kernel) P :
  (forall f, F f = F' f) -> consulted F' P -> consulted F P.
Proof.
  intros H (o & Ho & HF). exists o. split; [done|]. intros f g Hfg. rewrite !H. by apply HF.
Qed.

Lemma consulted_bind {A B} (m : M kernel A) (F : callable -> A -> M kernel B) k P :
  (forall a k1, m k = (Ok a, k1) -> consulted (fun f => F f a k1) P) ->
  consulted (fun f => sbind m (F f) k) P.
Proof.
  intros H. unfold sbind. destruct (m k) as [[a|e] k1] eqn:Hm; [by apply H|by apply consulted_never].
Qed.

Definition depth (k : kernel) : Z := _txn_depth (k_store k).

Lemma lawful_depth {A} (m : M kernel A) k : lawful m -> depth (snd (m k)) = depth k.
Proof. intros H. apply (adv_depth _ _ (H k)). Qed.

(** A receipt written outside a transaction is durable, whatever other commits did. *)
Lemma kwrite_durable a k x k' : depth k = 0 -> kwrite a k = (Ok x, k') ->
  depth k' = 0 /\ idle (k_store k') /\
  exists r row, written (write_of k a) (k_store k) r row /\
    rows (durable (s_conn (k_store k'))) = rows (kview k) ++ [row].
Proof.
  intros Hd. unfold kwrite, on_store. destruct (write (write_of k a) (k_store k)) as [r s'] eqn:Hw.
  intros [-> <-]%pair_ok. apply write_spec in Hw as (H1 & _ & _ & _ & r0 & row & Hwr & _ & _ & Ht & Hdur & Hv).
  unfold depth in *. destruct (Hdur Hd) as [Hs _]. cbn [k_store with_store].
  split_and!; [congruence|split; [congruence|by rewrite Ht, Hd|by rewrite Hs]|].
  exists r0, row. split; [done|]. by rewrite Hs, Hv.
Qed.

Definition durable_rows (k : kernel) : list Receipt := rows (durable (s_conn (k_store k))).

(** The admission of this call is on disk. *)
Definition admission_durable (a : exec_args) (k0 k1 : kernel) : Prop :=
  exists who ps pj row, preflight_authority k0 a = Ok who /\ preflight_parameters a = Ok ps /\
    _params_json (PDict ([("op", PStr (x_op a)); ("parameters", PDict ps)]
       ++ if is_none (x_gate_margin a) then [] else [("gate_margin", x_gate_margin a)])) = Ok pj /\
    row ∈ durable_rows k1 /\ op row = "gate_admit" /\ failed row = false /\
    authority row = who /\ parameters row = PStr pj.

(** The admission keeps the parameters as they came. *)
Lemma surface_unmarked d ec x : strip_markers d = d ->
  match ec with None => col "effect_atomicity" d = PNone
  | Some c => is_none (col "effect_atomicity" c) = false end ->
  _resolve_effect_surface (PDict d) ec false = Ok x -> snd x = PDict d.
Proof.
  intros Hs Hec. unfold _resolve_effect_surface. destruct ec as [c|].
  - rewrite Hec. intros (? & _ & H)%rbind_ok. cbv zeta in H.
    destruct (diverging _ _); [done|]. apply Ok_inj in H as <-. cbn [snd dict_part]. by rewrite Hs.
  - unfold _derive_effect_columns. rewrite Hec. cbn [is_none rbind orb]. by intros <-%Ok_inj.
Qed.

Lemma admit_surface a c x :
  _resolve_effect_surface (admit_params a c) (class_columns a) false = Ok x ->
  snd x = admit_params a c.
Proof.
  unfold admit_params. intros H. apply surface_unmarked in H; [done| |].
  - destruct (is_none (x_gate_margin a)); reflexivity.
  - unfold class_columns.
    destruct (x_effect a), (x_atomicity a), (is_none (x_gate_margin a)); reflexivity.
Qed.

Lemma write_admit_row a c k x k' : depth k = 0 -> write_admit a c k = (Ok x, k') ->
  depth k' = 0 /\ idle (k_store k') /\ exists pj row,
    _params_json (admit_params a c) = Ok pj /\ row ∈ durable_rows k' /\
    op row = "gate_admit" /\ failed row = false /\ authority row = c_authority c /\
    parameters row = PStr pj.
Proof.
  intros Hd H. apply kwrite_durable in H as (H1 & H2 & r & row & Hw & Hr); [|done].
  split_and!; try done. pose proof (written_entered k _ r row Hw 0) as [E1 E2 E3 _ _ _ _ _ _].
  destruct Hw as [eff p1 ps gr sn pj now cx g Hsur Hpr Hpj Hs Hrow].
  apply admit_surface in Hsur. cbn [snd] in Hsur. subst p1.
  exists pj, row. split_and!; try done.
  - destruct (is_none (x_gate_margin a)) eqn:Hm; unfold admit_params in *; rewrite Hm in *;
      cbn [app] in *; unfold promote_reconciliation in Hpr; cbn in Hpr;
      apply pair_ok in Hpr as [[-> _]%pair_ok _]; exact Hpj.
  - unfold durable_rows. rewrite Hr. apply elem_of_app. right. by left.
  - unfold row_of in Hrow. do 6 apply rbind_ok in Hrow as (? & _ & Hrow).
    by apply Ok_inj in Hrow as <-.
Qed.

Lemma durable_kept row k x k' b : depth k = 0 -> idle (k_store k) -> row ∈ durable_rows k ->
  kwrite b k = (Ok x, k') -> depth k' = 0 /\ idle (k_store k') /\ row ∈ durable_rows k'.
Proof.
  intros Hd Hi Hr H. apply kwrite_durable in H as (H1 & H2 & r & row' & _ & Hrows); [|done].
  split_and!; try done. unfold durable_rows, kview in *. rewrite Hrows.
  apply elem_of_app. left. by rewrite (idle_sync _ Hi).
Qed.

Lemma txn_enter_durable v s : durable (s_conn (snd (txn_enter v s))) = durable (s_conn s).
Proof.
  unfold txn_enter, on_env, next_savepoint, on_conn, mt_enter. cbn [s_conn set_env].
  by destruct (ok v).
Qed.

Definition with_effect (eff : callable) (a : exec_args) : exec_args :=
  {| x_op := x_op a; x_authority := x_authority a; x_parameters := x_parameters a;
     x_gate := x_gate a; x_effect := Some eff; x_atomicity := x_atomicity a;
     x_idempotency_key := x_idempotency_key a; x_gate_margin := x_gate_margin a;
     x_layer := x_layer a; x_jurisdiction := x_jurisdiction a;
     x_governor_sig := x_governor_sig a; x_warrant_basis := x_warrant_basis a;
     x_intent_ref := x_intent_ref a; x_authority_set := x_authority_set a;
     x_capability_verdicts := x_capability_verdicts a;
     x_required_locality := x_required_locality a; x_now := x_now a |}.

Section consulted_outcome.
Context (P : kernel -> Prop) (row : Receipt).
Context (HP : forall k, row ∈ durable_rows k -> P k).

Lemma consulted_forward b terminal k : depth k = 0 -> idle (k_store k) ->
  row ∈ durable_rows k -> consulted (fun f => forward_trail (kwrite b) terminal f k) P.
Proof.
  intros Hd Hi Hr. apply consulted_bind. intros p k1 Hp.
  destruct (durable_kept row k p k1 b Hd Hi Hr Hp) as (_ & _ & Hr1).
  apply (consulted_once _ (fun x => match x with
    | (Ok v, k') => (let! _ := terminal "commit" false (h_r p) None in sret v) k'
    | (Err e, k') =>
        if bool_decide (exn_cls e = ExternalEffectNotPerformedC) then
          (let! _ := terminal "abort" true (h_r p) (Some "external_effect_not_performed") in
           sraise e) k'
        else (Err e, k')
    end) k1); [done|by apply HP].
Qed.

Lemma consulted_seam success k : row ∈ durable_rows k ->
  exists k1, P k1 /\ forall f g, f k1 = g k1 -> seam f success k = seam g success k.
Proof.
  intros Hr. unfold seam. pose proof (txn_enter_durable valid (k_store k)) as Hd.
  destruct (txn_enter valid (k_store k)) as [[[sp snap]|e] s]; cbn [snd] in Hd.
  - exists (with_store s k). split.
    + apply HP. unfold durable_rows. cbn [k_store with_store]. by rewrite Hd.
    + intros f g Hfg. unfold seam_body. by rewrite Hfg.
  - exists k. split; [by apply HP|done].
Qed.

Lemma consulted_atomic a c success ref k : row ∈ durable_rows k ->
  consulted (fun f => atomic_outcome (with_effect f a) c f success ref k) P.
Proof.
  intros Hr. destruct (consulted_seam success k Hr) as (k1 & Hk1 & Hs).
  exists (Some k1). split; [by intros k2 <-%Some_inj'|]. intros f g Hfg.
  unfold atomic_outcome. rewrite (Hs f g (Hfg k1 eq_refl)). reflexivity.
Qed.

Lemma consulted_legacy a c b k : depth k = 0 -> idle (k_store k) -> row ∈ durable_rows k ->
  consulted (fun f => legacy_outcome (with_effect f a) c (kwrite b) k) P.
Proof.
  intros Hd Hi Hr. apply consulted_bind. intros x k1 Hx.
  destruct (durable_kept row k x k1 b Hd Hi Hr Hx) as (_ & _ & Hr1).
  exists (Some k1). split; [intros k2 <-%Some_inj'; by apply HP|]. intros f g Hfg.
  cbn [x_effect with_effect]. rewrite (Hfg k1 eq_refl). reflexivity.
Qed.

Lemma consulted_outcome a c ref wid k : depth k = 0 -> idle (k_store k) -> row ∈ durable_rows k ->
  consulted (fun f => outcome (with_effect f a) c ref wid k) P.
Proof.
  intros Hd Hi Hr. pose (a0 := with_effect (sret PNone) a).
  pose (p := outcome_params k a0 c). pose (b := success_receipt a0 c p wid).
  pose (t := {| t_op := x_op a; t_authority := c_authority c; t_params := p;
                t_key := x_idempotency_key a; t_jurisdiction := x_jurisdiction a;
                t_intent_ref := c_intent_ref c; t_warrant_id := wid |}).
  apply (consulted_ext _ (fun f => match x_atomicity a with
    | Some EXTERNAL_REVERSIBLE => _execute_external_reversible t f ref k
    | Some EXTERNAL_IRREVERSIBLE => _execute_external_irreversible t f ref k
    | Some PURE | Some STORE_LOCAL => atomic_outcome (with_effect f a) c f (kwrite b) ref k
    | _ => legacy_outcome (with_effect f a) c (kwrite b) k
    end)); [intros f; unfold outcome; cbn [x_effect x_atomicity with_effect];
            destruct (x_atomicity a) as [[]|]; reflexivity|].
  destruct (x_atomicity a) as [[]|];
    first [by apply consulted_atomic | by apply consulted_legacy | by apply consulted_forward].
Qed.
End consulted_outcome.

(** C2: an effect runs at most once, and only after its admission is on disk.  Called
    outside a transaction, with a gate that only adds receipts, [execute] looks at its
    effect on at most one kernel, whatever the effect is and whatever commits or locks
    fail; and there the durable rows hold the [gate_admit] receipt of this very call: its
    operation, its parameters and the authority it runs under. *)
Theorem effect_once_after_admission a k : depth k = 0 ->
  (forall g, x_gate a = Some g -> lawful g) ->
  consulted (fun f => execute (with_effect f a) k) (admission_durable a k).
Proof.
  intros Hd Hg. set (a0 := with_effect (sret PNone) a).
  apply (consulted_ext _ (fun f => sbind (refusal_horizon a0) (admitted (with_effect f a)) k));
    [reflexivity|].
  apply (consulted_bind (refusal_horizon a0) (fun f => admitted (with_effect f a))). intros c k1 Hc.
  assert (Hd1 : depth k1 = 0).
  { pose proof (lawful_depth _ k (lawful_horizon a0 Hg)) as H. rewrite Hc in H. by rewrite <- Hd. }
  apply (consulted_ext _ (fun f => sbind (write_admit a0 c) (fun r =>
           let! wid := warrant_step a0 c in outcome (with_effect f a) c (h_r r) wid) k1)); [reflexivity|].
  apply consulted_bind. intros x k2 Hx.
  destruct (write_admit_row a0 c k1 x k2 Hd1 Hx) as (Hd2 & Hi2 & pj & row & Hpj & Hin & R1 & R2 & R3 & R4).
  apply consulted_bind. intros wid k3 Hw.
  pose proof (warrant_step_store a0 c k2) as Hs. rewrite Hw in Hs. cbn [snd] in Hs.
  unfold depth in Hd2. apply (consulted_outcome _ row).
  - intros k4 Hk4. exists (c_authority c), (c_parameters c), pj, row. split_and!; try done.
    all: by apply (horizon_ok a0 k c k1).
  - unfold depth. by rewrite Hs.
  - by rewrite Hs.
  - unfold durable_rows. by rewrite Hs.
Qed.

(** * Exactly what is admitted *)

Lemma sbind_ok_iff {A B} (m : M kernel A) (f : A -> M kernel B) k b k' :
  sbind m f k = (Ok b, k') <-> exists a k1, m k = (Ok a, k1) /\ f a k1 = (Ok b, k').
Proof.
  split; [apply sbind_ok|]. intros (a & k1 & H1 & H2). unfold sbind. by rewrite H1.
Qed.

Lemma reject_not_ok {A} o reason who e k x k' : @reject _ _ _ A o reason who e k <> (Ok x, k').
Proof. unfold reject, sbind, _emit_protocol_error, try_pass. by intros [? _]%pair_ok. Qed.

Lemma refusal_not_ok {A} b (f : M kernel unit) e k x k' :
  (let! _ := kwrite b in let! _ := f in @sraise _ A e) k <> (Ok x, k').
Proof.
  intros H. apply sbind_ok in H as (? & ? & _ & H). apply sbind_ok in H as (? & ? & _ & H).
  by apply pair_ok in H as [? _].
Qed.

Definition signature_required (a : exec_args) (k : kernel) : bool :=
  k_require_governor_sig (k_config k) && negb (universal (x_op a))
  && bool_decide (k_status k = ACTIVE).

(** The jurisdiction of an operation. *)
Record in_jurisdiction (a : exec_args) (ps : cols) (k : kernel) : Prop := {
  ij_external : kernel_op (x_op a) = false;
  ij_founded : universal (x_op a) = true \/ k_status k = ACTIVE;
  ij_signed : signature_required a k = true -> exists sg m, x_governor_sig a = Some sg /\
    governor_message (x_op a) ps = Ok m /\ verify_governor GOVERNOR_PUBKEY_HEX m sg = true;
  ij_declared : x_op a ∈ GOVERNANCE_OPS;
}.

Lemma check_governor_iff a who ps k x k' : check_governor a who ps k = (Ok x, k') <-> k' = k /\
  (signature_required a k = true -> exists sg m, x_governor_sig a = Some sg /\
    governor_message (x_op a) ps = Ok m /\ verify_governor GOVERNOR_PUBKEY_HEX m sg = true).
Proof.
  unfold check_governor. fold (signature_required a k). destruct x.
  destruct (signature_required a k).
  2:{ split; [by intros [_ <-]%pair_ok|by intros [-> _]]. }
  destruct (x_governor_sig a) as [sg|].
  2:{ split; [by intros ?%reject_not_ok|]. intros (_ & H). by destruct (H eq_refl) as (? & ? & ? & _). }
  unfold slift, sbind. destruct (governor_message (x_op a) ps) as [m|e].
  - destruct (verify_governor GOVERNOR_PUBKEY_HEX m sg) eqn:Hv; split.
    + intros [_ <-]%pair_ok. split; [done|]. intros _. by exists sg, m.
    + by intros [-> _].
    + by intros ?%reject_not_ok.
    + intros (_ & H). destruct (H eq_refl) as (sg' & m' & <-%Some_inj' & <-%Ok_inj & Hv'). congruence.
  - split; [by intros [? _]%pair_ok|]. intros (_ & H). by destruct (H eq_refl) as (? & ? & _ & ? & _).
Qed.

Lemma jurisdiction_iff a who ps k x k' :
  jurisdiction_steps a who ps k = (Ok x, k') <-> k' = k /\ in_jurisdiction a ps k.
Proof.
  unfold jurisdiction_steps. destruct (kernel_op (x_op a)) eqn:Hk.
  { split; [by intros ?%reject_not_ok|]. intros [_ []]. congruence. }
  destruct (negb (universal (x_op a)) && bool_decide (k_status k = UNINITIALIZED)) eqn:Hu.
  { split; [by intros ?%reject_not_ok|]. intros [_ [_ [H|H] _ _]]; rewrite H in Hu; [done|].
    by rewrite andb_false_r in Hu. }
  assert (Hf : universal (x_op a) = true \/ k_status k = ACTIVE).
  { destruct (universal (x_op a)); [by left|right]. by destruct (k_status k). }
  rewrite sbind_ok_iff. setoid_rewrite check_governor_iff. destruct x.
  destruct (mem_str (x_op a) GOVERNANCE_OPS) eqn:Hm.
  - apply mem_str_spec in Hm. split.
    + intros ([] & k1 & [-> Hs] & [_ <-]%pair_ok). done.
    + intros [-> []]. by exists tt, k.
  - apply mem_str_false in Hm. split; [by intros (? & ? & _ & ?%reject_not_ok)|]. by intros [_ []].
Qed.

Lemma authority_model_iff a who k m k' :
  authority_model_step a who k = (Ok m, k') <-> k' = k /\ m = model_of k (x_op a) /\
    (forall md, model_of k (x_op a) = Some md ->
       (require_gate md = true -> is_Some (x_gate a)) /\
       (require_warrant md = true -> no_basis (x_warrant_basis a) = false)).
Proof.
  unfold authority_model_step. destruct (model_of k (x_op a)) as [md|].
  2:{ split; [by intros [<-%Ok_inj <-]%pair_ok|by intros (-> & -> & _)]. }
  destruct (require_gate md && negb (bool_decide (is_Some (x_gate a)))) eqn:Hg.
  { split; [by intros ?%reject_not_ok|]. intros (_ & _ & H). destruct (H md eq_refl) as [H1 _].
    apply andb_true_iff in Hg as [Hg Hn]. apply negb_true_iff, bool_decide_eq_false in Hn. tauto. }
  destruct (require_warrant md && no_basis (x_warrant_basis a)) eqn:Hw.
  { split; [by intros ?%reject_not_ok|]. intros (_ & _ & H). destruct (H md eq_refl) as [_ H2].
    apply andb_true_iff in Hw as [Hw Hn]. rewrite H2 in Hn; done. }
  split; [|by intros (-> & -> & _)]. intros [<-%Ok_inj <-]%pair_ok. split_and!; try done.
  intros md' <-%Some_inj'. split.
  - intros Hr. rewrite Hr in Hg. by apply negb_false_iff, bool_decide_eq_true in Hg.
  - intros Hr. by rewrite Hr in Hw.
Qed.

(** The kernel after the gate looked at it, and whether the gate let the call pass. *)
Definition after_gate (a : exec_args) (k : kernel) : kernel :=
  match x_gate a with Some g => snd (g k) | None => k end.
Definition gate_passes (a : exec_args) (k : kernel) : Prop :=
  forall g, x_gate a = Some g -> exists v, fst (g k) = Ok v /\ truthy v = true.

Lemma gate_iff a who ps k x k' :
  gate_step a who ps k = (Ok x, k') <-> k' = after_gate a k /\ gate_passes a k.
Proof.
  unfold after_gate, gate_passes. destruct (x_gate a) as [g|] eqn:Hx.
  2:{ unfold gate_step. rewrite Hx. destruct x. split; [by intros [_ <-]%pair_ok|by intros [-> _]]. }
  rewrite (gate_step_branch a who ps g k Hx). unfold gate_branch. destruct x.
  destruct (g k) as [[v|e] k1] eqn:Hgk; cbn [fst snd].
  - destruct (truthy v) eqn:Ht; split.
    + intros [_ <-]%pair_ok. split; [done|]. intros g' <-%Some_inj'. exists v. by rewrite Hgk.
    + by intros [-> _].
    + intros H. exfalso. revert H. apply refusal_not_ok.
    + intros [_ H]. destruct (H g eq_refl) as (v' & Hv & Ht'). rewrite Hgk in Hv. apply Ok_inj in Hv. congruence.
  - destruct (is_exception e); (split; [|intros [_ H]; destruct (H g eq_refl) as (? & Hv & _); by rewrite Hgk in Hv]).
    + by intros ?%reject_not_ok.
    + by intros [? _]%pair_ok.
Qed.

(** The capability the policy enforces for this scope and operation is proven. *)
Definition capability_sufficient (a : exec_args) (k : kernel) : Prop :=
  let pol := match k_dcap_policy (k_config k) with
             | Some p => p | None => CAPABILITY_SUFFICIENCY_POLICY end in
  forall e, find_enforced_entry pol (x_jurisdiction a) (x_op a) = Some e ->
    fst (enforce_decision (x_jurisdiction a) (x_op a)
           (dict_get (capability_class e) (x_capability_verdicts a)) pol) = false.

Lemma capability_iff a who ps k x k' : kernel_op (x_op a) = false ->
  capability_step a who ps k = (Ok x, k') <-> k' = k /\ capability_sufficient a k.
Proof.
  intros Hk. unfold capability_step, capability_sufficient. rewrite Hk. cbv zeta. destruct x.
  destruct (find_enforced_entry _ _ _) as [e|]; [|split; [by intros [_ <-]%pair_ok|by intros [-> _]]].
  destruct (enforce_decision _ _ _ _) as [[] cause] eqn:He; split.
  - intros H. exfalso. revert H. apply refusal_not_ok.
  - intros [_ H]. specialize (H e eq_refl). by rewrite He in H.
  - intros [_ <-]%pair_ok. split; [done|]. intros e' <-%Some_inj'. by rewrite He.
  - by intros [-> _].
Qed.

Lemma locality_iff a who ps k x k' : kernel_op (x_op a) = false ->
  locality_step a who ps k = (Ok x, k') <->
  k' = k /\ (forall loc, x_required_locality a = Some loc -> x_jurisdiction a = loc).
Proof.
  intros Hk. unfold locality_step. rewrite Hk. destruct x. cbn [negb andb].
  destruct (x_required_locality a) as [loc|]; [|split; [by intros [_ <-]%pair_ok|by intros [-> _]]].
  destruct (str_eqb (x_jurisdiction a) loc) eqn:He; cbn [negb]; split.
  - intros [_ <-]%pair_ok. split; [done|]. intros l <-%Some_inj'. by apply str_eqb_spec.
  - by intros [-> _].
  - intros H. exfalso. revert H. apply refusal_not_ok.
  - intros [_ H]. specialize (H loc eq_refl). by apply str_eqb_spec in H; rewrite H in He.
Qed.

(** The will a call is covered by, when the kernel keeps wills: the declaration it cites,
    which must list the operation, or one found by the coverage search; without
    [require_intent] a call may go uncovered. *)
Inductive willed (a : exec_args) (k : kernel) : string -> Prop :=
| wl_unasked : k_wills k = None \/ universal (x_op a) = true -> willed a k (x_intent_ref a)
| wl_cited ws active d : k_wills k = Some ws -> universal (x_op a) = false ->
    active_for k ws = Ok active -> x_intent_ref a <> "" ->
    intent_get ws (x_intent_ref a) = Ok d ->
    (exists d', d = Some d' /\ covers_op d' (x_op a) = true) \/
      k_require_intent (k_config k) = false -> willed a k (x_intent_ref a)
| wl_covered ws active : k_wills k = Some ws -> universal (x_op a) = false ->
    active_for k ws = Ok active -> x_intent_ref a = "" ->
    co_status (covers (x_op a) active ∅ None) = COVERED ->
    willed a k match co_intent_ref (covers (x_op a) active ∅ None) with Some h => h | None => "" end
| wl_optional ws active : k_wills k = Some ws -> universal (x_op a) = false ->
    active_for k ws = Ok active -> x_intent_ref a = "" ->
    co_status (covers (x_op a) active ∅ None) <> COVERED ->
    k_require_intent (k_config k) = false -> willed a k "".

Lemma refuse_intent_not_ok o reason k x k' : refuse_intent o reason k <> (Ok x, k').
Proof.
  unfold refuse_intent. intros H. apply sbind_ok in H as (? & ? & _ & H). by apply pair_ok in H as [? _].
Qed.

Lemma intent_iff a k ref k' : kernel_op (x_op a) = false ->
  intent_step_of a k = (Ok ref, k') <-> k' = k /\ willed a k ref.
Proof.
  intros Hk. unfold intent_step_of. rewrite Hk. cbv zeta. cbn [orb]. split.
  - destruct (k_wills k) as [ws|] eqn:Hw.
    2:{ intros [<-%Ok_inj <-]%pair_ok. split; [done|]. apply wl_unasked. by left. }
    destruct (universal (x_op a)) eqn:Hu.
    { intros [<-%Ok_inj <-]%pair_ok. split; [done|]. apply wl_unasked. by right. }
    destruct (active_for k ws) as [active|e] eqn:Ha; [|by intros [? _]%pair_ok].
    destruct (str_eqb (x_intent_ref a) "") eqn:He; cbn [negb].
    + apply str_eqb_spec in He.
      destruct (str_eqb (co_status (covers (x_op a) active ∅ None)) COVERED) eqn:Hc.
      * apply str_eqb_spec in Hc. intros [<-%Ok_inj <-]%pair_ok. split; [done|].
        by apply (wl_covered a k ws).
      * apply str_eqb_false in Hc.
        destruct (k_require_intent (k_config k)) eqn:Hr; [by intros ?%refuse_intent_not_ok|].
        intros [<-%Ok_inj <-]%pair_ok. split; [done|]. by apply (wl_optional a k ws active).
    + apply str_eqb_false in He. destruct (intent_get ws (x_intent_ref a)) as [d|e] eqn:Hg;
        [|by intros [? _]%pair_ok].
      assert (Hc : forall b, k_require_intent (k_config k) = b ->
        (if b then refuse_intent (x_op a) "WL-002 intent_ref unresolvable" k
         else (Ok (x_intent_ref a), k)) = (Ok ref, k') -> k' = k /\ willed a k ref).
      { intros [] Hr; [by intros ?%refuse_intent_not_ok|]. intros [<-%Ok_inj <-]%pair_ok.
        split; [done|]. apply (wl_cited a k ws active d); auto. }
      destruct d as [d|]; [|by apply Hc]. destruct (covers_op d (x_op a)) eqn:Hcov; [|by apply Hc].
      intros [<-%Ok_inj <-]%pair_ok. split; [done|]. apply (wl_cited a k ws active (Some d)); eauto.
  - intros [-> Hwl]. destruct Hwl as [[-> | ->] |ws active d -> -> -> Hne Hg Hd
        |ws active -> -> -> -> Hc|ws active -> -> -> -> Hc Hr]; cbn [negb str_eqb].
    + done.
    + by destruct (k_wills k).
    + rewrite (proj2 (str_eqb_false _ _) Hne), Hg. cbn [negb].
      destruct Hd as [(d' & -> & ->) | ->]; [done|]. destruct d as [d|]; [by destruct (covers_op _ _)|done].
    + rewrite str_eqb_refl. cbn [negb]. by rewrite (proj2 (str_eqb_spec _ _) Hc).
    + rewrite str_eqb_refl. cbn [negb]. by rewrite (proj2 (str_eqb_false _ _) Hc), Hr.
Qed.

(** All the conditions of an admission. *)
Record clearance (a : exec_args) (k : kernel) (c : cleared) : Prop := {
  cl_preflight : preflight k a = Ok (c_authority c, c_parameters c);
  cl_jurisdiction : in_jurisdiction a (c_parameters c) k;
  cl_model : c_model c = model_of k (x_op a);
  cl_constitution : forall m, model_of k (x_op a) = Some m ->
    (require_gate m = true -> is_Some (x_gate a)) /\
    (require_warrant m = true -> no_basis (x_warrant_basis a) = false);
  cl_gate : gate_passes a k;
  cl_capability : capability_sufficient a (after_gate a k);
  cl_locality : forall loc, x_required_locality a = Some loc -> x_jurisdiction a = loc;
  cl_will : willed a (after_gate a k) (c_intent_ref c);
}.

Lemma horizon_clearance a k c k' :
  refusal_horizon a k = (Ok c, k') -> k' = after_gate a k /\ clearance a k c.
Proof.
  unfold refusal_horizon. destruct (preflight k a) as [[who ps]|e] eqn:Hp; [|by intros [? _]%pair_ok]. intros H.
  apply sbind_ok in H as ([] & k1 & [-> Hj]%jurisdiction_iff & H). pose proof (ij_external _ _ _ Hj).
  apply sbind_ok in H as (m & k2 & (-> & -> & Hm)%authority_model_iff & H).
  apply sbind_ok in H as ([] & k3 & [-> Hg]%gate_iff & H).
  apply sbind_ok in H as ([] & k4 & [-> Hc]%capability_iff & H); [|done].
  apply sbind_ok in H as ([] & k5 & [-> Hl]%locality_iff & H); [|done].
  apply sbind_ok in H as (ref & k6 & [-> Hw]%intent_iff & H); [|done].
  apply pair_ok in H as [<-%Ok_inj <-]. split; [done|]. by split.
Qed.

(** C3: what is admitted.  A call passes the refusal horizon of [execute] exactly when
    its arguments pass the preflight, its operation is external, founded, declared and,
    where the governor must sign, validly signed; the authority model's demands for a
    gate and a warrant basis are met; the gate answers truthily; an enforced capability
    is proven; the required locality is the supplied one; and the will coverage demanded
    is there.  Passing changes nothing but through the gate. *)
Theorem admitted_exactly_when a k c k' :
  refusal_horizon a k = (Ok c, k') <-> k' = after_gate a k /\ clearance a k c.
Proof.
  split; [apply horizon_clearance|]. unfold refusal_horizon.
  intros [-> [C1 C2 C3 C4 C5 C6 C7 C8]]. rewrite C1. pose proof (ij_external _ _ _ C2).
  apply sbind_ok_iff. exists tt, k. split; [by apply jurisdiction_iff|].
  apply sbind_ok_iff. exists (model_of k (x_op a)), k. split; [by apply authority_model_iff|].
  apply sbind_ok_iff. exists tt, (after_gate a k). split; [by apply gate_iff|].
  apply sbind_ok_iff. exists tt, (after_gate a k). split; [by apply capability_iff|].
  apply sbind_ok_iff. exists tt, (after_gate a k). split; [by apply locality_iff|].
  apply sbind_ok_iff. exists (c_intent_ref c), (after_gate a k). split; [by apply intent_iff|].
  destruct c; cbn in *. by subst.
Qed.

(** * The bounded retry *)

(** [n] attempts of [emit] in a row that fail in a way worth retrying. *)
Inductive failures (emit : M kernel Receipt) : nat -> kernel -> kernel -> Prop :=
| no_failure k : failures emit 0 k k
| one_more n k k1 k2 e : emit k = (Err e, k1) -> _is_retryable_terminal_write_error e = true ->
    failures emit n k1 k2 -> failures emit (S n) k k2.

(** C14: the retry is bounded.  The terminal of an external effect is attempted at most
    three times: the answer is that of the first attempt that succeeds or fails for good,
    after fewer than three lock or commit failures, or, after exactly three, the write is
    given up and the effect is left in doubt. *)
Theorem retry_bounded emit k r k' :
  retry_terminal MAX_OUTCOME_WRITE_ATTEMPTS emit k = (r, k') <->
  (exists n k1, (n < 3)%nat /\ failures emit n k k1 /\ emit k1 = (r, k') /\
     forall e, r = Err e -> _is_retryable_terminal_write_error e = false) \/
  (failures emit 3 k k' /\ r = Err TerminalWriteExhausted).
Proof.
  unfold MAX_OUTCOME_WRITE_ATTEMPTS. generalize 3%nat. intros m. revert k.
  induction m as [|m IH]; intros k; cbn [retry_terminal].
  - split.
    + intros [<- <-]%pair_ok. right. split; [constructor|done].
    + intros [(n & k1 & Hn & _)|[H ->]]; [lia|]. by inversion H.
  - destruct (emit k) as [[x|e] k2] eqn:He.
    + split.
      * intros [<- <-]%pair_ok. left. exists 0%nat, k. split_and!; [lia|constructor|done|done].
      * intros [(n & k1 & Hn & Hf & Hk & _)|[H _]]; [|inversion H; congruence].
        inversion Hf; subst; [congruence|congruence].
    + destruct (_is_retryable_terminal_write_error e) eqn:Hr.
      * rewrite IH. split.
        -- intros [(n & k1 & Hn & Hf & H)|[Hf H]]; [left|right].
           ++ exists (S n), k1. split_and!; [lia| |apply H..]. by apply (one_more _ _ _ k2 _ e).
           ++ split; [by apply (one_more _ _ _ k2 _ e)|done].
        -- intros [(n & k1 & Hn & Hf & Hk & Hx)|[Hf H]]; [left|right].
           ++ inversion Hf; subst; [rewrite He in Hk; apply pair_ok in Hk as [<- <-];
                by rewrite (Hx e eq_refl) in Hr|].
              exists n0, k1. split_and!; [lia| |done|done]. congruence.
           ++ split; [inversion Hf; subst; congruence|done].
      * split.
        -- intros [<- <-]%pair_ok. left. exists 0%nat, k. split_and!; [lia|constructor|done|].
           by intros e' <-%Err_inj.
        -- intros [(n & k1 & Hn & Hf & Hk & _)|[H _]]; [|inversion H; congruence].
           inversion Hf; subst; congruence.
Qed.

(** * What is left in doubt is detected *)

(** A typed column that is set shows through its marker. *)
Lemma effect_view_col m2c m c r : NoDup (map fst m2c) -> (m, c) ∈ m2c ->
  is_none (col c (effect r)) = false -> col m (effect_view m2c r) = col c (effect r).
Proof.
  unfold effect_view. generalize (dict_part (parameters r)).
  induction m2c as [|[m' c'] l IH]; intros d Hnd Hin Hc; [by apply elem_of_nil in Hin|].
  cbn [map fst foldl snd] in *. apply NoDup_cons in Hnd as [Hn Hnd].
  apply elem_of_cons in Hin as [[= <- <-]|Hin]; [|by apply IH].
  rewrite Hc. clear IH Hnd.
  assert (Hkeep : forall d, col m d = col c (effect r) ->
    col m (foldl (fun v mc => if is_none (col (snd mc) (effect r)) then v
                     else dict_set (fst mc) (col (snd mc) (effect r)) v) d l) = col c (effect r)).
  { induction l as [|[m2 c2] l IH]; intros d0 H0; cbn [foldl fst snd map] in *; [done|].
    apply not_elem_of_cons in Hn as [Hne Hn]. apply IH; [done|].
    destruct (is_none (col c2 (effect r))); [done|].
    by rewrite col_dict_set, (proj2 (str_eqb_false m m2) Hne). }
  apply Hkeep. by rewrite col_dict_set, str_eqb_refl.
Qed.

Lemma row_read row r : _row_to_receipt row = Ok r -> effect r = effect row /\ h_r r = h_r row.
Proof.
  unfold _row_to_receipt. destruct (json_loads _); [|done]. intros H. by apply Ok_inj in H as <-.
Qed.

Import Irreversible.

Lemma phase_view a ph f ref key row r :
  phase_row a "external_irreversible" ph f ref row -> x_idempotency_key a = PStr key ->
  _row_to_receipt row = Ok r ->
  h_r r = h_r row /\ col "effect_atomicity" (_params r) = PStr "external_irreversible" /\
  col "phase" (_params r) = PStr ph /\ col "idempotency_key" (_params r) = PStr key /\
  (is_none ref = false -> col "prepare_ref" (_params r) = ref).
Proof.
  intros [_ H1 H2 H3 H4] Hk Hr. apply row_read in Hr as [He Hh]. rewrite Hk in H3. cbn in H3.
  apply Ok_inj in H3. unfold _params.
  assert (Hv : forall m c v, (m, c) ∈ _M2C -> col c (effect row) = v -> is_none v = false ->
    col m (effect_view _M2C r) = v).
  { intros m c v Hin Hc Hv. rewrite (effect_view_col _M2C m c); [by rewrite He| |done|by rewrite He, Hc].
    unfold _M2C. cbn [map fst]. repeat constructor; set_solver. }
  split_and!; [done|..].
  - by apply (Hv _ "effect_atomicity"); [set_solver| |].
  - by apply (Hv _ "effect_phase"); [set_solver| |].
  - by apply (Hv _ "effect_idempotency_key"); [set_solver| |].
  - intros Hn. by apply (Hv _ "effect_prepare_ref"); [set_solver| |].
Qed.

Definition in_doubt (rs : list Receipt) : list string :=
  map o_prepare_ref (detect_orphan_prepares rs).

Lemma in_doubt_spec rs h : h ∈ in_doubt rs <-> exists p, p ∈ rs /\ is_prepare p = true /\
  h_r p = h /\ ~ resolved is_terminal clears rs p.
Proof.
  unfold in_doubt, detect_orphan_prepares. setoid_rewrite <- unresolved. split.
  - intros (o & -> & Ho)%list_elem_of_fmap_1. apply elem_of_detected in Ho as (p & H1 & H2 & -> & H3).
    by exists p.
  - intros (p & H1 & H2 & <- & H3). apply list_elem_of_fmap. eexists. split; [|apply elem_of_detected].
    2:{ exists p. by split_and!. }
    done.
Qed.

Lemma receipts_split d d' l rs rs' : rows d' = rows d ++ l ->
  all_receipts d = Ok rs -> all_receipts d' = Ok rs' ->
  exists new, rs' = rs ++ new /\ Forall2 (fun row r => _row_to_receipt row = Ok r) l new.
Proof.
  unfold all_receipts. intros Hr H1%sequence_forall2 H2%sequence_forall2.
  rewrite Hr in H2. apply Forall2_app_inv_l in H2 as (rs0 & new & H2 & H3 & ->).
  exists new. split; [|done]. f_equal. clear -H1 H2. revert rs0 H2.
  induction H1 as [|x y l l' Hx _ IH]; intros rs0 H2; inversion H2 as [|? z ? ? Hz Hl]; subst; [done|].
  f_equal; [|by apply IH]. rewrite Hx in Hz. by apply Ok_inj in Hz.
Qed.

(** A PREPARE with its terminal leaves nothing more in doubt. *)
Lemma terminal_clears rs p t key ph : (ph = "commit" \/ ph = "abort") ->
  col "idempotency_key" (_params p) = PStr key ->
  col "effect_atomicity" (_params t) = PStr "external_irreversible" ->
  col "phase" (_params t) = PStr ph -> col "idempotency_key" (_params t) = PStr key ->
  col "prepare_ref" (_params t) = PStr (h_r p) ->
  forall h, h ∈ in_doubt (rs ++ [p; t]) -> h ∈ in_doubt rs.
Proof.
  intros Hph Hpk Ht1 Ht2 Ht3 Ht4 h (x & Hx & Hxp & <- & Hn)%in_doubt_spec.
  assert (Htp : is_prepare t = false).
  { unfold is_prepare, is_phase. rewrite Ht2. apply andb_false_iff. right.
    by destruct Hph as [-> | ->]. }
  assert (Htt : is_terminal t = true).
  { unfold is_terminal. rewrite Htp. unfold in_phases. rewrite Ht1, Ht2.
    by destruct Hph as [-> | ->]. }
  apply in_doubt_spec. apply elem_of_app in Hx as [Hx|Hx].
  - exists x. split_and!; try done. intros (y & Hy & H). apply Hn. exists y. split; [|done].
    apply elem_of_app. by left.
  - apply elem_of_cons in Hx as [->|Hx]; [|apply list_elem_of_singleton in Hx; congruence].
    exfalso. apply Hn. exists t. split_and!; [set_solver|done|].
    unfold clears. rewrite Ht3, Ht4, Hpk. apply andb_true_iff. split; by apply pyval_eqb_str.
Qed.

(** A PREPARE without terminal is in doubt, unless its root was named before. *)
Lemma unfinished_in_doubt rs p : is_prepare p = true ->
  h_r p ∈ in_doubt (rs ++ [p]) \/ exists t, t ∈ rs /\ col "prepare_ref" (_params t) = PStr (h_r p).
Proof.
  intros Hp. destruct (existsb (fun t => is_terminal t && clears t p) rs) eqn:Hx.
  - right. apply existsb_exists in Hx as (t & Ht & [_ Hc]%andb_true_iff).
    unfold clears in Hc. apply andb_true_iff in Hc as [_ Hc%pyval_eqb_str].
    exists t. by rewrite list_elem_of_In.
  - left. apply in_doubt_spec. exists p. split_and!; [set_solver|done|done|].
    intros (t & Ht & Htt & Hc). apply elem_of_app in Ht as [Ht|Ht].
    + apply (proj1 (existsb_false _ _) Hx) in Ht. by rewrite Htt, Hc in Ht.
    + apply list_elem_of_singleton in Ht as ->. unfold is_terminal in Htt. by rewrite Hp in Htt.
Qed.

Lemma phase_view_prepare a p r key : phase_row a "external_irreversible" "prepare" false PNone p ->
  x_idempotency_key a = PStr key -> _row_to_receipt p = Ok r -> is_prepare r = true.
Proof.
  intros Hp Hk Hr. destruct (phase_view a _ _ _ key p r Hp Hk Hr) as (_ & H1 & H2 & _).
  unfold is_prepare, is_phase. rewrite H1, H2. done.
Qed.

(** The words of an irreversible effect that keeps off the chain. *)
Lemma irreversible_words a r l : behaviour a r l -> is_Some (x_effect a) ->
  x_atomicity a = Some Kernel.EXTERNAL_IRREVERSIBLE -> (forall res le, ran a res le -> le = []) ->
  (exists e, r = Err e /\ (length l <= 1)%nat) \/
  (exists adm p t ph f, l = [adm; p; t] /\ (ph = "commit" \/ ph = "abort") /\
     phase_row a "external_irreversible" "prepare" false PNone p /\
     phase_row a "external_irreversible" ph f (PStr (h_r p)) t) \/
  (exists e adm p, r = Err e /\ l = [adm; p] /\
     phase_row a "external_irreversible" "prepare" false PNone p).
Proof.
  intros Hb [eff He] Hat Hran.
  destruct Hb as [e l [e'|e' r' _|m r' _]|e adm _|c adm le d v Hc Hs|c adm ab e Hc Hs|adm d Hn
    |adm d le v Hc|adm d le bad e e' Hc|c adm p le t v Hc _ Hr _ Hp Ht
    |c adm p le t e Hc _ Hr _ _ Hp Ht|c adm p le e res Hc _ Hr _ Hp]; try congruence;
    try (rewrite Hat in Hc; apply Some_inj' in Hc; subst c); try done.
  1-4: left; eexists; (split; [done|cbn; lia]).
  - rewrite (Hran _ _ Hr). right. left. exists adm, p, t, "commit", false. auto.
  - rewrite (Hran _ _ Hr). right. left. exists adm, p, t, "abort", true. auto.
  - rewrite (Hran _ _ Hr). right. right. by exists e, adm, p.
Qed.

(** C13: what an irreversible effect leaves in doubt is reported.  A call of that class,
    from rest, with a gate that only reads or none, whose effect keeps off the chain, adds at most three receipts;
    if it returns it adds an admission, a PREPARE and a terminal, and the detector
    reports nothing in doubt that it did not report before them; if it stops at the
    PREPARE, because the effect raised without declaring that it did nothing or
    because its terminal could not be written, the detector reports that PREPARE (unless a
    receipt before it already named its root). *)
Theorem external_outcome_detected anchor a k r k' key rs rs' :
  execute a k = (r, k') -> calm anchor k -> quiet_gate a ->
  (forall f, x_effect a = Some f -> forall k, k_store (snd (f k)) = k_store k) ->
  is_Some (x_effect a) -> x_atomicity a = Some Kernel.EXTERNAL_IRREVERSIBLE ->
  x_idempotency_key a = PStr key ->
  all_receipts (kview k) = Ok rs -> all_receipts (kview k') = Ok rs' ->
  exists new, rs' = rs ++ new /\ (length new <= 3)%nat /\
    (forall v, r = Ok v -> length new = 3%nat) /\
    (forall adm p t, new = [adm; p; t] -> forall h, h ∈ in_doubt rs' -> h ∈ in_doubt (rs ++ [adm])) /\
    (forall adm p, new = [adm; p] -> h_r p ∈ in_doubt rs' \/
       exists t, t ∈ rs ++ [adm] /\ col "prepare_ref" (_params t) = PStr (h_r p)).
Proof.
  intros H Hc Hg Hq [eff He] Hat Hk Hrs Hrs'.
  destruct (leads_execute anchor a k) with (2 := fun f Hf => lawful_quiet f (Hq f Hf)) (3 := Hc)
    as (l & _ & Hgr & lg & l' & -> & Hlg & Hb); [intros g Hx; apply lawful_quiet, (Hg g Hx)|].
  rewrite H in *. cbn [fst snd] in *. rewrite (Hlg Hg) in Hgr. clear Hlg lg H.
  destruct (receipts_split _ _ _ _ _ Hgr Hrs Hrs') as (new & -> & Hnew). exists new.
  assert (Hran : forall res le, ran a res le -> le = []).
  { intros res le (f & k1 & Hf & _ & Hle). unfold grows, kview in Hle. rewrite (Hq f Hf) in Hle.
    by apply (f_equal length) in Hle; rewrite length_app in Hle; destruct le; simpl in Hle; [|lia]. }
  split; [done|]. cbn [app] in Hnew. pose proof (Forall2_length _ _ _ Hnew) as Hlen.
  destruct (irreversible_words a r l' Hb ltac:(by exists eff) Hat Hran)
    as [(e & -> & Hl)|[(adm & p & t & ph & f & -> & Hph & Hp & Ht)|(e & adm & p & -> & -> & Hp)]].
  - split_and!; [lia|done|intros ? ? ? ->; cbn in Hlen; lia|intros ? ? ->; cbn in Hlen; lia].
  - split_and!; [cbn in Hlen; lia|done| |intros ? ? ->; cbn in Hlen; lia].
    intros adm' p' t' -> h. inversion Hnew as [|? ? ? ? _ Hn1]; subst.
    inversion Hn1 as [|? ? ? ? Hp' Hn2]; subst. inversion Hn2 as [|? ? ? ? Ht' _]; subst.
    destruct (phase_view a _ _ _ key p p' Hp Hk Hp') as (R1 & _ & _ & R4 & _).
    destruct (phase_view a _ _ _ key t t' Ht Hk Ht') as (_ & T2 & T3 & T4 & T5).
    change (rs ++ [adm'; p'; t']) with (rs ++ [adm'] ++ [p'; t']). rewrite app_assoc.
    specialize (T5 eq_refl). rewrite <- R1 in T5. by apply (terminal_clears _ _ _ key ph).
  - split_and!; [cbn in Hlen; lia|done|intros ? ? ? ->; cbn in Hlen; lia|].
    intros adm' p' ->. inversion Hnew as [|? ? ? ? _ Hn1]; subst.
    inversion Hn1 as [|? ? ? ? Hp' _]; subst.
    change (rs ++ [adm'; p']) with (rs ++ [adm'] ++ [p']). rewrite app_assoc.
    by apply unfinished_in_doubt, (phase_view_prepare a p p' key).
Qed.
End execute_facts.

(** * Examples *)

Definition demo_params : cols := [("amount", PInt 5)].
Definition demo_pay : exec_args := demo_call Kernel.EXTERNAL_IRREVERSIBLE demo_params (sret (PInt 7)).

Lemma demo_calm : calm GENESIS (demo_kernel []).
Proof. split; vm_compute; auto. Qed.
Lemma demo_chain_lawful {A} (x : A) : lawful (sret x).
Proof. by apply lawful_quiet. Qed.

(** A call at rest whose effect returns. *)
Lemma execute_refines_behaviour_witness :
  exists k' lg l, demo_execute demo_pay (demo_kernel []) = (Ok (PInt 7), k') /\
    calm GENESIS k' /\ grows (demo_kernel []) k' (lg ++ l) /\
    @behaviour demo_engine demo_pay (Ok (PInt 7)) l.
Proof.
  destruct (demo_execute demo_pay (demo_kernel [])) as [r k'] eqn:H.
  assert (Hr : r = Ok (PInt 7)).
  { transitivity (fst (demo_execute demo_pay (demo_kernel []))); [by rewrite H|vm_compute; reflexivity]. }
  destruct (@execute_refines_behaviour nfc_id ed_demo demo_engine demo_deployment GENESIS
              demo_pay (demo_kernel []) r k' H demo_calm) as (H1 & lg & l & H2 & _ & H3).
  - intros g Hg. discriminate Hg.
  - intros f Hf. apply Some_inj' in Hf. subst f. apply demo_chain_lawful.
  - subst r. exists k', lg, l. split_and!; [reflexivity|exact H1|exact H2|exact H3].
Defined.

Lemma effect_once_after_admission_witness :
  consulted (fun f => demo_execute (with_effect f demo_pay) (demo_kernel []))
    (admission_durable demo_pay (demo_kernel [])).
Proof.
  apply (@effect_once_after_admission nfc_id ed_demo demo_engine demo_deployment demo_pay (demo_kernel [])).
  - reflexivity.
  - intros g Hg. discriminate Hg.
Defined.

(** A call whose effect breaks half-way. *)
Definition demo_broken : exec_args :=
  demo_call Kernel.EXTERNAL_IRREVERSIBLE demo_params (sraise (Exn RuntimeError "timeout")).
Definition doubtful : kernel :=
  Eval vm_compute in snd (demo_execute demo_broken (demo_kernel [])).
Definition read_rows (k : kernel) : list Receipt :=
  match all_receipts (kview k) with Ok rs => rs | Err _ => [] end.

Lemma external_outcome_detected_witness :
  exists new, read_rows doubtful = [] ++ new /\ (length new <= 3)%nat /\
    in_doubt (read_rows doubtful) = map h_r (skipn 1 new).
Proof.
  destruct (demo_execute demo_broken (demo_kernel [])) as [r k'] eqn:H.
  assert (Hk : doubtful = k').
  { transitivity (snd (demo_execute demo_broken (demo_kernel []))); [vm_compute; reflexivity|].
    rewrite H. reflexivity. }
  assert (Hrs : all_receipts (kview doubtful) = Ok (read_rows doubtful)) by (vm_compute; reflexivity).
  assert (Hd : in_doubt (read_rows doubtful) = map h_r (skipn 1 (read_rows doubtful)))
    by (vm_compute; reflexivity).
  rewrite Hk in *.
  destruct (@external_outcome_detected nfc_id ed_demo demo_engine demo_deployment GENESIS demo_broken
              (demo_kernel []) r k' "key-1" [] (read_rows k') H demo_calm ltac:(intros g Hg; discriminate Hg))
    as (new & Hn & Hl & _); try reflexivity.
  - intros f Hf. apply Some_inj' in Hf. subst f. intros k. reflexivity.
  - eexists. reflexivity.
  - exact Hrs.
  - exists new. split; [exact Hn|]. split; [exact Hl|]. rewrite Hd, Hn. reflexivity.
Defined.

(** A COMMIT that fails for a lock leaves the terminal in the open transaction: the
    retry writes it a second time, linked to the same parent, and both become durable. *)
Definition locked_run : result exn pyval * kernel :=
  Eval vm_compute in demo_execute demo_pay (demo_kernel [None; None; Some "database is locked"]).
Lemma retry_duplicates_terminal :
  let commits := List.filter (fun r => pyval_eqb (col "effect_phase" (effect r)) (PStr "commit"))
                   (rows (kview (snd locked_run))) in
  fst locked_run = Ok (PInt 7) /\ length commits = 2%nat /\
  (exists h, map parent_h_r commits = [h; h]) /\
  verify_stream_hash (kview (snd locked_run)) None = Ok false.
Proof. vm_compute. repeat split. by eexists. Qed.

(** A plain call whose parameters spell a terminal clears an effect in doubt. *)
Definition forged_terminal : exec_args :=
  let a := demo_call Kernel.NON_ATOMIC
    [("effect_atomicity", PStr "external_irreversible"); ("phase", PStr "commit");
     ("idempotency_key", PStr "key-1");
     ("prepare_ref", PStr (match last (rows (kview doubtful)) with Some r => h_r r | None => "" end))]
    (sret PNone) in
  {| x_op := x_op a; x_authority := PStr "somebody"; x_parameters := x_parameters a;
     x_gate := None; x_effect := None; x_atomicity := None; x_idempotency_key := PNone;
     x_gate_margin := PNone; x_layer := "I"; x_jurisdiction := "session";
     x_governor_sig := None; x_warrant_basis := NoBasis; x_intent_ref := "";
     x_authority_set := PNone; x_capability_verdicts := []; x_required_locality := None;
     x_now := "0" |}.
Definition forged_run : kernel := Eval vm_compute in snd (demo_execute forged_terminal doubtful).
Lemma forged_terminal_resolves :
  length (in_doubt (read_rows doubtful)) = 1%nat /\
  in_doubt (read_rows forged_run) = [].
Proof. vm_compute. repeat split. Qed.

(** A revoked declaration, cited by its hash, still lets the call pass. *)
Definition strict_kernel (ws : IntentStore) : kernel :=
  let k := demo_kernel [] in
  {| k_store := k_store k; k_authority := k_authority k; k_status := k_status k;
     k_frame := k_frame k; k_session := k_session k; k_refused := k_refused k;
     k_config := {| k_require_governor_sig := false; k_require_intent := true;
                    k_require_scoped_intent := false; k_authority_model := None; k_op_csil := [];
                    k_dcap_policy := None |};
     k_warrants := None; k_wills := Some ws |}.
Definition citing (o h : string) : exec_args :=
  {| x_op := o; x_authority := PNone; x_parameters := PNone; x_gate := None; x_effect := None;
     x_atomicity := None; x_idempotency_key := PNone; x_gate_margin := PNone; x_layer := "I";
     x_jurisdiction := "session"; x_governor_sig := None; x_warrant_basis := NoBasis;
     x_intent_ref := h; x_authority_set := PNone; x_capability_verdicts := [];
     x_required_locality := None; x_now := "0" |}.
Lemma revoked_will_admits :
  let h := declaration_hash demo_declaration in
  is_revoked demo_revoked h = true /\ active_declarations demo_revoked "session" = Ok [] /\
  fst (@intent_step_of nfc_id ed_demo demo_engine (citing "a" h) (strict_kernel demo_revoked)) = Ok h.
Proof. vm_compute. repeat split. Qed.
