(* ===== verification/Reconcile.v ===== *)
(** Governed reconciliation and compensation ([ugk/kernel.py]): the writers that close
    what the in-doubt detectors report, and the arc that offsets a committed reversible
    effect. *)
From S2P Require Import Prelude Json Sha256 Binding BindingM2 Frame Authority Receipt Trace Capability Sqlite Integrity Archives Store StoreFacts StoreTxn Will Warrant Effects EffectsIrr EffectsRev Kernel KernelFacts ExecuteFacts.

Section reconcile.
Context {U : Unicode} {E : Ed25519} {G : Engine} {D : Deployment}.

(** ** The arguments and their checks *)

(** [isinstance(v, str) and v.strip()] *)
Definition nonblank (v : pyval) (e : exn) : result exn string :=
  match v with PStr s => if str_eqb (strip s) "" then Err e else Ok s | _ => Err e end.
(** [isinstance(v, str) and v] *)
Definition nonempty (v : pyval) (e : exn) : result exn string :=
  match v with PStr s => if str_eqb s "" then Err e else Ok s | _ => Err e end.

Record recon_args := {
  rc_ref : pyval;                  (** the reference of the orphan *)
  rc_determination : pyval;
  rc_evidence : pyval;
  rc_authority : pyval;
  rc_jurisdiction : string;
  rc_intent_ref : string;          (** None and the empty string are both falsy *)
  rc_warrant_id : string;
  rc_verified : bool;
}.

(** What passes the checks; [rq_performed] is the determined outcome. *)
Record request := {
  rq_authority : string;
  rq_evidence : string;
  rq_performed : bool;
  rq_ref : string;
}.
Definition determined (v : pyval) : result exn bool :=
  if pyval_eqb v (PStr "performed") then Ok true
  else if pyval_eqb v (PStr "not_performed") then Ok false
  else Err (ReconciliationRefused "determination-undetermined").
Definition recon_request (missing_ref : string) (a : recon_args) : result exn request :=
  let* who := nonblank (rc_authority a) (ReconciliationRefused "authority-required") in
  let* evidence := nonblank (rc_evidence a) (ReconciliationRefused "evidence-required") in
  let* performed := determined (rc_determination a) in
  let* ref := nonempty (rc_ref a) (ReconciliationRefused missing_ref) in
  Ok {| rq_authority := who; rq_evidence := evidence; rq_performed := performed; rq_ref := ref |}.

Definition _verify_reconciliation_warrant (k : kernel) (warrant_id : string) :
    result exn DecisionWarrant :=
  match k_warrants k with
  | None => Err (ReconciliationRefused "verified-requires-warrant-store")
  | Some ws =>
      if str_eqb (strip warrant_id) "" then Err (ReconciliationRefused "verified-requires-warrant-id")
      else
        let* found := warrant_get ws warrant_id in
        match found with
        | None => Err (ReconciliationRefused "warrant-not-found")
        | Some w =>
            let* intact := warrant_verify_hash w in
            if negb intact then Err (ReconciliationRefused "warrant-hash-invalid")
            else if negb (str_eqb (dw_law_hash w) (k_law_hash (k_frame k)))
                    || negb (str_eqb (dw_legend_hash w) (k_legend_hash (k_frame k)))
            then Err (ReconciliationRefused "warrant-stale-frame")
            else match constitutional_basis w with
                 | [] => Err (ReconciliationRefused "warrant-basis-invalid")
                 | _ => Ok w
                 end
        end
  end.

Definition recon_grade (k : kernel) (a : recon_args) : result exn (option DecisionWarrant) :=
  if rc_verified a then rmap Some (_verify_reconciliation_warrant k (rc_warrant_id a)) else Ok None.

(** The provenance markers of the terminal. *)
Definition recon_markers (a : recon_args) (q : request) (arc : option string)
    (w : option DecisionWarrant) : result exn cols :=
  let base := [("reconciled", PBool true); ("reconciled_by", PStr (rq_authority q));
               ("reconciliation_evidence_ref", PStr (rq_evidence q));
               ("determination", rc_determination a)]
              ++ match arc with Some s => [("arc", PStr s)] | None => [] end in
  match w with
  | None => Ok base
  | Some w =>
      let* body := Binding.canonical_json (body_dict w) in
      Ok (base ++ [("reconciliation_grade", PStr "verified");
                   ("reconciliation_warrant_snapshot", PStr body)])
  end.

Definition recon_trail (a : recon_args) (q : request) (o : string) (key : pyval) (markers : cols) :
    trail :=
  {| t_op := o; t_authority := rq_authority q; t_params := markers; t_key := key;
     t_jurisdiction := rc_jurisdiction a; t_intent_ref := rc_intent_ref a;
     t_warrant_id := rc_warrant_id a |}.

(** The three reconciliations have one course: check the request, read the receipts, find
    the orphan it names, check the warrant of a verified grade, write the terminal. *)
Definition reconcile_arc {T} (missing_ref : string) (arc : option string)
    (target : list Receipt -> string -> option T)
    (terminal : T -> request -> cols -> M kernel Receipt) (a : recon_args) : M kernel Receipt :=
  fun k =>
  (let! q := slift (recon_request missing_ref a) in
   let! rs := slift (all_receipts (view (k_store k))) in
   match target rs (rq_ref q) with
   | None => sraise (ReconciliationRefused "not-an-outstanding-orphan")
   | Some o =>
       let! w := slift (recon_grade k a) in
       let! markers := slift (recon_markers a q arc w) in
       terminal o q markers
   end) k.

(** ** Irreversible effects *)

Definition irreversible_orphan (rs : list Receipt) (ref : string) : option Irreversible.orphan :=
  List.find (fun o => str_eqb (Irreversible.o_prepare_ref o) ref)
    (Irreversible.detect_orphan_prepares rs).
Definition irreversible_terminal (a : recon_args) (o : Irreversible.orphan) (q : request)
    (markers : cols) : M kernel Receipt :=
  let t := recon_trail a q (Irreversible.o_op o) (Irreversible.o_key o) markers in
  if rq_performed q then _emit_terminal_durable t "commit" false (Some (rq_ref q)) None
  else _emit_terminal_durable t "abort" true (Some (rq_ref q)) (Some "reconciled_not_performed").
Definition reconcile_external_irreversible (a : recon_args) : M kernel Receipt :=
  reconcile_arc "prepare_ref-required" None irreversible_orphan (irreversible_terminal a) a.

(** ** Reversible effects, forward arc *)

Definition forward_orphan (rs : list Receipt) (ref : string) : option Reversible.orphan :=
  List.find (fun o => str_eqb (Reversible.o_prepare_ref o) ref)
    (Reversible.detect_orphan_prepares rs).
Definition forward_terminal (a : recon_args) (o : Reversible.orphan) (q : request)
    (markers : cols) : M kernel Receipt :=
  let t := recon_trail a q (Reversible.o_op o) (Reversible.o_key o) markers in
  if rq_performed q
  then _emit_reversible_terminal_durable t "commit" false (Some (rq_ref q)) None None PNone
  else _emit_reversible_terminal_durable t "abort" true (Some (rq_ref q))
         (Some "reconciled_not_performed") None PNone.
Definition reconcile_external_reversible_forward (a : recon_args) : M kernel Receipt :=
  reconcile_arc "prepare_ref-required" (Some "forward") forward_orphan (forward_terminal a) a.

(** ** Reversible effects, compensation arc *)

(** [_ef]: the column when it is set, the parameter of an older receipt otherwise. *)
Definition _ef (r : Receipt) (column marker : string) : pyval :=
  if is_none (col column (effect r)) then col marker (dict_part (parameters r))
  else col column (effect r).
(** The forward key that the COMPENSATE receipt of the orphan carries. *)
Definition forward_key (rs : list Receipt) (ref : string) (key : pyval) : pyval :=
  match List.find (fun r => pyval_eqb (_ef r "effect_phase" "phase") (PStr "compensate")
                   && pyval_eqb (_ef r "effect_compensate_ref" "compensate_ref") (PStr ref)
                   && pyval_eqb (_ef r "effect_compensation_idempotency_key"
                                       "compensation_idempotency_key") key) rs with
  | Some r => _ef r "effect_idempotency_key" "idempotency_key"
  | None => key
  end.
(** The orphan with the forward key recovered for its terminal. *)
Definition compensation_orphan (rs : list Receipt) (ref : string) :
    option (Reversible.comp_orphan * pyval) :=
  match List.find (fun o => pyval_eqb (Reversible.c_compensate_ref o) (PStr ref))
          (Reversible.detect_orphan_compensates rs) with
  | Some o => Some (o, forward_key rs ref (Reversible.c_key o))
  | None => None
  end.
Definition compensation_terminal (a : recon_args) (o : Reversible.comp_orphan * pyval) (q : request)
    (markers : cols) : M kernel Receipt :=
  let t := recon_trail a q (Reversible.c_op (fst o)) (snd o) markers in
  if rq_performed q
  then _emit_reversible_terminal_durable t "compensated" false None None (Some (rq_ref q))
         (Reversible.c_key (fst o))
  else _emit_reversible_terminal_durable t "compensation_failed" true None
         (Some "reconciled_compensation_not_performed") (Some (rq_ref q))
         (Reversible.c_key (fst o)).
Definition reconcile_external_reversible_compensation (a : recon_args) : M kernel Receipt :=
  reconcile_arc "compensate_ref-required" (Some "compensation") compensation_orphan
    (compensation_terminal a) a.

(** ** Compensation *)

Definition compose_compensation_key (idempotency_key phase : string) : string :=
  idempotency_key +:+ "::" +:+ phase.

Record comp_args := {
  cp_ref : pyval;
  cp_effect : option callable;      (** a value that is not callable is [None] *)
  cp_key : pyval;
  cp_authority : pyval;
  cp_jurisdiction : string;
  cp_intent_ref : string;
  cp_warrant_id : string;
}.

(** The forward effect a compensation is about, once every check has passed. *)
Record offset := {
  of_trail : trail;
  of_ref : string;
  of_key : string;
  of_effect : callable;
}.
Definition compensation_target (a : comp_args) (rs : result exn (list Receipt)) :
    result exn offset :=
  let* who := nonblank (cp_authority a) (CompensationRefused "authority-required") in
  let* key := nonblank (cp_key a) (CompensationRefused "compensation-key-required") in
  let* ref := nonempty (cp_ref a) (CompensationRefused "prepare_ref-required") in
  let* eff := match cp_effect a with
              | Some f => Ok f | None => Err (CompensationRefused "compensation-effect-required") end in
  let* rs := rs in
  match Reversible.find_committed_forward rs ref with
  | None => Err (CompensationRefused "not-a-compensable-committed-forward-effect")
  | Some (fwd_op, fwd_key) =>
      if pyval_eqb (PStr key) fwd_key
      then Err (CompensationRefused "ambiguous-compensation-key-reuses-forward-key")
      else Ok {| of_trail := {| t_op := fwd_op; t_authority := who;
                                t_params := [("compensates_prepare_ref", PStr ref)];
                                t_key := fwd_key; t_jurisdiction := cp_jurisdiction a;
                                t_intent_ref := cp_intent_ref a;
                                t_warrant_id := cp_warrant_id a |};
                 of_ref := ref; of_key := key; of_effect := eff |}
  end.

(** COMPENSATE, the offsetting action, and the terminal of its outcome. *)
Definition compensation_arc (o : offset) : callable :=
  let terminal phase failed reason :=
    _emit_reversible_terminal_durable (of_trail o) phase failed None reason (Some (of_ref o))
      (PStr (of_key o)) in
  around (_emit_reversible (of_trail o) "compensate" false None None None (Some (of_ref o))
            (PStr (of_key o)))
    (of_effect o) (fun _ => terminal "compensated" false None) is_exception
    (fun _ => terminal "compensation_failed" true (Some "compensation_effect_failed")).
Definition compensate_external_reversible (a : comp_args) : callable := fun k =>
  (let! o := slift (compensation_target a (all_receipts (view (k_store k)))) in
   compensation_arc o) k.
End reconcile.

(** * What a reconciliation closes *)

Inductive arc := IrreversibleArc | ForwardArc | CompensationArc.

Definition arc_class (c : arc) : string :=
  match c with IrreversibleArc => "external_irreversible" | _ => "external_reversible" end.
Definition arc_view (c : arc) : Receipt -> cols :=
  match c with IrreversibleArc => Irreversible._params | _ => Reversible._params end.
Definition arc_intent (c : arc) : Receipt -> bool :=
  match c with
  | IrreversibleArc => Irreversible.is_prepare | ForwardArc => Reversible.is_prepare
  | CompensationArc => Reversible.is_compensate
  end.
Definition arc_terminal (c : arc) : Receipt -> bool :=
  match c with
  | IrreversibleArc => Irreversible.is_terminal | ForwardArc => Reversible.is_terminal
  | CompensationArc => Reversible.is_comp_terminal
  end.
Definition arc_clears (c : arc) : Receipt -> Receipt -> bool :=
  match c with
  | IrreversibleArc => Irreversible.clears | ForwardArc => Reversible.clears
  | CompensationArc => Reversible.comp_clears
  end.
(** What identifies an intent: its key and the reference a terminal names it by. *)
Definition arc_key (c : arc) (p : Receipt) : pyval :=
  col (match c with CompensationArc => "compensation_idempotency_key" | _ => "idempotency_key" end)
    (arc_view c p).
Definition arc_ref (c : arc) (p : Receipt) : pyval :=
  match c with CompensationArc => col "compensate_ref" (arc_view c p) | _ => PStr (h_r p) end.

(** In doubt: an intent that no terminal clears. *)
Definition outstanding (c : arc) (rs : list Receipt) (p : Receipt) : Prop :=
  p ∈ rs /\ arc_intent c p = true /\ ~ resolved (arc_terminal c) (arc_clears c) rs p.

Lemma outstanding_snoc c rs t s : arc_intent c t = false -> arc_terminal c t = true ->
  outstanding c (rs ++ [t]) s <-> outstanding c rs s /\ arc_clears c t s = false.
Proof.
  intros Hi Ht. unfold outstanding, resolved. split.
  - intros (Hs & Hsi & Hn). apply elem_of_app in Hs as [Hs|Hs];
      [|apply list_elem_of_singleton in Hs; congruence].
    split; [split_and!; [done|done|]|].
    + intros (x & Hx & H). apply Hn. exists x. split; [|done]. apply elem_of_app. by left.
    + apply not_true_is_false. intros Hc. apply Hn. exists t. split_and!; [|done|done].
      apply elem_of_app. right. by left.
  - intros [(Hs & Hsi & Hn) Hc]. split_and!; [apply elem_of_app; by left|done|].
    intros (x & Hx & Hxt & Hxc). apply elem_of_app in Hx as [Hx|Hx]; [apply Hn; by exists x|].
    apply list_elem_of_singleton in Hx as ->. congruence.
Qed.

Lemma pyval_eqb_refl_str s : pyval_eqb (PStr s) (PStr s) = true.
Proof. by apply pyval_eqb_str. Qed.

Section reconcile_facts.
Context {U : Unicode} {E : Ed25519} {G : Engine} {D : Deployment}.

Definition arc_reconcile (c : arc) : recon_args -> M kernel Receipt :=
  match c with
  | IrreversibleArc => reconcile_external_irreversible
  | ForwardArc => reconcile_external_reversible_forward
  | CompensationArc => reconcile_external_reversible_compensation
  end.
Definition missing_ref (c : arc) : string :=
  match c with CompensationArc => "compensate_ref-required" | _ => "prepare_ref-required" end.

(** A typed column of a phase receipt as the detectors see it. *)
Lemma phase_receipt_view t f ec x row r m2c m c v :
  entered (phase_receipt t f ec) x row -> _row_to_receipt row = Ok r ->
  is_none (col "effect_atomicity" ec) = false -> NoDup (map fst m2c) -> (m, c) ∈ m2c ->
  c ∈ map snd _EFFECT_MARKER_MAP -> col c ec = PStr v -> col m (effect_view m2c r) = PStr v.
Proof.
  intros Hen Hr Ha Hnd Hin Hc Hv. apply row_read in Hr as [He _].
  pose proof (en_effect _ _ _ Hen ec c eq_refl Ha Hc) as H. rewrite Hv in H. cbn in H.
  apply Ok_inj in H. rewrite (effect_view_col m2c m c); [by rewrite He|done|done|by rewrite He, <- H].
Qed.

(** The terminal that a reconciliation of an arc writes. *)
Definition closing (c : arc) (key : string) (ref : string) (ec : cols) : Prop :=
  col "effect_atomicity" ec = PStr (arc_class c) /\
  match c with
  | CompensationArc =>
      (exists ph, ph ∈ Reversible._COMP_TERMINAL_PHASES /\ col "effect_phase" ec = PStr ph) /\
      col "effect_compensate_ref" ec = PStr ref /\
      col "effect_compensation_idempotency_key" ec = PStr key
  | _ => (exists ph, ph ∈ ["commit"; "abort"] /\ col "effect_phase" ec = PStr ph) /\
         col "effect_prepare_ref" ec = PStr ref /\ col "effect_idempotency_key" ec = PStr key
  end.

Ltac listed := apply (bool_decide_unpack _); vm_compute; reflexivity.

(** The detectors compare the key and the reference. *)
Definition arc_names (c : arc) (t : Receipt) : pyval :=
  col (match c with CompensationArc => "compensate_ref" | _ => "prepare_ref" end) (arc_view c t).
Definition arc_phases (c : arc) : list string :=
  match c with CompensationArc => Reversible._COMP_TERMINAL_PHASES | _ => ["commit"; "abort"] end.
Lemma arc_clears_iff c t s key ref : arc_key c t = PStr key -> arc_names c t = PStr ref ->
  arc_clears c t s = true <-> arc_key c s = PStr key /\ arc_ref c s = PStr ref.
Proof.
  unfold arc_clears, arc_key, arc_names, arc_ref, arc_view, Irreversible.clears, Reversible.clears,
    Reversible.comp_clears. intros Hk Hr.
  assert (He : forall a v, pyval_eqb (PStr a) v = true <-> v = PStr a).
  { intros b v. split; [|intros ->; by apply pyval_eqb_str].
    destruct v; cbn; try done. by intros ->%str_eqb_spec. }
  destruct c; rewrite Hk, Hr, andb_true_iff, !He; tauto.
Qed.

Lemma closing_view c t f ec x row r key ref :
  entered (phase_receipt t f ec) x row -> _row_to_receipt row = Ok r -> closing c key ref ec ->
  col "effect_atomicity" (arc_view c r) = PStr (arc_class c) /\
  (exists ph, ph ∈ arc_phases c /\ col "phase" (arc_view c r) = PStr ph) /\
  arc_key c r = PStr key /\ arc_names c r = PStr ref.
Proof.
  intros Hen Hr [Ha Hcl].
  assert (Hn : is_none (col "effect_atomicity" ec) = false) by (by rewrite Ha).
  assert (Hirr : forall m c v, col c ec = PStr v -> (m, c) ∈ Irreversible._M2C ->
    c ∈ map snd _EFFECT_MARKER_MAP -> col m (Irreversible._params r) = PStr v).
  { intros m' c' v Hv H1 H2. apply (phase_receipt_view t f ec x row r _ m' c' v); try done. listed. }
  assert (Hrev : forall m c v, col c ec = PStr v -> (m, c) ∈ Reversible._M2C ->
    c ∈ map snd _EFFECT_MARKER_MAP -> col m (Reversible._params r) = PStr v).
  { intros m' c' v Hv H1 H2. apply (phase_receipt_view t f ec x row r _ m' c' v); try done. listed. }
  unfold arc_key, arc_names.
  destruct c; destruct Hcl as ((ph & Hph & H1) & H2 & H3); cbn [arc_view].
  - split_and!; [|exists ph; split; [done|]|..];
      [apply (Hirr _ _ _ Ha)|apply (Hirr _ _ _ H1)|apply (Hirr _ _ _ H3)|apply (Hirr _ _ _ H2)]; listed.
  - split_and!; [|exists ph; split; [done|]|..];
      [apply (Hrev _ _ _ Ha)|apply (Hrev _ _ _ H1)|apply (Hrev _ _ _ H3)|apply (Hrev _ _ _ H2)]; listed.
  - split_and!; [|exists ph; split; [done|]|..];
      [apply (Hrev _ _ _ Ha)|apply (Hrev _ _ _ H1)|apply (Hrev _ _ _ H3)|apply (Hrev _ _ _ H2)]; listed.
Qed.

(** A closing terminal is one, and clears just the intents of its key and reference. *)
Lemma closing_clears c t f ec x row r key ref :
  entered (phase_receipt t f ec) x row -> _row_to_receipt row = Ok r -> closing c key ref ec ->
  arc_intent c r = false /\ arc_terminal c r = true /\
  forall s, arc_clears c r s = true <-> arc_key c s = PStr key /\ arc_ref c s = PStr ref.
Proof.
  intros Hen Hr Hcl. destruct (closing_view c t f ec x row r key ref Hen Hr Hcl)
    as (Ha & (ph & Hph & H1) & Hk & Hn).
  split_and!; [| |intros s; by apply arc_clears_iff]; clear Hk Hn Hcl;
    destruct c; unfold arc_intent, arc_terminal, arc_view, arc_class in *;
    unfold Irreversible.is_terminal, Irreversible.is_prepare, Reversible.is_terminal, Reversible.is_prepare,
      Reversible.is_comp_terminal, Reversible.is_compensate, Reversible.rev_phase, is_phase, in_phases;
    rewrite Ha, H1;
    repeat (apply elem_of_cons in Hph as [->|Hph]); (done || by apply elem_of_nil in Hph).
Qed.

(** A retried phase receipt is there once, or not at all. *)
Lemma leads_terminal anchor n t f ec k r k' :
  retry_terminal n (kwrite (phase_receipt t f ec)) k = (r, k') -> calm anchor k ->
  calm anchor k' /\
  match r with
  | Ok x => exists row, grows k k' [row] /\ entered (phase_receipt t f ec) x row
  | Err _ => grows k k' []
  end.
Proof.
  intros H Hc. destruct (leads_retry anchor n (kwrite (phase_receipt t f ec)) k
    (fun x row => entered (phase_receipt t f ec) x row)) with (2 := Hc) as (l & Hc' & Hg & Hq).
  { intros. apply leads_emit. }
  rewrite H in *. cbn [fst snd] in *. split; [done|].
  destruct r as [x|e]; [destruct Hq as (row & -> & Hen); by exists row|by subst l].
Qed.


(** ** The course of a reconciliation *)

Lemma slift_bind {A B} (m : result exn A) (f : A -> M kernel B) k :
  (let! x := slift m in f x) k = match m with Ok x => f x k | Err e => (Err e, k) end.
Proof. by destruct m. Qed.

Lemma reconcile_arc_course {T} ref_missing label (target : list Receipt -> string -> option T)
    terminal a k rs :
  all_receipts (kview k) = Ok rs ->
  (exists q o w markers, recon_request ref_missing a = Ok q /\ target rs (rq_ref q) = Some o /\
     recon_grade k a = Ok w /\ recon_markers a q label w = Ok markers /\
     reconcile_arc ref_missing label target terminal a k = terminal o q markers k) \/
  exists e, reconcile_arc ref_missing label target terminal a k = (Err e, k) /\
    forall q, recon_request ref_missing a = Ok q -> target rs (rq_ref q) = None ->
      e = ReconciliationRefused "not-an-outstanding-orphan".
Proof.
  intros Hrs. unfold reconcile_arc. rewrite slift_bind.
  destruct (recon_request ref_missing a) as [q|e]; [|right; by exists e].
  rewrite slift_bind. fold (kview k). rewrite Hrs.
  destruct (target rs (rq_ref q)) as [o|] eqn:Ho.
  2:{ right. eexists. split; [done|]. done. }
  rewrite slift_bind. destruct (recon_grade k a) as [w|e] eqn:Hw.
  2:{ right. exists e. split; [done|]. intros q' <-%Ok_inj. by rewrite Ho. }
  rewrite slift_bind. destruct (recon_markers a q label w) as [m|e] eqn:Hm.
  2:{ right. exists e. split; [done|]. intros q' <-%Ok_inj. by rewrite Ho. }
  left. by exists q, o, w, m.
Qed.

Lemma find_some {A} (f : A -> bool) l x : List.find f l = Some x -> x ∈ l /\ f x = true.
Proof. intros H%List.find_some. by rewrite list_elem_of_In. Qed.
Lemma find_none {A} (f : A -> bool) l : List.find f l = None <-> forall x, x ∈ l -> f x = false.
Proof.
  split; [intros H x Hx; apply (List.find_none f l H); by rewrite <- list_elem_of_In|].
  intros H. destruct (List.find f l) as [x|] eqn:Hf; [|done].
  apply find_some in Hf as [Hx Hfx]. by rewrite H in Hfx.
Qed.

(** The orphan a reference names. *)
Lemma irreversible_orphan_spec rs ref :
  match irreversible_orphan rs ref with
  | Some o => exists p, outstanding IrreversibleArc rs p /\ h_r p = ref /\
      Irreversible.o_op o = op p /\ Irreversible.o_key o = arc_key IrreversibleArc p
  | None => forall p, outstanding IrreversibleArc rs p -> h_r p <> ref
  end.
Proof.
  unfold irreversible_orphan.
  destruct (List.find _ _) as [o|] eqn:Hf.
  - apply find_some in Hf as [Ho Hr%str_eqb_spec]. unfold Irreversible.detect_orphan_prepares in Ho.
    apply elem_of_detected in Ho as (p & H1 & H2 & -> & H3). exists p. unfold outstanding. rewrite <- unresolved. by split_and!.
  - rewrite find_none in Hf. intros p (H1 & H2 & H3) <-. rewrite <- unresolved in H3.
    specialize (Hf (Irreversible.describe (List.filter Irreversible.is_terminal rs) p)).
    rewrite str_eqb_refl in Hf. discriminate Hf. unfold Irreversible.detect_orphan_prepares.
    apply elem_of_detected. by exists p.
Qed.
Lemma forward_orphan_spec rs ref :
  match forward_orphan rs ref with
  | Some o => exists p, outstanding ForwardArc rs p /\ h_r p = ref /\
      Reversible.o_op o = op p /\ Reversible.o_key o = arc_key ForwardArc p
  | None => forall p, outstanding ForwardArc rs p -> h_r p <> ref
  end.
Proof.
  unfold forward_orphan.
  destruct (List.find _ _) as [o|] eqn:Hf.
  - apply find_some in Hf as [Ho Hr%str_eqb_spec]. unfold Reversible.detect_orphan_prepares in Ho.
    apply elem_of_detected in Ho as (p & H1 & H2 & -> & H3). exists p. unfold outstanding. rewrite <- unresolved. by split_and!.
  - rewrite find_none in Hf. intros p (H1 & H2 & H3) <-. rewrite <- unresolved in H3.
    specialize (Hf (Reversible.describe p)).
    rewrite str_eqb_refl in Hf. discriminate Hf. unfold Reversible.detect_orphan_prepares.
    apply elem_of_detected. by exists p.
Qed.
Lemma compensation_orphan_spec rs ref :
  match compensation_orphan rs ref with
  | Some (o, _) => exists p, outstanding CompensationArc rs p /\
      arc_ref CompensationArc p = PStr ref /\
      Reversible.c_op o = op p /\ Reversible.c_key o = arc_key CompensationArc p
  | None => forall p, outstanding CompensationArc rs p -> arc_ref CompensationArc p <> PStr ref
  end.
Proof.
  unfold compensation_orphan.
  destruct (List.find _ _) as [o|] eqn:Hf.
  - apply find_some in Hf as [Ho Hr%pyval_eqb_str]. unfold Reversible.detect_orphan_compensates in Ho.
    apply elem_of_detected in Ho as (p & H1 & H2 & -> & H3). exists p. unfold outstanding. rewrite <- unresolved. by split_and!.
  - rewrite find_none in Hf. intros p (H1 & H2 & H3) Href. rewrite <- unresolved in H3.
    specialize (Hf (Reversible.comp_describe p)). cbn [Reversible.c_compensate_ref Reversible.comp_describe] in Hf.
    unfold arc_ref, arc_view in Href. rewrite Href, pyval_eqb_refl_str in Hf. discriminate Hf.
    unfold Reversible.detect_orphan_compensates. apply elem_of_detected. by exists p.
Qed.

Lemma arc_course c a k rs : all_receipts (kview k) = Ok rs ->
  (exists q p w t ec, recon_request (missing_ref c) a = Ok q /\ outstanding c rs p /\
     arc_ref c p = PStr (rq_ref q) /\ recon_grade k a = Ok w /\
     t_op t = op p /\ t_authority t = rq_authority q /\
     (forall key, arc_key c p = PStr key -> closing c key (rq_ref q) ec) /\
     arc_reconcile c a k = retry_terminal MAX_OUTCOME_WRITE_ATTEMPTS
       (kwrite (phase_receipt t (negb (rq_performed q)) ec)) k) \/
  exists e, arc_reconcile c a k = (Err e, k) /\
    forall q, recon_request (missing_ref c) a = Ok q ->
      (forall p, outstanding c rs p -> arc_ref c p <> PStr (rq_ref q)) ->
      e = ReconciliationRefused "not-an-outstanding-orphan".
Proof.
  intros Hrs. destruct c; unfold arc_reconcile, missing_ref, reconcile_external_irreversible,
    reconcile_external_reversible_forward, reconcile_external_reversible_compensation.
  - destruct (reconcile_arc_course "prepare_ref-required" None irreversible_orphan
      (irreversible_terminal a) a k rs Hrs) as [(q & o & w & m & Hq & Ho & Hw & Hm & ->)|(e & He & Hn)].
    + left. pose proof (irreversible_orphan_spec rs (rq_ref q)) as H. rewrite Ho in H.
      destruct H as (p & Hp & Href & Hop & Hkey). exists q, p, w.
      unfold irreversible_terminal, _emit_terminal_durable, _emit_irreversible.
      destruct (rq_performed q); do 2 eexists; (split_and!; [done|done|by cbn; rewrite Href|done| | | |reflexivity];
        [done|done|intros key Hk; rewrite Hkey, Hk; split; [done|]; split_and!; [|done|done];
          eexists; split; [|done]; set_solver]).
    + right. exists e. split; [done|]. intros q Hq Hno. apply (Hn q Hq).
      pose proof (irreversible_orphan_spec rs (rq_ref q)) as H.
      destruct (irreversible_orphan rs (rq_ref q)); [|done]. destruct H as (p & Hp & Href & _).
      exfalso. apply (Hno p Hp). cbn. by rewrite Href.
  - destruct (reconcile_arc_course "prepare_ref-required" (Some "forward") forward_orphan
      (forward_terminal a) a k rs Hrs) as [(q & o & w & m & Hq & Ho & Hw & Hm & ->)|(e & He & Hn)].
    + left. pose proof (forward_orphan_spec rs (rq_ref q)) as H. rewrite Ho in H.
      destruct H as (p & Hp & Href & Hop & Hkey). exists q, p, w.
      unfold forward_terminal, _emit_reversible_terminal_durable, _emit_reversible.
      destruct (rq_performed q); do 2 eexists; (split_and!; [done|done|by cbn; rewrite Href|done| | | |reflexivity];
        [done|done|intros key Hk; rewrite Hkey, Hk; split; [done|]; split_and!; [|done|done];
          eexists; split; [|done]; set_solver]).
    + right. exists e. split; [done|]. intros q Hq Hno. apply (Hn q Hq).
      pose proof (forward_orphan_spec rs (rq_ref q)) as H.
      destruct (forward_orphan rs (rq_ref q)); [|done]. destruct H as (p & Hp & Href & _).
      exfalso. apply (Hno p Hp). cbn. by rewrite Href.
  - destruct (reconcile_arc_course "compensate_ref-required" (Some "compensation") compensation_orphan
      (compensation_terminal a) a k rs Hrs) as [(q & [o fk] & w & m & Hq & Ho & Hw & Hm & ->)|(e & He & Hn)].
    + left. pose proof (compensation_orphan_spec rs (rq_ref q)) as H. rewrite Ho in H.
      destruct H as (p & Hp & Href & Hop & Hkey). exists q, p, w.
      unfold compensation_terminal, _emit_reversible_terminal_durable, _emit_reversible.
      destruct (rq_performed q); do 2 eexists; (split_and!; [done|done|done|done| | | |reflexivity];
        [done|done|intros key Hk; cbn [fst]; rewrite Hkey, Hk; split; [done|]; split_and!; [|done|done];
          eexists; split; [|done]; unfold Reversible._COMP_TERMINAL_PHASES; set_solver]).
    + right. exists e. split; [done|]. intros q Hq Hno. apply (Hn q Hq).
      pose proof (compensation_orphan_spec rs (rq_ref q)) as H.
      destruct (compensation_orphan rs (rq_ref q)) as [[o fk]|]; [|done].
      destruct H as (p & Hp & Href & _). exfalso. by apply (Hno p Hp).
Qed.

(** C7: a reconciliation closes the orphan it names, and nothing else.  On a kernel at rest
    whose in-doubt intents have text keys, each of the three reconciliations either raises
    and writes nothing, or writes exactly one terminal: of the operation of an intent that
    was in doubt under the reference given, with the outcome the operator determined and
    the operator as its authority, and, for a verified grade, only when the cited warrant
    verified.  After it that intent is no longer in doubt, every other one still is (but one of the
    same key and reference), and no new one is.  When nothing in doubt has that reference,
    as after a first reconciliation, the call is refused and the kernel is untouched. *)
Theorem reconciliation_exact anchor c a k r k' rs :
  arc_reconcile c a k = (r, k') -> calm anchor k -> all_receipts (kview k) = Ok rs ->
  (forall p, outstanding c rs p -> exists key, arc_key c p = PStr key) ->
  calm anchor k' /\
  match r with
  | Err _ => grows k k' []
  | Ok _ => exists q p row, recon_request (missing_ref c) a = Ok q /\ outstanding c rs p /\
      arc_ref c p = PStr (rq_ref q) /\
      (rc_verified a = true -> exists w, _verify_reconciliation_warrant k (rc_warrant_id a) = Ok w) /\
      grows k k' [row] /\ op row = op p /\ failed row = negb (rq_performed q) /\
      authority row = rq_authority q /\
      forall rs', all_receipts (kview k') = Ok rs' -> ~ outstanding c rs' p /\
        forall s, outstanding c rs' s <->
          outstanding c rs s /\ ~ (arc_key c s = arc_key c p /\ arc_ref c s = arc_ref c p)
  end /\
  (forall q, recon_request (missing_ref c) a = Ok q ->
     (forall p, outstanding c rs p -> arc_ref c p <> PStr (rq_ref q)) ->
     r = Err (ReconciliationRefused "not-an-outstanding-orphan") /\ k' = k).
Proof.
  intros H Hc Hrs Hkeys.
  destruct (arc_course c a k rs Hrs)
    as [(q & p & w & t & ec & Hq & Hp & Href & Hw & Hop & Hwho & Hcl & Hrun)|(e & He & Hn)].
  2:{ rewrite He in H. apply pair_ok in H as [<- <-].
      split_and!; [done|apply grows_refl|]. intros q Hq Hno. by rewrite (Hn q Hq Hno). }
  destruct (Hkeys p Hp) as (key & Hkey). specialize (Hcl key Hkey).
  rewrite Hrun in H. destruct (leads_terminal anchor _ _ _ _ _ _ _ H Hc) as [Hc' Hpost].
  split; [done|]. split.
  - destruct r as [x|e]; [|done]. destruct Hpost as (row & Hg & Hen). exists q, p, row.
    split_and!; [done|done|done| |done|by rewrite (en_op _ _ _ Hen)|by rewrite (en_failed _ _ _ Hen)
      |by rewrite (en_authority _ _ _ Hen)|].
    { intros Hv. unfold recon_grade in Hw. rewrite Hv in Hw.
      destruct (_verify_reconciliation_warrant k (rc_warrant_id a)) as [w'|]; [by exists w'|done]. }
    intros rs' Hrs'. destruct (receipts_split _ _ _ _ _ Hg Hrs Hrs') as (new & -> & Hnew).
    inversion Hnew as [|? t' ? ? Ht Hnil]; subst. inversion Hnil; subst. clear Hnew Hnil.
    destruct (closing_clears c t _ ec x row t' key _ Hen Ht Hcl) as (C1 & C2 & C3).
    assert (Hiff : forall s, outstanding c (rs ++ [t']) s <-> outstanding c rs s /\
      ~ (arc_key c s = arc_key c p /\ arc_ref c s = arc_ref c p)).
    { intros s. by rewrite outstanding_snoc, Hkey, Href, <- C3, not_true_iff_false. }
    split; [|done]. rewrite Hiff. intros [_ Hx]. by apply Hx.
  - intros q' Hq' Hno. rewrite Hq in Hq'. apply Ok_inj in Hq' as <-. by destruct (Hno p Hp).
Qed.

(** ** Compensation *)

(** A receipt of the compensation arc of an offset, as stored. *)
Record comp_row (o : offset) (ph : string) (f : bool) (row : Receipt) : Prop := {
  cr_recorded : recorded (t_op (of_trail o)) f row;
  cr_authority : authority row = t_authority (of_trail o);
  cr_class : col "effect_atomicity" (effect row) = PStr "external_reversible";
  cr_phase : col "effect_phase" (effect row) = PStr ph;
  cr_ref : col "effect_compensate_ref" (effect row) = PStr (of_ref o);
  cr_key : col "effect_compensation_idempotency_key" (effect row) = PStr (of_key o);
  cr_params : plain (t_params (of_trail o)) = true ->
    exists pj, _params_json (PDict (t_params (of_trail o))) = Ok pj /\ parameters row = PStr pj;
}.

Lemma entered_text a x row ec k s : entered a x row -> kw_effect_columns a = Some ec ->
  is_none (col "effect_atomicity" ec) = false -> k ∈ map snd _EFFECT_MARKER_MAP ->
  col k ec = PStr s -> col k (effect row) = PStr s.
Proof.
  intros Hen Hec Ha Hk Hs. pose proof (en_effect _ _ _ Hen ec k Hec Ha Hk) as H.
  rewrite Hs in H. by apply Ok_inj in H.
Qed.

Lemma leads_comp anchor o ph f p g reason k :
  leads anchor (_emit_reversible (of_trail o) ph f p g reason (Some (of_ref o)) (PStr (of_key o))) k
    (fun r l _ => match r with
     | Ok x => exists row, l = [row] /\ (comp_row o ph f row /\ h_r row = h_r x) | Err _ => l = [] end).
Proof.
  apply (leads_mono _ _ _ _ _ (leads_emit anchor _ k)). intros [x|e] l _; [|done].
  intros (row & -> & Hen). exists row. split; [done|]. split; [|by apply (en_root _ _ _ Hen)].
  split; [by apply (entered_recorded _ _ _ Hen)|apply (en_authority _ _ _ Hen)|..];
    [..|by apply (en_params _ _ _ Hen)]; (eapply entered_text; [done|reflexivity|reflexivity|listed|reflexivity]).
Qed.

Lemma leads_comp_terminal anchor o ph f reason k :
  leads anchor (_emit_reversible_terminal_durable (of_trail o) ph f None reason (Some (of_ref o))
    (PStr (of_key o))) k
    (fun r l _ => match r with
     | Ok _ => exists row, l = [row] /\ comp_row o ph f row | Err _ => l = [] end).
Proof.
  eapply leads_mono; [apply (leads_retry _ _ _ _ (fun x row => comp_row o ph f row /\ h_r row = h_r x));
    intros; apply leads_comp|].
  intros [x|e] l _; [|done]. intros (row & -> & Hrow & _). by exists row.
Qed.

(** What a compensation leaves of its arc. *)
Definition offset_post (o : offset) : result exn pyval -> list Receipt -> kernel -> Prop :=
  around_post (of_effect o) is_exception (comp_row o "compensate" false)
    (fun _ => comp_row o "compensated" false) (fun _ => comp_row o "compensation_failed" true).

Lemma leads_compensation_arc anchor o k : lawful (of_effect o) ->
  leads anchor (compensation_arc o) k (offset_post o).
Proof.
  intros Hl. unfold compensation_arc, offset_post. cbv zeta. apply leads_around; [done|..].
  - apply leads_comp.
  - intros; apply leads_comp_terminal.
  - intros; apply leads_comp_terminal.
Qed.

(** Once its COMPENSATE is there, an effect cannot be compensated again. *)
Lemma compensate_blocks o row r rs1 rs2 : comp_row o "compensate" false row ->
  _row_to_receipt row = Ok r ->
  Reversible.find_committed_forward (rs1 ++ r :: rs2) (of_ref o) = None.
Proof.
  intros [_ _ H1 H2 H3 _] Hr. apply row_read in Hr as [He _].
  assert (Hv : forall m c v, (m, c) ∈ Reversible._M2C -> col c (effect row) = PStr v ->
    col m (Reversible._params r) = PStr v).
  { intros m c v Hin Hc. unfold Reversible._params.
    rewrite (effect_view_col _ m c r); [by rewrite He|listed|done|by rewrite He, Hc]. }
  assert (compensates (of_ref o) r = true) as Hcomp.
  { unfold compensates, Reversible.rev_phase, is_phase.
    rewrite (Hv "effect_atomicity" "effect_atomicity" "external_reversible"),
      (Hv "phase" "effect_phase" "compensate"), (Hv "compensate_ref" "effect_compensate_ref" (of_ref o));
      [|first [done|listed]..]. by rewrite !pyval_eqb_refl_str. }
  unfold Reversible.find_committed_forward. cbv zeta. rewrite scan_all.
  cbn [Reversible.aborted Reversible.already_compensated]. rewrite !orb_false_r.
  replace (existsb (compensates (of_ref o)) (rs1 ++ r :: rs2)) with true; [by rewrite orb_true_r|].
  symmetry. apply existsb_exists. exists r. split; [apply in_app_iff; right; by left|done].
Qed.

(** C8: a compensation offsets a committed effect, once, between its own two receipts.  On
    a kernel at rest the call is either refused with nothing written and nothing run, when
    a check fails, or it is about a committed, unaborted and not yet compensated forward
    effect, under a key that is not the forward one: then COMPENSATE is written first
    (and nothing is run if it cannot be), the action runs once, and COMPENSATED or
    COMPENSATION_FAILED follows as the action returned or raised, or is missing when it cannot
    be written; and from the COMPENSATE on the effect cannot be compensated again. *)
Theorem compensation_exact anchor a k r k' rs :
  compensate_external_reversible a k = (r, k') -> calm anchor k ->
  all_receipts (kview k) = Ok rs -> (forall f, cp_effect a = Some f -> lawful f) ->
  calm anchor k' /\
  match compensation_target a (Ok rs) with
  | Err e => r = Err e /\ k' = k
  | Ok o => exists l, grows k k' l /\ offset_post o r l k' /\
      Reversible.find_committed_forward rs (of_ref o)
        = Some (t_op (of_trail o), t_key (of_trail o)) /\
      t_key (of_trail o) <> PStr (of_key o) /\
      (l <> [] -> forall rs', all_receipts (kview k') = Ok rs' ->
         Reversible.find_committed_forward rs' (of_ref o) = None)
  end.
Proof.
  intros H Hc Hrs Hl. unfold compensate_external_reversible in H. rewrite slift_bind in H.
  change (view (k_store k)) with (kview k) in H. rewrite Hrs in H.
  destruct (compensation_target a (Ok rs)) as [o|e] eqn:Ho.
  2:{ apply pair_ok in H as [<- <-]. done. }
  assert (Hfacts : cp_effect a = Some (of_effect o) /\
    Reversible.find_committed_forward rs (of_ref o) = Some (t_op (of_trail o), t_key (of_trail o)) /\
    t_key (of_trail o) <> PStr (of_key o)).
  { unfold compensation_target in Ho. do 3 apply rbind_ok in Ho as (? & _ & Ho).
    apply rbind_ok in Ho as (f & Hf & Ho). cbn [rbind] in Ho.
    destruct (Reversible.find_committed_forward rs _) as [[fo fk]|] eqn:Hcf; [|done].
    destruct (pyval_eqb _ fk) eqn:Hk; [done|]. apply Ok_inj in Ho. subst o.
    cbn [of_trail of_ref of_key of_effect t_op t_key]. split_and!; [|done|].
    - destruct (cp_effect a); [|done]. by apply Ok_inj in Hf as ->.
    - intros ->. by rewrite pyval_eqb_refl_str in Hk. }
  destruct Hfacts as (Hf & Hcf & Hne).
  destruct (leads_compensation_arc anchor o k (Hl _ Hf) Hc) as (l & Hc' & Hg & Hq).
  rewrite H in *. cbn [fst snd] in *. split; [done|]. exists l. split_and!; try done.
  intros Hnil rs' Hrs'. destruct (receipts_split _ _ _ _ _ Hg Hrs Hrs') as (new & -> & Hnew).
  destruct Hq as [(e & _ & ->)|(p & le & k1 & Hp & _ & Hq)]; [done|].
  assert (exists l', l = p :: l') as [l' ->].
  { destruct Hq as [(v & t & _ & _ & -> & _)|[(e & t & _ & _ & _ & -> & _)|(e & _ & -> & _)]];
      by eexists. }
  inversion Hnew as [|? p' ? new' Hp' _]; subst. by apply (compensate_blocks o p).
Qed.
End reconcile_facts.

(** * Examples *)

(** The PREPARE left by a broken irreversible call, reconciled as performed. *)
Definition last_root (k : kernel) : string :=
  match last (rows (kview k)) with Some r => h_r r | None => "" end.
Definition demo_recon : recon_args :=
  {| rc_ref := PStr (last_root doubtful); rc_determination := PStr "performed";
     rc_evidence := PStr "bank statement"; rc_authority := PStr "operator";
     rc_jurisdiction := "session"; rc_intent_ref := ""; rc_warrant_id := ""; rc_verified := false |}.
Definition reconciled : result exn Receipt * kernel := Eval vm_compute in
  @arc_reconcile nfc_id ed_demo demo_engine IrreversibleArc demo_recon doubtful.
Definition doubtful_rows : list Receipt := Eval vm_compute in read_rows doubtful.
Definition reconciled_rows : list Receipt := Eval vm_compute in read_rows (snd reconciled).
Lemma doubtful_calm : calm GENESIS doubtful.
Proof. split; vm_compute; auto. Qed.
Lemma demo_reconcile_run :
  @arc_reconcile nfc_id ed_demo demo_engine IrreversibleArc demo_recon doubtful = reconciled.
Proof. vm_compute. reflexivity. Qed.

Lemma doubtful_keyed p : outstanding IrreversibleArc doubtful_rows p ->
  exists key, arc_key IrreversibleArc p = PStr key.
Proof.
  intros (Hp & Hi & _). exists "key-1". unfold doubtful_rows in Hp.
  repeat (apply elem_of_cons in Hp as [->|Hp]); [discriminate Hi|vm_compute; reflexivity|].
  by apply elem_of_nil in Hp.
Qed.
Lemma doubtful_read : all_receipts (kview doubtful) = Ok doubtful_rows.
Proof. vm_compute. reflexivity. Qed.
Lemma reconciled_read : all_receipts (kview (snd reconciled)) = Ok reconciled_rows.
Proof. vm_compute. reflexivity. Qed.
Lemma reconciled_ok : is_ok (fst reconciled) = true.
Proof. reflexivity. Qed.

Lemma reconciliation_exact_witness : exists p row,
  outstanding IrreversibleArc doubtful_rows p /\ grows doubtful (snd reconciled) [row] /\
  ~ outstanding IrreversibleArc reconciled_rows p.
Proof.
  pose proof demo_reconcile_run as Hrun. pose proof reconciled_read as Hread.
  pose proof reconciled_ok as Hok. destruct reconciled as [r k'].
  pose proof (@reconciliation_exact nfc_id ed_demo demo_engine GENESIS IrreversibleArc demo_recon doubtful
    r k' doubtful_rows Hrun doubtful_calm doubtful_read doubtful_keyed) as (_ & Hthm & _).
  clear Hrun. destruct r as [x|e]; [|discriminate Hok].
  destruct Hthm as (q & p & row & _ & Hp & _ & _ & Hg & _ & _ & _ & Hd).
  exists p, row. split; [exact Hp|]. split; [exact Hg|]. exact (proj1 (Hd _ Hread)).
Defined.

(** A charge that committed, then its refund. *)
Definition demo_charge : exec_args := demo_call Kernel.EXTERNAL_REVERSIBLE demo_params (sret (PInt 7)).
Definition charged : kernel := Eval vm_compute in snd (demo_execute demo_charge (demo_kernel [])).
Definition charged_rows : list Receipt := Eval vm_compute in read_rows charged.
Definition charge_ref : string :=
  match charged_rows with [_; p; _] => h_r p | _ => "" end.
Definition demo_refund : comp_args :=
  {| cp_ref := PStr charge_ref; cp_effect := Some (sret (PInt (-7)));
     cp_key := PStr (compose_compensation_key "key-1" "compensate"); cp_authority := PStr "operator";
     cp_jurisdiction := "session"; cp_intent_ref := ""; cp_warrant_id := "" |}.
Definition refunded : result exn pyval * kernel := Eval vm_compute in
  @compensate_external_reversible nfc_id ed_demo demo_engine demo_refund charged.
Definition demo_offset : result exn offset := Eval vm_compute in
  compensation_target demo_refund (Ok charged_rows).
Definition refunded_rows : list Receipt := Eval vm_compute in read_rows (snd refunded).
Lemma demo_refund_run :
  @compensate_external_reversible nfc_id ed_demo demo_engine demo_refund charged = refunded.
Proof. vm_compute. reflexivity. Qed.
Lemma demo_offset_run : compensation_target demo_refund (Ok charged_rows) = demo_offset.
Proof. vm_compute. reflexivity. Qed.
Lemma charged_read : all_receipts (kview charged) = Ok charged_rows.
Proof. vm_compute. reflexivity. Qed.
Lemma refunded_read : all_receipts (kview (snd refunded)) = Ok refunded_rows.
Proof. vm_compute. reflexivity. Qed.
Lemma charged_calm : calm GENESIS charged.
Proof. split; vm_compute; auto. Qed.
Lemma refunded_rows_more :
  (length (rows (kview (snd refunded))) = length (rows (kview charged)) + 2)%nat.
Proof. vm_compute. reflexivity. Qed.

Lemma compensation_exact_witness : exists o,
  Reversible.find_committed_forward charged_rows (of_ref o) = Some (t_op (of_trail o), t_key (of_trail o)) /\
  Reversible.find_committed_forward refunded_rows (of_ref o) = None.
Proof.
  pose proof demo_refund_run as Hrun. pose proof refunded_read as Hread.
  pose proof refunded_rows_more as Hmore. destruct refunded as [r k'].
  assert (Hl : forall f, cp_effect demo_refund = Some f -> lawful f).
  { intros f Hf. apply Some_inj' in Hf. subst f. by apply lawful_quiet. }
  pose proof (@compensation_exact nfc_id ed_demo demo_engine GENESIS demo_refund charged r k' charged_rows
    Hrun charged_calm charged_read Hl) as [_ Hthm].
  clear Hrun. rewrite demo_offset_run in Hthm. unfold demo_offset in Hthm. cbv iota in Hthm.
  destruct Hthm as (l & Hg & _ & Hcf & _ & Hd).
  eexists. split; [exact Hcf|]. apply (fun H => Hd H _ Hread). intros ->.
  unfold grows in Hg. cbn [snd] in Hmore. rewrite Hg, app_nil_r in Hmore. lia.
Defined.
