(* ===== verification/EffectTrail.v ===== *)
(** The effect-trail verifiers (EFFECT-S-01 over parameter markers, EFFECT-S-02 over typed
    columns; [ugk/conformance/effect_trail_integrity_gate.py]), and that every call of the
    kernel keeps the trail of its store conformant. *)
From S2P Require Import Prelude Json Sha256 Binding BindingM2 Frame Authority Receipt Trace Capability Sqlite Integrity Archives Store StoreFacts StoreTxn Will Warrant Effects EffectsIrr EffectsRev Kernel KernelFacts ExecuteFacts Reconcile.

Definition EXTERNAL := ["external_irreversible"; "external_reversible"].
Definition TWO_PHASE_PHASES :=
  ["prepare"; "commit"; "abort"; "compensate"; "compensated"; "compensation_failed"].
Definition FORWARD_TERMINALS := ["commit"; "abort"].
Definition COMP_PHASES := ["compensate"; "compensated"; "compensation_failed"].
Definition COMP_TERMINALS := ["compensated"; "compensation_failed"].
Definition ERASURE_MARKERS := ["undone"; "reversed"; "erased"; "rolled_back"].

(** [v in (...)], a tuple of strings. *)
Definition among (v : pyval) (l : list string) : bool := existsb (fun s => pyval_eqb v (PStr s)) l.

(** A set of pairs: adding to it and looking in it hash the pair. *)
Fixpoint hashable (v : pyval) : bool :=
  match v with
  | PList _ | PDict _ => false
  | PTuple l => forallb hashable l
  | _ => true
  end.
Definition anchor : Type := pyval * pyval.
Definition hashed (x : anchor) : result exn anchor :=
  if hashable (fst x) && hashable (snd x) then Ok x else Err (Exn TypeError "unhashable type").
Definition anchored (x : anchor) (l : list anchor) : result exn bool :=
  let* x := hashed x in
  Ok (existsb (fun y => pyval_eqb (fst x) (fst y) && pyval_eqb (snd x) (snd y)) l).

(** ** Where the structural fields come from *)

Record trail_fields := {
  f_class : pyval;
  f_phase : pyval;
  f_key : pyval;
  f_prepare_ref : pyval;
  f_compensate_ref : pyval;
  f_compensation_key : pyval;
}.
(** [_params(r).get(...)] *)
Definition marker_fields (r : Receipt) : trail_fields :=
  let p := dict_part (parameters r) in
  {| f_class := col "effect_atomicity" p; f_phase := col "phase" p; f_key := col "idempotency_key" p;
     f_prepare_ref := col "prepare_ref" p; f_compensate_ref := col "compensate_ref" p;
     f_compensation_key := col "compensation_idempotency_key" p |}.
(** [_ecol(r, ...)] *)
Definition column_fields (r : Receipt) : trail_fields :=
  let e := effect r in
  {| f_class := col "effect_atomicity" e; f_phase := col "effect_phase" e;
     f_key := col "effect_idempotency_key" e; f_prepare_ref := col "effect_prepare_ref" e;
     f_compensate_ref := col "effect_compensate_ref" e;
     f_compensation_key := col "effect_compensation_idempotency_key" e |}.

(** [int(getattr(r, "version", 1) or 1) >= 4] *)
Definition _v4 (r : Receipt) : bool := 4 <=? (if version r =? 0 then 1 else version r).

(** ** The verifier *)

Section verifier.
(** The text of a value that is not a scalar. *)
Context (repr : pyval -> string).
Definition class_text (v : pyval) : string :=
  match v with
  | PNone => "None"
  | PBool b => if b then "True" else "False"
  | PInt z => str_of_Z z
  | PFloat r => r
  | PStr s => s
  | _ => repr v
  end.

Definition violation : Type := list string.
Definition report (b : bool) (v : violation) : list violation := if b then [v] else [].

Context (sel : Receipt -> trail_fields).

Definition is_prepare_anchor (r : Receipt) : bool :=
  among (f_class (sel r)) EXTERNAL && pyval_eqb (f_phase (sel r)) (PStr "prepare").
Definition is_compensate_anchor (r : Receipt) : bool :=
  pyval_eqb (f_class (sel r)) (PStr "external_reversible")
  && pyval_eqb (f_phase (sel r)) (PStr "compensate").
Definition prepare_anchor (r : Receipt) : anchor := (PStr (h_r r), f_key (sel r)).
Definition compensate_anchor (r : Receipt) : anchor :=
  (f_compensate_ref (sel r), f_compensation_key (sel r)).
Definition anchors (keep : Receipt -> bool) (form : Receipt -> anchor) (rs : list Receipt) :
    result exn (list anchor) :=
  sequence (map (fun r => hashed (form r)) (List.filter keep rs)).

(** [not ref or (ref, key) not in anchors] *)
Definition unanchored (x : anchor) (l : list anchor) : result exn bool :=
  if truthy (fst x) then rmap negb (anchored x l) else Ok true.

Definition forward_check (prepares : list anchor) (ph : string) (r : Receipt) :
    result exn (list violation) :=
  if mem_str ph FORWARD_TERMINALS then
    let* loose := unanchored (f_prepare_ref (sel r), f_key (sel r)) prepares in
    Ok (report loose ["forward-terminal-without-anchor"; ph; h_r r]
        ++ report (str_eqb ph "commit" && failed r) ["commit-marked-failed-contradiction"; h_r r]
        ++ report (str_eqb ph "abort" && negb (failed r)) ["abort-not-marked-failed"; h_r r])
  else Ok [].
Definition claims_erasure (r : Receipt) : bool :=
  existsb (fun m => truthy (col m (dict_part (parameters r)))) ERASURE_MARKERS.
Definition compensation_check (compensates : list anchor) (ph : string) (r : Receipt) :
    result exn (list violation) :=
  if mem_str ph COMP_TERMINALS then
    let* loose := unanchored (f_compensate_ref (sel r), f_compensation_key (sel r)) compensates in
    Ok (report loose ["compensation-terminal-without-anchor"; ph; h_r r]
        ++ (if str_eqb ph "compensated" then
              report (failed r) ["compensated-marked-failed-contradiction"; h_r r]
              ++ report (claims_erasure r) ["compensated-claims-physical-erasure"; h_r r]
            else [])
        ++ report (str_eqb ph "compensation_failed" && negb (failed r))
             ["compensation_failed-not-marked-failed"; h_r r])
  else Ok [].

Definition check_receipt (prepares compensates : list anchor) (r : Receipt) :
    result exn (list violation) :=
  match f_phase (sel r) with
  | PStr ph =>
      if negb (mem_str ph TWO_PHASE_PHASES) then Ok []
      else if negb (among (f_class (sel r)) EXTERNAL) then
        Ok [["class-mismatch-non-external-carries-phase"; class_text (f_class (sel r)); ph; h_r r]]
      else if pyval_eqb (f_class (sel r)) (PStr "external_irreversible") && mem_str ph COMP_PHASES then
        Ok [["irreversible-carries-compensation-phase"; ph; h_r r]]
      else
        let* v1 := forward_check prepares ph r in
        let* v2 := compensation_check compensates ph r in
        Ok (v1 ++ v2)
  | _ => Ok []
  end.

(** [violations.sort(key=lambda v: tuple(str(x) for x in v))] *)
Fixpoint words_leb (a b : violation) : bool :=
  match a, b with
  | [], _ => true
  | _, [] => false
  | x :: a', y :: b' => if str_eqb x y then words_leb a' b' else String.leb x y
  end.
Fixpoint insert_words (x : violation) (l : list violation) : list violation :=
  match l with
  | [] => [x]
  | y :: l' => if words_leb x y then x :: l else y :: insert_words x l'
  end.
Definition sort_words (l : list violation) : list violation := foldr insert_words [] l.

Definition verify_trail (rs : list Receipt) : result exn (list violation) :=
  let* prepares := anchors is_prepare_anchor prepare_anchor rs in
  let* compensates := anchors is_compensate_anchor compensate_anchor rs in
  let* vs := sequence (map (check_receipt prepares compensates) rs) in
  Ok (sort_words (concat vs)).
End verifier.

Definition verify_effect_trail_integrity (repr : pyval -> string) : list Receipt -> result exn (list violation) :=
  verify_trail repr marker_fields.
Definition verify_effect_trail_integrity_typed (repr : pyval -> string) (rs : list Receipt) :
    result exn (list violation) :=
  verify_trail repr column_fields (List.filter _v4 rs).

(** * What the verifier accepts *)

(** A cell of a stored receipt: text, or nothing. *)
Definition textual (v : pyval) : Prop := match v with PNone | PStr _ => True | _ => False end.
Lemma textual_eqb v w : textual v -> textual w -> pyval_eqb v w = true <-> v = w.
Proof.
  destruct v, w; try done; intros _ _; cbn; rewrite ?str_eqb_spec; try (by split).
  split; [by intros ->|]. intros H. congruence.
Qed.
Lemma among_spec v l : among v l = true <-> exists s, v = PStr s /\ s ∈ l.
Proof.
  unfold among. rewrite existsb_exists. setoid_rewrite pyval_eqb_str. setoid_rewrite <- list_elem_of_In.
  naive_solver.
Qed.

Section accepted.
Context (repr : pyval -> string) (sel : Receipt -> trail_fields).

Record textual_row (r : Receipt) : Prop := {
  tx_class : textual (f_class (sel r));
  tx_phase : textual (f_phase (sel r));
  tx_key : textual (f_key (sel r));
  tx_ref : textual (f_prepare_ref (sel r));
  tx_comp : textual (f_compensate_ref (sel r));
  tx_comp_key : textual (f_compensation_key (sel r));
}.

(** Some receipt of the trail announced the effect, or the compensation, a terminal is about. *)
Definition prepared (rs : list Receipt) (ref : string) (key : pyval) : Prop :=
  exists p cls, p ∈ rs /\ f_class (sel p) = PStr cls /\ cls ∈ EXTERNAL /\
    f_phase (sel p) = PStr "prepare" /\ h_r p = ref /\ f_key (sel p) = key.
Definition compensating (rs : list Receipt) (ref : string) (key : pyval) : Prop :=
  exists p, p ∈ rs /\ f_class (sel p) = PStr "external_reversible" /\
    f_phase (sel p) = PStr "compensate" /\ f_compensate_ref (sel p) = PStr ref /\
    f_compensation_key (sel p) = key.

(** The place of a receipt in a conformant trail. *)
Inductive placed (rs : list Receipt) (r : Receipt) : Prop :=
| pl_outside : (forall ph, f_phase (sel r) = PStr ph -> ph ∉ TWO_PHASE_PHASES) -> placed rs r
| pl_prepare cls : f_class (sel r) = PStr cls -> cls ∈ EXTERNAL ->
    f_phase (sel r) = PStr "prepare" -> placed rs r
| pl_terminal cls ph ref : f_class (sel r) = PStr cls -> cls ∈ EXTERNAL ->
    f_phase (sel r) = PStr ph -> ph = "commit" /\ failed r = false \/ ph = "abort" /\ failed r = true ->
    f_prepare_ref (sel r) = PStr ref -> ref <> "" -> prepared rs ref (f_key (sel r)) -> placed rs r
| pl_compensate : f_class (sel r) = PStr "external_reversible" ->
    f_phase (sel r) = PStr "compensate" -> placed rs r
| pl_compensated ph ref : f_class (sel r) = PStr "external_reversible" -> f_phase (sel r) = PStr ph ->
    ph = "compensated" /\ failed r = false /\ claims_erasure r = false \/
    ph = "compensation_failed" /\ failed r = true ->
    f_compensate_ref (sel r) = PStr ref -> ref <> "" ->
    compensating rs ref (f_compensation_key (sel r)) -> placed rs r.

Definition conformant (rs : list Receipt) : Prop := forall r, r ∈ rs -> placed rs r.

Lemma textual_hashable v : textual v -> hashable v = true.
Proof. by destruct v. Qed.

Lemma anchors_ok keep form rs : (forall r, r ∈ rs -> textual (fst (form r)) /\ textual (snd (form r))) ->
  anchors keep form rs = Ok (map form (List.filter keep rs)).
Proof.
  intros Ht. unfold anchors. induction rs as [|r rs IH]; [done|]. cbn [List.filter].
  assert (IH' := IH ltac:(intros x Hx; apply Ht; by right)).
  destruct (keep r); [|done]. cbn [map sequence]. rewrite IH'.
  destruct (Ht r ltac:(by left)) as [H1 H2]. unfold hashed. by rewrite !textual_hashable.
Qed.

Lemma unanchored_ok v w l : textual v -> textual w -> (forall y, y ∈ l -> textual (fst y) /\ textual (snd y)) ->
  exists b, unanchored (v, w) l = Ok b /\ (b = false <-> exists ref, v = PStr ref /\ ref <> "" /\ (PStr ref, w) ∈ l).
Proof.
  intros Hv Hw Hl. unfold unanchored. cbn [fst].
  destruct (truthy v) eqn:Ht.
  - unfold anchored, hashed. cbn [fst snd]. rewrite !textual_hashable by done. cbn [andb rbind rmap].
    eexists. split; [done|]. rewrite negb_false_iff, existsb_exists. split.
    + intros ([a b] & Hin & [H1 H2]%andb_true_iff). apply list_elem_of_In in Hin. cbn [fst snd] in *.
      destruct (Hl _ Hin) as [La Lb]. apply textual_eqb in H1, H2; try done. subst a b.
      destruct v as [| | | |s| | | |]; try done. exists s. split_and!; try done. by intros ->.
    + intros (ref & -> & _ & Hin). exists (PStr ref, w). rewrite <- list_elem_of_In. split; [done|].
      apply andb_true_iff. by split; apply textual_eqb.
  - exists true. split; [done|]. split; [done|]. intros (ref & -> & Hne & _). cbn in Ht.
    by destruct ref.
Qed.

Lemma in_anchors (keep : Receipt -> bool) (form : Receipt -> anchor) rs x :
  x ∈ map form (List.filter keep rs) <-> exists r, r ∈ rs /\ keep r = true /\ form r = x.
Proof.
  rewrite list_elem_of_fmap. setoid_rewrite elem_of_Filter. naive_solver.
Qed.

Lemma prepare_anchor_spec r : is_prepare_anchor sel r = true <->
  exists cls, f_class (sel r) = PStr cls /\ cls ∈ EXTERNAL /\ f_phase (sel r) = PStr "prepare".
Proof. unfold is_prepare_anchor. rewrite andb_true_iff, among_spec, pyval_eqb_str. naive_solver. Qed.

Lemma prepared_spec rs ref key :
  (PStr ref, key) ∈ map (prepare_anchor sel) (List.filter (is_prepare_anchor sel) rs) <-> prepared rs ref key.
Proof.
  rewrite in_anchors. unfold prepared, prepare_anchor. setoid_rewrite prepare_anchor_spec. split.
  - intros (p & Hp & (cls & H1 & H2 & H3) & [H4 H5]%pair_ok). exists p, cls. split_and!; try done. congruence.
  - intros (p & cls & Hp & H1 & H2 & H3 & <- & <-). exists p. split_and!; [done|by exists cls|done].
Qed.
Lemma compensating_spec rs ref key :
  (PStr ref, key) ∈ map (compensate_anchor sel) (List.filter (is_compensate_anchor sel) rs) <->
  compensating rs ref key.
Proof.
  rewrite in_anchors. unfold compensating, compensate_anchor, is_compensate_anchor.
  setoid_rewrite andb_true_iff. setoid_rewrite pyval_eqb_str. split.
  - intros (p & Hp & [H1 H2] & [H4 H5]%pair_ok). by exists p.
  - intros (p & Hp & H1 & H2 & H3 & H4). exists p. rewrite H3, H4. by split_and!.
Qed.

Lemma in_true s l (P : Prop) : mem_str s l = true -> (s ∈ l -> P) <-> P.
Proof. rewrite mem_str_spec. tauto. Qed.
Lemma report_nil b v : report b v = [] <-> b = false.
Proof. by destruct b. Qed.

Lemma sort_words_nil l : sort_words l = [] <-> l = [].
Proof.
  split; [|by intros ->]. destruct l as [|x l]; [done|]. cbn [sort_words foldr].
  generalize (foldr insert_words [] l). intros [|y l']; cbn; [done|]. by destruct (words_leb x y).
Qed.

(** A terminal is accepted when it is announced and marked as its outcome is. *)
Lemma forward_check_spec prepares r ph rs : textual_row r ->
  (forall y, y ∈ prepares -> textual (fst y) /\ textual (snd y)) ->
  (forall ref key, (PStr ref, key) ∈ prepares <-> prepared rs ref key) ->
  exists v, forward_check sel prepares ph r = Ok v /\ (v = [] <-> (ph ∈ FORWARD_TERMINALS ->
    (ph = "commit" /\ failed r = false \/ ph = "abort" /\ failed r = true) /\
    exists ref, f_prepare_ref (sel r) = PStr ref /\ ref <> "" /\ prepared rs ref (f_key (sel r)))).
Proof.
  intros Ht Hl Hp. unfold forward_check. destruct (mem_str ph FORWARD_TERMINALS) eqn:Hm.
  2:{ exists []. split; [done|]. split; [|done]. intros _ Hin%mem_str_spec. congruence. }
  apply mem_str_spec in Hm.
  destruct (unanchored_ok (f_prepare_ref (sel r)) (f_key (sel r)) prepares) as (b & -> & Hb);
    [by apply tx_ref|by apply tx_key|done|].
  cbn [rbind]. eexists. split; [done|]. rewrite !app_nil, !report_nil, Hb.
  setoid_rewrite Hp. generalize (exists ref, f_prepare_ref (sel r) = PStr ref /\ ref <> "" /\
    prepared rs ref (f_key (sel r))). intros P.
  apply elem_of_cons in Hm as [->|[->|Hm%elem_of_nil]%elem_of_cons]; [| |done];
    rewrite in_true by (vm_compute; reflexivity); destruct (failed r); cbn; ground_keys; cbn; intuition congruence.
Qed.
Lemma compensation_check_spec compensates r ph rs : textual_row r ->
  (forall y, y ∈ compensates -> textual (fst y) /\ textual (snd y)) ->
  (forall ref key, (PStr ref, key) ∈ compensates <-> compensating rs ref key) ->
  exists v, compensation_check sel compensates ph r = Ok v /\ (v = [] <-> (ph ∈ COMP_TERMINALS ->
    (ph = "compensated" /\ failed r = false /\ claims_erasure r = false \/
     ph = "compensation_failed" /\ failed r = true) /\
    exists ref, f_compensate_ref (sel r) = PStr ref /\ ref <> "" /\
      compensating rs ref (f_compensation_key (sel r)))).
Proof.
  intros Ht Hl Hp. unfold compensation_check. destruct (mem_str ph COMP_TERMINALS) eqn:Hm.
  2:{ exists []. split; [done|]. split; [|done]. intros _ Hin%mem_str_spec. congruence. }
  apply mem_str_spec in Hm.
  destruct (unanchored_ok (f_compensate_ref (sel r)) (f_compensation_key (sel r)) compensates) as (b & -> & Hb);
    [by apply tx_comp|by apply tx_comp_key|done|].
  cbn [rbind]. eexists. split; [done|]. rewrite !app_nil, !report_nil, Hb.
  setoid_rewrite Hp. generalize (exists ref, f_compensate_ref (sel r) = PStr ref /\ ref <> "" /\
    compensating rs ref (f_compensation_key (sel r))). intros P.
  apply elem_of_cons in Hm as [->|[->|Hm%elem_of_nil]%elem_of_cons]; [| |done];
    rewrite in_true by (vm_compute; reflexivity); destruct (failed r), (claims_erasure r); cbn; ground_keys; cbn;
    intuition congruence.
Qed.

(** The phases, and the checks each of them is subject to. *)
Lemma phase_cases ph : ph ∈ TWO_PHASE_PHASES -> ph = "prepare" \/ ph = "compensate" \/
  ph ∈ FORWARD_TERMINALS \/ ph ∈ COMP_TERMINALS.
Proof.
  intros H. repeat (apply elem_of_cons in H as [->|H]);
    [by left|do 2 right; left|do 2 right; left|right; by left|do 3 right|do 3 right|by apply elem_of_nil in H];
    by apply mem_str_spec.
Qed.
Lemma external_cases cls : cls ∈ EXTERNAL -> cls = "external_irreversible" \/ cls = "external_reversible".
Proof. unfold EXTERNAL. rewrite !elem_of_cons, elem_of_nil. tauto. Qed.
Lemma comp_phase ph : ph ∈ TWO_PHASE_PHASES -> ph ∈ COMP_PHASES <-> ph = "compensate" \/ ph ∈ COMP_TERMINALS.
Proof. unfold COMP_PHASES, COMP_TERMINALS. rewrite !elem_of_cons, elem_of_nil. tauto. Qed.
Lemma forward_not_comp ph : ph ∈ FORWARD_TERMINALS -> ph <> "compensate" /\ ph ∉ COMP_TERMINALS /\ ph <> "prepare".
Proof.
  unfold FORWARD_TERMINALS, COMP_TERMINALS. rewrite !elem_of_cons, elem_of_nil.
  intros [->|[->|[]]]; split_and!; try done; rewrite ?elem_of_cons, ?elem_of_nil; by intros [?|[?|[]]].
Qed.

Lemma check_receipt_spec prepares compensates rs r : textual_row r ->
  (forall y, y ∈ prepares -> textual (fst y) /\ textual (snd y)) ->
  (forall y, y ∈ compensates -> textual (fst y) /\ textual (snd y)) ->
  (forall ref key, (PStr ref, key) ∈ prepares <-> prepared rs ref key) ->
  (forall ref key, (PStr ref, key) ∈ compensates <-> compensating rs ref key) ->
  exists v, check_receipt repr sel prepares compensates r = Ok v /\ (v = [] <-> placed rs r).
Proof.
  intros Ht Hlp Hlc Hp Hc. unfold check_receipt.
  destruct (f_phase (sel r)) as [| | | |ph| | | |] eqn:Hph;
    try (exists []; split; [done|]; split; [|done]; intros _; apply pl_outside; by rewrite Hph).
  destruct (mem_str ph TWO_PHASE_PHASES) eqn:Hm; cbn [negb].
  2:{ exists []. split; [done|]. split; [|done]. intros _. apply pl_outside.
      intros ph'. rewrite Hph. intros H Hin%mem_str_spec. congruence. }
  apply mem_str_spec in Hm.
  destruct (among (f_class (sel r)) EXTERNAL) eqn:Hcls; cbn [negb].
  2:{ eexists. split; [done|]. split; [done|]. intros Hpl. exfalso.
      assert (Hn : ~ exists cls, f_class (sel r) = PStr cls /\ cls ∈ EXTERNAL).
      { rewrite <- among_spec, Hcls. done. }
      destruct Hpl as [Ho|cls H1 H2 _|cls ph' ref H1 H2|H1|ph' ref H1];
        [by apply (Ho ph Hph)|apply Hn..]; eexists; (split; [done|]); try done; by apply mem_str_spec. }
  apply among_spec in Hcls as (cls & Hcls & Hext). rewrite Hcls.
  destruct (pyval_eqb (PStr cls) (PStr "external_irreversible") && mem_str ph COMP_PHASES) eqn:Hirr.
  { eexists. split; [done|]. split; [done|]. intros Hpl. exfalso.
    apply andb_true_iff in Hirr as [Hi Hcp]. apply pyval_eqb_str in Hi. apply mem_str_spec in Hcp.
    apply comp_phase in Hcp; [|done].
    destruct Hpl as [Ho|cls' _ _ H|cls' ph' ref _ _ H1 H|H1|ph' ref H1];
      [by apply (Ho ph Hph)| | |congruence..]; rewrite Hph in *.
    - injection H as ->. by destruct Hcp as [|?%mem_str_spec].
    - injection H1 as <-. by destruct H as [[-> _]|[-> _]], Hcp as [|?%mem_str_spec]. }
  destruct (forward_check_spec prepares r ph rs Ht Hlp Hp) as (v1 & -> & H1).
  destruct (compensation_check_spec compensates r ph rs Ht Hlc Hc) as (v2 & -> & H2).
  cbn [rbind]. eexists. split; [done|]. rewrite app_nil, H1, H2. clear H1 H2 Hlp Hlc Hp Hc prepares compensates.
  assert (Hrev : ph ∈ COMP_PHASES -> cls = "external_reversible").
  { intros Hcp%mem_str_spec. rewrite Hcp, andb_true_r in Hirr. apply external_cases in Hext as [->| ->]; [|done].
    by rewrite (proj2 (pyval_eqb_str _ _) eq_refl) in Hirr. }
  rewrite (comp_phase ph Hm) in Hrev. split.
  - intros [H1 H2]. destruct (phase_cases ph Hm) as [->|[->|[Hf|Hf]]].
    + by apply (pl_prepare _ _ cls).
    + apply pl_compensate; [|done]. rewrite Hcls. f_equal. apply Hrev. by left.
    + destruct (H1 Hf) as (Ha & ref & Hr & Hne & Hp). by apply (pl_terminal _ _ cls ph ref).
    + destruct (H2 Hf) as (Ha & ref & Hr & Hne & Hp). apply (pl_compensated _ _ ph ref); try done.
      rewrite Hcls. f_equal. apply Hrev. by right.
  - intros Hpl. destruct Hpl as [Ho|cls' _ _ H|cls' ph' ref _ _ H Ha Hr Hne Hp|_ H|ph' ref _ H Ha Hr Hne Hp];
      [by destruct (Ho ph Hph)|..]; rewrite Hph in H; injection H as ->.
    + split; intros H%mem_str_spec; discriminate H.
    + split; [intros _; split; [done|by exists ref]|]. by destruct Ha as [[-> _]|[-> _]]; intros H%mem_str_spec.
    + split; intros H%mem_str_spec; discriminate H.
    + split; [|intros _; split; [done|by exists ref]]. by destruct Ha as [[-> _]|[-> _]]; intros H%mem_str_spec.
Qed.

(** The verifier reports nothing exactly on the conformant trails. *)
Lemma verify_trail_spec rs : (forall r, r ∈ rs -> textual_row r) ->
  exists vs, verify_trail repr sel rs = Ok vs /\ (vs = [] <-> conformant rs).
Proof.
  intros Ht. unfold verify_trail.
  rewrite !anchors_ok by (intros r Hr; split; cbn; try done; apply Ht in Hr; by apply Hr).
  cbn [rbind].
  set (ps := map _ (List.filter (is_prepare_anchor sel) rs)).
  set (cs := map _ (List.filter (is_compensate_anchor sel) rs)).
  assert (H : forall l, (forall r, r ∈ l -> r ∈ rs) -> exists vs,
    sequence (map (check_receipt repr sel ps cs) l) = Ok vs /\
    (concat vs = [] <-> forall r, r ∈ l -> placed rs r)).
  { induction l as [|r l IH]; intros Hl.
    { exists []. split; [done|]. split; [|done]. by intros _ r ?%elem_of_nil. }
    destruct IH as (vs & IH1 & IH2); [intros; apply Hl; by right|].
    destruct (check_receipt_spec ps cs rs r) as (v & Hv & Hv').
    - apply Ht, Hl. by left.
    - intros y (x & -> & Hx)%list_elem_of_fmap_1. apply elem_of_Filter in Hx as [Hx _]. split; [done|by apply Ht].
    - intros y (x & -> & Hx)%list_elem_of_fmap_1. apply elem_of_Filter in Hx as [Hx _]. by split; apply Ht.
    - apply prepared_spec.
    - apply compensating_spec.
    - exists (v :: vs). cbn [map sequence]. rewrite Hv. cbn [rbind]. rewrite IH1. split; [done|].
      cbn [concat]. rewrite app_nil, Hv', IH2. setoid_rewrite elem_of_cons. naive_solver. }
  destruct (H rs) as (vs & -> & Hvs); [done|]. cbn [rbind]. eexists. split; [done|].
  by rewrite sort_words_nil.
Qed.
End accepted.

Definition columns_textual (r : Receipt) : Prop := textual_row column_fields r.
(** The trail of the typed columns, of the receipts that have them. *)
Definition trail_conformant (rs : list Receipt) : Prop :=
  conformant column_fields (List.filter _v4 rs).

Lemma typed_spec repr rs : (forall r, r ∈ rs -> columns_textual r) ->
  exists vs, verify_effect_trail_integrity_typed repr rs = Ok vs /\ (vs = [] <-> trail_conformant rs).
Proof. intros H. apply verify_trail_spec. intros r [Hr _]%elem_of_Filter. by apply H. Qed.

(** C10: what EFFECT-S-02 means.  On receipts whose effect columns are text or empty, as a store
    returns them, the verifier of the typed columns never raises, and reports nothing exactly when every
    receipt of version 4 or later is in its place: a phase only on an external class; a COMMIT that did not
    fail, or an ABORT that did, names the PREPARE of its key; compensation phases only on
    reversible effects, their terminals naming a COMPENSATE of their reference and key, COMPENSATED neither
    failed nor claiming erasure.  An intent without its terminal is never reported. *)
Theorem trail_integrity_exact repr rs : (forall r, r ∈ rs -> columns_textual r) ->
  exists vs, verify_effect_trail_integrity_typed repr rs = Ok vs /\ (vs = [] <-> trail_conformant rs).
Proof. intros H. by apply typed_spec. Qed.

(** * Columns and markers *)

Lemma sequence_ext {A B C} (f g : A -> result C B) l : (forall x, x ∈ l -> f x = g x) ->
  sequence (map f l) = sequence (map g l).
Proof. intros H. f_equal. apply map_ext_in. intros x Hx. apply H. by apply list_elem_of_In. Qed.
Lemma filter_ext_elem {A} (f g : A -> bool) l : (forall x, x ∈ l -> f x = g x) ->
  List.filter f l = List.filter g l.
Proof. intros H. apply filter_ext_in. intros x Hx. apply H. by apply list_elem_of_In. Qed.

Lemma verify_trail_ext repr sel sel' rs : (forall r, r ∈ rs -> sel r = sel' r) ->
  verify_trail repr sel rs = verify_trail repr sel' rs.
Proof.
  intros H. assert (Ha : forall keep keep' form form',
    (forall r, r ∈ rs -> keep r = keep' r) -> (forall r, r ∈ rs -> form r = form' r) ->
    anchors keep form rs = anchors keep' form' rs).
  { intros keep keep' form form' Hk Hf. unfold anchors. rewrite (filter_ext_elem keep keep' rs Hk).
    apply sequence_ext. intros r [Hr _]%elem_of_Filter. by rewrite Hf. }
  unfold verify_trail.
  rewrite (Ha (is_prepare_anchor sel) (is_prepare_anchor sel') (prepare_anchor sel) (prepare_anchor sel')),
    (Ha (is_compensate_anchor sel) (is_compensate_anchor sel') (compensate_anchor sel) (compensate_anchor sel')).
  all: try (intros r Hr; unfold is_prepare_anchor, is_compensate_anchor, prepare_anchor, compensate_anchor;
            by rewrite (H r Hr)).
  destruct (anchors _ (prepare_anchor sel') rs) as [ps|]; [|done]. cbn [rbind].
  destruct (anchors _ (compensate_anchor sel') rs) as [cs|]; [|done]. cbn [rbind].
  rewrite (sequence_ext _ (check_receipt repr sel' ps cs) rs); [done|]. intros r Hr.
  unfold check_receipt, forward_check, compensation_check. by rewrite (H r Hr).
Qed.

Lemma consistent_fields r : version r = 4 -> verify_effect_column_marker_consistency r = true ->
  columns_textual r -> column_fields r = marker_fields r.
Proof.
  intros Hv Hc Ht. unfold verify_effect_column_marker_consistency in Hc. rewrite Hv in Hc. cbn [Z.eqb negb] in Hc.
  apply andb_true_iff in Hc as [Hc _]. apply andb_true_iff in Hc as [Hc _]. apply andb_true_iff in Hc as [Hc _].
  rewrite forallb_forall in Hc.
  assert (H : forall m c, (m, c) ∈ _EFFECT_MARKER_MAP -> textual (col c (effect r)) ->
    col c (effect r) = col m (dict_part (parameters r))).
  { intros m c Hin Hx. apply list_elem_of_In in Hin. specialize (Hc _ Hin). cbn [fst snd] in Hc.
    destruct (col c (effect r)) as [| | | |s| | | |], (col m (dict_part (parameters r))); try done.
    cbn in Hc. by apply str_eqb_spec in Hc as ->. }
  destruct Ht. unfold column_fields, marker_fields in *. cbn in *. f_equal; apply H; try done; set_solver.
Qed.

(** The two laws agree where both apply.  On receipts of version 4 whose columns equal
    the markers they mirror, the verifier of the columns and the verifier of the markers give the same
    report, or raise the same error. *)
Theorem typed_agrees_with_markers repr rs :
  (forall r, r ∈ rs -> version r = 4 /\ verify_effect_column_marker_consistency r = true /\ columns_textual r) ->
  verify_effect_trail_integrity_typed repr rs = verify_effect_trail_integrity repr rs.
Proof.
  intros H. unfold verify_effect_trail_integrity_typed, verify_effect_trail_integrity.
  rewrite (filter_ext_elem _v4 (fun _ => true) rs) by (intros r Hr; destruct (H r Hr) as [Hv _]; unfold _v4; by rewrite Hv).
  rewrite List.filter_true. apply verify_trail_ext. intros r Hr. destruct (H r Hr) as (H1 & H2 & H3).
  by apply consistent_fields.
Qed.

(** * Every call of the kernel keeps the trail *)

Section kept.
Context {U : Unicode} {E : Ed25519} {G : Engine} {D : Deployment} (anchored_at : string).

(** A receipt as read back. *)
Lemma read_trail row r : _row_to_receipt row = Ok r ->
  column_fields r = column_fields row /\ h_r r = h_r row /\ failed r = failed row /\ _v4 r = _v4 row /\
  json_loads (cell_text (parameters row)) = Some (parameters r).
Proof.
  unfold _row_to_receipt. destruct (json_loads _); [|done]. intros H. apply Ok_inj in H as <-. split_and!; try done.
  unfold _v4. cbn [version]. destruct (version row =? 0) eqn:Hv; [done|]. by rewrite Hv.
Qed.

Lemma placed_more rs rs' r : placed column_fields rs r -> (forall x, x ∈ rs -> x ∈ rs') ->
  placed column_fields rs' r.
Proof.
  intros [H|cls H1 H2 H3|cls ph ref H1 H2 H3 H4 H5 H6 (p & c & Hp & H)|H1 H2|ph ref H1 H2 H3 H4 H5 (p & Hp & H)] Hsub.
  - by apply pl_outside.
  - by apply (pl_prepare _ _ _ cls).
  - apply (pl_terminal _ _ _ cls ph ref); try done. exists p, c. split; [by apply Hsub|done].
  - by apply pl_compensate.
  - apply (pl_compensated _ _ _ ph ref); try done. exists p. split; [by apply Hsub|done].
Qed.

Lemma trail_extend rs new : trail_conformant rs ->
  (forall r, r ∈ new -> _v4 r = true -> placed column_fields (List.filter _v4 (rs ++ new)) r) ->
  trail_conformant (rs ++ new).
Proof.
  intros Hc Hn r [Hr Hv]%elem_of_Filter. apply elem_of_app in Hr as [Hr|Hr]; [|by apply Hn].
  apply (placed_more (List.filter _v4 rs)); [apply Hc; by apply elem_of_Filter|].
  intros x [Hx Hxv]%elem_of_Filter. apply elem_of_Filter. split; [apply elem_of_app; by left|done].
Qed.

(** What a row of a call is to the trail: nothing, an intent, or a terminal of an intent among
    the rows of the same call. *)
Inductive tracked (l : list Receipt) (row : Receipt) : Prop :=
| tk_none : untracked row -> tracked l row
| tk_prepare a cls : cls ∈ EXTERNAL -> phase_row a cls "prepare" false PNone row -> tracked l row
| tk_terminal a cls ph f p : cls ∈ EXTERNAL -> p ∈ l -> phase_row a cls "prepare" false PNone p ->
    ph = "commit" /\ f = false \/ ph = "abort" /\ f = true ->
    phase_row a cls ph f (PStr (h_r p)) row -> tracked l row
| tk_compensate o : comp_row o "compensate" false row -> tracked l row
| tk_compensated o ph f p : p ∈ l -> comp_row o "compensate" false p -> of_ref o <> "" ->
    t_params (of_trail o) = [("compensates_prepare_ref", PStr (of_ref o))] ->
    ph = "compensated" /\ f = false \/ ph = "compensation_failed" /\ f = true ->
    comp_row o ph f row -> tracked l row.

(** The parameters of a compensation say nothing of an erasure. *)
Lemma comp_row_erasure o ph f row r : comp_row o ph f row -> _row_to_receipt row = Ok r ->
  t_params (of_trail o) = [("compensates_prepare_ref", PStr (of_ref o))] -> claims_erasure r = false.
Proof.
  intros Hrow (_ & _ & _ & _ & Hj)%read_trail Ht. pose proof (cr_params _ _ _ _ Hrow) as Hp. rewrite Ht in Hp.
  destruct (Hp eq_refl) as (pj & Hpj & Hcell). rewrite Hcell in Hj. cbn [cell_text] in Hj.
  assert (Hok : pyval_ok (PDict [("compensates_prepare_ref", PStr (of_ref o))]) = true) by (vm_compute; reflexivity).
  rewrite (json_loads_dumps _ style_compact_ascii_wf _ _ Hok Hpj) in Hj.
  apply Some_inj' in Hj. unfold claims_erasure. by rewrite <- Hj.
Qed.

Lemma tracked_placed rs l new row r : Forall2 (fun row r => _row_to_receipt row = Ok r) l new ->
  tracked l row -> _row_to_receipt row = Ok r ->
  placed column_fields (List.filter _v4 (rs ++ new)) r.
Proof.
  intros Hnew Ht Hr. pose proof (read_trail _ _ Hr) as (Hf & Hh & Hfl & _ & _).
  assert (Hread : forall p, p ∈ l -> 4 <= version p -> exists p', p' ∈ List.filter _v4 (rs ++ new) /\
    column_fields p' = column_fields p /\ h_r p' = h_r p).
  { intros p Hp Hv. apply list_elem_of_lookup in Hp as (i & Hi).
    destruct (Forall2_lookup_l _ _ _ _ _ Hnew Hi) as (p' & Hp' & Hpr).
    apply read_trail in Hpr as (H1 & H2 & _ & H4 & _). exists p'. split_and!; [|done|done].
    apply elem_of_Filter. split; [apply elem_of_app; right; by eapply list_elem_of_lookup_2|].
    rewrite H4. unfold _v4. destruct (Z.eqb_spec (version p) 0); apply Z.leb_le; lia. }
  destruct Ht as [Hu|a cls Hext Hp|a cls ph f p Hext Hin Hp Ha Hrow|o Hrow|o ph f p Hin Hp Hne Htp Ha Hrow].
  - apply pl_outside. rewrite Hf. intros ph Hph. cbn in Hph. by rewrite Hu in Hph.
  - destruct Hp as [_ H1 H2 _ _]. apply (pl_prepare _ _ _ cls); rewrite ?Hf; done.
  - destruct (Hread p Hin) as (p' & Hp' & Hpf & Hph); [apply (rc_version _ _ _ (ph_recorded _ _ _ _ _ _ Hp))|].
    destruct Hp as [Hrec P1 P2 P3 _], Hrow as [R0 R1 R2 R3 R4].
    apply (pl_terminal _ _ _ cls ph (h_r p)); rewrite ?Hf, ?Hfl; try done.
    + by rewrite (rc_failed _ _ _ R0).
    + apply (rc_root _ _ _ Hrec).
    + exists p', cls. rewrite Hpf. split_and!; try done. cbn. rewrite P3 in R3. by apply Ok_inj in R3.
  - destruct Hrow. apply pl_compensate; rewrite ?Hf; done.
  - destruct (Hread p Hin) as (p' & Hp' & Hpf & Hph); [apply (rc_version _ _ _ (cr_recorded _ _ _ _ Hp))|].
    pose proof (comp_row_erasure _ _ _ _ _ Hrow Hr Htp) as Her.
    destruct Hp as [_ _ P1 P2 P3 P4 _], Hrow as [R0 _ R1 R2 R3 R4 _].
    apply (pl_compensated _ _ _ ph (of_ref o)); rewrite ?Hf, ?Hfl; try done.
    + rewrite (rc_failed _ _ _ R0). naive_solver.
    + exists p'. rewrite Hpf. split_and!; try done. cbn. by rewrite P4, R4.
Qed.

Lemma tracked_trail rs l new : Forall2 (fun row r => _row_to_receipt row = Ok r) l new ->
  (forall row, row ∈ l -> tracked l row) -> trail_conformant rs -> trail_conformant (rs ++ new).
Proof.
  intros Hnew Hl Hc. apply trail_extend; [done|]. intros r Hr _.
  apply list_elem_of_lookup in Hr as (i & Hi). destruct (Forall2_lookup_r _ _ _ _ _ Hnew Hi) as (row & Hrow & Hread).
  apply (tracked_placed rs l new row r Hnew); [|done]. apply Hl. by eapply list_elem_of_lookup_2.
Qed.

(** ** Calls that keep off the trail themselves *)

(** A callable whose own receipts, if it writes any, are outside every trail. *)
Definition bystanding {A} (m : M kernel A) : Prop :=
  lawful m /\ forall k l, grows k (snd (m k)) l -> Forall untracked l.
Record ordinary (a : exec_args) : Prop := {
  or_unmarked : unmarked a = true;
  or_gate : quiet_gate a;
  or_effect : forall f, x_effect a = Some f -> bystanding f;
}.

Lemma bystanding_quiet {A} (m : M kernel A) : (forall k, k_store (snd (m k)) = k_store k) -> bystanding m.
Proof.
  intros H. split; [by apply lawful_quiet|]. intros k l Hg. unfold grows, kview in Hg. rewrite H in Hg.
  assert (l = []) as ->; [|constructor]. apply (app_inv_head (rows (view (k_store k)))). by rewrite app_nil_r.
Qed.

Lemma refused_untracked e l row : refused e l -> row ∈ l -> untracked row.
Proof.
  intros [e'|e' r [_ H]|m r [_ H]]; [by intros ?%elem_of_nil|by intros ->%list_elem_of_singleton..].
Qed.

Ltac in_rows H := repeat (apply elem_of_cons in H as [->|H]);
  [..|try (apply elem_of_app in H as [H|H]); repeat (apply elem_of_cons in H as [->|H]); try by apply elem_of_nil in H].

Lemma external_value c : external_class c = true -> atomicity_value c ∈ EXTERNAL.
Proof. destruct c; try done; intros _; by apply mem_str_spec. Qed.

Lemma behaviour_tracked a r l : behaviour a r l -> ordinary a -> forall row, row ∈ l -> tracked l row.
Proof.
  intros Hb [Hu Hg He].
  assert (Hle : forall res le, ran a res le -> forall row, row ∈ le -> untracked row).
  { intros res le (f & k & Hf & _ & Hgr) row Hrow. destruct (He f Hf) as [_ H]. specialize (H _ _ Hgr).
    rewrite Forall_forall in H. by apply H. }
  destruct Hb as [e l Hr|e adm [_ Ha]|c adm le d v _ _ Hr [_ Ha] [_ Hd]|c adm ab e _ _ [_ Ha] [_ Hd]
    |adm d _ [_ Ha] [_ Hd]|adm d le v _ Hr [_ Ha] [_ Hd]|adm d le bad e e' _ Hr [_ Ha] [_ Hd] Hbad
    |c adm p le t v _ Hc Hr [_ Ha] Hp Ht|c adm p le t e _ Hc Hr _ [_ Ha] Hp Ht|c adm p le e res _ Hc Hr [_ Ha] Hp];
    intros row Hrow; try (apply external_value in Hc).
  - apply tk_none. by apply (refused_untracked e l).
  - in_rows Hrow; by apply tk_none.
  - in_rows Hrow; apply tk_none; auto. by apply (Hle _ _ Hr).
  - in_rows Hrow; by apply tk_none.
  - in_rows Hrow; apply tk_none; auto.
  - in_rows Hrow; apply tk_none; auto. by apply (Hle _ _ Hr).
  - apply elem_of_cons in Hrow as [->|[->|[Hrow|Hrow]%elem_of_app]%elem_of_cons]; apply tk_none; auto;
      [by apply (Hle _ _ Hr)|]. destruct Hbad as [->|(_ & b & -> & _ & Hb)]; [by apply elem_of_nil in Hrow|].
    apply list_elem_of_singleton in Hrow as ->. auto.
  - apply elem_of_cons in Hrow as [->|[->|[Hrow|Hrow%list_elem_of_singleton]%elem_of_app]%elem_of_cons].
    + by apply tk_none.
    + by apply (tk_prepare _ _ a (atomicity_value c)).
    + apply tk_none. by apply (Hle _ _ Hr).
    + subst. apply (tk_terminal _ _ a (atomicity_value c) "commit" false p); [done|set_solver|auto..].
  - apply elem_of_cons in Hrow as [->|[->|[Hrow|Hrow%list_elem_of_singleton]%elem_of_app]%elem_of_cons].
    + by apply tk_none.
    + by apply (tk_prepare _ _ a (atomicity_value c)).
    + apply tk_none. by apply (Hle _ _ Hr).
    + subst. apply (tk_terminal _ _ a (atomicity_value c) "abort" true p); [done|set_solver|auto..].
  - apply elem_of_cons in Hrow as [->|[->|Hrow]%elem_of_cons].
    + by apply tk_none.
    + by apply (tk_prepare _ _ a (atomicity_value c)).
    + apply tk_none. by apply (Hle _ _ Hr).
Qed.

Lemma offset_tracked o r l k : offset_post o r l k -> bystanding (of_effect o) -> of_ref o <> "" ->
  t_params (of_trail o) = [("compensates_prepare_ref", PStr (of_ref o))] ->
  forall row, row ∈ l -> tracked l row.
Proof.
  intros [(e & _ & ->)|(p & le & k1 & Hp & Hle & H)] [_ Hby] Hne Ht row Hrow; [by apply elem_of_nil in Hrow|].
  specialize (Hby _ _ Hle). rewrite Forall_forall in Hby.
  assert (Hpl : forall l', p ∈ p :: l') by (intros; by left).
  destruct H as [(v & t & _ & _ & -> & Hrow')|[(e & t & _ & _ & _ & -> & Hrow')|(e & _ & -> & _)]].
  - apply elem_of_cons in Hrow as [->|[Hrow|Hrow%list_elem_of_singleton]%elem_of_app];
      [by apply (tk_compensate _ _ o)|apply tk_none; by apply Hby|subst].
    by apply (tk_compensated _ _ o "compensated" false p); auto.
  - apply elem_of_cons in Hrow as [->|[Hrow|Hrow%list_elem_of_singleton]%elem_of_app];
      [by apply (tk_compensate _ _ o)|apply tk_none; by apply Hby|subst].
    by apply (tk_compensated _ _ o "compensation_failed" true p); auto.
  - apply elem_of_cons in Hrow as [->|Hrow]; [by apply (tk_compensate _ _ o)|apply tk_none; by apply Hby].
Qed.

(** ** Sequences of calls *)

(** One call that can move the trail: an execution or a compensation, whatever it answers. *)
Inductive governed : kernel -> kernel -> Prop :=
| gv_execute a k : ordinary a -> governed k (snd (execute a k))
| gv_compensate a k : (forall f, cp_effect a = Some f -> bystanding f) ->
    governed k (snd (compensate_external_reversible a k)).

Lemma governed_rows k k' : governed k k' -> calm anchored_at k ->
  calm anchored_at k' /\ exists l, grows k k' l /\ forall row, row ∈ l -> tracked l row.
Proof.
  intros [a k0 Ha|a k0 He] Hc.
  - pose proof Ha as [_ Hq He].
    destruct (leads_execute anchored_at a k0) with (3 := Hc) as (l & Hc' & Hg & lg & l' & -> & Hlg & Hb).
    { intros g Hx. by apply lawful_quiet, (Hq g). }
    { intros f Hf. by apply He. }
    rewrite (Hlg Hq) in Hg. split; [done|]. exists l'. split; [done|]. by apply (behaviour_tracked a _ _ Hb).
  - unfold compensate_external_reversible. rewrite slift_bind.
    destruct (compensation_target a _) as [o|e] eqn:Ho.
    2:{ split; [done|]. exists []. split; [apply grows_refl|]. by intros ? ?%elem_of_nil. }
    assert (Hfacts : cp_effect a = Some (of_effect o) /\ of_ref o <> "" /\
      t_params (of_trail o) = [("compensates_prepare_ref", PStr (of_ref o))]).
    { unfold compensation_target in Ho. do 2 apply rbind_ok in Ho as (? & _ & Ho).
      apply rbind_ok in Ho as (ref & Href & Ho). apply rbind_ok in Ho as (f & Hf & Ho).
      apply rbind_ok in Ho as (rs & _ & Ho).
      destruct (Reversible.find_committed_forward rs _) as [[fo fk]|]; [|done].
      destruct (pyval_eqb _ fk); [done|]. apply Ok_inj in Ho. subst o. cbn. split_and!; [|..|done].
      - destruct (cp_effect a); [|done]. by apply Ok_inj in Hf as ->.
      - unfold Reconcile.nonempty in Href. destruct (cp_ref a); try done.
        destruct (str_eqb s "") eqn:Hs; [done|]. apply Ok_inj in Href as <-. by apply str_eqb_false. }
    destruct Hfacts as (Hf & Hne & Hps). pose proof (He _ Hf) as Hby.
    destruct (leads_compensation_arc anchored_at o k0 (proj1 Hby) Hc) as (l & Hc' & Hg & Hq).
    split; [done|]. exists l. split; [done|]. by apply (offset_tracked o _ l _ Hq).
Qed.

Lemma sequence_app_ok {A B} (l k : list (result A B)) x : sequence (l ++ k) = Ok x ->
  exists y, sequence l = Ok y.
Proof.
  revert x. induction l as [|r l IH]; intros x; [by exists []|]. cbn [app sequence].
  intros (a & -> & H)%rbind_ok. apply rbind_ok in H as (b & Hb & _).
  destruct (IH b Hb) as (y & ->). cbn [rbind]. by eexists.
Qed.

(** A run starts from a prefix of the receipts it ends with. *)
Lemma governed_run k k' : rtc governed k k' -> calm anchored_at k ->
  calm anchored_at k' /\ forall rs', all_receipts (kview k') = Ok rs' ->
    exists rs new, all_receipts (kview k) = Ok rs /\ rs' = rs ++ new /\
      (trail_conformant rs -> trail_conformant rs').
Proof.
  induction 1 as [k|k k1 k' Hstep _ IH]; intros Hc.
  { split; [done|]. intros rs' H. exists rs', []. by rewrite app_nil_r. }
  destruct (governed_rows k k1 Hstep Hc) as (Hc1 & l & Hg & Hl). destruct (IH Hc1) as [Hc' Hrun].
  split; [done|]. intros rs' Hrs'. destruct (Hrun rs' Hrs') as (rs1 & new1 & Hrs1 & -> & Hkeep1).
  assert (exists rs, all_receipts (kview k) = Ok rs) as [rs Hrs].
  { unfold all_receipts in *. unfold grows in Hg. rewrite Hg, map_app in Hrs1.
    apply sequence_app_ok in Hrs1 as (y & Hy). by exists y. }
  destruct (receipts_split _ _ _ _ _ Hg Hrs Hrs1) as (new & -> & Hnew).
  exists rs, (new ++ new1). split; [done|]. rewrite app_assoc. split; [done|].
  intros H. by apply Hkeep1, (tracked_trail rs l new).
Qed.

(** C9: the kernel keeps EFFECT-S-02.  Take any sequence of executions and compensations, of any
    class, admitted, refused, failed or left in doubt, that starts from a kernel at rest, with gates that only
    read, effects that write no effect receipts of their own, and parameters that spell no effect class.
    If the verifier reports nothing on the receipts before it, it reports nothing on those after it. *)
Theorem runs_keep_the_trail repr k k' rs rs' : rtc governed k k' -> calm anchored_at k ->
  all_receipts (kview k) = Ok rs -> all_receipts (kview k') = Ok rs' ->
  (forall r, r ∈ rs' -> columns_textual r) ->
  verify_effect_trail_integrity_typed repr rs = Ok [] ->
  verify_effect_trail_integrity_typed repr rs' = Ok [].
Proof.
  intros Hrun Hc Hrs Hrs' Ht Hv. destruct (governed_run k k' Hrun Hc) as [_ H].
  destruct (H rs' Hrs') as (rs0 & new & Hrs0 & -> & Hkeep). rewrite Hrs in Hrs0. apply Ok_inj in Hrs0 as <-.
  destruct (typed_spec repr rs) as (vs & Hvs & Hiff); [intros r Hr; apply Ht, elem_of_app; by left|].
  rewrite Hv in Hvs. apply Ok_inj in Hvs as <-.
  destruct (typed_spec repr (rs ++ new) Ht) as (vs' & -> & Hiff'). f_equal. by apply Hiff', Hkeep, Hiff.
Qed.
End kept.

(** * Examples *)

Definition no_repr (v : pyval) : string := "".
Definition textual_rows (rs : list Receipt) : bool :=
  forallb (fun r => forallb (fun v => match v with PNone | PStr _ => true | _ => false end)
    (let f := column_fields r in [f_class f; f_phase f; f_key f; f_prepare_ref f; f_compensate_ref f; f_compensation_key f])) rs.
Lemma textual_rows_ok rs : textual_rows rs = true -> forall r, r ∈ rs -> columns_textual r.
Proof.
  unfold textual_rows. rewrite forallb_forall. intros H r Hr. apply list_elem_of_In, H in Hr.
  cbn [forallb] in Hr. cbv zeta in Hr. cbn [forallb] in Hr. rewrite !andb_true_iff in Hr.
  destruct Hr as (H1 & H2 & H3 & H4 & H5 & H6 & _).
  split; unfold textual; cbn [column_fields f_class f_phase f_key f_prepare_ref f_compensate_ref f_compensation_key] in *;
    match goal with |- match ?v with _ => _ end => by destruct v end.
Qed.

Lemma trail_integrity_exact_witness : exists vs,
  verify_effect_trail_integrity_typed no_repr refunded_rows = Ok vs /\ (vs = [] <-> trail_conformant refunded_rows).
Proof. apply (trail_integrity_exact no_repr refunded_rows), textual_rows_ok. vm_compute. reflexivity. Defined.

(** A charge that is committed, then refunded. *)
Lemma charge_ordinary : ordinary demo_charge.
Proof.
  split; [reflexivity|intros g Hg; discriminate Hg|]. intros f Hf. apply Some_inj' in Hf. subst f. by apply bystanding_quiet.
Qed.
Lemma charge_run : snd (demo_execute demo_charge (demo_kernel [])) = charged.
Proof. vm_compute. reflexivity. Qed.
Lemma runs_keep_the_trail_witness :
  verify_effect_trail_integrity_typed no_repr refunded_rows = Ok [] /\ length refunded_rows = 5%nat.
Proof.
  split; [|vm_compute; reflexivity].
  apply (@runs_keep_the_trail nfc_id ed_demo demo_engine demo_deployment GENESIS no_repr
    (demo_kernel []) (snd refunded) [] refunded_rows).
  - apply (rtc_l _ _ charged).
    + rewrite <- charge_run. exact (gv_execute demo_charge (demo_kernel []) charge_ordinary).
    + rewrite <- demo_refund_run. apply rtc_once, gv_compensate. intros f Hf. apply Some_inj' in Hf. subst f.
      by apply bystanding_quiet.
  - exact demo_calm.
  - reflexivity.
  - exact refunded_read.
  - apply textual_rows_ok. vm_compute. reflexivity.
  - reflexivity.
Defined.

(** The receipts of version 4 mirrored the columns as markers in their parameters. *)
Definition mirrored (r : Receipt) : Receipt :=
  {| op := op r; authority := authority r;
     parameters := PDict (map (fun mc => (fst mc, col (snd mc) (effect r))) _EFFECT_MARKER_MAP);
     intent := intent r; jurisdiction := jurisdiction r; confidence := confidence r; timestamp := timestamp r;
     failed := failed r; session_dkn := session_dkn r; law_hash := law_hash r;
     legend_hash := legend_hash r; warrant_id := warrant_id r; intent_ref := intent_ref r;
     receipt_id := receipt_id r; h_s := h_s r; h_c := h_c r; h_m := h_m r; h_j := h_j r;
     h_r := h_r r; parent_h_r := parent_h_r r; mode := mode r; version := 4;
     id_c_s := id_c_s r; id_c_c := id_c_c r; id_c_m := id_c_m r; id_c_j := id_c_j r;
     h_body := h_body r; terminal := terminal r;
     Receipt.trace_vector_hash := Receipt.trace_vector_hash r; capability := capability r;
     effect := effect r; reconciliation := reconciliation r; continuation := continuation r;
     bridge := bridge r |}.
Definition legacy_rows : list Receipt := Eval vm_compute in map mirrored refunded_rows.
Lemma typed_agrees_with_markers_witness :
  verify_effect_trail_integrity_typed no_repr legacy_rows = verify_effect_trail_integrity no_repr legacy_rows /\
  length legacy_rows = 5%nat.
Proof.
  split; [|reflexivity]. apply (typed_agrees_with_markers no_repr legacy_rows).
  assert (H : forallb (fun r => (version r =? 4) && verify_effect_column_marker_consistency r) legacy_rows = true)
    by (vm_compute; reflexivity).
  assert (Ht : textual_rows legacy_rows = true) by (vm_compute; reflexivity).
  intros r Hr. split; [|split]; [..|by apply (textual_rows_ok _ Ht)];
    rewrite forallb_forall in H; apply list_elem_of_In, H, andb_true_iff in Hr as [H1 H2]; [by apply Z.eqb_eq|done].
Defined.

(** A plain call whose parameters spell a terminal writes one without an intent: the trail of the
    store is no longer conformant. *)
Lemma marked_parameters_break_trail :
  match verify_effect_trail_integrity_typed no_repr (read_rows (snd (demo_execute forged_terminal (demo_kernel [])))) with
  | Ok vs => map (fun v => firstn 2 v) vs = [["forward-terminal-without-anchor"; "commit"]]
  | Err _ => False
  end.
Proof. vm_compute. reflexivity. Qed.
