(* ===== verification/Founding.v ===== *)
(** The founding of a deployment: its manifest ([ugk/charter.py]), the governor's key and
    seal ([ugk/governance/governor.py]), and the part of [ugk/kernel.py] that founds a
    kernel on the files of the genesis directory: identity, ceremony, finality, read-only
    hydration. *)
From S2P Require Import Prelude Json Sha256 Binding BindingM2 Frame Authority Receipt Trace Capability Sqlite Integrity Archives Store StoreFacts StoreTxn Will Warrant Effects EffectsIrr EffectsRev Csh Kernel KernelFacts.

(** ** The deployment manifest *)

Record DeploymentManifest := {
  manifest_hash : string;
  dm_governor_pubkey : string;
  dm_phase_code : string;
  dm_jurisdiction : string;
  dm_authority_model : string;
  dm_amendment_model : string;
  dm_mosaic_root : string;
  dm_dimension_id : string;
  dm_timestamp : string;
}.
Definition manifest_body (amendment model dim pub juris root phase ts : string) : cols :=
  [("amendment_model", PStr amendment); ("authority_model", PStr model);
   ("dimension_id", PStr dim); ("governor_pubkey", PStr pub); ("jurisdiction", PStr juris);
   ("mosaic_root", PStr root); ("phase_code", PStr phase); ("timestamp", PStr ts)].
Definition manifest_create (now pub phase juris model amendment : string)
    (timestamp : option string) : result exn DeploymentManifest :=
  let ts := match timestamp with Some t => or_default t now | None => now end in
  let* root := mosaic_id pub DEFAULT_ALGORITHM_ID in
  let* dim := canonical_dkn phase pub DEFAULT_ALGORITHM_ID in
  let* b := Binding.canonical_json (PDict (manifest_body amendment model dim pub juris root phase ts)) in
  Ok {| manifest_hash := sha256_hex b; dm_governor_pubkey := pub; dm_phase_code := phase;
        dm_jurisdiction := juris; dm_authority_model := model; dm_amendment_model := amendment;
        dm_mosaic_root := root; dm_dimension_id := dim; dm_timestamp := ts |}.
Definition body_of_manifest (m : DeploymentManifest) : cols :=
  manifest_body (dm_amendment_model m) (dm_authority_model m) (dm_dimension_id m)
    (dm_governor_pubkey m) (dm_jurisdiction m) (dm_mosaic_root m) (dm_phase_code m) (dm_timestamp m).
Definition manifest_verify_hash (m : DeploymentManifest) : result exn bool :=
  let* b := Binding.canonical_json (PDict (body_of_manifest m)) in
  Ok (str_eqb (sha256_hex b) (manifest_hash m)).
Definition verify_derived_fields (m : DeploymentManifest) : result exn bool :=
  let* root := mosaic_id (dm_governor_pubkey m) DEFAULT_ALGORITHM_ID in
  if negb (str_eqb root (dm_mosaic_root m)) then Ok false else
  let* dim := canonical_dkn (dm_phase_code m) (dm_governor_pubkey m) DEFAULT_ALGORITHM_ID in
  Ok (str_eqb dim (dm_dimension_id m)).
Definition to_dict (m : DeploymentManifest) : pyval :=
  PDict (body_of_manifest m ++ [("manifest_hash", PStr (manifest_hash m))]).

(** ** The genesis directory *)

(** A JSON file: not there, not readable as JSON, or its value. *)
Inductive artifact := Absent | Unreadable | Parsed (v : pyval).
Definition exists_ (a : artifact) : bool := match a with Absent => false | _ => true end.

(** The directory itself: there, missing, or missing with its parent. *)
Inductive directory := There | Missing | ParentMissing.

Record genesis := {
  gn_dir : directory;
  gn_pub : option string;          (** GENESIS_KEY.pub *)
  gn_priv : option string;         (** GENESIS_PRIVKEY.hex *)
  gn_manifest : artifact;          (** DEPLOYMENT_MANIFEST.json *)
  gn_seal : artifact;              (** GENESIS_SEAL.json *)
  gn_validators : artifact;        (** VALIDATOR_SET.json *)
  gn_ic : artifact;                (** LAUNCH_IC.json *)
  gn_law : option string;          (** the bytes of invariants.py *)
}.
Definition write_charter (pub : string) (m : pyval) (n : genesis) : genesis :=
  {| gn_dir := There; gn_pub := Some pub; gn_priv := gn_priv n; gn_manifest := Parsed m; gn_seal := gn_seal n;
     gn_validators := gn_validators n; gn_ic := gn_ic n; gn_law := gn_law n |}.
Definition write_validators (v : pyval) (n : genesis) : genesis :=
  {| gn_dir := gn_dir n; gn_pub := gn_pub n; gn_priv := gn_priv n; gn_manifest := gn_manifest n; gn_seal := gn_seal n;
     gn_validators := Parsed v; gn_ic := gn_ic n; gn_law := gn_law n |}.
Definition write_ic (v : pyval) (n : genesis) : genesis :=
  {| gn_dir := gn_dir n; gn_pub := gn_pub n; gn_priv := gn_priv n; gn_manifest := gn_manifest n; gn_seal := gn_seal n;
     gn_validators := gn_validators n; gn_ic := Parsed v; gn_law := gn_law n |}.
Definition with_dir (d : directory) (n : genesis) : genesis :=
  {| gn_dir := d; gn_pub := gn_pub n; gn_priv := gn_priv n; gn_manifest := gn_manifest n; gn_seal := gn_seal n;
     gn_validators := gn_validators n; gn_ic := gn_ic n; gn_law := gn_law n |}.

(** A text field of a parsed object; a value of another type is not text. *)
Definition text_field (k : string) (d : cols) : option string :=
  match dict_get k d with Some (PStr s) => Some s | _ => None end.

(** [DeploymentManifest.load]: [DeploymentManifest] applied to exactly its fields. *)
Definition manifest_fields : list string :=
  ["manifest_hash"; "governor_pubkey"; "phase_code"; "jurisdiction"; "authority_model";
   "amendment_model"; "mosaic_root"; "dimension_id"; "timestamp"].
Definition same_keys (ks : list string) (d : cols) : bool :=
  forallb (fun k => mem_str k (map fst d)) ks && forallb (fun k => mem_str k ks) (map fst d).
Definition manifest_load (n : genesis) : option DeploymentManifest :=
  match gn_manifest n with
  | Parsed (PDict d) =>
      if negb (same_keys manifest_fields d) then None else
      let? mh := text_field "manifest_hash" d in let? pub := text_field "governor_pubkey" d in
      let? ph := text_field "phase_code" d in let? ju := text_field "jurisdiction" d in
      let? am := text_field "authority_model" d in let? an := text_field "amendment_model" d in
      let? mr := text_field "mosaic_root" d in let? di := text_field "dimension_id" d in
      let? ts := text_field "timestamp" d in
      Some {| manifest_hash := mh; dm_governor_pubkey := pub; dm_phase_code := ph;
              dm_jurisdiction := ju; dm_authority_model := am; dm_amendment_model := an;
              dm_mosaic_root := mr; dm_dimension_id := di; dm_timestamp := ts |}
  | _ => None
  end.

Definition newline : string := String "010" "".
Definition write_charter_artifacts (m : DeploymentManifest) (force : bool) (n : genesis) :
    result exn genesis :=
  if negb force && (bool_decide (is_Some (gn_pub n)) || exists_ (gn_manifest n))
  then Err (Exn OtherError "FileExistsError")
  else Ok (write_charter (dm_governor_pubkey m +:+ newline) (to_dict m) n).

(** [_load_governor_identity], run when the module is imported; a phase code that is not
    text is kept as it is by the code, and is no phase here. *)
Definition _load_governor_identity (n : genesis) : string * string :=
  (match gn_pub n with Some s => strip s | None => "GOVERNOR_KEY_UNSET__RUN_UGK_CHARTER" end,
   match gn_manifest n with
   | Parsed (PDict d) => match text_field "phase_code" d with Some s => s | None => "ugk-substrate" end
   | _ => "ugk-substrate"
   end).

(** ** The governor *)

(** The length in characters is the length in bytes for what [fromhex] accepts. *)
Definition governor_key_status (n : genesis) (pubkey_hex : string) : string :=
  if unset_key pubkey_hex then "unset"
  else if negb (String.length pubkey_hex =? 64)%nat then "unset"
  else if negb (bool_decide (is_Some (fromhex pubkey_hex))) then "unset"
  else match gn_seal n with
       | Parsed (PDict d) =>
           if pyval_eqb (col "key_status" d) (PStr "ceremony_complete")
           then "ceremony_complete" else "dev_temp"
       | _ => "dev_temp"
       end.

Definition load_genesis_seal (n : genesis) : option pyval :=
  match gn_seal n with Parsed PNone => None | Parsed v => Some v | _ => None end.

Section governor.
Context {E : Ed25519} {D : Deployment}.

Definition sign_as_governor (privkey_hex message : string) : string := ed_sign message privkey_hex.

(** Every exception means False. *)
Definition validate_genesis_seal (seal_data : pyval) (expected_pubkey : string) : bool :=
  match seal_data with
  | PDict d =>
      match dict_get "seal" d, dict_get "signature" d with
      | Some (PDict body), Some sg =>
          match dict_get "governor_pubkey" body with
          | Some pk =>
              pyval_eqb pk (PStr expected_pubkey)
              && match Binding.canonical_json (PDict body), sg with
                 | Ok msg, PStr s => verify_governor expected_pubkey msg s
                 | _, _ => false
                 end
              && pyval_eqb (col "phase_code" body) (PStr _PHASE_CODE)
          | None => false
          end
      | _, _ => false
      end
  | _ => false
  end.
End governor.

(** ** The governance kernel with its founding state *)

(** What [execute] neither reads nor writes: the finality state, the genesis directory
    and the summary of the last session. *)
Record csh_state := {
  _launch_ic : option InceptionCertificate;
  _validator_set : option ValidatorSet;
  _csh_finality_hash : string;
  _csh_quorum_achieved : bool;
  _rotation_rule : option RotationRule;
}.
Record governance := {
  gk : kernel;
  gcsh : csh_state;
  ggen : genesis;
}.
Definition set_gk (k : kernel) (g : governance) : governance :=
  {| gk := k; gcsh := gcsh g; ggen := ggen g |}.
Definition set_csh (c : csh_state) (g : governance) : governance :=
  {| gk := gk g; gcsh := c; ggen := ggen g |}.
Definition set_gen (n : genesis) (g : governance) : governance :=
  {| gk := gk g; gcsh := gcsh g; ggen := n |}.
Definition on_kernel {A} (m : M kernel A) : M governance A := fun g =>
  let '(r, k) := m (gk g) in (r, set_gk k g).

Definition with_frame (f : kframe) (k : kernel) : kernel :=
  {| k_store := k_store k; k_authority := k_authority k; k_status := k_status k; k_frame := f;
     k_session := k_session k; k_refused := k_refused k; k_config := k_config k;
     k_warrants := k_warrants k; k_wills := k_wills k |}.
Definition with_status (st : status) (k : kernel) : kernel :=
  {| k_store := k_store k; k_authority := k_authority k; k_status := st; k_frame := k_frame k;
     k_session := k_session k; k_refused := k_refused k; k_config := k_config k;
     k_warrants := k_warrants k; k_wills := k_wills k |}.

(** *** The artifacts as JSON *)

Definition key_error {A} (o : option A) : result exn A :=
  match o with Some a => Ok a | None => Err (Exn KeyError "") end.
(** [json.loads(path.read_text())] *)
Definition loads (a : artifact) : result exn pyval :=
  match a with Parsed v => Ok v | _ => Err (Exn ValueError "JSONDecodeError") end.
Definition fields (v : pyval) : result exn cols :=
  match v with PDict d => Ok d | _ => Err (Exn TypeError "") end.
Definition text_list (v : pyval) : option (list string) :=
  match v with
  | PList l => option_map (@rev string) (foldl (fun acc x => match acc, x with
                 | Some l, PStr s => Some (s :: l) | _, _ => None end) (Some []) l)
  | _ => None
  end.
Definition int_field (k : string) (d : cols) : option Z :=
  match dict_get k d with Some (PInt z) => Some z | _ => None end.
Definition bool_field (k : string) (d : cols) : option bool :=
  match dict_get k d with Some (PBool b) => Some b | _ => None end.

Definition validators_json (v : ValidatorSet) : pyval := PDict
  [("n_validators", PInt (n_validators v)); ("seal_signature", PStr (seal_signature v));
   ("sealed_by", PStr (sealed_by v)); ("sealed_hash", PStr (sealed_hash v));
   ("sealer_pubkey", PStr (sealer_pubkey v)); ("validators", PList (map PStr (validators v)))].
(** A field of another type than the declared one counts as missing. *)
Definition validators_of_json (v : pyval) : result exn ValidatorSet :=
  let* d := fields v in
  let* vs := key_error (let? x := dict_get "validators" d in text_list x) in
  let* n := key_error (int_field "n_validators" d) in
  let* by_ := key_error (text_field "sealed_by" d) in
  let* h := key_error (text_field "sealed_hash" d) in
  let* sg := key_error (text_field "seal_signature" d) in
  let* pk := key_error (text_field "sealer_pubkey" d) in
  Ok {| validators := vs; n_validators := n; sealed_by := by_; sealed_hash := h;
        seal_signature := sg; sealer_pubkey := pk |}.

Definition ic_json (c : InceptionCertificate) : pyval := PDict
  [("constitutional_hash", PStr (ic_constitutional_hash c));
   ("dimension_id", PStr (ic_dimension_id c)); ("governor_pubkey", PStr (governor_pubkey c));
   ("ic_type", PStr (ic_type c)); ("mosaic_root", PStr (ic_mosaic_root c));
   ("n_validators", PInt (ic_n_validators c)); ("phase_code", PStr (ic_phase_code c));
   ("signature", PStr (ic_signature c)); ("sunset_declared", PBool (sunset_declared c));
   ("timestamp", PStr (ic_timestamp c)); ("validator_set_hash", PStr (validator_set_hash c))].
Definition ic_fields : list string :=
  ["constitutional_hash"; "dimension_id"; "governor_pubkey"; "ic_type"; "mosaic_root";
   "n_validators"; "phase_code"; "signature"; "sunset_declared"; "timestamp"; "validator_set_hash"].
(** [InceptionCertificate] applied to exactly its fields. *)
Definition ic_of_json (v : pyval) : result exn InceptionCertificate :=
  let* d := fields v in
  if negb (same_keys ic_fields d) then Err (Exn TypeError "") else
  let* h := key_error (text_field "constitutional_hash" d) in
  let* di := key_error (text_field "dimension_id" d) in
  let* pk := key_error (text_field "governor_pubkey" d) in
  let* ty := key_error (text_field "ic_type" d) in
  let* mr := key_error (text_field "mosaic_root" d) in
  let* n := key_error (int_field "n_validators" d) in
  let* ph := key_error (text_field "phase_code" d) in
  let* sg := key_error (text_field "signature" d) in
  let* su := key_error (bool_field "sunset_declared" d) in
  let* ts := key_error (text_field "timestamp" d) in
  let* vh := key_error (text_field "validator_set_hash" d) in
  Ok {| ic_type := ty; ic_phase_code := ph; ic_constitutional_hash := h; ic_mosaic_root := mr;
        ic_dimension_id := di; ic_n_validators := n; validator_set_hash := vh;
        sunset_declared := su; ic_timestamp := ts; ic_signature := sg; governor_pubkey := pk |}.

Section founding.
Context {U : Unicode} {E : Ed25519} {G : Engine} {D : Deployment}.

(** *** [_activate_csh] *)

Definition CSH_TS := "2026-06-09T08:30:00Z".

Definition set_quorum (b : bool) (c : csh_state) : csh_state :=
  {| _launch_ic := _launch_ic c; _validator_set := _validator_set c;
     _csh_finality_hash := _csh_finality_hash c; _csh_quorum_achieved := b;
     _rotation_rule := _rotation_rule c |}.
Definition set_validator_set (v : ValidatorSet) (c : csh_state) : csh_state :=
  {| _launch_ic := _launch_ic c; _validator_set := Some v;
     _csh_finality_hash := _csh_finality_hash c; _csh_quorum_achieved := _csh_quorum_achieved c;
     _rotation_rule := _rotation_rule c |}.
Definition set_ic (i : InceptionCertificate) (c : csh_state) : csh_state :=
  {| _launch_ic := Some i; _validator_set := _validator_set c;
     _csh_finality_hash := _csh_finality_hash c; _csh_quorum_achieved := _csh_quorum_achieved c;
     _rotation_rule := _rotation_rule c |}.
Definition set_finality (m : MCIR) (c : csh_state) : csh_state :=
  {| _launch_ic := _launch_ic c; _validator_set := _validator_set c;
     _csh_finality_hash := finality_hash m; _csh_quorum_achieved := quorum_achieved m;
     _rotation_rule := _rotation_rule c |}.
Definition set_rotation (r : RotationRule) (c : csh_state) : csh_state :=
  {| _launch_ic := _launch_ic c; _validator_set := _validator_set c;
     _csh_finality_hash := _csh_finality_hash c; _csh_quorum_achieved := _csh_quorum_achieved c;
     _rotation_rule := Some r |}.
Definition mod_csh (f : csh_state -> csh_state) : M governance unit :=
  smod (fun g => set_csh (f (gcsh g)) g).

Definition load_or_seal_validators (priv pub : string) : M governance ValidatorSet := fun g =>
  if exists_ (gn_validators (ggen g))
  then (let* j := loads (gn_validators (ggen g)) in validators_of_json j, g)
  else match seal_validator_set priv pub [k_mosaic_root (k_frame (gk g))] with
       | Ok v => (Ok v, set_gen (write_validators (validators_json v) (ggen g)) g)
       | Err e => (Err e, g)
       end.
Definition load_or_mint_ic (priv pub vs_hash : string) : M governance InceptionCertificate := fun g =>
  if exists_ (gn_ic (ggen g)) then (let* j := loads (gn_ic (ggen g)) in ic_of_json j, g)
  else let f := k_frame (gk g) in
       match create_launch_ic priv pub (k_law_hash f) (k_dimension_id f) _PHASE_CODE vs_hash 1 CSH_TS with
       | Ok i => (Ok i, set_gen (write_ic (ic_json i) (ggen g)) g)
       | Err e => (Err e, g)
       end.

(** [genesis_dir.mkdir(exist_ok=True)], whether or not the activation is read-only. *)
Definition make_dir : M governance unit := fun g =>
  match gn_dir (ggen g) with
  | ParentMissing => (Err (Exn OtherError "FileNotFoundError"), g)
  | _ => (Ok tt, set_gen (with_dir There (ggen g)) g)
  end.
Definition load_csh (read_only : bool) : M governance unit := fun g =>
  match gn_priv (ggen g), gn_pub (ggen g) with
  | Some priv_text, Some pub_text =>
      if read_only && negb (exists_ (gn_validators (ggen g)) && exists_ (gn_ic (ggen g)))
      then mod_csh (set_quorum false) g
      else
        let priv := strip priv_text in
        let pub := strip pub_text in
        let f := k_frame (gk g) in
        (let! vs := load_or_seal_validators priv pub in
         let! _ := mod_csh (set_validator_set vs) in
         let! ic := load_or_mint_ic priv pub (sealed_hash vs) in
         let! _ := mod_csh (set_ic ic) in
         let! att := slift (create_attestation priv pub (k_law_hash f) _PHASE_CODE 0 CSH_TS) in
         let! m := slift (achieve_finality [att] vs (k_law_hash f)) in
         let! _ := mod_csh (set_finality m) in
         let! h := slift (ic_hash ic) in
         mod_csh (set_rotation (declare_rotation_rule (k_mosaic_root f) [k_mosaic_root f] h CSH_TS))) g
  | _, _ => mod_csh (set_quorum false) g
  end.
Definition _activate_csh (read_only : bool) : M governance unit :=
  let! _ := make_dir in load_csh read_only.

(** *** [_ceremony] and [hydrate_readonly] *)

Definition law_hash_of (n : genesis) : string :=
  sha256_hex (match gn_law n with Some s => s | None => "# placeholder" end).

(** The seal on disk, or the one given; with only one half of it, nothing is checked. *)
Definition seal_check (seal : option pyval) (signature_hex : option string) (n : genesis) :
    result exn unit :=
  match seal, signature_hex with
  | None, None =>
      match load_genesis_seal n with
      | None => Ok tt
      | Some v => if validate_genesis_seal v GOVERNOR_PUBKEY_HEX then Ok tt
                  else Err (Exn ValueError "genesis seal on disk failed validation")
      end
  | Some s, Some sg =>
      if validate_genesis_seal (PDict [("seal", s); ("signature", PStr sg)]) GOVERNOR_PUBKEY_HEX
      then Ok tt
      else Err (Exn ValueError "provided genesis seal failed Ed25519 validation")
  | _, _ => Ok tt
  end.

(** The frame hashes; the legend comes last. *)
Definition set_law (h : string) (f : kframe) : kframe :=
  {| k_law_hash := h; k_legend_hash := k_legend_hash f; k_mosaic_root := k_mosaic_root f;
     k_dimension_id := k_dimension_id f; k_manifest_hash := k_manifest_hash f |}.
Definition set_root (h : string) (f : kframe) : kframe :=
  {| k_law_hash := k_law_hash f; k_legend_hash := k_legend_hash f; k_mosaic_root := h;
     k_dimension_id := k_dimension_id f; k_manifest_hash := k_manifest_hash f |}.
Definition set_dimension (h mh : string) (f : kframe) : kframe :=
  {| k_law_hash := k_law_hash f; k_legend_hash := k_legend_hash f; k_mosaic_root := k_mosaic_root f;
     k_dimension_id := h; k_manifest_hash := mh |}.
Definition set_legend (h : string) (f : kframe) : kframe :=
  {| k_law_hash := k_law_hash f; k_legend_hash := h; k_mosaic_root := k_mosaic_root f;
     k_dimension_id := k_dimension_id f; k_manifest_hash := k_manifest_hash f |}.
Definition mod_frame (f : kframe -> kframe) : M governance unit :=
  smod (fun g => set_gk (with_frame (f (k_frame (gk g))) (gk g)) g).

Definition load_frame : M governance unit := fun g =>
  (let! _ := mod_frame (set_law (law_hash_of (ggen g))) in
   let! root := slift (mosaic_id GOVERNOR_PUBKEY_HEX DEFAULT_ALGORITHM_ID) in
   let! _ := mod_frame (set_root root) in
   let! dim := slift (canonical_dkn _PHASE_CODE GOVERNOR_PUBKEY_HEX DEFAULT_ALGORITHM_ID) in
   let mh := match manifest_load (ggen g) with Some m => manifest_hash m | None => "" end in
   let! _ := mod_frame (set_dimension dim mh) in
   let! legend := slift LEGEND_HASH in
   mod_frame (set_legend legend)) g.

(** The legend archived and its receipt. *)
Definition seal_legend_receipt (now : string) : M governance unit :=
  let! legend := slift LEGEND_HASH in
  let! entries := slift _legend_canonical in
  let! _ := on_kernel (on_store (seal_legend {| lr_hash := legend; entries_json := entries;
              Store.phase_code := _PHASE_CODE; entry_count := LEGEND_ENTRY_COUNT; sealed_at := now |})) in
  let! who := sget (fun g => k_authority (gk g)) in
  let! _ := on_kernel (kwrite (kernel_receipt "legend_seal" who
              (PDict [("legend_hash", PStr legend); ("entry_count", PInt LEGEND_ENTRY_COUNT);
                      ("phase_code", PStr _PHASE_CODE)]) false "legend_seal" true)) in
  sret tt.

Definition _ceremony (now : string) (seal : option pyval) (signature_hex : option string) :
    M governance unit := fun g =>
  if unset_key GOVERNOR_PUBKEY_HEX
  then (Err (GovernanceNotFounded "ceremony[governor-key-unset-sentinel]"), g) else
  (let! _ := slift (seal_check seal signature_hex (ggen g)) in
   let! _ := load_frame in
   let! _ := seal_legend_receipt now in
   let! _ := _activate_csh false in
   smod (fun g => set_gk (with_status ACTIVE (gk g)) g)) g.

Definition hydrate_readonly : M governance unit := fun g =>
  if unset_key GOVERNOR_PUBKEY_HEX
  then (Err (GovernanceNotFounded "hydrate_readonly[governor-key-unset-sentinel]"), g) else
  (let! _ := load_frame in
   let! _ := _activate_csh true in
   smod (fun g => set_gk (with_status ACTIVE (gk g)) g)) g.
End founding.

(** * Steps that leave the store alone *)

Section founding_facts.
Context {U : Unicode} {E : Ed25519} {G : Engine} {D : Deployment}.

(** Neither the kernel nor, for [keeps_files], the genesis directory changes. *)
Definition keeps_kernel {A} (m : M governance A) : Prop := forall g, gk (snd (m g)) = gk g.
Definition keeps_files {A} (m : M governance A) : Prop := forall g, ggen (snd (m g)) = ggen g.

Lemma keeps_kernel_bind {A B} (m : M governance A) (f : A -> M governance B) :
  keeps_kernel m -> (forall a, keeps_kernel (f a)) -> keeps_kernel (sbind m f).
Proof.
  intros Hm Hf g. unfold sbind. specialize (Hm g). destruct (m g) as [[a|e] g1]; [|done].
  cbn [snd] in Hm. by rewrite Hf.
Qed.
Lemma keeps_files_bind {A B} (m : M governance A) (f : A -> M governance B) :
  keeps_files m -> (forall a, keeps_files (f a)) -> keeps_files (sbind m f).
Proof.
  intros Hm Hf g. unfold sbind. specialize (Hm g). destruct (m g) as [[a|e] g1]; [|done].
  cbn [snd] in Hm. by rewrite Hf.
Qed.
Lemma keeps_kernel_lift {A} (r : result exn A) : keeps_kernel (slift r).
Proof. by intros g. Qed.
Lemma keeps_kernel_csh f : keeps_kernel (mod_csh f).
Proof. by intros g. Qed.
Lemma keeps_files_lift {A} (r : result exn A) : keeps_files (slift r).
Proof. by intros g. Qed.
Lemma keeps_files_csh f : keeps_files (mod_csh f).
Proof. by intros g. Qed.
Lemma keeps_kernel_validators priv pub : keeps_kernel (load_or_seal_validators priv pub).
Proof. intros g. unfold load_or_seal_validators. destruct (exists_ _); [done|]. by destruct (seal_validator_set _ _ _). Qed.
Lemma keeps_kernel_ic priv pub h : keeps_kernel (load_or_mint_ic priv pub h).
Proof. intros g. unfold load_or_mint_ic. destruct (exists_ _); [done|]. by destruct (create_launch_ic _ _ _ _ _ _ _ _). Qed.

#[local] Hint Resolve keeps_kernel_bind keeps_kernel_lift keeps_kernel_csh keeps_kernel_validators
  keeps_kernel_ic keeps_files_bind keeps_files_lift keeps_files_csh : keeps.

Lemma keeps_kernel_dir : keeps_kernel make_dir.
Proof. intros g. unfold make_dir. by destruct (gn_dir (ggen g)). Qed.
Lemma load_csh_keeps_kernel b : keeps_kernel (load_csh b).
Proof.
  intros g. unfold load_csh. destruct (gn_priv (ggen g)), (gn_pub (ggen g)); try done.
  destruct (b && _); [done|]. apply keeps_kernel_bind; auto 10 with keeps.
Qed.

Lemma activate_keeps_kernel b : keeps_kernel (_activate_csh b).
Proof. apply keeps_kernel_bind; [apply keeps_kernel_dir|intros _; apply load_csh_keeps_kernel]. Qed.

(** Read-only activation writes no file. *)
Lemma load_csh_keeps_files : forall g, ggen (snd (load_csh true g)) = ggen g.
Proof.
  intros g. unfold load_csh. destruct (gn_priv (ggen g)), (gn_pub (ggen g)); try done.
  destruct (exists_ (gn_validators (ggen g))) eqn:Hv, (exists_ (gn_ic (ggen g))) eqn:Hi; try done.
  cbn [andb negb]. unfold sbind at 1. unfold load_or_seal_validators at 1. rewrite Hv.
  destruct (rbind (loads _) _) as [vs|e]; [|done]. unfold sbind at 1, mod_csh at 1, smod at 1.
  unfold sbind at 1. unfold load_or_mint_ic at 1. cbn [ggen set_csh]. rewrite Hi.
  destruct (rbind (loads (gn_ic _)) _) as [ic|e]; [|done].
  match goal with |- context [(sbind ?m ?f) ?x] => change (ggen g) with (ggen x);
    apply (keeps_files_bind m f) end; auto 10 with keeps.
Qed.

(** What the directory is after an activation that got past its creation. *)
Definition made (g : governance) : governance := set_gen (with_dir There (ggen g)) g.
Lemma activate_dir b g : _activate_csh b g =
  match gn_dir (ggen g) with
  | ParentMissing => (Err (Exn OtherError "FileNotFoundError"), g)
  | _ => load_csh b (made g)
  end.
Proof. unfold _activate_csh, sbind, make_dir, made. by destruct (gn_dir (ggen g)). Qed.
Lemma activate_keeps_files g : ggen (snd (_activate_csh true g)) =
  match gn_dir (ggen g) with ParentMissing => ggen g | _ => with_dir There (ggen g) end.
Proof. rewrite activate_dir. destruct (gn_dir (ggen g)); [apply load_csh_keeps_files..|done]. Qed.
Lemma made_there g : gn_dir (ggen g) = There -> made g = g.
Proof. destruct g as [k c []]. unfold made, with_dir. cbn. by intros ->. Qed.

(** ** The frame *)

(** The frame of a deployment: what its files and its identity determine. *)
Record founded_frame (n : genesis) (f : kframe) : Prop := {
  ff_law : k_law_hash f = law_hash_of n;
  ff_root : mosaic_id GOVERNOR_PUBKEY_HEX DEFAULT_ALGORITHM_ID = Ok (k_mosaic_root f);
  ff_dimension : canonical_dkn _PHASE_CODE GOVERNOR_PUBKEY_HEX DEFAULT_ALGORITHM_ID
                 = Ok (k_dimension_id f);
  ff_manifest : k_manifest_hash f = match manifest_load n with Some m => manifest_hash m | None => "" end;
  ff_legend : LEGEND_HASH = Ok (k_legend_hash f);
}.
Lemma founded_frame_dir d n f : founded_frame (with_dir d n) f -> founded_frame n f.
Proof. intros []; by split. Qed.
Lemma founded_frame_unique n f f' : founded_frame n f -> founded_frame n f' -> f = f'.
Proof.
  intros [H1 H2 H3 H4 H5] [K1 K2 K3 K4 K5]. rewrite H2 in K2. rewrite H3 in K3. rewrite H5 in K5.
  apply Ok_inj in K2, K3, K5. rewrite <- K1 in H1. rewrite <- K4 in H4. destruct f as [a1 a2 a3 a4 a5], f' as [b1 b2 b3 b4 b5].
  cbn [k_law_hash k_mosaic_root k_dimension_id k_manifest_hash k_legend_hash] in *. congruence.
Qed.

Definition legend_value : string := match LEGEND_HASH with Ok h => h | Err _ => "" end.
Lemma legend_known : LEGEND_HASH = Ok legend_value.
Proof.
  assert (H : is_ok LEGEND_HASH = true) by (vm_compute; reflexivity).
  unfold legend_value. destruct LEGEND_HASH; [reflexivity|discriminate H].
Qed.

#[local] Opaque sha256_hex LEGEND_HASH legend_value.

Lemma with_frame_twice f f' k : with_frame f (with_frame f' k) = with_frame f k.
Proof. done. Qed.

Lemma load_frame_spec g : exists f, load_frame g = (Ok tt, set_gk (with_frame f (gk g)) g) /\
  founded_frame (ggen g) f.
Proof.
  unfold load_frame, sbind, mod_frame, smod, slift.
  pose proof (eq_refl (mosaic_id GOVERNOR_PUBKEY_HEX DEFAULT_ALGORITHM_ID)) as Hm.
  unfold mosaic_id, canonical_dkn in *. unfold _digest in *. cbn [str_eqb] in *.
  rewrite legend_known.
  cbn [gk set_gk k_frame with_frame set_law set_root set_dimension set_legend k_law_hash k_legend_hash
    k_mosaic_root k_dimension_id k_manifest_hash].
  eexists. split; [reflexivity|]. split; cbn [k_law_hash k_legend_hash k_mosaic_root k_dimension_id
    k_manifest_hash];
    [reflexivity..|apply legend_known].
Qed.

(** ** The ceremony *)

Lemma insert_commit_faults (f : db -> db) s : faults (s_conn s) = [] ->
  fst (insert_commit f s) = Ok tt /\ (forall d, rows (f d) = rows d) ->
  _txn_depth s = 0 -> view s = durable (s_conn s) ->
  let s' := snd (insert_commit f s) in
  faults (s_conn s') = [] /\ _txn_depth s' = 0 /\ view s' = durable (s_conn s') /\
  rows (view s') = rows (view s) /\ front s' = front s.
Proof.
  intros Hf [_ Hrows] Hd Hs. unfold insert_commit, swallow. cbn [snd]. unfold sbind.
  destruct (on_conn (dml (fun d => Ok (f d))) s) as [x s1] eqn:H1.
  apply on_conn_step in H1 as (c1 & H1 & ->). apply dml_step in H1 as (D1 & _ & F1 & _ & H1).
  destruct x as [u|e].
  - destruct H1 as (_ & Hc & Ht). apply Ok_inj in Hc.
    destruct (on_conn commit (set_conn c1 s)) as [y s2] eqn:H2.
    apply on_conn_step in H2 as (c2 & H2 & ->). cbn [s_conn set_conn] in H2.
    pose proof (commit_faults c1 ltac:(congruence)) as F2. rewrite H2 in F2. cbn [snd] in F2.
    apply commit_step in H2 as [C2 H2]; [|done]. unfold view in *.
    cbn [s_conn set_conn front _txn_depth snd]. destruct y as [u2|e2].
    + destruct H2 as (D2 & _). split_and!; try done; [by rewrite C2, D2|by rewrite C2, <- Hc, Hrows].
    + destruct H2 as (_ & _ & _ & m & _ & Hm). by rewrite F1, Hf in Hm.
  - destruct H1 as [Hc _]. unfold view in *. cbn [s_conn set_conn front _txn_depth snd].
    split_and!; try done; [congruence|by rewrite Hc, D1|by rewrite Hc].
Qed.

Lemma leads_seal_legend anchor l k :
  leads anchor (on_store (seal_legend l)) k (fun r rows _ => r = Ok tt /\ rows = []).
Proof.
  intros [F C S K]. destruct (insert_commit_faults (add_legend l) (k_store k) F) as (F' & C' & S' & R' & Fr').
  { split; [done|]. intros d. unfold add_legend. by destruct (existsb _ _). }
  { done. } { done. }
  exists []. unfold on_store, seal_legend.
  destruct (insert_commit (add_legend l) (k_store k)) as [x s'] eqn:Hi. cbn [fst snd] in *.
  assert (x = Ok tt) as ->.
  { unfold insert_commit, swallow in Hi. by apply pair_ok in Hi as [<- _]. }
  split_and!; [|unfold grows, kview; by rewrite app_nil_r|done|done].
  split; cbn [k_store with_store]; try done. unfold chained in *. by rewrite R', Fr'.
Qed.

Lemma calm_same anchor k k' : k_store k' = k_store k -> calm anchor k -> calm anchor k'.
Proof. intros Hk [F C S K]. split; by rewrite Hk. Qed.

Definition gleads (anchor : string) {A} (m : M governance A) (g : governance)
    (Q : result exn A -> list Receipt -> governance -> Prop) : Prop :=
  calm anchor (gk g) -> exists l, calm anchor (gk (snd (m g))) /\
    grows (gk g) (gk (snd (m g))) l /\ Q (fst (m g)) l (snd (m g)).

Lemma gleads_bind anchor {A B} (m : M governance A) (f : A -> M governance B) g
    (Q : result exn B -> list Receipt -> governance -> Prop) :
  gleads anchor m g (fun r l g1 => match r with
    | Ok a => gleads anchor (f a) g1 (fun r' l' g2 => Q r' (l ++ l') g2)
    | Err e => Q (Err e) l g1
    end) -> gleads anchor (sbind m f) g Q.
Proof.
  intros H Hc. destruct (H Hc) as (l & Hc1 & Hg1 & H1). unfold sbind.
  destruct (m g) as [[a|e] g1]; cbn [fst snd] in *; [|by exists l].
  destruct (H1 Hc1) as (l' & Hc2 & Hg2 & HQ). exists (l ++ l').
  split_and!; [done|by eapply grows_trans|done].
Qed.
Lemma gleads_kernel anchor {A} (m : M kernel A) g (Q : result exn A -> list Receipt -> governance -> Prop) :
  leads anchor m (gk g) (fun r l k => Q r l (set_gk k g)) -> gleads anchor (on_kernel m) g Q.
Proof.
  intros H Hc. destruct (H Hc) as (l & Hc' & Hg & HQ). exists l. unfold on_kernel.
  by destruct (m (gk g)) as [r k].
Qed.
Lemma gleads_quiet anchor {A} (m : M governance A) g (Q : result exn A -> list Receipt -> governance -> Prop) :
  k_store (gk (snd (m g))) = k_store (gk g) -> Q (fst (m g)) [] (snd (m g)) -> gleads anchor m g Q.
Proof.
  intros Hs HQ Hc. exists []. split_and!; [by apply (calm_same _ (gk g))| |done].
  unfold grows, kview. by rewrite Hs, app_nil_r.
Qed.
Lemma gleads_mono anchor {A} (m : M governance A) g (Q R : result exn A -> list Receipt -> governance -> Prop) :
  gleads anchor m g Q -> (forall r l g', Q r l g' -> R r l g') -> gleads anchor m g R.
Proof. intros H HQ Hc. destruct (H Hc) as (l & ? & ? & ?). exists l. auto. Qed.

(** The receipt of the legend; nothing else of the kernel but its store changes. *)
Definition only_store (g g' : governance) : Prop :=
  exists s, g' = set_gk (with_store s (gk g)) g.
Lemma gleads_legend anchor now g : gleads anchor (seal_legend_receipt now) g (fun r l g' =>
  only_store g g' /\ match r with
  | Ok _ => exists row, l = [row] /\ decision "legend_seal" false row
  | Err _ => l = []
  end).
Proof.
  unfold seal_legend_receipt. rewrite legend_known.
  destruct (_legend_canonical) as [entries|e] eqn:Hl.
  2:{ apply gleads_quiet; [done|]. split; [|done]. exists (k_store (gk g)). by destruct g as [[] ? ?]. }
  apply gleads_bind, gleads_quiet; [done|]. apply gleads_bind, gleads_quiet; [done|]. apply gleads_bind, gleads_kernel.
  intros Hc. destruct (leads_seal_legend anchor {| lr_hash := legend_value; entries_json := entries;
    Store.phase_code := _PHASE_CODE; entry_count := LEGEND_ENTRY_COUNT; sealed_at := now |} (gk g) Hc)
    as (l0 & Hc0 & Hg0 & [Hr0 ->]). exists []. split; [exact Hc0|]. split; [exact Hg0|]. cbn [slift snd fst app].
  rewrite Hr0. clear Hr0 Hg0 Hc Hc0. unfold on_store.
  destruct (seal_legend _ (k_store (gk g))) as [x s]. cbn [snd].
  apply gleads_bind, gleads_quiet; [done|]. apply gleads_bind, gleads_kernel, leads_kwrite.
  - intros y row s' Hen _. apply gleads_quiet; [done|]. split; [by exists s'|].
    exists row. split; [done|]. by apply (entered_decision _ _ _ Hen).
  - intros e s'. split; [by exists s'|done].
Qed.


(** Read-only hydration reads only, but for the directory.  Whatever happens, the store, the
    session and the configuration of the kernel and every file of the genesis directory are
    left as they are; the directory itself is created where it was missing and its parent is
    there.  The kernel becomes active only with a governor's key and with the frame a
    ceremony would give it. *)
Theorem hydrate_readonly_pure g r g' : hydrate_readonly g = (r, g') ->
  k_store (gk g') = k_store (gk g) /\ k_session (gk g') = k_session (gk g) /\
  k_config (gk g') = k_config (gk g) /\
  match r with
  | Ok _ => unset_key GOVERNOR_PUBKEY_HEX = false /\ k_status (gk g') = ACTIVE /\
      founded_frame (ggen g) (k_frame (gk g')) /\ ggen g' = with_dir There (ggen g)
  | Err _ => k_status (gk g') = k_status (gk g) /\ (ggen g' = ggen g \/ ggen g' = with_dir There (ggen g))
  end.
Proof.
  intros H. unfold hydrate_readonly in H. destruct (unset_key GOVERNOR_PUBKEY_HEX) eqn:Hu.
  { apply pair_ok in H as [<- <-]. split_and!; try done. by left. }
  unfold sbind at 1 in H. destruct (load_frame_spec g) as (f & Hf & Hff). rewrite Hf in H.
  unfold sbind in H. set (g1 := set_gk (with_frame f (gk g)) g) in *.
  pose proof (activate_keeps_kernel true g1) as Hk. pose proof (activate_keeps_files g1) as Hn.
  pose proof (activate_dir true g1) as Hd. change (ggen g1) with (ggen g) in Hn, Hd.
  destruct (_activate_csh true g1) as [[u|e] g2]; cbn [snd] in Hk, Hn; apply pair_ok in H as [<- <-];
    cbn [gk ggen set_gk with_status k_store k_session k_config k_status k_frame]; rewrite Hk, ?Hn; split_and!; try done.
  - by destruct (gn_dir (ggen g)).
  - destruct (gn_dir (ggen g)); [by right..|by left].
Qed.

(** On a fresh machine the hydration documented to write nothing creates the directory. *)
Theorem hydrate_creates_directory g : unset_key GOVERNOR_PUBKEY_HEX = false ->
  gn_dir (ggen g) = Missing -> gn_priv (ggen g) = None ->
  exists g', hydrate_readonly g = (Ok tt, g') /\ gn_dir (ggen g') = There /\
    _csh_quorum_achieved (gcsh g') = false.
Proof.
  intros Hu Hd Hp. unfold hydrate_readonly. rewrite Hu. destruct (load_frame_spec g) as (f & Hf & _).
  unfold sbind. rewrite Hf, activate_dir. cbn [ggen set_gk]. rewrite Hd. unfold load_csh.
  cbn [made set_gen ggen set_gk with_dir gn_priv]. rewrite Hp. eexists. by split_and!.
Qed.

(** ** What a first ceremony mints, and what is loaded from it *)

Lemma text_list_map l : text_list (PList (map PStr l)) = Some l.
Proof.
  unfold text_list.
  assert (H : forall acc, foldl (fun acc x => match acc, x with
    | Some l, PStr s => Some (s :: l) | _, _ => None end) (Some acc) (map PStr l) = Some (rev l ++ acc)).
  { induction l as [|x l IH]; intros acc; cbn [map foldl rev]; [done|]. rewrite IH. by rewrite <- app_assoc. }
  rewrite H. cbn [option_map]. by rewrite app_nil_r, rev_involutive.
Qed.
Lemma validators_json_ok v : validators_of_json (validators_json v) = Ok v.
Proof.
  unfold validators_of_json, validators_json. cbn [fields rbind].
  change (dict_get "validators" _) with (Some (PList (map PStr (validators v)))).
  cbn [option_bind]. rewrite text_list_map. by destruct v.
Qed.
Lemma ic_json_ok c : ic_of_json (ic_json c) = Ok c.
Proof. by destruct c. Qed.

Lemma sbind_ok_intro {S A B} (m : M S A) (f : A -> M S B) s a s1 b s2 :
  m s = (Ok a, s1) -> f a s1 = (Ok b, s2) -> sbind m f s = (Ok b, s2).
Proof. unfold sbind. by intros ->. Qed.

(** What the activation with keys went through. *)
Record activation (priv pub : string) (g g' : governance) : Prop := {
  act_vs : exists vs ic att m h,
    _validator_set (gcsh g') = Some vs /\ _launch_ic (gcsh g') = Some ic /\
    create_attestation priv pub (k_law_hash (k_frame (gk g))) _PHASE_CODE 0 CSH_TS = Ok att /\
    achieve_finality [att] vs (k_law_hash (k_frame (gk g))) = Ok m /\ ic_hash ic = Ok h /\
    gcsh g' = {| _launch_ic := Some ic; _validator_set := Some vs;
                 _csh_finality_hash := finality_hash m; _csh_quorum_achieved := quorum_achieved m;
                 _rotation_rule := Some (declare_rotation_rule (k_mosaic_root (k_frame (gk g)))
                   [k_mosaic_root (k_frame (gk g))] h CSH_TS) |} /\
    (if exists_ (gn_validators (ggen g))
     then (let* j := loads (gn_validators (ggen g)) in validators_of_json j) = Ok vs
     else seal_validator_set priv pub [k_mosaic_root (k_frame (gk g))] = Ok vs) /\
    (if exists_ (gn_ic (ggen g)) then (let* j := loads (gn_ic (ggen g)) in ic_of_json j) = Ok ic
     else create_launch_ic priv pub (k_law_hash (k_frame (gk g))) (k_dimension_id (k_frame (gk g)))
            _PHASE_CODE (sealed_hash vs) 1 CSH_TS = Ok ic) /\
    gn_validators (ggen g') = (if exists_ (gn_validators (ggen g)) then gn_validators (ggen g)
                               else Parsed (validators_json vs)) /\
    gn_ic (ggen g') = (if exists_ (gn_ic (ggen g)) then gn_ic (ggen g) else Parsed (ic_json ic));
  act_rest : gn_dir (ggen g') = gn_dir (ggen g) /\ gn_pub (ggen g') = gn_pub (ggen g) /\ gn_priv (ggen g') = gn_priv (ggen g) /\
    gn_law (ggen g') = gn_law (ggen g) /\ gn_manifest (ggen g') = gn_manifest (ggen g) /\
    gn_seal (ggen g') = gn_seal (ggen g);
}.

Lemma load_or_seal_ok priv pub g vs g1 : load_or_seal_validators priv pub g = (Ok vs, g1) ->
  gk g1 = gk g /\ gcsh g1 = gcsh g /\
  (if exists_ (gn_validators (ggen g))
   then (let* j := loads (gn_validators (ggen g)) in validators_of_json j) = Ok vs /\ ggen g1 = ggen g
   else seal_validator_set priv pub [k_mosaic_root (k_frame (gk g))] = Ok vs /\
        ggen g1 = write_validators (validators_json vs) (ggen g)).
Proof.
  unfold load_or_seal_validators. destruct (exists_ _).
  - by intros [H <-]%pair_ok.
  - destruct (seal_validator_set _ _ _) as [v|e]; intros [H <-]%pair_ok; [|done]. by apply Ok_inj in H as ->.
Qed.
Lemma load_or_mint_ok priv pub h g ic g1 : load_or_mint_ic priv pub h g = (Ok ic, g1) ->
  gk g1 = gk g /\ gcsh g1 = gcsh g /\
  (if exists_ (gn_ic (ggen g)) then (let* j := loads (gn_ic (ggen g)) in ic_of_json j) = Ok ic /\ ggen g1 = ggen g
   else create_launch_ic priv pub (k_law_hash (k_frame (gk g))) (k_dimension_id (k_frame (gk g)))
            _PHASE_CODE h 1 CSH_TS = Ok ic /\ ggen g1 = write_ic (ic_json ic) (ggen g)).
Proof.
  unfold load_or_mint_ic. destruct (exists_ _).
  - by intros [H <-]%pair_ok.
  - cbv zeta. destruct (create_launch_ic _ _ _ _ _ _ _ _) as [v|e]; intros [H <-]%pair_ok; [|done].
    by apply Ok_inj in H as ->.
Qed.

Lemma mod_csh_ok f g u g' : mod_csh f g = (Ok u, g') -> g' = set_csh (f (gcsh g)) g.
Proof. unfold mod_csh, smod. by intros [_ <-]%pair_ok. Qed.

Lemma activation_ok b g g' : load_csh b g = (Ok tt, g') ->
  match gn_priv (ggen g), gn_pub (ggen g) with
  | Some priv, Some pub =>
      if b && negb (exists_ (gn_validators (ggen g)) && exists_ (gn_ic (ggen g)))
      then g' = set_csh (set_quorum false (gcsh g)) g
      else activation (strip priv) (strip pub) g g'
  | _, _ => g' = set_csh (set_quorum false (gcsh g)) g
  end.
Proof.
  unfold load_csh. destruct (gn_priv (ggen g)) as [priv|], (gn_pub (ggen g)) as [pub|] eqn:Hpub;
    try (by intros [_ <-]%pair_ok).
  destruct (b && _); [by intros [_ <-]%pair_ok|]. cbv zeta. intros H.
  apply sbind_ok in H as (vs & g1 & H1 & H). apply load_or_seal_ok in H1 as (K1 & C1 & V1).
  apply sbind_ok in H as (u & g2 & ->%mod_csh_ok & H).
  apply sbind_ok in H as (ic & g3 & H3 & H). apply load_or_mint_ok in H3 as (K3 & C3 & V3).
  cbn [gk gcsh ggen set_csh set_validator_set] in K3, C3, V3.
  apply sbind_ok in H as (u2 & g4 & ->%mod_csh_ok & H).
  apply sbind_ok in H as (att & g5 & [Ha ->]%slift_ok & H).
  apply sbind_ok in H as (m & g6 & [Hm ->]%slift_ok & H).
  apply sbind_ok in H as (u3 & g7 & ->%mod_csh_ok & H).
  apply sbind_ok in H as (h & g8 & [Hh ->]%slift_ok & H).
  apply mod_csh_ok in H as ->.
  assert (Hgen1 : gn_ic (ggen g1) = gn_ic (ggen g) /\ gn_dir (ggen g1) = gn_dir (ggen g) /\ gn_pub (ggen g1) = gn_pub (ggen g) /\
    gn_priv (ggen g1) = gn_priv (ggen g) /\ gn_law (ggen g1) = gn_law (ggen g) /\
    gn_manifest (ggen g1) = gn_manifest (ggen g) /\ gn_seal (ggen g1) = gn_seal (ggen g)).
  { destruct (exists_ (gn_validators _)); destruct V1 as [_ ->]; by split_and!. }
  destruct Hgen1 as (G1 & G0 & G2 & G3 & G4 & G5 & G6). rewrite G1, K1 in V3.
  split.
  - exists vs, ic, att, m, h. cbn [gcsh ggen set_csh set_rotation set_finality set_ic _launch_ic _validator_set
      _csh_finality_hash _csh_quorum_achieved _rotation_rule].
    rewrite C3, C1. cbn [_validator_set set_validator_set].
    split_and!; try done.
    + destruct (exists_ (gn_validators _)); apply V1.
    + destruct (exists_ (gn_ic _)); apply V3.
    + assert (Hv3 : gn_validators (ggen g3) = gn_validators (ggen g1)).
      { destruct (exists_ (gn_ic _)); destruct V3 as [_ ->]; done. }
      rewrite Hv3. destruct (exists_ (gn_validators _)); destruct V1 as [_ ->]; done.
    + destruct (exists_ (gn_ic (ggen g))); destruct V3 as [_ ->]; [by rewrite G1|done].
  - cbn [ggen set_csh]. destruct (exists_ (gn_ic (ggen g))); destruct V3 as [_ ->];
      cbn [gn_dir gn_pub gn_priv gn_law gn_manifest gn_seal write_ic]; by split_and!.
Qed.

(** Loading the artifacts an activation left. *)
Lemma activation_again g priv pub vs ic att m h : let f := k_frame (gk g) in
  gn_priv (ggen g) = Some priv -> gn_pub (ggen g) = Some pub ->
  exists_ (gn_validators (ggen g)) = true -> exists_ (gn_ic (ggen g)) = true ->
  (let* j := loads (gn_validators (ggen g)) in validators_of_json j) = Ok vs ->
  (let* j := loads (gn_ic (ggen g)) in ic_of_json j) = Ok ic ->
  create_attestation (strip priv) (strip pub) (k_law_hash f) _PHASE_CODE 0 CSH_TS = Ok att ->
  achieve_finality [att] vs (k_law_hash f) = Ok m -> ic_hash ic = Ok h ->
  load_csh true g = (Ok tt, set_csh
    {| _launch_ic := Some ic; _validator_set := Some vs; _csh_finality_hash := finality_hash m;
       _csh_quorum_achieved := quorum_achieved m;
       _rotation_rule := Some (declare_rotation_rule (k_mosaic_root f) [k_mosaic_root f] h CSH_TS) |} g).
Proof.
  intros f H1 H2 H3 H4 H5 H6 H7 H8 H9. unfold load_csh. rewrite H1, H2, H3, H4. cbn [andb negb].
  cbv zeta. fold f.
  eapply sbind_ok_intro; [unfold load_or_seal_validators; by rewrite H3, H5|].
  eapply sbind_ok_intro; [done|].
  eapply sbind_ok_intro; [unfold load_or_mint_ic; cbn [ggen set_csh]; by rewrite H4, H6|].
  eapply sbind_ok_intro; [done|]. eapply sbind_ok_intro; [by rewrite H7|].
  eapply sbind_ok_intro; [by rewrite H8|]. eapply sbind_ok_intro; [done|].
  eapply sbind_ok_intro; [by rewrite H9|]. done.
Qed.

Lemma ceremony_steps anchor now seal sg g g' : _ceremony now seal sg g = (Ok tt, g') -> calm anchor (gk g) ->
  unset_key GOVERNOR_PUBKEY_HEX = false /\
  exists f s g3, founded_frame (ggen g) f /\
    load_csh false (made (set_gk (with_store s (with_frame f (gk g))) g)) = (Ok tt, g3) /\
    g' = set_gk (with_status ACTIVE (gk g3)) g3.
Proof.
  intros H Hc. unfold _ceremony in H. destruct (unset_key GOVERNOR_PUBKEY_HEX); [done|]. split; [done|].
  apply sbind_ok in H as (u & g0 & [_ ->]%slift_ok & H). destruct (load_frame_spec g) as (f & Hf & Hff).
  apply sbind_ok in H as (u1 & g1 & H1 & H). rewrite Hf in H1. apply pair_ok in H1 as [_ <-].
  apply sbind_ok in H as (u2 & g2 & H2 & H).
  destruct (gleads_legend anchor now (set_gk (with_frame f (gk g)) g)) as (l & _ & _ & (s & Hs) & _);
    [by apply (calm_same _ (gk g))|].
  rewrite H2 in Hs. cbn [snd] in Hs. subst g2.
  apply sbind_ok in H as ([] & g3 & H3 & H). exists f, s, g3.
  rewrite activate_dir in H3. split_and!; [done| |].
  { destruct (gn_dir _); [exact H3..|discriminate (proj1 (pair_ok _ _ _ _ H3))]. }
  unfold smod in H. by apply pair_ok in H as [_ <-].
Qed.

(** C22: a hydrated kernel is the founded one.  On the genesis directory a completed ceremony
    left, from the same finality state, read-only hydration succeeds and gives the same
    frame, the same validator set, certificate and rotation rule and the same finality
    verdict and hash: what the ceremony minted is what is loaded. *)
Theorem hydrate_reproduces_ceremony anchor now seal sg g g1 g2 :
  _ceremony now seal sg g = (Ok tt, g1) -> calm anchor (gk g) ->
  ggen g2 = ggen g1 -> gcsh g2 = gcsh g ->
  exists g3, hydrate_readonly g2 = (Ok tt, g3) /\ k_status (gk g3) = ACTIVE /\
    k_frame (gk g3) = k_frame (gk g1) /\ gcsh g3 = gcsh g1 /\
    k_store (gk g3) = k_store (gk g2) /\ ggen g3 = ggen g1.
Proof.
  intros H Hc Hgen Hcsh. destruct (ceremony_steps _ _ _ _ _ _ H Hc) as (Hu & f & s & g3 & Hff & Ha & ->).
  set (ga := set_gk (with_store s (with_frame f (gk g))) g) in *.
  pose proof (load_csh_keeps_kernel false (made ga)) as Hk. rewrite Ha in Hk. cbn [snd] in Hk.
  cbn [gk gcsh ggen set_gk with_status k_frame] in *. rewrite Hk. cbn [made set_gen gk set_gk ga with_store k_frame with_frame].
  destruct (load_frame_spec g2) as (f2 & Hf2 & Hff2).
  set (gb := set_gk (with_frame f2 (gk g2)) g2) in *.
  assert (Hb : gcsh gb = gcsh g) by exact Hcsh.
  assert (Hhyd : gn_dir (ggen gb) = There -> forall c, load_csh true gb = (Ok tt, set_csh c gb) ->
    hydrate_readonly g2 = (Ok tt, set_gk (with_status ACTIVE (gk gb)) (set_csh c gb))).
  { intros Hd c Hact. unfold hydrate_readonly. rewrite Hu. eapply sbind_ok_intro; [exact Hf2|].
    assert (Hac : _activate_csh true gb = (Ok tt, set_csh c gb)) by (by rewrite activate_dir, Hd, made_there).
    eapply sbind_ok_intro; [exact Hac|]. done. }
  assert (Hfin : gn_dir (ggen gb) = There -> f2 = f -> (exists c, load_csh true gb = (Ok tt, set_csh c gb) /\ c = gcsh g3) ->
    exists g4, hydrate_readonly g2 = (Ok tt, g4) /\ k_status (gk g4) = ACTIVE /\
      k_frame (gk g4) = f /\ gcsh g4 = gcsh g3 /\ k_store (gk g4) = k_store (gk g2) /\ ggen g4 = ggen g3).
  { intros Hd <- (c & Hact & ->). eexists. split; [by apply Hhyd|]. by split_and!. }
  apply activation_ok in Ha. cbn [made set_gen ggen gcsh gk set_gk ga with_dir gn_dir gn_priv gn_pub gn_validators gn_ic] in Ha.
  destruct (gn_priv (ggen g)) as [priv|] eqn:Hpr, (gn_pub (ggen g)) as [pub|] eqn:Hpu;
    [cbn [andb] in Ha; destruct Ha as [(vs & ic & att & m & h & _ & _ & A1 & A2 & A3 & A4 & A5 & A6 & A7 & A8) (R0 & R1 & R2 & R3 & R4 & _)]|subst g3..].
  2-4: cbn [made set_gen ggen set_csh set_gk ga] in Hgen; apply Hfin;
    [by cbn [gb ggen set_gk]; rewrite Hgen
    |rewrite Hgen in Hff2; apply founded_frame_dir in Hff2; by eapply founded_frame_unique|];
    exists (set_quorum false (gcsh g)); split; [|done];
    unfold load_csh; cbn [ggen gb set_gk]; rewrite Hgen; cbn [with_dir gn_priv gn_pub];
    rewrite Hpr, ?Hpu, <- Hb; reflexivity.
  assert (f2 = f) as Hfe.
  { apply (founded_frame_unique (ggen g)); [|done]. destruct Hff2 as [P1 P2 P3 P4 P5].
    assert (Hsame : law_hash_of (ggen g2) = law_hash_of (ggen g) /\ manifest_load (ggen g2) = manifest_load (ggen g)).
    { rewrite Hgen. unfold law_hash_of. rewrite R3. split; [reflexivity|].
      unfold manifest_load. by rewrite R4. }
    destruct Hsame as [S1 S2].
    split; [by rewrite P1, S1|exact P2|exact P3|by rewrite P4, S2|exact P5]. }
  apply Hfin; [by cbn [gb ggen set_gk]; rewrite Hgen, R0|done|]. eexists. split; [|reflexivity]. rewrite A4.
  cbn [made set_gen gk gb set_gk ga with_store with_frame k_frame].
  rewrite <- Hfe.
  apply (activation_again gb priv pub vs ic att m h); cbn [ggen gk gb set_gk with_frame k_frame];
    rewrite ?Hgen, ?R1, ?R2, ?A7, ?A8; cbn [made set_gen with_dir gn_priv gn_pub gn_validators gn_ic gk ggen set_gk ga] in *; rewrite ?Hfe; try done.
  - by destruct (exists_ (gn_validators (ggen g))) eqn:Hx.
  - by destruct (exists_ (gn_ic (ggen g))) eqn:Hx.
  - destruct (exists_ (gn_validators (ggen g))); [done|]. cbn [loads rbind]. apply validators_json_ok.
  - destruct (exists_ (gn_ic (ggen g))); [done|]. cbn [loads rbind]. apply ic_json_ok.
Qed.

Lemma single_finality {L : Ed25519Laws E} priv pub vs h phase ep ts att m root : ed_keypair priv pub ->
  create_attestation priv pub h phase ep ts = Ok att -> mosaic_id pub DEFAULT_ALGORITHM_ID = Ok root ->
  validators vs = [root] -> n_validators vs = 1 -> achieve_finality [att] vs h = Ok m ->
  quorum_achieved m = true.
Proof.
  intros Hkey Ha Hroot Hv Hn Hm. unfold create_attestation in Ha. rewrite Hroot in Ha.
  cbn [rbind] in Ha. apply rbind_ok in Ha as (p & Hp & Ha). apply Ok_inj in Ha.
  apply (quorum_spec _ _ _ _ Hm). exists [root]. rewrite Hn.
  split_and!; [apply NoDup_singleton|vm_compute; discriminate|].
  intros r ->%list_elem_of_singleton. exists att. subst att. split; [|done]. split_and!.
  - by left.
  - intros (a & b & Hx & Hy & _ & _ & _ & Hne). apply list_elem_of_singleton in Hx, Hy. by subst.
  - cbn [att_mosaic_root]. rewrite Hv. by left.
  - done.
  - unfold att_verify, sig_payload. cbn [att_hash epoch att_mosaic_root att_phase_code att_timestamp
      att_signature att_pubkey]. rewrite Hp. cbn [rbind]. by apply ed_sound.
Qed.

(** The first ceremony founds a quorum of one.  With a key pair whose public half is the
    governor's key and no validator set on disk, a completed ceremony seals a set of
    exactly the governor's own identity, whose seal verifies, achieves quorum, and, when
    it mints the launch certificate, signs one that verifies and names that set. *)
Theorem founding_quorum {L : Ed25519Laws E} anchor now seal sg g g' priv pub :
  _ceremony now seal sg g = (Ok tt, g') -> calm anchor (gk g) ->
  gn_priv (ggen g) = Some priv -> gn_pub (ggen g) = Some pub -> strip pub = GOVERNOR_PUBKEY_HEX ->
  ed_keypair (strip priv) (strip pub) -> exists_ (gn_validators (ggen g)) = false ->
  _csh_quorum_achieved (gcsh g') = true /\
  exists vs, _validator_set (gcsh g') = Some vs /\ validators vs = [k_mosaic_root (k_frame (gk g'))] /\
    verify_seal vs = Ok true /\
    (exists_ (gn_ic (ggen g)) = false -> exists ic, _launch_ic (gcsh g') = Some ic /\
       ic_verify ic = Ok true /\ validator_set_hash ic = sealed_hash vs).
Proof.
  intros H Hc Hpr Hpu Hgov Hkey Hnv.
  destruct (ceremony_steps _ _ _ _ _ _ H Hc) as (_ & f & s & g3 & Hff & Ha & ->).
  pose proof (load_csh_keeps_kernel false (made (set_gk (with_store s (with_frame f (gk g))) g))) as Hk.
  rewrite Ha in Hk. cbn [snd] in Hk. apply activation_ok in Ha.
  cbn [made set_gen with_dir gn_priv gn_pub gn_validators gn_ic gk ggen gcsh set_gk] in Ha.
  rewrite Hpr, Hpu in Ha. cbn [andb] in Ha.
  destruct Ha as [(vs & ic & att & m & h & V1 & V2 & A1 & A2 & _ & A4 & A5 & A6 & _) _].
  cbn [gk gcsh ggen set_gk with_status k_frame] in *. rewrite Hk in *.
  cbn [made set_gen with_dir gn_validators gn_ic ggen gk set_gk with_store with_frame k_frame] in *. rewrite Hnv in A5.
  destruct Hff as [_ Hroot _ _ _]. rewrite <- Hgov in Hroot.
  unfold seal_validator_set in A5. rewrite Hroot in A5. cbn [rbind] in A5.
  change (sorted_str [k_mosaic_root f]) with [k_mosaic_root f] in A5.
  apply rbind_ok in A5 as (hh & Hh & A5). apply rbind_ok in A5 as (p & Hp & A5). apply Ok_inj in A5.
  assert (Hv : validators vs = [k_mosaic_root f] /\ n_validators vs = 1 /\ verify_seal vs = Ok true).
  { subst vs. split_and!; [done|done|]. unfold verify_seal, seal_payload.
    cbn [n_validators sealed_by validators seal_signature sealer_pubkey]. rewrite Hp. by apply ed_sound. }
  destruct Hv as (Hv1 & Hv2 & Hv3). clear A5. split.
  { rewrite A4. cbn [_csh_quorum_achieved].
    by apply (single_finality _ _ vs _ _ _ _ att m (k_mosaic_root f) Hkey A1 Hroot). }
  exists vs. split_and!; try done. intros Hni. rewrite Hni in A6.
  unfold create_launch_ic in A6. rewrite Hroot in A6. cbn [rbind] in A6.
  apply rbind_ok in A6 as (p2 & Hp2 & A6). apply Ok_inj in A6. exists ic. split_and!; [done| |by subst ic].
  subst ic. unfold ic_verify. cbn [ic_signature governor_pubkey].
  assert (forall a b, ic_payload a = Ok p2 -> ic_payload b = ic_payload a -> ic_payload b = Ok p2) as Hsame
    by congruence.
  erewrite Hsame; [|exact Hp2|done]. cbn [rbind]. by apply ed_sound.
Qed.




(** ** What is not checked *)

(** With only one half of a seal given, nothing is validated. *)
Lemma half_seal_unchecked s n : seal_check (Some s) None n = Ok tt /\
  forall sg, seal_check None (Some sg) n = Ok tt.
Proof. done. Qed.
(** A seal file that is not JSON counts as no seal. *)
Lemma unreadable_seal_unchecked n : gn_seal n = Unreadable -> seal_check None None n = Ok tt.
Proof. unfold seal_check, load_genesis_seal. by intros ->. Qed.
(** The validator set on disk is taken as it is: its seal is not verified. *)
Lemma tampered_validators_loaded g vs priv pub : gn_validators (ggen g) = Parsed (validators_json vs) ->
  load_or_seal_validators priv pub g = (Ok vs, g).
Proof. unfold load_or_seal_validators. intros ->. cbn [exists_ loads rbind]. by rewrite validators_json_ok. Qed.
End founding_facts.

(** ** The charter *)

(** The charter round trip.  A created manifest verifies its hash and its derived
    identities; it is written only where neither the key nor a manifest is already there,
    unless forced; and what was written is loaded back equal, with its key and phase as the
    identity of the deployment. *)
Theorem charter_round_trip now pub phase juris model amendment ts m n :
  manifest_create now pub phase juris model amendment ts = Ok m ->
  manifest_verify_hash m = Ok true /\ verify_derived_fields m = Ok true /\
  (is_ok (write_charter_artifacts m false n) = true <->
     gn_pub n = None /\ gn_manifest n = Absent) /\
  forall force n', write_charter_artifacts m force n = Ok n' ->
    manifest_load n' = Some m /\ _load_governor_identity n' = (strip (pub +:+ newline), phase) /\
    gn_seal n' = gn_seal n /\ gn_validators n' = gn_validators n /\ gn_ic n' = gn_ic n.
Proof.
  intros H. unfold manifest_create in H. cbv zeta in H. apply rbind_ok in H as (root & Hr & H).
  apply rbind_ok in H as (dim & Hd & H). apply rbind_ok in H as (b & Hb & H). apply Ok_inj in H.
  assert (Hm : manifest_verify_hash m = Ok true /\ verify_derived_fields m = Ok true).
  { subst m. unfold manifest_verify_hash, verify_derived_fields, body_of_manifest.
    cbn [dm_amendment_model dm_authority_model dm_dimension_id dm_governor_pubkey dm_jurisdiction
      dm_mosaic_root dm_phase_code dm_timestamp manifest_hash].
    rewrite Hb, Hr, Hd. cbn [rbind]. by rewrite !str_eqb_refl. }
  destruct Hm as [H1 H2]. split_and!; [done|done| |].
  - unfold write_charter_artifacts. cbn [negb andb].
    destruct (gn_pub n), (gn_manifest n); cbn; split; try done; by intros [? ?].
  - intros force n' Hw. unfold write_charter_artifacts in Hw.
    destruct (negb force && _); [done|]. apply Ok_inj in Hw. subst n'.
    split_and!; [|by subst m|done|done|done]. destruct m. reflexivity.
Qed.

(** * Examples *)

Definition founded_deployment : Deployment :=
  {| GOVERNOR_PUBKEY_HEX := "pk"; _PHASE_CODE := "ugk-substrate"; deployed_ops := ["transfer"] |}.
Definition demo_manifest : result exn DeploymentManifest := Eval vm_compute in
  manifest_create "now" "pk" "ugk-substrate" "kernel" "trace_only" "higher_root" None.
Definition empty_genesis : genesis :=
  {| gn_dir := Missing; gn_pub := None; gn_priv := Some ("sk" +:+ newline); gn_manifest := Absent; gn_seal := Absent;
     gn_validators := Absent; gn_ic := Absent; gn_law := Some "law" |}.
Definition demo_genesis : genesis := Eval vm_compute in
  match demo_manifest with
  | Ok m => match write_charter_artifacts m false empty_genesis with Ok n => n | Err _ => empty_genesis end
  | Err _ => empty_genesis
  end.
Definition unfounded (n : genesis) : governance :=
  let k := demo_kernel [] in
  {| gk := with_status UNINITIALIZED k;
     gcsh := {| _launch_ic := None; _validator_set := None; _csh_finality_hash := "";
                _csh_quorum_achieved := false; _rotation_rule := None |};
     ggen := n |}.
Definition demo_ceremony : result exn unit * governance := Eval vm_compute in
  @_ceremony nfc_id ed_demo demo_engine founded_deployment "now" None None (unfounded demo_genesis).
Lemma demo_ceremony_run :
  @_ceremony nfc_id ed_demo demo_engine founded_deployment "now" None None (unfounded demo_genesis)
    = demo_ceremony.
Proof. vm_compute. reflexivity. Qed.
Lemma demo_ceremony_ok : demo_ceremony = (Ok tt, snd demo_ceremony).
Proof. reflexivity. Qed.
Lemma unfounded_calm : calm GENESIS (gk (unfounded demo_genesis)).
Proof. split; vm_compute; auto. Qed.
Lemma demo_founded :
  @_ceremony nfc_id ed_demo demo_engine founded_deployment "now" None None (unfounded demo_genesis)
    = (Ok tt, snd demo_ceremony).
Proof. exact (eq_trans demo_ceremony_run demo_ceremony_ok). Qed.

Lemma charter_round_trip_witness : exists m n, demo_manifest = Ok m /\
  write_charter_artifacts m false empty_genesis = Ok n /\ manifest_load n = Some m.
Proof.
  destruct demo_manifest as [m|] eqn:Hm; [|discriminate Hm].
  destruct (charter_round_trip "now" "pk" "ugk-substrate" "kernel" "trace_only" "higher_root" None m
    empty_genesis) as (_ & _ & _ & H).
  { rewrite <- Hm. vm_compute. reflexivity. }
  exists m. eexists. split; [reflexivity|]. split; [reflexivity|].
  apply (H false _ eq_refl).
Defined.


Definition demo_hydration : result exn unit * governance := Eval vm_compute in
  @hydrate_readonly ed_demo founded_deployment (unfounded (ggen (snd demo_ceremony))).
Lemma demo_hydration_run :
  @hydrate_readonly ed_demo founded_deployment (unfounded (ggen (snd demo_ceremony)))
    = (fst demo_hydration, snd demo_hydration).
Proof. vm_compute. reflexivity. Qed.
Lemma hydrate_readonly_pure_witness :
  k_store (gk (snd demo_hydration)) = k_store (demo_kernel []).
Proof.
  destruct (@hydrate_readonly_pure ed_demo founded_deployment _ _ _ demo_hydration_run) as (H & _).
  exact H.
Defined.

Lemma hydrate_reproduces_ceremony_witness : exists g3,
  @hydrate_readonly ed_demo founded_deployment (unfounded (ggen (snd demo_ceremony))) = (Ok tt, g3) /\
  gcsh g3 = gcsh (snd demo_ceremony).
Proof.
  destruct (@hydrate_reproduces_ceremony nfc_id ed_demo demo_engine founded_deployment GENESIS "now" None None
    (unfounded demo_genesis) (snd demo_ceremony) (unfounded (ggen (snd demo_ceremony)))
    demo_founded unfounded_calm eq_refl eq_refl) as (g3 & H1 & _ & _ & H2 & _).
  exists g3. split; [exact H1|exact H2].
Defined.

Lemma founding_quorum_witness : _csh_quorum_achieved (gcsh (snd demo_ceremony)) = true.
Proof.
  destruct (@founding_quorum nfc_id ed_demo demo_engine founded_deployment ed_demo_laws GENESIS "now" None None
    (unfounded demo_genesis) (snd demo_ceremony) ("sk" +:+ newline) ("pk" +:+ newline)
    demo_founded unfounded_calm) as [H _]; [reflexivity..|exact I|reflexivity|exact H].
Defined.
