(* ===== verification/Session.v ===== *)
(** The rest of the governance kernel ([ugk/kernel.py]): what is attached to it, the session
    life cycle with its closing summary ([ugk/summary.py]), deferred operations and
    bridges, and the snapshots. *)
From S2P Require Import Prelude Json Sha256 Binding BindingM2 Frame Authority Receipt Trace Capability Sqlite Integrity Archives Store StoreFacts StoreTxn Will Warrant Effects EffectsIrr EffectsRev Csh Kernel KernelFacts ExecuteFacts Founding.

(** ** What is attached to a kernel *)

Definition with_config (c : kconfig) (k : kernel) : kernel :=
  {| k_store := k_store k; k_authority := k_authority k; k_status := k_status k;
     k_frame := k_frame k; k_session := k_session k; k_refused := k_refused k; k_config := c;
     k_warrants := k_warrants k; k_wills := k_wills k |}.
Definition with_session (s : ksession) (k : kernel) : kernel :=
  {| k_store := k_store k; k_authority := k_authority k; k_status := k_status k;
     k_frame := k_frame k; k_session := s; k_refused := k_refused k; k_config := k_config k;
     k_warrants := k_warrants k; k_wills := k_wills k |}.

Definition set_warrant_store (w : option WarrantStore) : M kernel unit := smod (with_warrants w).

Definition set_op_csil (l : list (string * Z)) (c : kconfig) : kconfig :=
  {| k_require_governor_sig := k_require_governor_sig c; k_require_intent := k_require_intent c;
     k_require_scoped_intent := k_require_scoped_intent c;
     k_authority_model := k_authority_model c; k_op_csil := l; k_dcap_policy := k_dcap_policy c |}.
Definition register_op_csil (op_name : string) (n : Z) : M kernel unit := fun k =>
  let reg := k_op_csil (k_config k) in
  let known := dict_get op_name reg in
  if existsb (fun e => csil_id e =? n) _LEGEND_ENTRIES && negb (bool_decide (known = Some n))
  then (Err (Exn ValueError "CSIL already in LEGEND"), k)
  else if bool_decide (is_Some known) && negb (bool_decide (known = Some n))
  then (Err (Exn ValueError "already registered with csil_id"), k)
  else (Ok tt, with_config (set_op_csil (dict_set op_name n reg) (k_config k)) k).

Definition set_will_store (w : option IntentStore) (require_intent require_scoped_intent : bool) :
    M kernel unit := smod (fun k =>
  {| k_store := k_store k; k_authority := k_authority k; k_status := k_status k;
     k_frame := k_frame k; k_session := k_session k; k_refused := k_refused k;
     k_config := {| k_require_governor_sig := k_require_governor_sig (k_config k);
                    k_require_intent := require_intent;
                    k_require_scoped_intent := require_scoped_intent;
                    k_authority_model := k_authority_model (k_config k);
                    k_op_csil := k_op_csil (k_config k); k_dcap_policy := k_dcap_policy (k_config k) |};
     k_warrants := k_warrants k; k_wills := w |}).

Definition set_authority_model (m : AuthorityModel) : M kernel unit := fun k =>
  let c := k_config k in
  on_store (seal_authority_model m) (with_config
    {| k_require_governor_sig := k_require_governor_sig c; k_require_intent := k_require_intent c;
       k_require_scoped_intent := k_require_scoped_intent c; k_authority_model := Some m;
       k_op_csil := k_op_csil c; k_dcap_policy := k_dcap_policy c |} k).

(** ** The summary of a session *)

Record SessionSummary := {
  summary_hash : string;
  sm_session_dkn : string;
  sm_receipt_count : Z;
  sm_warrant_count : Z;
  sm_refusal_count : Z;
  admitted_count : Z;
  final_stream_hash : string;
  sm_law_hash : string;
  sm_legend_hash : string;
  sm_phase_code : string;
  sm_timestamp : string;
}.
Definition summary_body (dkn : string) (receipts warrants refusals admitted : Z)
    (tip law legend phase ts : string) : pyval := PDict
  [("admitted_count", PInt admitted); ("final_stream_hash", PStr tip); ("law_hash", PStr law);
   ("legend_hash", PStr legend); ("phase_code", PStr phase); ("receipt_count", PInt receipts);
   ("refusal_count", PInt refusals); ("session_dkn", PStr dkn); ("timestamp", PStr ts);
   ("warrant_count", PInt warrants)].
Definition summary_create (now dkn : string) (receipts warrants refusals admitted : Z)
    (tip law legend phase : string) (timestamp : option string) : result exn SessionSummary :=
  let ts := match timestamp with Some t => or_default t now | None => now end in
  let* b := Binding.canonical_json (summary_body dkn receipts warrants refusals admitted tip law legend phase ts) in
  Ok {| summary_hash := sha256_hex b; sm_session_dkn := dkn; sm_receipt_count := receipts;
        sm_warrant_count := warrants; sm_refusal_count := refusals; admitted_count := admitted;
        final_stream_hash := tip; sm_law_hash := law; sm_legend_hash := legend;
        sm_phase_code := phase; sm_timestamp := ts |}.
Definition summary_verify_hash (s : SessionSummary) : result exn bool :=
  let* b := Binding.canonical_json (summary_body (sm_session_dkn s) (sm_receipt_count s)
    (sm_warrant_count s) (sm_refusal_count s) (admitted_count s) (final_stream_hash s)
    (sm_law_hash s) (sm_legend_hash s) (sm_phase_code s) (sm_timestamp s)) in
  Ok (str_eqb (sha256_hex b) (summary_hash s)).
Definition is_consistent_with (s : SessionSummary) (d : db) (warrants : option WarrantStore) : bool :=
  (receipt_count d =? sm_receipt_count s) && (refusal_count d =? sm_refusal_count s)
  && str_eqb (stream_hash d) (final_stream_hash s)
  && match warrants with Some w => warrant_count w =? sm_warrant_count s | None => true end.

Section session.
Context {U : Unicode} {E : Ed25519} {G : Engine} {D : Deployment}.

(** ** Sessions *)

(** [open_session]; [fresh] is the identifier [uuid4] would give, [now] the clock of
    the scope.  The scope is best effort. *)
Definition session_scope (now : string) : M kernel unit := fun k =>
  let prior := latest_scope_id (scope_archive (view (k_store k))) (k_mosaic_root (k_frame k)) in
  match scope_create now (k_mosaic_root (k_frame k)) (k_session_dkn (k_session k))
          (k_law_hash (k_frame k)) (k_legend_hash (k_frame k)) prior "session" None with
  | Err _ => (Ok tt, k)
  | Ok sc =>
      let '(_, k') := on_store (seal_scope sc) k in
      (Ok tt, with_session {| k_identity := k_identity (k_session k');
                              k_session_dkn := k_session_dkn (k_session k');
                              k_session_open_count := k_session_open_count (k_session k');
                              k_scope_id := ps_scope_id sc |} k')
  end.
Definition set_scope_id (id : string) (k : kernel) : kernel :=
  with_session {| k_identity := k_identity (k_session k); k_session_dkn := k_session_dkn (k_session k);
                  k_session_open_count := k_session_open_count (k_session k); k_scope_id := id |} k.

Definition open_session (session_id : option string) (fresh now : string) : M kernel string := fun k =>
  (let! ident := slift (spawn_session_identity GOVERNOR_PUBKEY_HEX _PHASE_CODE session_id fresh
                          DEFAULT_ALGORITHM_ID) in
   let! _ := smod (with_session {| k_identity := Some ident; k_session_dkn := si_session_dkn ident;
                k_session_open_count := receipt_count (view (k_store k));
                k_scope_id := k_scope_id (k_session k) |}) in
   let! _ := kwrite (kernel_receipt "session_open" (k_authority k)
               (PDict [("session_id", PStr (si_session_id ident));
                       ("session_dkn", PStr (si_session_dkn ident));
                       ("phase_code", PStr (si_phase_code ident));
                       ("authority_model_hash", PStr match k_authority_model (k_config k) with
                                                     | Some m => model_hash m | None => "" end);
                       ("manifest_hash", PStr (k_manifest_hash (k_frame k)))])
               false "session_open" true) in
   let! _ := smod (set_scope_id "") in
   let! _ := session_scope now in
   sret (si_session_id ident)) k.

(** [close_session]; the answer is the new [_last_summary]. *)
Definition warrants_of (k : kernel) : Z :=
  match k_warrants k with Some w => warrant_count w | None => 0 end.
Definition session_summary (now : string) (refusals admitted warrants : Z) (k : kernel) :
    option SessionSummary :=
  match summary_create now (k_session_dkn (k_session k)) (receipt_count (view (k_store k))) warrants
          refusals admitted (stream_hash (view (k_store k))) (k_law_hash (k_frame k))
          (k_legend_hash (k_frame k)) _PHASE_CODE None with
  | Ok s => Some s | Err _ => None
  end.
Definition close_session (now : string) : M kernel (option SessionSummary) := fun k =>
  let d := view (k_store k) in
  let receipts := receipt_count d + 1 in
  let refusals := refusal_count d in
  (let! _ := kwrite (kernel_receipt "session_close" (k_authority k)
               (PDict [("session_id", match k_identity (k_session k) with
                                      | Some i => PStr (si_session_id i) | None => PNone end)])
               false "session_close" true) in
   sget (session_summary now refusals (receipts - refusals) (warrants_of k))) k.

(** ** Deferred operations and bridges *)

(** The writes that commit a terminal outcome. *)
Definition outcome_write (k : kernel) (o authority : string) (parameters : pyval) (failed : bool)
    (intent : option string) (jurisdiction : string) (override : option string)
    (cont bridge : pyval) (verifier : option (pyval -> result exn bool)) : write_args :=
  {| w_op := o; w_authority := authority; w_parameters := parameters; w_failed := failed;
     w_intent := intent; w_jurisdiction := jurisdiction; w_confidence := "high";
     w_session_dkn := k_session_dkn (k_session k); w_law_hash := k_law_hash (k_frame k);
     w_legend_hash := k_legend_hash (k_frame k); w_warrant_id := ""; w_intent_ref := "";
     compress := false; commit_terminal_outcome := true; terminal_outcome_override := override;
     commit_capability_evidence := false; capability_ledger := None; effect_columns := None;
     reconciliation_grade := PNone; reconciliation_warrant_snapshot := PNone;
     w_continuation := cont; w_bridge := bridge; bridge_verifier := verifier |}.

Definition continuation_dict (cid o authority parameters jurisdiction : pyval)
    (anchor : option string) (expiry : pyval) (state : string) : pyval :=
  PDict ([("id", cid); ("op", o); ("authority", authority); ("parameters", parameters);
          ("jurisdiction", jurisdiction)]
         ++ match anchor with Some h => [("anchor", PStr h)] | None => [] end
         ++ [("expiry_basis", expiry); ("state", PStr state);
             ("model_id", PStr CONTINUATION_RECORD_MODEL_ID)]).

(** The authority argument is None or text, the parameters a dictionary or None. *)
Definition or_authority (authority : option string) (k : kernel) : string :=
  match authority with Some s => or_default s (k_authority k) | None => k_authority k end.

Definition DEFAULT_HORIZON : Z := 1000000.
Definition defer_operation (o : string) (authority : option string) (parameters : cols)
    (jurisdiction : string) (expiry_basis : option pyval) (anchor : option string) : M kernel string :=
  fun k =>
  let who := or_authority authority k in
  let d := view (k_store k) in
  let anchor := match anchor with Some h => h | None => stream_hash d end in
  (let! cid := slift (compute_continuation_id (PStr o) (PStr who) (PDict parameters)
                        (PStr jurisdiction) (PStr anchor)) in
   let expiry := match expiry_basis with
     | Some e => e
     | None => PDict [("kind", PStr "receipt_height");
                      ("value", PInt (committed_height d + DEFAULT_HORIZON))] end in
   let cont := continuation_dict (PStr cid) (PStr o) (PStr who) (PDict parameters)
                 (PStr jurisdiction) (Some anchor) expiry "HELD" in
   let! _ := on_store (write (outcome_write k o who (PDict parameters) false None jurisdiction
                         (Some "DEFER") cont PNone None)) in
   sret cid) k.

Definition emit_bridge (o : string) (authority : option string) (parameters : cols)
    (bridge : pyval) (verifier : option (pyval -> result exn bool)) (jurisdiction : string)
    (failed : bool) (intent : string) : M kernel Receipt := fun k =>
  on_store (write (outcome_write k o (or_authority authority k) (PDict parameters) failed
                     (Some intent) jurisdiction (Some "BRIDGE") PNone bridge verifier)) k.

(** The captured fields of a continuation record, as stored. *)
Definition captured (src : Receipt) (field : string) : pyval := col field (continuation src).
Definition loads_or (v dflt : pyval) : result exn pyval :=
  if truthy v then
    match v with
    | PStr s => match json_loads s with Some x => Ok x | None => Err (Exn ValueError "JSONDecodeError") end
    | _ => Err (Exn TypeError "")
    end
  else Ok dflt.
Definition text_of (v : pyval) (dflt : string) : string :=
  match v with PStr s => or_default s dflt | _ => dflt end.

Definition _continuation_marker (continuation_id : string) (src : Receipt) (state : string)
    (refuse : bool) (reason : string) : M kernel unit := fun k =>
  (let! ps := slift (loads_or (captured src "continuation_parameters") (PDict [])) in
   let! eb := slift (loads_or (captured src "continuation_expiry_basis") PNone) in
   let cont := continuation_dict (PStr continuation_id) (captured src "continuation_op")
     (captured src "continuation_authority") ps (captured src "continuation_jurisdiction") None eb state in
   let! _ := on_store (write (outcome_write k (if refuse then "gate_refuse" else "continuation_resolved")
     (text_of (captured src "continuation_authority") (k_authority k))
     (PDict [("continuation_id", PStr continuation_id); ("reason", PStr reason)]) false (Some reason)
     (text_of (captured src "continuation_jurisdiction") "session") None cont PNone None)) in
   sret tt) k.

(** The call a resume re-enters [execute] with. *)
Definition resumed_call (continuation_id : string) (rec : Receipt) (parameters : pyval)
    (gate eff : option callable) (atomicity : option EffectAtomicity) (now : string) : exec_args :=
  {| x_op := text_of (captured rec "continuation_op") "";
     x_authority := captured rec "continuation_authority"; x_parameters := parameters;
     x_gate := gate; x_effect := eff; x_atomicity := atomicity; x_idempotency_key := PNone;
     x_gate_margin := PNone; x_layer := "I";
     x_jurisdiction := text_of (captured rec "continuation_jurisdiction") "";
     x_governor_sig := None; x_warrant_basis := NoBasis; x_intent_ref := continuation_id;
     x_authority_set := PNone; x_capability_verdicts := []; x_required_locality := None;
     x_now := now |}.

Definition refuse_resume {A} (cid : string) (rec : option Receipt) (state reason : string) : M kernel A :=
  let! _ := match rec with Some r => _continuation_marker cid r state true reason | None => sret tt end in
  sraise (GateRefusal reason).

Definition resume_continuation (continuation_id : string) (gate eff : option callable)
    (atomicity : option EffectAtomicity) (now : string) : callable := fun k =>
  let d := view (k_store k) in
  (let! found := slift (find_continuation d continuation_id) in
   match found with
   | None => refuse_resume continuation_id None "" "continuation-not-resumable"
   | Some rec =>
       if negb (pyval_eqb (captured rec "continuation_state") (PStr "HELD"))
       then refuse_resume continuation_id (Some rec) "REFUSED" "continuation-not-resumable" else
       let! expired := slift (continuation_expired (captured rec "continuation_expiry_basis")
                                (committed_height d) []) in
       if (expired : bool)
       then refuse_resume continuation_id (Some rec) "EXPIRED" "continuation-expired" else
       let! ps := slift (loads_or (captured rec "continuation_parameters") (PDict [])) in
       let! result := execute (resumed_call continuation_id rec ps gate eff atomicity now) in
       let! _ := _continuation_marker continuation_id rec "RESOLVED" false "continuation-resolved" in
       sret result
   end) k.

(** ** Snapshots *)

Record snapshot_fields := {
  sn_session_id : option string;
  sn_session_dkn : string;
  sn_status : status;
  sn_frame : kframe;
  sn_schema_hash : string;
  sn_frame_intact : bool;
  sn_receipt_count : Z;
  sn_refusal_count : Z;
  sn_admitted : Z;
  sn_stream_hash : string;
  sn_hash_verified : option bool;
  sn_refusal_rate_by_op : list (pyval * (Z * Z));
  sn_session_delta : Z;
  sn_refused_by_layer : list (string * Z);
  sn_require_governor_sig : bool;
  sn_finality_hash : string;
  sn_quorum : bool;
  sn_launch_ic_hash : string;
  sn_observation_surfaces : list string;
}.
Definition snapshot_of (verified : option bool) (surfaces : list string) (g : governance) :
    result exn snapshot_fields :=
  let k := gk g in
  let d := view (k_store k) in
  let* admits := receipts_by_op d "gate_admit" in
  let* rates := refusal_rate_by_op d in
  let* ic := match _launch_ic (gcsh g) with Some i => ic_hash i | None => Ok "" end in
  Ok {| sn_session_id := option_map si_session_id (k_identity (k_session k));
        sn_session_dkn := k_session_dkn (k_session k); sn_status := k_status k;
        sn_frame := k_frame k; sn_schema_hash := schema_hash (front (k_store k));
        sn_frame_intact := schema_frame_intact (k_store k);
        sn_receipt_count := receipt_count d; sn_refusal_count := refusal_count d;
        sn_admitted := Z.of_nat (length admits); sn_stream_hash := stream_hash d;
        sn_hash_verified := verified; sn_refusal_rate_by_op := rates;
        sn_session_delta := receipt_count d - k_session_open_count (k_session k);
        sn_refused_by_layer := k_refused k;
        sn_require_governor_sig := k_require_governor_sig (k_config k);
        sn_finality_hash := _csh_finality_hash (gcsh g); sn_quorum := _csh_quorum_achieved (gcsh g);
        sn_launch_ic_hash := ic; sn_observation_surfaces := surfaces |}.
Definition snapshot_fast (g : governance) : result exn snapshot_fields := snapshot_of None [] g.
Definition snapshot (g : governance) : result exn snapshot_fields :=
  let* _ := snapshot_fast g in
  let* ok := verify_stream_hash (view (k_store (gk g))) None in
  snapshot_of (Some ok) ["Cap-1"; "Cap-2"; "Cap-4"] g.
End session.

(** * Sessions and their summaries *)

Section session_facts.
Context {U : Unicode} {E : Ed25519} {G : Engine} {D : Deployment} (anchor : string).

(** A write of any kind, run at rest. *)
Lemma leads_write a k (Q : result exn Receipt -> list Receipt -> kernel -> Prop) :
  (forall x r row s, written a (k_store k) r row -> h_r row = h_r x -> idle s -> Q (Ok x) [row] (with_store s k)) ->
  (forall e s, Q (Err e) [] (with_store s k)) ->
  leads anchor (on_store (write a)) k Q.
Proof.
  intros H1 H2 Hc. unfold on_store. pose proof (write_advances a (k_store k)) as Ha.
  destruct (write a (k_store k)) as [x s'] eqn:Hw. cbn [fst snd] in *.
  assert (Hc' : calm anchor (with_store s' k)) by (by eapply calm_advances).
  destruct Hc as [F C S K]. apply write_spec in Hw as (T1 & _ & _ & T4). unfold grows, kview.
  cbn [k_store with_store]. destruct x as [x|e].
  - destruct T4 as (_ & r0 & row & Hwr & Hx & _ & Ht & Hdur & Hv). destruct (Hdur C) as [Hd _].
    exists [row]. split_and!; [done|by rewrite Hv|]. apply (H1 x r0 row s' Hwr).
    + subst x. destruct (written_receipt _ _ _ _ Hwr) as (_ & _ & _ & _ & _ & Hl & _).
      by destruct (links_eq _ _ Hl) as [-> _].
    + split; cbn; [congruence|by rewrite Ht, C|by rewrite Hd].
  - exists []. rewrite app_nil_r. split_and!; [done| |apply H2].
    destruct T4 as (_ & _ & _ & [->|(_ & Hcf & _)]); [done|]. by apply no_commit_fault in Hcf.
Qed.

Definition count_refusals (l : list Receipt) : Z :=
  Z.of_nat (length (List.filter (fun r => str_eqb (op r) "gate_refuse") l)).
Lemma counts_grow k k' l : grows k k' l ->
  receipt_count (kview k') = receipt_count (kview k) + Z.of_nat (length l) /\
  refusal_count (kview k') = refusal_count (kview k) + count_refusals l.
Proof.
  unfold grows, receipt_count, refusal_count, count_refusals. intros ->.
  rewrite List.filter_app, !length_app. lia.
Qed.

(** C29: a session closes with a summary that checks.  From rest, closing a session that
    returns a summary has added exactly one receipt, that of the close; the summary
    verifies its hash, is consistent with the store and the warrants it closes on, counts the
    receipts with the close among them and every one of them as refused or admitted, and is no longer
    consistent once any receipt has been added. *)
Theorem session_summary_sound now k s k' :
  close_session now k = (Ok (Some s), k') -> calm anchor k ->
  calm anchor k' /\ (exists row, grows k k' [row] /\ decision "session_close" false row) /\
  summary_verify_hash s = Ok true /\ is_consistent_with s (kview k') (k_warrants k') = true /\
  sm_receipt_count s = receipt_count (kview k) + 1 /\
  sm_refusal_count s = refusal_count (kview k) /\
  sm_receipt_count s = sm_refusal_count s + admitted_count s /\
  forall k2 l w, grows k' k2 l -> l <> [] -> is_consistent_with s (kview k2) w = false.
Proof.
  intros H Hc. unfold close_session in H. cbv zeta in H.
  destruct (leads_emit anchor (kernel_receipt "session_close" (k_authority k)
    (PDict [("session_id", match k_identity (k_session k) with
       | Some i => PStr (si_session_id i) | None => PNone end)]) false "session_close" true) k Hc)
    as (l & Hc' & Hg & Hq).
  apply sbind_ok in H as (x & k1 & Hw & H). rewrite Hw in *. cbn [fst snd] in *.
  destruct Hq as (row & -> & Hen). apply entered_decision in Hen; [|done..]. cbn in Hen.
  unfold sget in H. apply pair_ok in H as [H <-]. apply Ok_inj in H.
  change (view (k_store k)) with (kview k) in H.
  assert (Hwk : k_warrants k1 = k_warrants k).
  { unfold kwrite, on_store in Hw. destruct (write _ _) as [y s']. by apply pair_ok in Hw as [_ <-]. }
  destruct (counts_grow _ _ _ Hg) as [Hn Hr]. cbn [length] in Hn.
  assert (Hr0 : refusal_count (kview k1) = refusal_count (kview k)).
  { rewrite Hr. unfold count_refusals. cbn [List.filter]. destruct Hen as [[-> _ _ _ _] _].
    change (str_eqb "session_close" "gate_refuse") with false. cbn [length]. lia. }
  unfold session_summary in H. change (view (k_store k1)) with (kview k1) in H.
  destruct (summary_create _ _ _ _ _ _ _ _ _ _ _) as [s'|] eqn:Hs; [|done].
  apply Some_inj' in H. subst s'. unfold summary_create in Hs. cbv zeta in Hs.
  apply rbind_ok in Hs as (b & Hb & Hs). apply Ok_inj in Hs.
  split; [done|]. split; [exists row; done|].
  assert (Hv : summary_verify_hash s = Ok true).
  { subst s. unfold summary_verify_hash. cbn [sm_session_dkn sm_receipt_count sm_warrant_count
      sm_refusal_count admitted_count final_stream_hash sm_law_hash sm_legend_hash sm_phase_code
      sm_timestamp summary_hash]. rewrite Hb. cbn [rbind]. by rewrite str_eqb_refl. }
  subst s. cbn [sm_receipt_count sm_refusal_count admitted_count]. split_and!; try done.
  - unfold is_consistent_with. cbn [sm_receipt_count sm_refusal_count final_stream_hash sm_warrant_count].
    rewrite Z.eqb_refl, Hr0, Z.eqb_refl, str_eqb_refl. cbn [andb]. unfold warrants_of. rewrite Hwk.
    destruct (k_warrants k); [apply Z.eqb_refl|done].
  - unfold kview in *. lia.
  - intros k2 l w Hg2 Hne. unfold is_consistent_with. cbn [sm_receipt_count].
    destruct (counts_grow _ _ _ Hg2) as [Hn2 _].
    rewrite (proj2 (Z.eqb_neq _ _)); [done|]. destruct l; [done|]. cbn [length] in Hn2. lia.
Qed.

(** ** Opening *)

Lemma session_scope_spec now k : calm anchor k ->
  let k' := snd (session_scope now k) in
  fst (session_scope now k) = Ok tt /\ calm anchor k' /\ grows k k' [] /\
  k_identity (k_session k') = k_identity (k_session k) /\
  k_session_dkn (k_session k') = k_session_dkn (k_session k) /\
  k_session_open_count (k_session k') = k_session_open_count (k_session k) /\
  (k_scope_id (k_session k') = k_scope_id (k_session k) \/
   exists sc, k_scope_id (k_session k') = ps_scope_id sc /\ verify_id sc = Ok true /\
     ps_session_dkn sc = k_session_dkn (k_session k) /\
     authority_surface sc = k_mosaic_root (k_frame k) /\
     prior_scope_id sc = latest_scope_id (scope_archive (kview k)) (k_mosaic_root (k_frame k))).
Proof.
  intros Hc. unfold session_scope. cbv zeta. change (view (k_store k)) with (kview k).
  destruct (scope_create _ _ _ _ _ _ _ _) as [sc|e] eqn:Hsc.
  2:{ cbn [fst snd]. split_and!; [done|done|apply grows_refl|done..|by left]. }
  destruct (insert_commit_faults (fun d =>
    {| rows := rows d; seq := seq d; tables := tables d; legend_archive := legend_archive d;
       scope_archive := archive_seal sc (scope_archive d);
       authority_model_archive := authority_model_archive d |}) (k_store k) (calm_faults _ _ Hc))
    as (F' & C' & S' & R' & Fr'); [done|by destruct Hc|by destruct Hc|].
  fold (seal_scope sc) in F', C', S', R', Fr'. unfold on_store.
  destruct (seal_scope sc (k_store k)) as [x s']. cbn [fst snd with_store k_store k_session with_session
    k_identity k_session_dkn k_session_open_count k_scope_id] in *.
  split_and!; [done| |unfold grows, kview; cbn [k_store with_session with_store]; by rewrite R', app_nil_r
    |done|done|done|].
  - destruct Hc as [F C S K]. split; cbn [k_store with_session with_store]; try done.
    unfold chained in *. by rewrite R', Fr'.
  - right. exists sc. unfold scope_create in Hsc. cbv zeta in Hsc.
    apply rbind_ok in Hsc as (b & Hb & Hsc). apply Ok_inj in Hsc. subst sc.
    split_and!; try done. unfold verify_id. cbn [authority_surface ps_session_dkn ps_law_hash
      ps_legend_hash prior_scope_id scope_type ps_timestamp ps_scope_id].
    rewrite Hb. cbn [rbind]. by rewrite str_eqb_refl.
Qed.

(** Opening a session binds it.  From rest, an opening that returns has derived the
    session's identity from the governor's key, the phase and the identifier, made its key
    the one every receipt of the kernel carries, counted the receipts before it, and
    written one receipt, of the opening; its provenance scope, if it has one, verifies,
    is of this session and authority, and follows the latest scope of that authority. *)
Theorem open_session_binds session_id fresh now k sid k' :
  open_session session_id fresh now k = (Ok sid, k') -> calm anchor k ->
  calm anchor k' /\ exists ident,
    spawn_session_identity GOVERNOR_PUBKEY_HEX _PHASE_CODE session_id fresh DEFAULT_ALGORITHM_ID = Ok ident /\
    sid = si_session_id ident /\ k_identity (k_session k') = Some ident /\
    k_session_dkn (k_session k') = si_session_dkn ident /\
    k_session_open_count (k_session k') = receipt_count (kview k) /\
    (forall a, w_session_dkn (write_of k' a) = si_session_dkn ident) /\
    (exists row, grows k k' [row] /\ decision "session_open" false row) /\
    (k_scope_id (k_session k') = "" \/
     exists sc, k_scope_id (k_session k') = ps_scope_id sc /\ verify_id sc = Ok true /\
       ps_session_dkn sc = si_session_dkn ident /\ authority_surface sc = k_mosaic_root (k_frame k)).
Proof.
  intros H Hc. unfold open_session in H. apply sbind_ok in H as (ident & k0 & [Hid ->]%slift_ok & H).
  unfold smod in H. apply sbind_ok in H as (u & k1 & [_ <-]%pair_ok & H).
  match type of H with (sbind (kwrite ?a) _ ?k1) = _ => set (ka := k1) in *; set (arg := a) in * end.
  assert (Hca : calm anchor ka) by (by apply (calm_same anchor k)).
  apply sbind_ok in H as (x & k2 & Hw & H).
  destruct (leads_emit anchor arg ka Hca) as (l & Hc2 & Hg2 & Hq). rewrite Hw in *.
  cbn [fst snd] in *. destruct Hq as (row & -> & Hen). apply entered_decision in Hen; [|done..].
  assert (Hk2 : k2 = with_store (k_store k2) ka).
  { unfold kwrite, on_store in Hw. destruct (write _ _) as [y s']. by apply pair_ok in Hw as [_ <-]. }
  apply sbind_ok in H as (u2 & k3 & [_ <-]%pair_ok & H).
  assert (Hc3 : calm anchor (set_scope_id "" k2)) by (by apply (calm_same anchor k2)).
  destruct (session_scope_spec now (set_scope_id "" k2) Hc3) as (Hr & Hc4 & Hg4 & S1 & S2 & S3 & S4).
  apply sbind_ok in H as (u3 & k4 & Hsc & H). rewrite Hsc in *. cbn [fst snd] in *.
  apply pair_ok in H as [H <-]. apply Ok_inj in H. subst sid.
  split; [done|]. exists ident.
  cbn [k_session set_scope_id with_session k_identity k_session_dkn k_session_open_count k_scope_id] in S1, S2, S3, S4.
  rewrite Hk2 in S1, S2, S3, S4. cbn [k_session ka with_store with_session k_identity k_session_dkn
    k_session_open_count k_frame set_scope_id] in S1, S2, S3, S4.
  split_and!; try done.
  - exists row. split; [|done]. unfold grows in *. rewrite Hg4, app_nil_r.
    change (kview (set_scope_id "" k2)) with (kview k2). rewrite Hg2. done.
  - destruct S4 as [S4|(sc & E1 & E2 & E3 & E4 & E5)]; [by left|right]. by exists sc.
Qed.
End session_facts.

(** * Deferred operations *)

Section continuations.
Context {U : Unicode} {E : Ed25519} {G : Engine} {D : Deployment} (anchor : string).

Ltac key := apply (bool_decide_unpack _); vm_compute; exact I.

(** The continuation columns of the row of a write. *)
Lemma written_continuation a s r row : written a s r row -> is_none (w_continuation a) = false ->
  exists cs, _validate_continuation (w_continuation a) = Ok cs /\
    forall f, f ∈ continuation_keys -> text_cell (col f cs) = Ok (captured row f).
Proof.
  intros [eff p1 ps gr sn pj now cx g _ _ _ Hs Hr] Hn.
  apply seal_receipt_sealed in Hs as [kk term cap cont br now' body tvh _ _ _ Hcont _ _ Hsr].
  unfold continuation_columns in Hcont. rewrite Hn in Hcont. exists cont. split; [done|].
  unfold row_of in Hr. do 4 apply rbind_ok in Hr as (? & _ & Hr).
  apply rbind_ok in Hr as (cont' & Hc & Hr). apply rbind_ok in Hr as (? & _ & Hr).
  apply Ok_inj in Hr. subst row r. intros f Hf. unfold captured. cbn [continuation receipt_of] in *.
  by apply (store_cells_col continuation_keys).
Qed.

Lemma validated_fields c cs : _validate_continuation c = Ok cs ->
  (exists o, nonempty_str (py_get "op" c) = Some o /\ col "continuation_op" cs = PStr o) /\
  (is_pystr (py_get "authority" c) = true -> col "continuation_authority" cs = py_get "authority" c) /\
  _canon_eb (py_get "parameters" c) = Ok (col "continuation_parameters" cs) /\
  col "continuation_jurisdiction" cs = py_get "jurisdiction" c.
Proof.
  unfold _validate_continuation. intros H.
  destruct (is_pydict c); [|done]. apply rbind_ok in H as (b1 & _ & H). destruct b1; [|done].
  destruct (pyval_eqb _ (PStr CONTINUATION_RECORD_MODEL_ID)); [|done].
  destruct (expiry_shape _); [|done]. apply rbind_ok in H as (b2 & _ & H). destruct b2; [|done].
  destruct (negb (pyval_eqb _ _ && _)); [|done].
  destruct (nonempty_str (py_get "op" c)) as [o|]; [|done].
  apply rbind_ok in H as (cid & _ & H). apply rbind_ok in H as (cj & _ & H).
  apply rbind_ok in H as (ca & Ha & H). apply rbind_ok in H as (cp & Hp & H).
  apply Ok_inj in H. subst cs. split_and!; [by exists o| |done|done].
  intros Hs. rewrite Hs in Ha. by apply Ok_inj in Ha as <-.
Qed.

Lemma canon_text v : v <> PNone -> forall t, _canon_eb v = Ok t -> exists s, t = PStr s.
Proof. intros Hv t. unfold _canon_eb. destruct v; try done; intros (x & _ & <-%Ok_inj)%rbind_ok; by exists x. Qed.

(** The latest record is the one found. *)
Lemma last_match_app {A} (f : A -> bool) acc l1 l2 :
  last_match f acc (l1 ++ l2) = last_match f (last_match f acc l1) l2.
Proof. revert acc. induction l1 as [|x l1 IH]; intros acc; [done|apply IH]. Qed.
Lemma last_match_cases {A} (f : A -> bool) l : forall acc,
  last_match f acc l = acc \/ exists x, last_match f acc l = Some x /\ x ∈ l /\ f x = true.
Proof.
  induction l as [|y l IH]; intros acc; [by left|]. cbn [last_match].
  destruct (IH (if f y then Some y else acc)) as [->|(x & -> & Hx & Hf)].
  - destruct (f y) eqn:Hy; [right; exists y; split_and!; [done|by left|done]|by left].
  - right. exists x. split_and!; [done|by right|done].
Qed.

Lemma row_captured row r f : _row_to_receipt row = Ok r -> captured r f = captured row f.
Proof. unfold _row_to_receipt. destruct (json_loads _); [|done]. by intros <-%Ok_inj. Qed.

Lemma find_latest d row r cid rs : all_receipts d = Ok rs ->
  (exists rs0, rs = rs0 ++ [r]) -> _row_to_receipt row = Ok r ->
  captured row "continuation_id" = PStr cid -> cid <> "" ->
  find_continuation d cid = Ok (Some r).
Proof.
  intros Hrs (rs0 & ->) Hr Hc Hne. unfold find_continuation.
  rewrite (proj2 (str_eqb_false cid "") Hne), Hrs. cbn [rbind]. f_equal.
  rewrite last_match_app. cbn [last_match].
  change (col "continuation_id" (continuation r)) with (captured r "continuation_id").
  by rewrite (row_captured _ _ _ Hr), Hc, (proj2 (pyval_eqb_str (PStr cid) cid) eq_refl).
Qed.

(** What is found of an identifier later: the same record, or one of the later rows that bears it. *)
Lemma find_later k k2 l cid rec rs2 : grows k k2 l -> find_continuation (kview k) cid = Ok (Some rec) ->
  all_receipts (kview k2) = Ok rs2 ->
  exists rec2, find_continuation (kview k2) cid = Ok (Some rec2) /\
    (rec2 = rec \/ exists row, row ∈ l /\ _row_to_receipt row = Ok rec2 /\ captured row "continuation_id" = PStr cid).
Proof.
  intros Hg Hf Hrs. unfold find_continuation in *. destruct (str_eqb cid ""); [discriminate Hf|].
  apply rbind_ok in Hf as (rs & Hrs1 & Hf). apply Ok_inj in Hf. rewrite Hrs. cbn [rbind].
  unfold all_receipts in *. rewrite Hg in Hrs. apply sequence_forall2 in Hrs, Hrs1.
  apply Forall2_app_inv_l in Hrs as (rs1 & rs3 & H1 & H3 & ->).
  assert (rs1 = rs) as -> by (eapply Forall2_unique; [exact H1|exact Hrs1|intros; congruence]).
  rewrite last_match_app, Hf.
  destruct (last_match_cases (fun r => pyval_eqb (col "continuation_id" (continuation r)) (PStr cid)) rs3 (Some rec))
    as [->|(x & -> & Hx & He)]; [exists rec; split; [done|by left]|].
  exists x. split; [done|right]. apply list_elem_of_lookup in Hx as (i & Hi).
  destruct (Forall2_lookup_r _ _ _ _ _ H3 Hi) as (row & Hrow & Hr). exists row.
  split_and!; [by apply list_elem_of_lookup; exists i|done|].
  rewrite <- (row_captured _ _ _ Hr). by apply pyval_eqb_str.
Qed.

(** A continuation write at rest: what the record found afterwards holds. *)
Lemma leads_continuation k a cid x k' : on_store (write a) k = (Ok x, k') -> calm anchor k ->
  is_none (w_continuation a) = false ->
  (forall cs, _validate_continuation (w_continuation a) = Ok cs -> col "continuation_id" cs = PStr cid) ->
  cid <> "" -> forall rs', all_receipts (kview k') = Ok rs' ->
  calm anchor k' /\ exists row r cs, grows k k' [row] /\ find_continuation (kview k') cid = Ok (Some r) /\
    _validate_continuation (w_continuation a) = Ok cs /\
    forall f, f ∈ continuation_keys -> text_cell (col f cs) = Ok (captured r f).
Proof.
  intros H Hc Hn Hid Hne rs' Hrs'.
  destruct (leads_write anchor a k (fun r l k' => match r with
     | Ok x => exists r0 row, l = [row] /\ written a (k_store k) r0 row | Err _ => True end)) with (3 := Hc)
    as (l & Hc' & Hg & Hq); [intros y r row s Hw _ _; by exists r, row|done|].
  rewrite H in *. cbn [fst snd] in *. destruct Hq as (r0 & row & -> & Hw). split; [done|].
  destruct (written_continuation _ _ _ _ Hw Hn) as (cs & Hcs & Hcols).
  unfold all_receipts in Hrs'. pose proof Hrs' as Hseq. rewrite Hg in Hseq.
  apply sequence_forall2 in Hseq. apply Forall2_app_inv_l in Hseq as (rs0 & rs1 & H0 & H1 & ->).
  apply Forall2_cons_inv_l in H1 as (r & rest & Hr & Hnil & ->).
  apply Forall2_nil_inv_l in Hnil as ->.
  exists row, r, cs. split_and!; [done| |done|].
  - apply (find_latest _ row r cid (rs0 ++ [r])); [done|by exists rs0|done| |done].
    pose proof (Hcols "continuation_id" ltac:(key)) as Hi.
    rewrite (Hid cs Hcs) in Hi. cbn in Hi. by apply Ok_inj in Hi.
  - intros f Hf. rewrite (row_captured row r f Hr). by apply Hcols.
Qed.

Lemma text_cell_str s v : text_cell (PStr s) = Ok v -> v = PStr s.
Proof. by intros H%Ok_inj. Qed.


(** What a deferral leaves: the held continuation under its identifier, with what it captured. *)
Definition deferral_expiry (k : kernel) : pyval :=
  PDict [("kind", PStr "receipt_height"); ("value", PInt (committed_height (kview k) + DEFAULT_HORIZON))].

Lemma deferral_recorded o who ps juris k cid k' rs' :
  defer_operation o who ps juris None None k = (Ok cid, k') -> calm anchor k ->
  all_receipts (kview k') = Ok rs' -> pyval_ok (PDict ps) = true ->
  calm anchor k' /\ exists rec row pj ej, find_continuation (kview k') cid = Ok (Some rec) /\ grows k k' [row] /\
    captured rec "continuation_state" = PStr "HELD" /\ captured rec "continuation_op" = PStr o /\
    captured rec "continuation_authority" = PStr (or_authority who k) /\
    captured rec "continuation_jurisdiction" = PStr juris /\
    captured rec "continuation_parameters" = PStr pj /\ json_loads pj = Some (canon (PDict ps)) /\
    captured rec "continuation_expiry_basis" = PStr ej /\ json_loads ej = Some (canon (deferral_expiry k)).
Proof.
  intros H Hc Hrs' Hok. unfold defer_operation in H. cbv zeta in H.
  apply sbind_ok in H as (cid0 & k0 & [Hcid ->]%slift_ok & H).
  apply sbind_ok in H as (x & k1 & Hw & H). apply pair_ok in H as [H <-]. apply Ok_inj in H. subst cid0.
  change (view (k_store k)) with (kview k) in Hw, Hcid.
  match type of Hw with on_store (write ?a) _ = _ => set (wa := a) in * end.
  assert (Hlen : cid <> "").
  { unfold compute_continuation_id in Hcid. apply rbind_ok in Hcid as (b & _ & Hb). apply Ok_inj in Hb.
    intros ->. apply (f_equal String.length) in Hb. rewrite sha256_hex_length in Hb. done. }
  assert (Hid : forall cs, _validate_continuation (w_continuation wa) = Ok cs -> col "continuation_id" cs = PStr cid).
  { intros cs (_ & _ & _ & _ & Hi)%validate_continuation_ok. unfold continuation_id_of in Hi.
    cbn [wa outcome_write w_continuation continuation_dict py_get app] in Hi.
    change (is_none (col "anchor" _)) with false in Hi. cbn [negb] in Hi.
    apply rbind_ok in Hi as (ex & Hex & Hi).
    assert (ex = cid) as -> by (eapply Ok_inj; rewrite <- Hex; exact Hcid).
    destruct (negb (is_none _) && _); [done|]. by apply Ok_inj in Hi. }
  destruct (leads_continuation k wa cid x k1 Hw Hc eq_refl Hid Hlen rs' Hrs')
    as (Hc' & row & r & cs & Hg & Hf & Hv & Hcols).
  split; [done|]. pose proof (validate_continuation_ok _ _ Hv) as ((st & Hst & _ & Hst') & _ & Heb & _).
  pose proof (validated_fields _ _ Hv) as ((o' & Ho & Ho') & Hau & Hpa & Hju).
  cbn in Hst. injection Hst as <-. specialize (Hau eq_refl).
  change (py_get "op" _) with (PStr o) in Ho. change (py_get "jurisdiction" _) with (PStr juris) in Hju.
  change (py_get "authority" _) with (PStr (or_authority who k)) in Hau.
  change (py_get "parameters" _) with (PDict ps) in Hpa.
  change (py_get "expiry_basis" _) with (deferral_expiry k) in Heb.
  assert (o' = o) as ->.
  { unfold nonempty_str in Ho. destruct (str_eqb o ""); [discriminate Ho|]. by apply Some_inj' in Ho. }
  destruct (canon_eb_loads (PDict ps) _ ltac:(done) Hok Hpa) as (pj & Hpj & Hpl).
  destruct (canon_eb_loads (deferral_expiry k) _ ltac:(done) eq_refl Heb) as (ej & Hej & Hel).
  exists r, row, pj, ej. split_and!; try done; apply text_cell_str;
    [rewrite <- Hst'|rewrite <- Ho'|rewrite <- Hau|rewrite <- Hju|rewrite <- Hpj|rewrite <- Hej]; apply Hcols; key.
Qed.

(** The horizon a deferral sets is a million receipts from where it was recorded. *)
Lemma horizon_reached k k2 l ej : grows k k2 l -> json_loads ej = Some (canon (deferral_expiry k)) ->
  continuation_expired (PStr ej) (committed_height (kview k2)) [] = Ok (1000000 <=? Z.of_nat (length l)).
Proof.
  intros Hg Hel. unfold continuation_expired. rewrite Hel. cbn [rbind]. unfold deferral_expiry.
  rewrite !py_get_canon by (cbn; repeat constructor; set_solver).
  change (col "kind" _) with (PStr "receipt_height"). cbn [py_get].
  change (col "kind" _) with (PStr "receipt_height").
  change (col "value" _) with (PInt (committed_height (kview k) + DEFAULT_HORIZON)).
  cbn [canon py_int rbind]. f_equal. unfold committed_height.
  destruct (counts_grow _ _ _ Hg) as [-> _]. unfold DEFAULT_HORIZON.
  apply eq_true_iff_eq. rewrite !Z.leb_le. lia.
Qed.

(** A refused resume leaves its record, one refusal receipt, unless the write of it fails. *)
Lemma written_op a s r row : written a s r row -> compress a = false -> op row = w_op a.
Proof.
  intros [eff p1 ps gr sn pj now cx g _ _ _ Hs Hr] Hz.
  apply seal_receipt_sealed in Hs as [k term cap cont br now' body tvh _ _ _ _ _ _ ->].
  unfold row_of in Hr. do 6 (apply rbind_ok in Hr as (? & _ & Hr)). apply Ok_inj in Hr. subst row.
  cbn [op]. unfold stored. by rewrite Hz.
Qed.

Lemma leads_refuse_resume {A} cid rec st reason k :
  leads anchor (@refuse_resume _ _ _ A cid (Some rec) st reason) k (fun r l _ =>
    (r = Err (GateRefusal reason) /\ exists row, l = [row] /\ op row = "gate_refuse")
    \/ (l = [] /\ exists e, r = Err e)).
Proof.
  intros Hc. unfold refuse_resume, _continuation_marker, sbind, slift. cbv zeta.
  destruct (loads_or (captured rec "continuation_parameters") _) as [ps|e].
  2:{ exists []. cbn [fst snd]. split_and!; [done|apply grows_refl|right; eauto]. }
  destruct (loads_or (captured rec "continuation_expiry_basis") _) as [eb|e].
  2:{ exists []. cbn [fst snd]. split_and!; [done|apply grows_refl|right; eauto]. }
  match goal with |- context [on_store (write ?a)] => set (wa := a) end.
  destruct (leads_write anchor wa k (fun r l k' => match r with
     | Ok _ => exists row, l = [row] /\ op row = "gate_refuse" | Err _ => l = [] end)) with (3 := Hc)
    as (l & Hc' & Hg & Hq); [|done|].
  { intros x r row s Hw _ _. exists row. split; [done|]. by rewrite (written_op _ _ _ _ Hw eq_refl). }
  exists l. destruct (on_store (write wa) k) as [[x|e] k1]; cbn [fst snd] in *;
    (split_and!; [done|done|]); [left|right]; eauto.
Qed.

(** C17: a deferred operation resumes as it was captured.  From rest, a deferral that returns
    has recorded, under the identifier it answers, a held continuation.  In every later
    state [k2] of the chain whose rows are readable and hold no other record of the identifier,
    that record is the one found, and a resume there is decided by the horizon alone: until a
    million receipts have come in, counting the deferral's own, it is exactly the full
    governed execution of the captured operation, authority, parameters (as a dictionary)
    and jurisdiction, with whatever gate and effect the resume supplies, followed by the
    record of its resolution, and nothing of the admission is skipped; from then on it is the
    refusal of an expired continuation. *)
Theorem deferred_resumes_as_captured o who ps juris k cid k' rs' :
  defer_operation o who ps juris None None k = (Ok cid, k') -> calm anchor k ->
  all_receipts (kview k') = Ok rs' -> pyval_ok (PDict ps) = true ->
  calm anchor k' /\
  exists rec, find_continuation (kview k') cid = Ok (Some rec) /\
    captured rec "continuation_state" = PStr "HELD" /\
    forall k2 l rs2, grows k' k2 l -> all_receipts (kview k2) = Ok rs2 ->
      (forall r, r ∈ l -> captured r "continuation_id" <> PStr cid) ->
      find_continuation (kview k2) cid = Ok (Some rec) /\
      forall gate eff at_ now, resume_continuation cid gate eff at_ now k2 =
        if 1000000 <=? 1 + Z.of_nat (length l)
        then refuse_resume cid (Some rec) "EXPIRED" "continuation-expired" k2
        else
      (let! v := execute {| x_op := o; x_authority := PStr (or_authority who k);
           x_parameters := canon (PDict ps); x_gate := gate; x_effect := eff; x_atomicity := at_;
           x_idempotency_key := PNone; x_gate_margin := PNone; x_layer := "I"; x_jurisdiction := juris;
           x_governor_sig := None; x_warrant_basis := NoBasis; x_intent_ref := cid;
           x_authority_set := PNone; x_capability_verdicts := []; x_required_locality := None;
           x_now := now |} in
       let! _ := _continuation_marker cid rec "RESOLVED" false "continuation-resolved" in
       sret v) k2.
Proof.
  intros H Hc Hrs' Hok. destruct (deferral_recorded _ _ _ _ _ _ _ _ H Hc Hrs' Hok)
    as (Hc' & rec & row & pj & ej & Hf & Hg & Hcap & Hop & Haut & Hjur & Hpar & Hpl & Hexp & Hel).
  split; [done|]. exists rec. split_and!; [done|done|]. intros k2 l rs2 Hg2 Hrs2 Hother.
  assert (Hf2 : find_continuation (kview k2) cid = Ok (Some rec)).
  { destruct (find_later _ _ _ _ _ _ Hg2 Hf Hrs2) as (rec2 & Hf2 & [->|(row2 & Hin & _ & Hid)]); [done|].
    by destruct (Hother row2 Hin). }
  split; [done|]. intros gate eff at_ now.
  unfold resume_continuation. cbv zeta. change (view (k_store k2)) with (kview k2).
  unfold sbind at 1, slift at 1. rewrite Hf2, Hcap, Hexp.
  assert (Hne : forall s v, json_loads s = Some v -> truthy (PStr s) = true).
  { intros s v Hs. destruct s; [discriminate Hs|done]. }
  change (pyval_eqb (PStr "HELD") (PStr "HELD")) with true. cbn [negb].
  unfold sbind at 1, slift at 1. rewrite (horizon_reached _ _ _ _ (grows_trans _ _ _ _ _ Hg Hg2) Hel).
  cbn [length app]. replace (Z.of_nat (S (length l))) with (1 + Z.of_nat (length l)) by lia.
  destruct (1000000 <=? 1 + Z.of_nat (length l)); [done|].
  unfold sbind at 1, slift at 1. unfold loads_or. rewrite Hpar, (Hne _ _ Hpl), Hpl.
  unfold resumed_call. rewrite Hop, Haut, Hjur.
  assert (Ht : forall s, text_of (PStr s) "" = s) by (intros []; reflexivity).
  by rewrite !Ht.
Qed.

(** What a resume that returned leaves: its continuation, resolved. *)
Lemma resume_resolves cid gate eff at_ now k v k' rs' :
  resume_continuation cid gate eff at_ now k = (Ok v, k') -> calm anchor k -> cid <> "" ->
  (forall g, gate = Some g -> lawful g) -> (forall f, eff = Some f -> lawful f) ->
  all_receipts (kview k') = Ok rs' ->
  calm anchor k' /\ exists r, find_continuation (kview k') cid = Ok (Some r) /\
    captured r "continuation_state" = PStr "RESOLVED".
Proof.
  intros H Hc Hne Hgate Heff Hrs'. unfold resume_continuation in H. cbv zeta in H.
  apply sbind_ok in H as (found & k0 & [_ ->]%slift_ok & H). destruct found as [rec|].
  2:{ unfold refuse_resume in H. by apply sbind_ok in H as (? & ? & _ & H). }
  destruct (negb _).
  { unfold refuse_resume in H. by apply sbind_ok in H as (? & ? & _ & H). }
  apply sbind_ok in H as (ex & k0 & [_ ->]%slift_ok & H). destruct ex.
  { unfold refuse_resume in H. by apply sbind_ok in H as (? & ? & _ & H). }
  apply sbind_ok in H as (ps & k0 & [_ ->]%slift_ok & H).
  apply sbind_ok in H as (v' & k1 & Hx & H). apply sbind_ok in H as (u & k2 & Hm & H).
  apply pair_ok in H as [_ <-].
  destruct (leads_execute anchor (resumed_call cid rec ps gate eff at_ now) k Hgate Heff Hc)
    as (l & Hc1 & _ & _). rewrite Hx in Hc1. cbn [snd] in Hc1.
  unfold _continuation_marker in Hm. apply sbind_ok in Hm as (ps' & k0 & [_ ->]%slift_ok & Hm).
  apply sbind_ok in Hm as (eb & k0 & [_ ->]%slift_ok & Hm). cbv zeta in Hm.
  apply sbind_ok in Hm as (x & k3 & Hw & Hm). apply pair_ok in Hm as [_ <-].
  match type of Hw with on_store (write ?a) _ = _ => set (wa := a) in * end.
  assert (Hid : forall cs, _validate_continuation (w_continuation wa) = Ok cs -> col "continuation_id" cs = PStr cid).
  { intros cs (_ & _ & _ & _ & Hi)%validate_continuation_ok. unfold continuation_id_of in Hi. cbv zeta in Hi.
    change (py_get "anchor" _) with PNone in Hi. change (py_get "id" _) with (PStr cid) in Hi.
    cbn [is_none negb nonempty_str] in Hi. rewrite (proj2 (str_eqb_false cid "") Hne) in Hi.
    by apply Ok_inj in Hi. }
  destruct (leads_continuation k1 wa cid x k3 Hw Hc1 eq_refl Hid Hne rs' Hrs')
    as (Hc' & row & r & cs & Hg & Hf & Hv & Hcols).
  split; [done|]. pose proof (validate_continuation_ok _ _ Hv) as ((st & Hst & _ & Hst') & _).
  change (py_get "state" _) with (PStr "RESOLVED") in Hst. injection Hst as <-.
  exists r. split; [done|]. apply text_cell_str. rewrite <- Hst'. apply Hcols. key.
Qed.

(** C18: an operation is resumed once.  After a resume that returned, from rest, with the
    gate and the effect only adding to the chain, every resume of that continuation in
    every later state [k2] of the chain, whatever gate and effect it brings, is the refusal
    "continuation-not-resumable": the gate and the effect are not consulted, and at rest the
    chain gains that refusal's one receipt (or, where its write fails, nothing).  The later
    rows must be readable and none of them may hold the continuation anew: a second
    deferral of the same operation with the same explicit anchor bears the same identifier
    and makes it resumable again ([redeferral_reopens]). *)
Theorem continuation_resumed_once cid gate eff at_ now k v k' rs' :
  resume_continuation cid gate eff at_ now k = (Ok v, k') -> calm anchor k -> cid <> "" ->
  (forall g, gate = Some g -> lawful g) -> (forall f, eff = Some f -> lawful f) ->
  all_receipts (kview k') = Ok rs' ->
  calm anchor k' /\
  forall k2 l rs2, grows k' k2 l -> all_receipts (kview k2) = Ok rs2 ->
    (forall r, r ∈ l -> captured r "continuation_id" = PStr cid ->
       captured r "continuation_state" <> PStr "HELD") ->
    exists rec, find_continuation (kview k2) cid = Ok (Some rec) /\
    (forall gate2 eff2 at2 now2, resume_continuation cid gate2 eff2 at2 now2 k2
       = refuse_resume cid (Some rec) "REFUSED" "continuation-not-resumable" k2) /\
    (calm anchor k2 -> forall gate2 eff2 at2 now2 r k3,
       resume_continuation cid gate2 eff2 at2 now2 k2 = (r, k3) ->
       calm anchor k3 /\ exists l3, grows k2 k3 l3 /\
       ((r = Err (GateRefusal "continuation-not-resumable") /\ exists row, l3 = [row] /\ op row = "gate_refuse")
        \/ (l3 = [] /\ exists e, r = Err e))).
Proof.
  intros H Hc Hne Hgate Heff Hrs'.
  destruct (resume_resolves _ _ _ _ _ _ _ _ _ H Hc Hne Hgate Heff Hrs') as (Hc' & rec0 & Hf0 & Hs0).
  split; [done|]. intros k2 l rs2 Hg2 Hrs2 Hother.
  destruct (find_later _ _ _ _ _ _ Hg2 Hf0 Hrs2) as (rec & Hf & Hrec). exists rec.
  assert (Hs : captured rec "continuation_state" <> PStr "HELD").
  { destruct Hrec as [->|(row & Hin & Hr & Hid)]; [by rewrite Hs0|].
    rewrite (row_captured _ _ _ Hr). by apply Hother. }
  assert (Hres : forall gate2 eff2 at2 now2, resume_continuation cid gate2 eff2 at2 now2 k2
       = refuse_resume cid (Some rec) "REFUSED" "continuation-not-resumable" k2).
  { intros gate2 eff2 at2 now2. unfold resume_continuation. cbv zeta.
    change (view (k_store k2)) with (kview k2). unfold sbind at 1, slift at 1. rewrite Hf.
    destruct (pyval_eqb _ _) eqn:He; [by apply pyval_eqb_str in He|done]. }
  split_and!; [done|done|]. intros Hc2 gate2 eff2 at2 now2 r k3 Hrun. rewrite Hres in Hrun.
  destruct (leads_refuse_resume (A := pyval) cid rec "REFUSED" "continuation-not-resumable" k2 Hc2)
    as (l3 & Hc3 & Hg3 & Hq). rewrite Hrun in Hc3, Hg3, Hq. split; [done|]. by exists l3.
Qed.
End continuations.

(** * Examples *)

Definition session_kernel : kernel := Eval vm_compute in
  snd (@open_session nfc_id ed_demo demo_engine founded_deployment None "session-1" "now"
         (gk (snd demo_ceremony))).
Definition deferred : result exn string * kernel := Eval vm_compute in
  @defer_operation nfc_id ed_demo demo_engine "transfer" None [("amount", PInt 5)] "session" None None session_kernel.
Definition deferred_id : string := Eval vm_compute in match fst deferred with Ok s => s | Err _ => "" end.
Definition deferred_rows : list Receipt := Eval vm_compute in read_rows (snd deferred).
Definition resumed : result exn pyval * kernel := Eval vm_compute in
  @resume_continuation nfc_id ed_demo demo_engine founded_deployment deferred_id None None None "now" (snd deferred).
Definition resumed_rows : list Receipt := Eval vm_compute in read_rows (snd resumed).
Definition closed : result exn (option SessionSummary) * kernel := Eval vm_compute in
  @close_session nfc_id ed_demo demo_engine founded_deployment "now" (snd resumed).

(** The evaluated runs, in the form the theorems read them. *)
Lemma opened_run :
  @open_session nfc_id ed_demo demo_engine founded_deployment None "session-1" "now"
    (gk (snd demo_ceremony)) = (Ok "session-1", session_kernel).
Proof. vm_compute. reflexivity. Qed.
Lemma deferred_run :
  @defer_operation nfc_id ed_demo demo_engine "transfer" None [("amount", PInt 5)] "session" None None
    session_kernel = (Ok deferred_id, snd deferred).
Proof. vm_compute. reflexivity. Qed.
Lemma resumed_run :
  @resume_continuation nfc_id ed_demo demo_engine founded_deployment deferred_id None None None "now"
    (snd deferred) = (Ok PNone, snd resumed).
Proof. vm_compute. reflexivity. Qed.
Lemma closed_run :
  @close_session nfc_id ed_demo demo_engine founded_deployment "now" (snd resumed) = closed.
Proof. vm_compute. reflexivity. Qed.
Lemma closed_ok : match fst closed with Ok (Some _) => true | _ => false end = true.
Proof. reflexivity. Qed.
Lemma founded_calm : calm GENESIS (gk (snd demo_ceremony)).
Proof. split; vm_compute; auto. Qed.
Lemma session_calm : calm GENESIS session_kernel.
Proof. split; vm_compute; auto. Qed.
Lemma deferred_calm : calm GENESIS (snd deferred).
Proof. split; vm_compute; auto. Qed.
Lemma resumed_calm : calm GENESIS (snd resumed).
Proof. split; vm_compute; auto. Qed.
Lemma deferred_read : all_receipts (kview (snd deferred)) = Ok deferred_rows.
Proof. vm_compute. reflexivity. Qed.
Lemma resumed_read : all_receipts (kview (snd resumed)) = Ok resumed_rows.
Proof. vm_compute. reflexivity. Qed.

Lemma open_session_binds_witness : exists ident,
  k_identity (k_session session_kernel) = Some ident /\ si_session_id ident = "session-1".
Proof.
  destruct (@open_session_binds nfc_id ed_demo demo_engine founded_deployment GENESIS None "session-1" "now"
    (gk (snd demo_ceremony)) "session-1" session_kernel opened_run founded_calm)
    as (_ & ident & _ & Hs & Hi & _).
  exists ident. split; [exact Hi|exact (eq_sym Hs)].
Defined.

Lemma session_summary_sound_witness : exists s,
  summary_verify_hash s = Ok true /\ is_consistent_with s (kview (snd closed)) (k_warrants (snd closed)) = true.
Proof.
  pose proof closed_run as Hrun. pose proof closed_ok as Hok. destruct closed as [r k'].
  destruct r as [[s|]|e]; [|discriminate Hok..].
  destruct (@session_summary_sound nfc_id ed_demo demo_engine founded_deployment GENESIS "now"
    (snd resumed) s k' Hrun resumed_calm) as (_ & _ & Hv & Hi & _).
  exists s. split; [exact Hv|exact Hi].
Defined.

(** Later states: a session closed between the deferral and its resumption, and a second
    attempt to resume, refused, between the resume and the next one. *)
Definition closed_since : kernel := Eval vm_compute in
  snd (@close_session nfc_id ed_demo demo_engine founded_deployment "now" (snd deferred)).
Definition since_deferral : list Receipt := Eval vm_compute in
  skipn (length deferred_rows) (rows (kview closed_since)).
Definition closed_since_rows : list Receipt := Eval vm_compute in read_rows closed_since.
Definition retried : result exn pyval * kernel := Eval vm_compute in
  @resume_continuation nfc_id ed_demo demo_engine founded_deployment deferred_id None None None "now" (snd resumed).
Definition since_resume : list Receipt := Eval vm_compute in
  skipn (length resumed_rows) (rows (kview (snd retried))).
Definition retried_rows : list Receipt := Eval vm_compute in read_rows (snd retried).

Lemma since_deferral_grows : grows (snd deferred) closed_since since_deferral.
Proof. vm_compute. reflexivity. Qed.
Lemma closed_since_read : all_receipts (kview closed_since) = Ok closed_since_rows.
Proof. vm_compute. reflexivity. Qed.
Lemma since_deferral_other r : r ∈ since_deferral -> captured r "continuation_id" <> PStr deferred_id.
Proof. intros ->%list_elem_of_singleton. vm_compute. discriminate. Qed.
Lemma since_resume_grows : grows (snd resumed) (snd retried) since_resume.
Proof. vm_compute. reflexivity. Qed.
Lemma retried_read : all_receipts (kview (snd retried)) = Ok retried_rows.
Proof. vm_compute. reflexivity. Qed.
Lemma since_resume_terminal r : r ∈ since_resume -> captured r "continuation_id" = PStr deferred_id ->
  captured r "continuation_state" <> PStr "HELD".
Proof. intros ->%list_elem_of_singleton _. vm_compute. discriminate. Qed.

Lemma deferred_resumes_as_captured_witness : length since_deferral = 1%nat /\ exists rec,
  find_continuation (kview (snd deferred)) deferred_id = Ok (Some rec) /\
  captured rec "continuation_state" = PStr "HELD" /\
  find_continuation (kview closed_since) deferred_id = Ok (Some rec).
Proof.
  split; [reflexivity|].
  destruct (@deferred_resumes_as_captured nfc_id ed_demo demo_engine founded_deployment GENESIS
    "transfer" None [("amount", PInt 5)] "session" session_kernel deferred_id (snd deferred) deferred_rows
    deferred_run session_calm deferred_read eq_refl) as (_ & rec & Hf & Hc & H).
  exists rec. split; [exact Hf|]. split; [exact Hc|].
  exact (proj1 (H closed_since since_deferral closed_since_rows since_deferral_grows closed_since_read
    since_deferral_other)).
Defined.

Lemma continuation_resumed_once_witness : length since_resume = 1%nat /\
  exists rec, forall gate2 eff2 at2 now2,
  @resume_continuation nfc_id ed_demo demo_engine founded_deployment deferred_id gate2 eff2 at2 now2 (snd retried)
    = @refuse_resume nfc_id ed_demo demo_engine _ deferred_id (Some rec) "REFUSED" "continuation-not-resumable"
        (snd retried).
Proof.
  split; [reflexivity|].
  destruct (@continuation_resumed_once nfc_id ed_demo demo_engine founded_deployment GENESIS deferred_id
    None None None "now" (snd deferred) PNone (snd resumed) resumed_rows resumed_run deferred_calm)
    as [_ H]; [discriminate|discriminate|discriminate|exact resumed_read|].
  destruct (H (snd retried) since_resume retried_rows since_resume_grows retried_read since_resume_terminal)
    as (rec & _ & Hr & _).
  exists rec. exact Hr.
Defined.

(** *** Where a continuation is resumable again *)

(** The state a resume of the continuation would find. *)
Definition found_state (cid : string) (k : kernel) : result exn pyval :=
  let* r := find_continuation (kview k) cid in
  Ok match r with Some r => captured r "continuation_state" | None => PNone end.
Definition anchored (k : kernel) : result exn string * kernel :=
  @defer_operation nfc_id ed_demo demo_engine "transfer" None [("amount", PInt 5)] "session" None (Some "a") k.

Definition anchored1 : result exn string * kernel := Eval vm_compute in anchored session_kernel.
Definition anchored_id : string := Eval vm_compute in match fst anchored1 with Ok s => s | Err _ => "" end.
Definition ran (k : kernel) : result exn pyval * kernel :=
  @resume_continuation nfc_id ed_demo demo_engine founded_deployment anchored_id None None None "now" k.
Definition anchored2 : result exn pyval * kernel := Eval vm_compute in ran (snd anchored1).
Definition anchored3 : result exn string * kernel := Eval vm_compute in anchored (snd anchored2).

(** Deferring the same operation again with the same explicit anchor bears the identifier of
    the first deferral: an operation already resumed is held, and runs, a second time. *)
Theorem redeferral_reopens :
  fst (anchored session_kernel) = Ok anchored_id /\
  fst (ran (snd anchored1)) = Ok PNone /\ found_state anchored_id (snd anchored2) = Ok (PStr "RESOLVED") /\
  fst (anchored (snd anchored2)) = Ok anchored_id /\ found_state anchored_id (snd anchored3) = Ok (PStr "HELD") /\
  fst (ran (snd anchored3)) = Ok PNone.
Proof. vm_compute. split_and!; reflexivity. Qed.

(** A resumed operation that its gate refuses has its refusal recorded, but not the
    resolution of the continuation, which stays held and can be resumed again. *)
Theorem refused_resume_stays_held : exists e k',
  @resume_continuation nfc_id ed_demo demo_engine founded_deployment deferred_id
    (Some (fun k => (Ok (PBool false), k))) None None "now" (snd deferred) = (Err (GateRefusal e), k') /\
  found_state deferred_id k' = Ok (PStr "HELD").
Proof.
  pose (r := @resume_continuation nfc_id ed_demo demo_engine founded_deployment deferred_id
    (Some (fun k => (Ok (PBool false), k))) None None "now" (snd deferred)).
  exists (match fst r with Err (Exn _ m) => m | Ok _ => "" end), (snd r). vm_compute. split; reflexivity.
Qed.
