(* ===== verification/NamespaceGov.v ===== *)
(** Namespace ownership ([ugk/namespace_governance.py]): ownership as a fold of the
    receipt chain, the admission gates that read it, and the governed calls that move it.
    The fold is proved to be, name by name, a run of a small ownership machine. *)
From S2P Require Import Prelude Json Binding BindingM2 Frame Receipt Sqlite Archives Store StoreFacts Will Warrant Effects Kernel KernelFacts ExecuteFacts.

(** * Names *)

(** Case folding, and the text of a list or a dictionary ([repr]), which depends on the
    printable characters: data of the Unicode tables of the installation, like [nfc]. *)
Class Casing := { casefold : string -> string; container_repr : pyval -> string }.

Section names.
Context {U : Unicode} {C : Casing}.

Definition py_str (v : pyval) : string :=
  match v with
  | PNone => "None"
  | PBool b => if b then "True" else "False"
  | PInt z => str_of_Z z
  | PFloat r => r
  | PStr s => s
  | _ => container_repr v
  end.

Definition canonicalize (name : pyval) : string :=
  match name with
  | PNone => ""
  | _ => casefold (text_strip (nfc (py_str name)))
  end.
End names.

(** What a dictionary finds equal keys by: a truth value is the integer it is, and lists and
    dictionaries cannot be keys. *)
Inductive key := KStr (s : string) | KNum (z : Z) | KFloat (r : string).
#[export] Instance key_eq_dec : EqDecision key.
Proof. solve_decision. Defined.
#[export] Instance key_countable : Countable key.
Proof.
  refine (inj_countable' (fun k => match k with
      KStr s => inl (inl s) | KNum z => inl (inr z) | KFloat r => inr r end)
    (fun x => match x with inl (inl s) => KStr s | inl (inr z) => KNum z | inr r => KFloat r end) _).
  by intros [].
Defined.

Definition key_of (v : pyval) : result exn key :=
  match v with
  | PStr s => Ok (KStr s)
  | PInt z => Ok (KNum z)
  | PBool b => Ok (KNum (Z.b2z b))
  | PFloat r => Ok (KFloat r)
  | _ => Err (Exn TypeError "unhashable type")
  end.

Definition get_or (k : string) (default : pyval) (p : cols) : pyval :=
  match dict_get k p with Some v => v | None => default end.

(** * The projection *)

Definition OP_CLAIM := "namespace_claim".
Definition OP_ALLOCATE := "namespace_allocate".
Definition OP_DELEGATE := "namespace_delegate".
Definition OP_REVOKE := "namespace_revoke".
Definition OP_INVALIDATE := "namespace_invalidate".
Definition OP_SUPERSEDE := "namespace_supersede".
Definition OP_ADJUDICATE := "namespace_adjudicate".

Record ownership := { owner : pyval; owned_name : pyval; index : Z }.
Record namespace := {
  owners : gmap key ownership;
  revoked : gset key;
  delegates : gmap key (list pyval);
}.
Definition no_names : namespace := {| owners := ∅; revoked := ∅; delegates := ∅ |}.

(** A stored receipt gives its parameters parsed; [p or {}]. *)
Definition _params (r : Receipt) : result exn cols :=
  let p := match parameters r with
           | PStr s => match json_loads (if str_eqb s "" then "{}" else s) with Some v => v | None => PDict [] end
           | v => v
           end in
  if truthy p
  then match p with PDict d => Ok d | _ => Err (Exn OtherError "AttributeError: no attribute 'get'") end
  else Ok [].

Definition owned_by (r : Receipt) (cur : ownership) : bool := pyval_eqb (PStr (authority r)) (owner cur).

Definition on_allocate (i : Z) (r : Receipt) (p : cols) (c : key) (st : namespace) : namespace :=
  if bool_decide (c ∉ dom (owners st)) && bool_decide (c ∉ revoked st) then
    {| owners := <[c := {| owner := PStr (authority r); owned_name := get_or "name" (PStr "") p; index := i |}]> (owners st);
       revoked := revoked st; delegates := delegates st |}
  else st.
Definition on_delegate (r : Receipt) (p : cols) (c : key) (st : namespace) : namespace :=
  let da := col "delegate_authority" p in
  match owners st !! c with
  | Some cur =>
      if owned_by r cur && truthy da then
        let d := default [] (delegates st !! c) in
        {| owners := owners st; revoked := revoked st;
           delegates := <[c := if existsb (pyval_eqb da) d then d else d ++ [da]]> (delegates st) |}
      else st
  | None => st
  end.
Definition on_remove (r : Receipt) (c : key) (st : namespace) : namespace :=
  match owners st !! c with
  | Some cur =>
      if owned_by r cur then
        {| owners := delete c (owners st); revoked := {[c]} ∪ revoked st;
           delegates := delete c (delegates st) |}
      else st
  | None => st
  end.
Definition award (i : Z) (p : cols) (new : pyval) (c : key) (st : namespace) : namespace :=
  {| owners := <[c := {| owner := new; owned_name := get_or "name" (PStr "") p; index := i |}]> (owners st);
     revoked := revoked st; delegates := delete c (delegates st) |}.
Definition on_supersede (i : Z) (r : Receipt) (p : cols) (c : key) (st : namespace) : namespace :=
  let new := col "new_owner" p in
  match owners st !! c with
  | Some cur => if owned_by r cur && truthy new then award i p new c st else st
  | None => st
  end.
Definition on_adjudicate (i : Z) (p : cols) (c : key) (st : namespace) : namespace :=
  if bool_decide (c ∉ revoked st) then award i p (col "awarded_owner" p) c st else st.

Section projection.
Context {U : Unicode} {C : Casing}.

(** [p.get("canonical") or canonicalize(p.get("name", ""))] *)
Definition canonical_of (p : cols) : pyval :=
  let v := col "canonical" p in
  if truthy v then v else PStr (canonicalize (get_or "name" (PStr "") p)).

Definition project_step (i : Z) (r : Receipt) (st : namespace) : result exn namespace :=
  if failed r then Ok st else
  let* p := _params r in
  let canon := canonical_of p in
  if negb (truthy canon) then Ok st
  else if str_eqb (op r) OP_ALLOCATE then let* c := key_of canon in Ok (on_allocate i r p c st)
  else if str_eqb (op r) OP_DELEGATE then let* c := key_of canon in Ok (on_delegate r p c st)
  else if str_eqb (op r) OP_REVOKE || str_eqb (op r) OP_INVALIDATE then
    let* c := key_of canon in Ok (on_remove r c st)
  else if str_eqb (op r) OP_SUPERSEDE then let* c := key_of canon in Ok (on_supersede i r p c st)
  else if str_eqb (op r) OP_ADJUDICATE then
    if truthy (col "awarded_owner" p) then let* c := key_of canon in Ok (on_adjudicate i p c st) else Ok st
  else Ok st.

Fixpoint project_from (i : Z) (rs : list Receipt) (st : namespace) : result exn namespace :=
  match rs with
  | [] => Ok st
  | r :: rs => let* st := project_step i r st in project_from (i + 1) rs st
  end.
Definition _project (d : db) : result exn namespace :=
  let* rs := all_receipts d in project_from 0 rs no_names.

Definition project_owners (d : db) : result exn (gmap key ownership) := rmap owners (_project d).
Definition namespace_state (d : db) : result exn namespace := _project d.
Definition owner_of (d : db) (name : pyval) : result exn pyval :=
  let* o := project_owners d in
  Ok (match o !! KStr (canonicalize name) with Some rec => owner rec | None => PNone end).
Definition delegates_of (d : db) (name : pyval) : result exn (list pyval) :=
  let* st := _project d in Ok (default [] (delegates st !! KStr (canonicalize name))).
Definition has_authority (d : db) (name who : pyval) : result exn bool :=
  let* st := _project d in
  let c := KStr (canonicalize name) in
  Ok (match owners st !! c with Some rec => pyval_eqb who (owner rec) | None => false end
      || existsb (pyval_eqb who) (default [] (delegates st !! c))).
End projection.

(** * The governed calls *)

Section calls.
Context {U : Unicode} {C : Casing} {E : Ed25519} {G : Engine} {D : Deployment}.

(** A gate that reads the store of the kernel. *)
Definition reading (f : db -> result exn bool) : callable := fun k => (rmap PBool (f (view (k_store k))), k).

Definition make_allocation_gate (name : pyval) : callable := reading (fun d =>
  let canon := canonicalize name in
  if str_eqb canon "" then Ok false else
  let* st := _project d in
  Ok (bool_decide (KStr canon ∉ dom (owners st)) && bool_decide (KStr canon ∉ revoked st))).

(** [bool(canon) and given and owner_of(kernel._store, name) == authority] *)
Definition owner_gate (name who : pyval) (given : bool) : callable := reading (fun d =>
  if str_eqb (canonicalize name) "" then Ok false else
  if negb given then Ok false else
  let* o := owner_of d name in Ok (pyval_eqb o who)).

Definition adjudication_gate (gov : string) (name awarded who : pyval) : callable := reading (fun d =>
  let canon := canonicalize name in
  if str_eqb canon "" || negb (truthy awarded) then Ok false else
  if str_eqb gov "" || negb (pyval_eqb who (PStr gov)) then Ok false else
  let* st := _project d in Ok (bool_decide (KStr canon ∉ revoked st))).

Definition namespace_call (o : string) (who : pyval) (ps : cols) (gate : callable) (now : string) : exec_args :=
  {| x_op := o; x_authority := who; x_parameters := PDict ps; x_gate := Some gate;
     x_effect := None; x_atomicity := None; x_idempotency_key := PNone; x_gate_margin := PNone;
     x_layer := "I"; x_jurisdiction := "namespace"; x_governor_sig := None; x_warrant_basis := NoBasis;
     x_intent_ref := ""; x_authority_set := PNone; x_capability_verdicts := [];
     x_required_locality := None; x_now := now |}.
Definition named (name : pyval) : cols := [("name", name); ("canonical", PStr (canonicalize name))].

Definition claim (name who : pyval) (now : string) : callable :=
  execute (namespace_call OP_CLAIM who (named name)
    (reading (fun _ => Ok (negb (str_eqb (canonicalize name) "")))) now).
Definition allocate (name who : pyval) (now : string) : callable :=
  execute (namespace_call OP_ALLOCATE who (named name) (make_allocation_gate name) now).
Definition delegate (name delegate_authority who : pyval) (now : string) : callable :=
  execute (namespace_call OP_DELEGATE who (named name ++ [("delegate_authority", delegate_authority)])
    (owner_gate name who (truthy delegate_authority)) now).
Definition revoke_name (name who : pyval) (now : string) : callable :=
  execute (namespace_call OP_REVOKE who (named name) (owner_gate name who true) now).
Definition invalidate (name who : pyval) (now : string) : callable :=
  execute (namespace_call OP_INVALIDATE who (named name) (owner_gate name who true) now).
Definition supersede (name new_owner who : pyval) (now : string) : callable :=
  execute (namespace_call OP_SUPERSEDE who (named name ++ [("new_owner", new_owner)])
    (owner_gate name who (truthy new_owner)) now).
Definition adjudicate (name awarded_owner who : pyval) (now : string) : callable := fun k =>
  execute (namespace_call OP_ADJUDICATE who (named name ++ [("awarded_owner", awarded_owner)])
    (adjudication_gate (k_mosaic_root (k_frame k)) name awarded_owner who) now) k.
End calls.

(** * The ownership machine *)

(** Of one name: free, owned with the delegates of the owner, or removed for ever. *)
Inductive status := Free | Owned (who : pyval) (ds : list pyval) | Dead.
Inductive action :=
| Allocate | Delegate (d : pyval) | Remove | Transfer (new : pyval) | Award (new : pyval).

(** What an authority may do to a name, and what becomes of it. *)
Inductive moves (who : string) : action -> status -> status -> Prop :=
| mv_allocate : moves who Allocate Free (Owned (PStr who) [])
| mv_delegate d ds : truthy d = true -> existsb (pyval_eqb d) ds = false ->
    moves who (Delegate d) (Owned (PStr who) ds) (Owned (PStr who) (ds ++ [d]))
| mv_remove ds : moves who Remove (Owned (PStr who) ds) Dead
| mv_transfer new ds : truthy new = true ->
    moves who (Transfer new) (Owned (PStr who) ds) (Owned new [])
| mv_award new s : truthy new = true -> s <> Dead -> moves who (Award new) s (Owned new []).

(** The same, as a function: a step that is not allowed changes nothing. *)
Definition next (who : string) (a : action) (s : status) : status :=
  match a, s with
  | Allocate, Free => Owned (PStr who) []
  | Delegate d, Owned o ds =>
      if pyval_eqb (PStr who) o && truthy d
      then Owned o (if existsb (pyval_eqb d) ds then ds else ds ++ [d]) else s
  | Remove, Owned o ds => if pyval_eqb (PStr who) o then Dead else s
  | Transfer new, Owned o ds => if pyval_eqb (PStr who) o && truthy new then Owned new [] else s
  | Award new, (Free | Owned _ _) => if truthy new then Owned new [] else s
  | _, _ => s
  end.

Lemma pyval_eqb_owner a v : pyval_eqb (PStr a) v = true <-> v = PStr a.
Proof. destruct v; cbn; try done. rewrite str_eqb_spec. split; [by intros ->|by intros [= ->]]. Qed.

Lemma next_moves who a s : next who a s = s \/ moves who a s (next who a s).
Proof.
  assert (Ho : forall o, pyval_eqb (PStr who) o = true -> o = PStr who) by (intros o; apply pyval_eqb_owner).
  destruct a, s as [|o ds|]; cbn [next]; auto using mv_allocate.
  - destruct (pyval_eqb (PStr who) o) eqn:Ho', (truthy d) eqn:Hd; cbn [andb]; auto.
    rewrite (Ho o Ho'). destruct (existsb _ ds) eqn:Hx; auto. right. by apply mv_delegate.
  - destruct (pyval_eqb (PStr who) o) eqn:Ho'; auto. rewrite (Ho o Ho'). right. apply mv_remove.
  - destruct (pyval_eqb (PStr who) o) eqn:Ho', (truthy new) eqn:Hd; cbn [andb]; auto.
    rewrite (Ho o Ho'). right. by apply mv_transfer.
  - destruct (truthy new) eqn:Hd; auto. right. by apply mv_award.
  - destruct (truthy new) eqn:Hd; auto. right. by apply mv_award.
Qed.
Lemma moves_next who a s s' : moves who a s s' -> next who a s = s'.
Proof.
  destruct 1 as [|d ds Hd Hx|ds|new ds Hn|new s Hn Hs]; cbn [next];
    rewrite ?(proj2 (pyval_eqb_owner who (PStr who)) eq_refl), ?Hd, ?Hx, ?Hn; try done.
  by destruct s.
Qed.

(** A history of actions: those that are allowed move the name, the others are idle. *)
Inductive runs : status -> list (string * action) -> status -> Prop :=
| runs_nil s : runs s [] s
| runs_move who a s s1 l s2 : moves who a s s1 -> runs s1 l s2 -> runs s ((who, a) :: l) s2
| runs_idle who a s l s2 : (forall s1, moves who a s s1 -> s1 = s) -> runs s l s2 -> runs s ((who, a) :: l) s2.

Lemma runs_next l s : runs s l (fold_left (fun s wa => next (fst wa) (snd wa) s) l s).
Proof.
  revert s. induction l as [|[who a] l IH]; intros s; cbn [fold_left fst snd]; [constructor|].
  destruct (next_moves who a s) as [He|Hm]; [|by eapply runs_move].
  rewrite He. apply runs_idle; [|apply IH]. intros s1 <-%moves_next. done.
Qed.
Lemma dead_runs l s : runs Dead l s -> s = Dead.
Proof.
  intros H. remember Dead as d eqn:Hd. revert Hd. induction H as [| ? ? ? ? ? ? Hm | ]; intros ->; auto.
  inversion Hm; congruence.
Qed.

(** * The projection runs the machine on every name *)

Definition status_of (st : namespace) (c : key) : status :=
  if bool_decide (c ∈ revoked st) then Dead
  else match owners st !! c with
       | Some cur => Owned (owner cur) (default [] (delegates st !! c))
       | None => Free
       end.

(** A removed name has no owner; only an owned name has delegates. *)
Record well_formed (st : namespace) : Prop := {
  wf_dead c : c ∈ revoked st -> owners st !! c = None;
  wf_delegated c ds : delegates st !! c = Some ds -> is_Some (owners st !! c) /\ 
    forall d, d ∈ ds -> truthy d = true;
}.

Definition action_of (r : Receipt) (p : cols) : option action :=
  if str_eqb (op r) OP_ALLOCATE then Some Allocate
  else if str_eqb (op r) OP_DELEGATE then Some (Delegate (col "delegate_authority" p))
  else if str_eqb (op r) OP_REVOKE || str_eqb (op r) OP_INVALIDATE then Some Remove
  else if str_eqb (op r) OP_SUPERSEDE then Some (Transfer (col "new_owner" p))
  else if str_eqb (op r) OP_ADJUDICATE then Some (Award (col "awarded_owner" p))
  else None.

Ltac lookups :=
  repeat first [rewrite lookup_insert_eq | rewrite lookup_delete_eq | rewrite lookup_insert_ne by congruence
               | rewrite lookup_delete_ne by congruence].

Section machine.
Context {U : Unicode} {C : Casing}.

(** One branch of the fold: the name it is about moves as the machine does, no other name does. *)
Definition steps (who : string) (a : action) (c : key) (st st' : namespace) : Prop :=
  well_formed st -> well_formed st' /\
  status_of st' c = next who a (status_of st c) /\
  forall c', c' <> c -> status_of st' c' = status_of st c'.

Lemma steps_idle who a c st : next who a (status_of st c) = status_of st c -> steps who a c st st.
Proof. intros H Hwf. by rewrite H. Qed.

Lemma status_dead st c : c ∈ revoked st -> status_of st c = Dead.
Proof. intros H. unfold status_of. by rewrite bool_decide_true. Qed.
Lemma status_owned st c cur : well_formed st -> owners st !! c = Some cur ->
  c ∉ revoked st /\ status_of st c = Owned (owner cur) (default [] (delegates st !! c)).
Proof.
  intros Hwf Hc. assert (Hn : c ∉ revoked st) by (intros Hr; rewrite (wf_dead _ Hwf c Hr) in Hc; done).
  split; [done|]. unfold status_of. by rewrite bool_decide_false, Hc.
Qed.
Lemma status_free st c : owners st !! c = None -> c ∉ revoked st -> status_of st c = Free.
Proof. intros Ho Hn. unfold status_of. by rewrite bool_decide_false, Ho. Qed.
Lemma status_unowned st c : owners st !! c = None ->
  status_of st c = Free \/ status_of st c = Dead.
Proof. intros Ho. unfold status_of. rewrite Ho. case_bool_decide; auto. Qed.

Lemma award_steps i p who a new c st : c ∉ revoked st ->
  next who a (status_of st c) = Owned new [] -> steps who a c st (award i p new c st).
Proof.
  intros Hn Hnext Hwf. split_and!.
  - split; cbn [award owners revoked delegates].
    + intros c' Hc'. destruct (decide (c' = c)) as [->|]; [done|]. lookups. by apply wf_dead.
    + intros c' ds. destruct (decide (c' = c)) as [->|]; lookups; [done|]. by apply wf_delegated.
  - rewrite Hnext. unfold status_of. cbn [award owners revoked delegates]. lookups.
    by rewrite bool_decide_false.
  - intros c' Hc'. unfold status_of. cbn [award owners revoked delegates]. by lookups.
Qed.

Lemma allocate_steps i r p c st : steps (authority r) Allocate c st (on_allocate i r p c st).
Proof.
  unfold on_allocate. case_bool_decide as Ho; cbn [andb]; [case_bool_decide as Hr; cbn [andb]|].
  - intros Hwf. apply not_elem_of_dom in Ho. rewrite (status_free st c Ho Hr).
    assert (Hd : delegates st !! c = None).
    { destruct (delegates st !! c) as [ds|] eqn:Hd; [|done].
      destruct (wf_delegated _ Hwf c ds Hd) as [[x Hx] _]. by rewrite Ho in Hx. }
    split_and!.
    + split; cbn [owners revoked delegates]; intros c'.
      * intros Hc'. destruct (decide (c' = c)) as [->|]; [done|]. lookups. by apply wf_dead.
      * intros ds Hds. destruct (decide (c' = c)) as [->|]; [by rewrite Hd in Hds|]. lookups.
        by apply wf_delegated.
    + unfold status_of. cbn [owners revoked delegates]. lookups. rewrite bool_decide_false by done.
      by rewrite Hd.
    + intros c' Hc'. unfold status_of. cbn [owners revoked delegates]. by lookups.
  - apply steps_idle. rewrite status_dead; [done|]. by destruct (decide (c ∈ revoked st)).
  - intros Hwf. apply steps_idle; [|done].
    destruct (owners st !! c) as [cur|] eqn:Hc.
    + destruct (status_owned st c cur Hwf Hc) as [_ ->]. done.
    + by apply not_elem_of_dom in Hc.
Qed.

Lemma delegate_steps r p c st :
  steps (authority r) (Delegate (col "delegate_authority" p)) c st (on_delegate r p c st).
Proof.
  intros Hwf. unfold on_delegate. cbv zeta. set (da := col "delegate_authority" p).
  destruct (owners st !! c) as [cur|] eqn:Hc.
  2:{ apply steps_idle; [|done]. by destruct (status_unowned st c Hc) as [->| ->]. }
  destruct (status_owned st c cur Hwf Hc) as [Hn Hs].
  destruct (owned_by r cur && truthy da) eqn:Hb; unfold owned_by in Hb.
  2:{ apply steps_idle; [|done]. rewrite Hs. cbn [next]. by rewrite Hb. }
  apply andb_true_iff in Hb as Hb'. destruct Hb' as [_ Hda].
  split_and!.
  - split; cbn [owners revoked delegates]; intros c'; [apply wf_dead, Hwf|].
    intros ds Hds. destruct (decide (c' = c)) as [->|].
    + rewrite lookup_insert_eq in Hds. apply Some_inj' in Hds. subst ds. split; [by exists cur|].
      assert (H0 : forall d, d ∈ default [] (delegates st !! c) -> truthy d = true).
      { destruct (delegates st !! c) as [ds|] eqn:Hds; cbn; [|by intros d ?%elem_of_nil].
        by destruct (wf_delegated _ Hwf c ds Hds). }
      intros d. destruct (existsb _ _); [apply H0|].
      rewrite elem_of_app. intros [?| ->%list_elem_of_singleton]; auto.
    + rewrite lookup_insert_ne in Hds by done. by apply wf_delegated.
  - rewrite Hs. unfold status_of. cbn [owners revoked delegates next]. lookups.
    rewrite bool_decide_false by done. by rewrite Hc, Hb.
  - intros c' Hc'. unfold status_of. cbn [owners revoked delegates]. by lookups.
Qed.

Lemma remove_steps r c st : steps (authority r) Remove c st (on_remove r c st).
Proof.
  intros Hwf. unfold on_remove. destruct (owners st !! c) as [cur|] eqn:Hc.
  2:{ apply steps_idle; [|done]. by destruct (status_unowned st c Hc) as [->| ->]. }
  destruct (status_owned st c cur Hwf Hc) as [Hn Hs].
  destruct (owned_by r cur) eqn:Hb; unfold owned_by in Hb.
  2:{ apply steps_idle; [|done]. rewrite Hs. cbn [next]. by rewrite Hb. }
  split_and!.
  - split; cbn [owners revoked delegates]; intros c'.
    + rewrite elem_of_union, elem_of_singleton. intros Hr.
      destruct (decide (c' = c)) as [->|]; lookups; [done|]. apply wf_dead; naive_solver.
    + destruct (decide (c' = c)) as [->|]; lookups; [done|]. apply wf_delegated, Hwf.
  - rewrite Hs. cbn [next]. rewrite Hb. apply status_dead. cbn [revoked]. set_solver.
  - intros c' Hc'. unfold status_of. cbn [owners revoked delegates]. lookups.
    replace (bool_decide (c' ∈ {[c]} ∪ revoked st)) with (bool_decide (c' ∈ revoked st)); [done|].
    apply bool_decide_ext. set_solver.
Qed.

Lemma supersede_steps i r p c st :
  steps (authority r) (Transfer (col "new_owner" p)) c st (on_supersede i r p c st).
Proof.
  intros Hwf. unfold on_supersede. cbv zeta. destruct (owners st !! c) as [cur|] eqn:Hc.
  2:{ apply steps_idle; [|done]. by destruct (status_unowned st c Hc) as [->| ->]. }
  destruct (status_owned st c cur Hwf Hc) as [Hn Hs].
  destruct (owned_by r cur && _) eqn:Hb; unfold owned_by in Hb.
  - apply award_steps; try done. rewrite Hs. cbn [next]. by rewrite Hb.
  - apply steps_idle; [|done]. rewrite Hs. cbn [next]. by rewrite Hb.
Qed.

Lemma adjudicate_steps i r p c st : truthy (col "awarded_owner" p) = true ->
  steps (authority r) (Award (col "awarded_owner" p)) c st (on_adjudicate i p c st).
Proof.
  intros Ht. unfold on_adjudicate. case_bool_decide as Hr.
  - intros Hwf. apply award_steps; try done. destruct (status_of st c) eqn:Hs; cbn [next]; rewrite ?Ht; try done.
    unfold status_of in Hs. rewrite bool_decide_false in Hs by done. by destruct (owners st !! c).
  - apply steps_idle. rewrite status_dead; [done|]. by destruct (decide (c ∈ revoked st)).
Qed.
End machine.

(** ** The history of a name *)

Section history.
Context {U : Unicode} {C : Casing}.

(** What a receipt does, to which name, by whose authority. *)
Definition deed (r : Receipt) : option (key * (string * action)) :=
  if failed r then None else
  match _params r with
  | Ok p =>
      if truthy (canonical_of p) then
        match action_of r p, key_of (canonical_of p) with
        | Some a, Ok c => Some (c, (authority r, a))
        | _, _ => None
        end
      else None
  | Err _ => None
  end.
Definition deed_on (c : key) (r : Receipt) : list (string * action) :=
  match deed r with Some (c', wa) => if bool_decide (c' = c) then [wa] else [] | None => [] end.
Definition history (c : key) (rs : list Receipt) : list (string * action) := flat_map (deed_on c) rs.

Lemma project_step_spec i r st st' : project_step i r st = Ok st' ->
  match deed r with
  | Some (c, (who, a)) => who = authority r /\ steps who a c st st'
  | None => st' = st
  end.
Proof.
  unfold project_step, deed, action_of. destruct (failed r); [by intros <-%Ok_inj|].
  destruct (_params r) as [p|]; [|done]. cbn [rbind]. cbv zeta.
  destruct (truthy (canonical_of p)); cbn [negb]; [|by intros <-%Ok_inj].
  destruct (str_eqb (op r) OP_ALLOCATE).
  { intros (c & -> & <-%Ok_inj)%rbind_ok. split; [done|]. apply allocate_steps. }
  destruct (str_eqb (op r) OP_DELEGATE).
  { intros (c & -> & <-%Ok_inj)%rbind_ok. split; [done|]. apply delegate_steps. }
  destruct (str_eqb (op r) OP_REVOKE || _).
  { intros (c & -> & <-%Ok_inj)%rbind_ok. split; [done|]. apply remove_steps. }
  destruct (str_eqb (op r) OP_SUPERSEDE).
  { intros (c & -> & <-%Ok_inj)%rbind_ok. split; [done|]. apply supersede_steps. }
  destruct (str_eqb (op r) OP_ADJUDICATE); [|by intros <-%Ok_inj].
  destruct (truthy (col "awarded_owner" p)) eqn:Ht.
  - intros (c & -> & <-%Ok_inj)%rbind_ok. split; [done|]. by apply adjudicate_steps.
  - intros <-%Ok_inj. destruct (key_of _); [|done]. split; [done|]. apply steps_idle.
    by destruct (status_of st _); cbn [next]; rewrite ?Ht.
Qed.

Definition advance_by (s : status) (wa : string * action) : status := next (fst wa) (snd wa) s.

(** The invariant and the histories, along the fold. *)
Lemma project_from_runs rs : forall i st st', project_from i rs st = Ok st' -> well_formed st ->
  well_formed st' /\ forall c, status_of st' c = fold_left advance_by (history c rs) (status_of st c).
Proof.
  induction rs as [|r rs IH]; intros i st st'; cbn [project_from history flat_map].
  { by intros <-%Ok_inj. }
  intros (st1 & H1 & H)%rbind_ok Hwf. apply project_step_spec in H1.
  assert (Hr : well_formed st1 /\ forall c, status_of st1 c = fold_left advance_by (deed_on c r) (status_of st c)).
  { unfold deed_on. destruct (deed r) as [[c [who a]]|]; [|by subst st1].
    destruct H1 as [_ H1]. destruct (H1 Hwf) as (Hwf1 & Hc & Ho). split; [done|]. intros c'.
    case_bool_decide as He; cbn [fold_left]; [by subst c'|by apply Ho]. }
  destruct Hr as [Hwf1 Hr]. destruct (IH _ _ _ H Hwf1) as [Hwf' Hs]. split; [done|].
  intros c. by rewrite Hs, Hr, fold_left_app.
Qed.

Lemma project_from_app rs l : forall i st, project_from i (rs ++ l) st =
  let* st1 := project_from i rs st in project_from (i + Z.of_nat (length rs)) l st1.
Proof.
  induction rs as [|r rs IH]; intros i st; cbn [app project_from length rbind].
  { by replace (i + Z.of_nat 0) with i by lia. }
  destruct (project_step i r st) as [st1|]; cbn [rbind]; [|done]. rewrite IH.
  by replace (i + 1 + Z.of_nat (length rs)) with (i + Z.of_nat (S (length rs))) by lia.
Qed.

Lemma well_formed_none : well_formed no_names.
Proof. split; intros c; cbn; [|intros ds H]; [set_solver|by rewrite lookup_empty in H]. Qed.
Lemma status_none c : status_of no_names c = Free.
Proof. apply status_free; cbn; [apply lookup_empty|set_solver]. Qed.
End history.

(** ** The receipt behind an ownership *)

Section grants.
Context {U : Unicode} {C : Casing}.

(** The receipt makes [cur] the ownership of the name [c]. *)
Definition granted (c : key) (cur : ownership) (r : Receipt) : Prop :=
  exists a p, deed r = Some (c, (authority r, a)) /\ _params r = Ok p /\
    owned_name cur = get_or "name" (PStr "") p /\
    (a = Allocate /\ owner cur = PStr (authority r) \/ a = Transfer (owner cur) \/ a = Award (owner cur)).

Lemma project_step_grants i r st st' : project_step i r st = Ok st' ->
  forall c cur, owners st' !! c = Some cur ->
  owners st !! c = Some cur \/ index cur = i /\ granted c cur r.
Proof.
  intros H c cur. revert H. unfold project_step, granted, deed, action_of.
  destruct (failed r); [intros <-%Ok_inj; auto|].
  destruct (_params r) as [p|] eqn:Hp; [|done]. cbn [rbind]. cbv zeta.
  destruct (truthy (canonical_of p)); cbn [negb]; [|intros <-%Ok_inj; auto].
  assert (Haw : forall new c0 a, a = Transfer new \/ a = Award new ->
    owners (award i p new c0 st) !! c = Some cur ->
    owners st !! c = Some cur \/ index cur = i /\ exists a0 p0, Some (c0, (authority r, a)) = Some (c, (authority r, a0))
      /\ Ok (E:=exn) p = Ok p0 /\ owned_name cur = get_or "name" (PStr "") p0 /\
      (a0 = Allocate /\ owner cur = PStr (authority r) \/ a0 = Transfer (owner cur) \/ a0 = Award (owner cur))).
  { intros new c0 a Ha. cbn [award owners]. destruct (decide (c = c0)) as [->|]; lookups; [|auto].
    intros <-%Some_inj'. right. split; [done|]. exists a, p. cbn. naive_solver. }
  destruct (str_eqb (op r) OP_ALLOCATE).
  { intros (c0 & -> & <-%Ok_inj)%rbind_ok. unfold on_allocate. destruct (_ && _); [|auto].
    cbn [owners]. destruct (decide (c = c0)) as [->|]; lookups; [|auto].
    intros <-%Some_inj'. right. split; [done|]. exists Allocate, p. cbn. naive_solver. }
  destruct (str_eqb (op r) OP_DELEGATE).
  { intros (c0 & -> & <-%Ok_inj)%rbind_ok. unfold on_delegate. cbv zeta.
    destruct (owners st !! c0); [|auto]. destruct (_ && _); auto. }
  destruct (str_eqb (op r) OP_REVOKE || _).
  { intros (c0 & -> & <-%Ok_inj)%rbind_ok. unfold on_remove.
    destruct (owners st !! c0); [|auto]. destruct (owned_by r _); [|auto]. cbn [owners].
    destruct (decide (c = c0)) as [->|]; lookups; auto. done. }
  destruct (str_eqb (op r) OP_SUPERSEDE).
  { intros (c0 & -> & <-%Ok_inj)%rbind_ok. unfold on_supersede. cbv zeta.
    destruct (owners st !! c0); [|auto]. destruct (_ && _); [|auto]. apply Haw. auto. }
  destruct (str_eqb (op r) OP_ADJUDICATE); [|intros <-%Ok_inj; auto].
  destruct (truthy (col "awarded_owner" p)); [|intros <-%Ok_inj; auto].
  intros (c0 & -> & <-%Ok_inj)%rbind_ok. unfold on_adjudicate. case_bool_decide; [|auto]. apply Haw. auto.
Qed.

Lemma project_from_grants rs : forall i st st' c cur, project_from i rs st = Ok st' ->
  owners st' !! c = Some cur -> owners st !! c = Some cur \/
  exists n r, rs !! n = Some r /\ index cur = i + Z.of_nat n /\ granted c cur r.
Proof.
  induction rs as [|r rs IH]; intros i st st' c cur; cbn [project_from].
  { intros <-%Ok_inj. auto. }
  intros (st1 & H1 & H)%rbind_ok Hc. destruct (IH _ _ _ _ _ H Hc) as [H0|(n & r' & Hn & Hi & Hg)].
  - destruct (project_step_grants _ _ _ _ H1 _ _ H0) as [|[Hi Hg]]; [auto|].
    right. exists 0%nat, r. split_and!; [done|lia|done].
  - right. exists (S n), r'. split_and!; [done|lia|done].
Qed.
End grants.

(** * Theorems on the projection *)

Section projection_theorems.
Context {U : Unicode} {C : Casing}.

(** C39: the projection of a chain is well formed.  A removed name has no owner; only owned names
    have delegates, none of them empty; and every ownership carries the position in the
    chain of an admitted receipt about that very name which granted it: its
    allocation to the authority of that receipt, or a transfer or an award to the owner it names. *)
Theorem projection_well_formed d rs st : all_receipts d = Ok rs -> _project d = Ok st ->
  well_formed st /\ forall c cur, owners st !! c = Some cur ->
    exists n r, rs !! n = Some r /\ index cur = Z.of_nat n /\ granted c cur r.
Proof.
  unfold _project. intros -> H. cbn [rbind] in H.
  split; [apply (project_from_runs _ _ _ _ H), well_formed_none|]. intros c cur Hc.
  destruct (project_from_grants _ _ _ _ _ _ H Hc) as [H0|(n & r & Hn & Hi & Hg)].
  - cbn in H0. by rewrite lookup_empty in H0.
  - exists n, r. auto.
Qed.

(** C16: the projection refines the ownership machine.  Whatever the chain holds, each name goes
    through its own run of the machine: among the admitted receipts about it,
    those whose authority is entitled to the action move it, and all of them do; the others, and the
    receipts about other names, leave it as it is. *)
Theorem projection_refines d rs st : all_receipts d = Ok rs -> namespace_state d = Ok st ->
  forall c, runs Free (history c rs) (status_of st c).
Proof.
  unfold namespace_state, _project. intros -> H c. cbn [rbind] in H.
  destruct (project_from_runs _ _ _ _ H well_formed_none) as [_ ->]. rewrite status_none. apply runs_next.
Qed.

(** An owner loses a name to an action of its own, or to an award. *)
Lemma owned_runs l s s2 : runs s l s2 -> forall o ds, s = Owned o ds ->
  (exists ds', s2 = Owned o ds') \/ exists who a, (who, a) ∈ l /\
    (PStr who = o /\ (a = Remove \/ exists n, a = Transfer n) \/ exists n, a = Award n).
Proof.
  induction 1 as [s|who a s s1 l s2 Hm Hr IH|who a s l s2 _ Hr IH]; intros o ds ->; [by left; exists ds|..].
  - assert (Hkeep : forall ds', s1 = Owned o ds' -> (exists ds', s2 = Owned o ds') \/
      exists who0 a0, (who0, a0) ∈ (who, a) :: l /\
      (PStr who0 = o /\ (a0 = Remove \/ exists n, a0 = Transfer n) \/ exists n, a0 = Award n)).
    { intros ds' Hs1. destruct (IH _ _ Hs1) as [?|(w & b & Hin & Hb)]; [by left|].
      right. exists w, b. split; [by right|done]. }
    inversion Hm; subst; try (by eapply Hkeep); right; eexists _, _; (split; [left|]); eauto 10.
  - destruct (IH _ _ eq_refl) as [?|(w & b & Hin & Hb)]; [by left|].
    right. exists w, b. split; [by right|done].
Qed.

Lemma in_history c rs who a : (who, a) ∈ history c rs -> exists r, r ∈ rs /\ deed r = Some (c, (who, a)).
Proof.
  unfold history. induction rs as [|r rs IH]; cbn [flat_map]; [by intros ?%elem_of_nil|].
  rewrite elem_of_app. intros [H|H].
  - exists r. split; [by left|]. unfold deed_on in H. destruct (deed r) as [[c' wa]|]; [|by apply elem_of_nil in H].
    case_bool_decide; [|by apply elem_of_nil in H]. apply list_elem_of_singleton in H. by subst.
  - destruct (IH H) as (r' & ? & ?). exists r'. split; [by right|done].
Qed.

(** C40: ownership ends by right only.  However the chain goes on, a name removed once stays
    removed, without owner and without delegates; and an owned name keeps its owner
    unless an admitted receipt about it removes or transfers it by the owner's own authority, or
    awards it. *)
Theorem ownership_by_right d d' rs l st st' c :
  all_receipts d = Ok rs -> all_receipts d' = Ok (rs ++ l) ->
  _project d = Ok st -> _project d' = Ok st' ->
  (status_of st c = Dead -> status_of st' c = Dead /\ owners st' !! c = None /\ delegates st' !! c = None) /\
  (forall o ds, status_of st c = Owned o ds ->
     (exists ds', status_of st' c = Owned o ds') \/
     exists r who a, r ∈ l /\ deed r = Some (c, (who, a)) /\
       (PStr who = o /\ (a = Remove \/ exists n, a = Transfer n) \/ exists n, a = Award n)).
Proof.
  unfold _project. intros -> ->. cbn [rbind]. rewrite project_from_app. intros Hst H. rewrite Hst in H.
  cbn [rbind] in H. destruct (project_from_runs _ _ _ _ Hst well_formed_none) as [Hwf _].
  destruct (project_from_runs _ _ _ _ H Hwf) as [Hwf' Hs].
  pose proof (runs_next (history c l) (status_of st c)) as Hruns.
  change (fold_left _ _ _) with (fold_left advance_by (history c l) (status_of st c)) in Hruns.
  rewrite <- Hs in Hruns. split.
  - intros Hd. rewrite Hd in Hruns. apply dead_runs in Hruns. split; [done|].
    assert (Hr : c ∈ revoked st').
    { unfold status_of in Hruns. case_bool_decide; [done|]. by destruct (owners st' !! c). }
    pose proof (wf_dead _ Hwf' c Hr) as Ho. split; [done|].
    destruct (delegates st' !! c) as [ds|] eqn:Hds; [|done].
    destruct (wf_delegated _ Hwf' c ds Hds) as [[x Hx] _]. by rewrite Ho in Hx.
  - intros o ds Ho. destruct (owned_runs _ _ _ Hruns o ds Ho) as [|(who & a & Hin & Ha)]; [auto|].
    apply in_history in Hin as (r & ? & ?). right. by exists r, who, a.
Qed.
End projection_theorems.

(** * The governed calls refine the machine *)

Section governed.
Context {U : Unicode} {C : Casing} {E : Ed25519} {G : Engine} {D : Deployment} (anchor : string).

(** The records of the governance of a call, which the projection passes over. *)
Definition bystander (row : Receipt) : Prop :=
  exists o b, o ∈ ["protocol_error"; "gate_refuse"; "gate_admit"] /\ decision o b row.

(** A call without effect whose gate reads the store: what it answers and what it leaves. *)
Lemma reading_call a f k r k' : execute a k = (r, k') -> calm anchor k ->
  x_gate a = Some (reading f) -> x_effect a = None -> x_atomicity a = None ->
  exists l, grows k k' l /\ match r with
    | Ok _ => f (kview k) = Ok true /\ exists c adm done x k1 w,
        preflight k a = Ok (c_authority c, c_parameters c) /\ l = [adm; done] /\ bystander adm /\
        entered (success_receipt a c (outcome_params k1 a c) w) x done
    | Err _ => Forall bystander l
    end.
Proof.
  intros H Hc Hg Hx Hat. destruct r as [v|e].
  - unfold execute in H. apply sbind_ok in H as (c & k1 & [Hk1 Hcl]%horizon_clearance & H).
    unfold after_gate in Hk1. rewrite Hg in Hk1. cbn [reading snd] in Hk1. subst k1.
    destruct (cl_gate _ _ _ Hcl _ Hg) as (b & Hb & Ht). cbn [reading fst] in Hb.
    unfold admitted in H. apply sbind_ok in H as (y & k2 & Hw & H).
    destruct (kwrite_cases anchor _ _ _ _ Hc Hw) as (_ & _ & Hc2 & _ & adm & Hen & Hg2).
    apply sbind_ok in H as (w & k3 & Hws & H). pose proof (warrant_step_store a c k2) as Hs.
    rewrite Hws in Hs. cbn [snd] in Hs.
    assert (Hc3 : calm anchor k3) by (apply (calm_advances anchor k2); [done|by rewrite Hs]).
    unfold outcome, legacy_outcome in H. rewrite Hx in H.
    apply sbind_ok in H as (x & k4 & Hd & H). apply pair_ok in H as [_ <-].
    destruct (kwrite_cases anchor _ _ _ _ Hc3 Hd) as (_ & _ & _ & _ & done & Hend & Hg4).
    exists ([adm] ++ [done]). split; [eapply grows_trans; [exact Hg2|]|split].
    + unfold grows, kview in *. by rewrite Hg4, Hs.
    + change (kview k) with (view (k_store k)). destruct (f (view (k_store k))) as [b'|]; [|done]. cbn in Hb.
      apply Ok_inj in Hb. subst b. cbn in Ht. by rewrite Ht.
    + exists c, adm, done, x, k3, w. split_and!; [apply (cl_preflight _ _ _ Hcl)|done| |done].
      exists "gate_admit", false. split; [by right; right; left|]. exact (entered_decision _ y _ Hen eq_refl (admit_untracked _ _)).
  - assert (Hl : forall g, x_gate a = Some g -> lawful g).
    { intros g Hg'. rewrite Hg in Hg'. apply Some_inj' in Hg' as <-. by apply lawful_quiet. }
    destruct (leads_execute anchor a k Hl) as (l & _ & Hgr & lg & l' & -> & Hlg & Hb); [by rewrite Hx|done|].
    rewrite H in *. cbn [fst snd] in *. rewrite Hlg in Hgr by (intros g Hg'; rewrite Hg in Hg'; by apply Some_inj' in Hg' as <-).
    exists l'. split; [done|]. inversion Hb as [? ? Hr|? adm Ha| | | | | | | |]; subst; try congruence.
    + inversion Hr; subst; constructor; try constructor; eexists _, _; (split; [|done]); [left|right; left].
    + constructor; [|constructor]. eexists _, _. split; [|done]. by right; right; left.
Qed.

Lemma read_row row r : _row_to_receipt row = Ok r ->
  op r = _expand (op row) /\ authority r = authority row /\ failed r = failed row /\
  json_loads (cell_text (parameters row)) = Some (parameters r).
Proof. unfold _row_to_receipt. destruct (json_loads _); [|done]. by intros <-%Ok_inj. Qed.

Lemma bystander_step row r i st : bystander row -> _row_to_receipt row = Ok r -> project_step i r st = Ok st.
Proof.
  intros (o & b & Ho & [Hop _ Hd _ _] & _) (Hr & _ & _ & Hj)%read_row. rewrite Hop in Hr. apply Hd in Hj.
  assert (Hne : op r ∈ ["protocol_error"; "gate_refuse"; "gate_admit"]).
  { rewrite Hr. repeat (apply elem_of_cons in Ho as [->|Ho]; [vm_compute; set_solver|]). by apply elem_of_nil in Ho. }
  unfold project_step. destruct (failed r); [done|].
  assert (Hp : exists p, _params r = Ok p).
  { unfold _params. destruct (parameters r); try done. cbn [truthy]. destruct d; eauto. }
  destruct Hp as [p ->]. cbn [rbind]. cbv zeta. destruct (negb _); [done|].
  by repeat (apply elem_of_cons in Hne as [->|Hne]; [reflexivity|]); apply elem_of_nil in Hne.
Qed.

Lemma bystanders_project l : forall ls i st, Forall bystander l ->
  Forall2 (fun row r => _row_to_receipt row = Ok r) l ls -> project_from i ls st = Ok st.
Proof.
  induction l as [|row l IH]; intros ls i st Hb H2; inversion H2 as [|? r ? ls' Hr H2']; subst; [done|].
  apply Forall_cons in Hb as [Hb1 Hb]. cbn [project_from]. rewrite (bystander_step _ _ _ _ Hb1 Hr).
  cbn [rbind]. by apply IH.
Qed.

(** ** The requests *)

Inductive request :=
| RClaim | RAllocate | RDelegate (d : pyval) | RRevoke | RInvalidate
| RSupersede (new : pyval) | RAdjudicate (awarded : pyval).

Definition request_call (q : request) (name who : pyval) (now : string) : callable :=
  match q with
  | RClaim => claim name who now
  | RAllocate => allocate name who now
  | RDelegate d => delegate name d who now
  | RRevoke => revoke_name name who now
  | RInvalidate => invalidate name who now
  | RSupersede new => supersede name new who now
  | RAdjudicate awarded => adjudicate name awarded who now
  end.
Definition request_op (q : request) : string :=
  match q with
  | RClaim => OP_CLAIM | RAllocate => OP_ALLOCATE | RDelegate _ => OP_DELEGATE | RRevoke => OP_REVOKE
  | RInvalidate => OP_INVALIDATE | RSupersede _ => OP_SUPERSEDE | RAdjudicate _ => OP_ADJUDICATE
  end.
Definition request_args (q : request) : cols :=
  match q with
  | RDelegate d => [("delegate_authority", d)]
  | RSupersede new => [("new_owner", new)]
  | RAdjudicate awarded => [("awarded_owner", awarded)]
  | _ => []
  end.
(** The action of the machine the request asks for, as the chain reads it back. *)
Definition request_action (q : request) : option action :=
  match q with
  | RClaim => None
  | RAllocate => Some Allocate
  | RDelegate d => Some (Delegate (canon d))
  | RRevoke | RInvalidate => Some Remove
  | RSupersede new => Some (Transfer (canon new))
  | RAdjudicate awarded => Some (Award (canon awarded))
  end.

Definition owner_in (s : status) : pyval := match s with Owned o _ => o | _ => PNone end.
(** What the gates ask of the name and of the authority given. *)
Definition admissible (q : request) (gov : string) (who : pyval) (s : status) : bool :=
  match q, s with
  | RClaim, _ | RAllocate, Free => true
  | RDelegate v, _ | RSupersede v, _ => truthy v && pyval_eqb (owner_in s) who
  | RRevoke, _ | RInvalidate, _ => pyval_eqb (owner_in s) who
  | RAdjudicate v, (Free | Owned _ _) => truthy v && negb (str_eqb gov "") && pyval_eqb who (PStr gov)
  | _, _ => false
  end.
(** The authority a call is recorded under. *)
Definition caller (who : pyval) (k : kernel) : string :=
  match who with PStr s => s | _ => k_authority k end.

(** Every request is one execution, whose gate decides what is admissible. *)
Lemma request_reading q name who now k : exists f,
  request_call q name who now k =
    execute (namespace_call (request_op q) who (named name ++ request_args q) (reading f) now) k /\
  forall d st, _project d = Ok st -> well_formed st ->
    f d = Ok (negb (str_eqb (canonicalize name) "") &&
      admissible q (k_mosaic_root (k_frame k)) who (status_of st (KStr (canonicalize name)))).
Proof.
  assert (Hown : forall d st, _project d = Ok st -> well_formed st ->
    owner_of d name = Ok (owner_in (status_of st (KStr (canonicalize name))))).
  { intros d st Hd Hwf. unfold owner_of, project_owners. rewrite Hd. cbn [rmap rbind]. f_equal.
    destruct (owners st !! _) as [cur|] eqn:Hc; [by destruct (status_owned _ _ _ Hwf Hc) as [_ ->]|].
    by destruct (status_unowned _ _ Hc) as [->| ->]. }
  assert (Hfree : forall st c, well_formed st ->
    bool_decide (c ∉ dom (owners st)) && bool_decide (c ∉ revoked st) =
    match status_of st c with Free => true | _ => false end).
  { intros st c Hwf. unfold status_of. destruct (decide (c ∈ revoked st)) as [Hr|Hr].
    - rewrite (bool_decide_true (c ∈ revoked st)), (bool_decide_false (c ∉ revoked st)) by (done || tauto).
      apply andb_false_r.
    - rewrite (bool_decide_false (c ∈ revoked st)), (bool_decide_true (c ∉ revoked st)), andb_true_r by done.
      destruct (owners st !! c) eqn:Hc.
      + apply bool_decide_eq_false. intros H. by apply not_elem_of_dom in H; rewrite Hc in H.
      + apply bool_decide_eq_true. by apply not_elem_of_dom. }
  destruct q; (eexists; split; [reflexivity|]); intros d0 st Hd Hwf; cbn beta zeta;
    unfold make_allocation_gate, owner_gate, adjudication_gate;
    destruct (str_eqb (canonicalize name) "") eqn:Hn; cbn [negb andb orb]; try reflexivity.
  - rewrite Hd. cbn [rbind]. rewrite Hfree by done. by destruct (status_of st _).
  - cbn [admissible]. destruct (truthy d); [|done]. cbn [negb]. by rewrite (Hown _ _ Hd Hwf).
  - cbn [admissible]. by rewrite (Hown _ _ Hd Hwf).
  - cbn [admissible]. by rewrite (Hown _ _ Hd Hwf).
  - cbn [admissible]. destruct (truthy new); [|done]. cbn [negb]. by rewrite (Hown _ _ Hd Hwf).
  - destruct (truthy awarded) eqn:Ht; cbn [negb].
    2:{ cbn [admissible]. rewrite Ht. by destruct (status_of st _). }
    destruct (str_eqb (k_mosaic_root _) "") eqn:Hg; cbn [orb].
    { cbn [admissible]. rewrite Hg, Ht. by destruct (status_of st _). }
    destruct (pyval_eqb who _) eqn:Hw; cbn [negb].
    2:{ cbn [admissible]. rewrite Hg, Ht, Hw. by destruct (status_of st _). }
    rewrite Hd. cbn [rbind admissible]. rewrite Ht, Hg, Hw. cbn [negb andb]. unfold status_of.
    case_bool_decide; case_bool_decide; try tauto. by destruct (owners st !! _).
Qed.

(** The receipt of a completed request is read back as its deed. *)
Lemma preflight_namespace o who ps gate now k c :
  preflight k (namespace_call o who ps gate now) = Ok (c_authority c, c_parameters c) ->
  c_authority c = caller who k /\ c_parameters c = ps.
Proof.
  unfold preflight. cbn [preflight_authority preflight_parameters namespace_call x_authority x_parameters].
  intros (w & Hw & H)%rbind_ok. cbn [rbind] in H. do 5 apply rbind_ok in H as (? & _ & H).
  apply Ok_inj, pair_ok in H as [<- <-]. split; [|done]. unfold caller.
  unfold preflight_authority in Hw. cbn [namespace_call x_authority] in Hw. revert Hw.
  destruct who; try done; [by intros Hw%Ok_inj|]. destruct (str_eqb s ""); [done|]. by intros Hw%Ok_inj.
Qed.

Lemma outcome_params_named k1 a c ps : x_authority_set a = PNone -> c_parameters c = ps ->
  "op_csil" ∉ map fst ps ->
  outcome_params k1 a c = ps \/ exists n, outcome_params k1 a c = ps ++ [("op_csil", PInt n)].
Proof.
  intros Ha Hp Hn. unfold outcome_params. rewrite Ha, Hp.
  destruct (dict_get _ _) as [n|]; [|by left]. destruct (n =? 0); [by left|].
  right. exists n. by apply dict_set_fresh.
Qed.

(** The fields of a request, as they are read back. *)
Lemma named_fields q name extra f : f ∈ ["canonical"; "delegate_authority"; "new_owner"; "awarded_owner"] ->
  extra = [] \/ (exists n, extra = [("op_csil", PInt n)]) ->
  pyval_ok (PDict (named name ++ request_args q)) = true ->
  plain ((named name ++ request_args q) ++ extra) = true /\
  pyval_ok (PDict ((named name ++ request_args q) ++ extra)) = true /\
  py_get f (canon (PDict ((named name ++ request_args q) ++ extra)))
    = canon (col f (named name ++ request_args q)).
Proof.
  intros Hf Hx Hok. assert (Hpl : plain ((named name ++ request_args q) ++ extra) = true).
  { destruct Hx as [->|[n ->]], q; reflexivity. }
  assert (Hok' : pyval_ok (PDict ((named name ++ request_args q) ++ extra)) = true).
  { cbn [pyval_ok] in Hok |- *. apply andb_true_iff in Hok as [_ Hv]. apply andb_true_iff. split.
    - apply bool_decide_eq_true. destruct Hx as [->|[n ->]], q; cbn; repeat constructor; set_solver.
    - rewrite forallb_app, Hv. by destruct Hx as [->|[n ->]]. }
  split_and!; [done..|]. cbn [pyval_ok] in Hok'. apply andb_true_iff in Hok' as [Hnd _].
  apply bool_decide_eq_true in Hnd. rewrite py_get_canon by done. cbn [py_get]. f_equal.
  destruct Hx as [->|[n ->]]; [by rewrite app_nil_r|].
  repeat (apply elem_of_cons in Hf as [->|Hf]; [by destruct q|]). by apply elem_of_nil in Hf.
Qed.

(** The receipt of a completed request, read back, moves its name as the machine does. *)
Lemma done_row q name who gate now k1 c w x row r i st :
  let a := namespace_call (request_op q) who (named name ++ request_args q) gate now in
  entered (success_receipt a c (outcome_params k1 a c) w) x row ->
  c_parameters c = named name ++ request_args q ->
  pyval_ok (PDict (named name ++ request_args q)) = true -> canonicalize name <> "" ->
  _row_to_receipt row = Ok r ->
  exists st', project_step i r st = Ok st' /\
    match request_action q with
    | Some act => steps (c_authority c) act (KStr (canonicalize name)) st st'
    | None => st' = st
    end.
Proof.
  intros a Hen Hps Hok Hne Hr. apply read_row in Hr as (Hop & Hau & Hfa & Hj).
  assert (Hx : exists extra, outcome_params k1 a c = (named name ++ request_args q) ++ extra /\
    (extra = [] \/ exists n, extra = [("op_csil", PInt n)])).
  { destruct (outcome_params_named k1 a c _ eq_refl Hps) as [->|[n ->]];
      [by destruct q; cbn; set_solver|exists []; rewrite app_nil_r; auto|eexists; eauto]. }
  destruct Hx as (extra & Hx & Hex). rewrite Hx in Hen.
  pose proof (fun f Hf => named_fields q name extra f Hf Hex Hok) as Hfields.
  destruct (Hfields "canonical" ltac:(set_solver)) as (Hpl & Hok' & _).
  destruct (en_params _ _ _ Hen _ eq_refl Hpl) as (pj & Hpj & Hcell).
  rewrite Hcell in Hj. cbn [cell_text] in Hj.
  rewrite (json_loads_dumps style_compact_ascii style_compact_ascii_wf _ _ Hok' Hpj) in Hj.
  apply Some_inj' in Hj. rewrite (en_op _ _ _ Hen) in Hop. rewrite (en_failed _ _ _ Hen) in Hfa.
  rewrite (en_authority _ _ _ Hen) in Hau. cbn [success_receipt kw_op kw_failed kw_authority] in Hop, Hfa, Hau.
  assert (Hcol : forall f, f ∈ ["canonical"; "delegate_authority"; "new_owner"; "awarded_owner"] ->
    py_get f (parameters r) = canon (col f (named name ++ request_args q))).
  { intros f Hf. rewrite <- Hj. by apply Hfields. }
  destruct (parameters r) as [| | | | | | |P|] eqn:Hpr; try discriminate Hj. cbn [py_get] in Hcol.
  assert (Hcan : col "canonical" P = PStr (canonicalize name)) by (rewrite Hcol by set_solver; by destruct q).
  assert (HP : _params r = Ok P).
  { unfold _params. rewrite Hpr. destruct P; [discriminate Hcan|done]. }
  assert (Ht : truthy (PStr (canonicalize name)) = true).
  { cbn. apply negb_true_iff. by apply str_eqb_false. }
  assert (Hco : canonical_of P = PStr (canonicalize name)) by (unfold canonical_of; by rewrite Hcan, Ht).
  assert (Hop' : op r = request_op q) by (rewrite Hop; by destruct q).
  assert (Hok3 : exists st', project_step i r st = Ok st').
  { unfold project_step. rewrite Hfa, HP. cbn [rbind]. cbv zeta. rewrite Hco, Ht, Hop'. cbn [negb key_of rbind].
    destruct q; try (eexists; reflexivity).
    destruct (truthy (col "awarded_owner" P)); eexists; reflexivity. }
  destruct Hok3 as [st' Hst']. exists st'. split; [done|]. apply project_step_spec in Hst'.
  assert (Hact : action_of r P = request_action q).
  { unfold action_of. rewrite Hop', !Hcol by set_solver. by destruct q. }
  unfold deed in Hst'. rewrite Hfa, HP, Hco, Ht, Hact in Hst'. cbn [key_of] in Hst'. rewrite <- Hau.
  destruct (request_action q); [apply Hst'|exact Hst'].
Qed.

(** C15: the governed calls refine the ownership machine.  From rest, on a readable chain, a call that
    returns had a name and an admissible request: a free name for an allocation, the
    owner's authority for what is the owner's, the governor's root and a name not removed
    for an award; and the name has moved exactly as the machine moves it for the authority recorded,
    a claim moving nothing.  A call that fails, at whatever step, moves nothing; and no
    call touches another name. *)
Theorem namespace_call_exact q name who now k r k' st rs' :
  request_call q name who now k = (r, k') -> calm anchor k ->
  namespace_state (kview k) = Ok st -> all_receipts (kview k') = Ok rs' ->
  pyval_ok (PDict (named name ++ request_args q)) = true ->
  exists st', namespace_state (kview k') = Ok st' /\
    let c := KStr (canonicalize name) in
    (forall c', c' <> c -> status_of st' c' = status_of st c') /\
    match r with
    | Ok _ => canonicalize name <> "" /\
        admissible q (k_mosaic_root (k_frame k)) who (status_of st c) = true /\
        status_of st' c = match request_action q with
                          | Some a => next (caller who k) a (status_of st c) | None => status_of st c end
    | Err _ => status_of st' c = status_of st c
    end.
Proof.
  intros H Hc Hst Hrs' Hok. destruct (request_reading q name who now k) as (f & Heq & Hf).
  rewrite Heq in H. clear Heq. unfold namespace_state, _project in *.
  apply rbind_ok in Hst as (rs & Hrs & Hst). rewrite Hrs'. cbn [rbind].
  destruct (project_from_runs _ _ _ _ Hst well_formed_none) as [Hwf _].
  destruct (reading_call _ _ _ _ _ H Hc eq_refl eq_refl eq_refl) as (l & Hg & Hr).
  destruct (receipts_split _ _ _ _ _ Hg Hrs Hrs') as (new & -> & Hnew).
  rewrite project_from_app, Hst. cbn [rbind]. destruct r as [v|e].
  2:{ exists st. by rewrite (bystanders_project _ _ _ _ Hr Hnew). }
  destruct Hr as (Hgate & c & adm & row & x & k1 & w & Hpre & -> & Hadm & Hen).
  rewrite (Hf _ st) in Hgate; [|by rewrite Hrs|done]. apply Ok_inj, andb_true_iff in Hgate as [Hn Had].
  apply negb_true_iff, str_eqb_false in Hn. apply preflight_namespace in Hpre as [Hca Hps].
  inversion Hnew as [|? ra ? ? Hra Hnew1]; subst. inversion Hnew1 as [|? rd ? ? Hrd Hnew2]; subst.
  inversion Hnew2; subst. cbn [project_from]. rewrite (bystander_step _ _ _ _ Hadm Hra). cbn [rbind].
  destruct (done_row q name who _ now k1 c w x row rd (0 + Z.of_nat (length rs) + 1) st Hen Hps Hok Hn Hrd)
    as (st' & -> & Hs). exists st'. split; [done|]. rewrite Hca in Hs.
  destruct (request_action q); [|subst st'; split_and!; done].
  destruct (Hs Hwf) as (_ & Hsc & Ho). split_and!; done.
Qed.
End governed.

(** * Examples *)

(** Case folding of ASCII text. *)
Definition ascii_lower (c : ascii) : ascii :=
  let n := N_of_ascii c in if ((65 <=? n) && (n <=? 90))%N then ascii_of_N (n + 32) else c.
Fixpoint lower (s : string) : string :=
  match s with String c s => String (ascii_lower c) (lower s) | EmptyString => "" end.
Definition demo_casing : Casing := {| casefold := lower; container_repr := fun _ => "" |}.

Definition demo_request := @request_call nfc_id demo_casing ed_demo demo_engine demo_deployment.
Definition demo_names (k : kernel) : result exn namespace := @namespace_state nfc_id demo_casing (kview k).

Example canonical_spaces : @canonicalize nfc_id demo_casing (PStr " Alice Bob ") = "alice bob".
Proof. reflexivity. Qed.

Definition allocated : result exn pyval * kernel := Eval vm_compute in
  demo_request RAllocate (PStr " Alice") (PStr "ann") "now" (demo_kernel []).
Definition allocated_rows : list Receipt := Eval vm_compute in read_rows (snd allocated).
Definition superseded : result exn pyval * kernel := Eval vm_compute in
  demo_request (RSupersede (PStr "bea")) (PStr "ALICE") (PStr "ann") "now" (snd allocated).
Definition superseded_rows : list Receipt := Eval vm_compute in read_rows (snd superseded).
Definition alice : key := KStr "alice".

(** The gates compare the owner with the authority given, not with the authority recorded: by
    default authority, a name nobody owns is revoked, on the record, and stays free. *)
Definition unowned_revocation : result exn pyval * kernel := Eval vm_compute in
  demo_request RRevoke (PStr "nobody") PNone "now" (demo_kernel []).
Lemma unowned_name_revoked :
  demo_request RRevoke (PStr "nobody") PNone "now" (demo_kernel []) = unowned_revocation /\
  fst unowned_revocation = Ok PNone /\
  map op (read_rows (snd unowned_revocation)) = ["gate_admit"; "namespace_revoke"] /\
  rmap (fun st => status_of st (KStr "nobody")) (demo_names (snd unowned_revocation)) = Ok Free.
Proof. split_and!; vm_compute; reflexivity. Qed.

(** An award is folded whoever made it: the governor is asked for by the gate of [adjudicate] only,
    and any caller of [execute] may leave the gate out. *)
Definition forged_award : exec_args :=
  {| x_op := OP_ADJUDICATE; x_authority := PStr "mallory";
     x_parameters := PDict [("canonical", PStr "alice"); ("awarded_owner", PStr "mallory")];
     x_gate := None; x_effect := None; x_atomicity := None; x_idempotency_key := PNone; x_gate_margin := PNone;
     x_layer := "I"; x_jurisdiction := "namespace"; x_governor_sig := None; x_warrant_basis := NoBasis;
     x_intent_ref := ""; x_authority_set := PNone; x_capability_verdicts := []; x_required_locality := None;
     x_now := "now" |}.
Definition forged : result exn pyval * kernel := Eval vm_compute in demo_execute forged_award (snd allocated).
Lemma forged_award_folded : demo_execute forged_award (snd allocated) = forged /\ fst forged = Ok PNone /\
  rmap (fun st => status_of st alice) (demo_names (snd forged)) = Ok (Owned (PStr "mallory") []).
Proof. split_and!; vm_compute; reflexivity. Qed.

Lemma allocated_read : all_receipts (kview (snd allocated)) = Ok allocated_rows.
Proof. vm_compute. reflexivity. Qed.
Lemma superseded_read : all_receipts (kview (snd superseded)) = Ok superseded_rows.
Proof. vm_compute. reflexivity. Qed.
Definition allocated_names : namespace := Eval vm_compute in
  match demo_names (snd allocated) with Ok st => st | Err _ => no_names end.
Lemma allocated_state : demo_names (snd allocated) = Ok allocated_names.
Proof. vm_compute. reflexivity. Qed.
Definition superseded_names : namespace := Eval vm_compute in
  match demo_names (snd superseded) with Ok st => st | Err _ => no_names end.
Lemma superseded_state : demo_names (snd superseded) = Ok superseded_names.
Proof. vm_compute. reflexivity. Qed.
Lemma superseded_run :
  demo_request (RSupersede (PStr "bea")) (PStr "ALICE") (PStr "ann") "now" (snd allocated)
    = (Ok PNone, snd superseded).
Proof. vm_compute. reflexivity. Qed.
Lemma allocated_calm : calm GENESIS (snd allocated).
Proof. split; vm_compute; auto. Qed.
Lemma superseded_suffix : superseded_rows = allocated_rows ++ skipn 2 superseded_rows.
Proof. vm_compute. reflexivity. Qed.

Lemma projection_well_formed_witness : well_formed superseded_names.
Proof.
  exact (proj1 (@projection_well_formed nfc_id demo_casing _ _ _ superseded_read superseded_state)).
Defined.
Lemma projection_refines_witness : runs Free (@history nfc_id demo_casing alice superseded_rows)
  (Owned (PStr "bea") []).
Proof.
  exact (@projection_refines nfc_id demo_casing _ _ _ superseded_read superseded_state alice).
Defined.
Lemma ownership_by_right_witness :
  (exists ds', status_of superseded_names alice = Owned (PStr "ann") ds') \/
  exists r who a, r ∈ skipn 2 superseded_rows /\ @deed nfc_id demo_casing r = Some (alice, (who, a)) /\
    (PStr who = PStr "ann" /\ (a = Remove \/ exists n, a = Transfer n) \/ exists n, a = Award n).
Proof.
  pose proof superseded_read as Hread. rewrite superseded_suffix in Hread.
  exact (proj2 (@ownership_by_right nfc_id demo_casing _ _ _ _ _ _ alice allocated_read Hread allocated_state
    superseded_state) (PStr "ann") [] eq_refl).
Defined.
Lemma namespace_call_exact_witness :
  admissible (RSupersede (PStr "bea")) "" (PStr "ann") (status_of allocated_names alice) = true.
Proof.
  destruct (@namespace_call_exact nfc_id demo_casing ed_demo demo_engine demo_deployment GENESIS
    (RSupersede (PStr "bea")) (PStr "ALICE") (PStr "ann") "now" (snd allocated) (Ok PNone) (snd superseded)
    allocated_names superseded_rows superseded_run allocated_calm allocated_state superseded_read eq_refl)
    as (st' & _ & _ & _ & H & _).
  exact H.
Defined.
