(* ===== verification/Decision.v ===== *)
(** The receipt decision procedures ([ugk/decision.py]): the operational, context, meaning and
    locality decisions on a receipt and their composition.  They run on the process-wide
    caches of the frame (the authority graph, the policies), which they may fill. *)
From S2P Require Import Prelude Json Sha256 Binding BindingM2 Frame Authority Receipt Sqlite Archives Store StoreFacts.

(** * The procedures *)

Definition decision : Type := bool * option string.

Section decision.
Context {U : Unicode} {E : Ed25519}.

Definition D_s (r : Receipt) : result exn decision :=
  let* h := H_s (PStr (op r)) (parameters r) in
  Ok (if str_eqb (hex h) (h_s r) then (true, None) else (false, Some "NonCanonical")).

Definition env_policy (jurisdiction : string) : M env Policy := fun e =>
  match lookup_policy (policies e) jurisdiction with
  | Ok (p, c) => (Ok p, upd_env (graph e) c (keys e) (sp_counter e) (clock e) e)
  | Err x => (Err x, e)
  end.

Definition D_c (r : Receipt) (governor_pubkey_hex : string) (current_time : option Z) : M env decision :=
  let! path := env_path (authority r) in
  match verify_canonical_path path governor_pubkey_hex current_time with
  | (false, err) => sret (false, err)
  | (true, _) =>
  match compute_effective_capabilities path with
  | (_, Some cap_err) => sret (false, Some cap_err)
  | (_, None) =>
  let! p := env_policy (jurisdiction r) in
  match verify_policy p governor_pubkey_hex with
  | (false, err) => sret (false, err)
  | (true, _) =>
  let! default_ei := slift (default_epoch ID_PHI_0) in
  let! v := match current_time with
            | Some now => slift (verify_freshness_claim (build_freshness_claim_from_epoch default_ei)
                                   now ID_PHI_0 governor_pubkey_hex)
            | None => sret (verify_epoch_issuance default_ei governor_pubkey_hex)
            end in
  match v with
  | (false, err) => sret (false, err)
  | (true, _) => sret (true, None)
  end end end end.

Definition D_m (r : Receipt) : decision :=
  if negb (char_len (h_m r) =? 64)%nat then (false, Some "NonCanonical")
  else if int16_ok (h_m r) then (true, None) else (false, Some "NonCanonical").

Definition keys_to_check (r : Receipt) (name_keys : option (list string)) : list string :=
  match name_keys with Some ks => ks | None => ["op:" +:+ op r] end.
Definition D_j (r : Receipt) (strict_namespace : bool) (name_keys : option (list string)) : decision :=
  if negb strict_namespace then (true, None)
  else match validate_name_keys (keys_to_check r name_keys) NAMESPACE_PHI_0 with
       | (false, err) => (false, err)
       | (true, _) => (true, None)
       end.

(** [ok, err = ...; if not ok: return (False, err)] *)
Definition or_fail (m : M env decision) (rest : M env decision) : M env decision :=
  let! v := m in if fst v then rest else sret (false, snd v).

Definition verify_receipt (r : Receipt) (governor_pubkey_hex : string) (current_time : option Z)
    (strict_namespace : bool) (name_keys : option (list string)) : M env decision :=
  or_fail (slift (D_s r))
 (or_fail (D_c r governor_pubkey_hex current_time)
 (or_fail (sret (D_m r))
 (or_fail (sret (D_j r strict_namespace name_keys))
 (sret (true, None))))).
End decision.

(** * What is accepted *)

Section accepted.
Context {U : Unicode} {E : Ed25519}.

Lemma or_fail_accepts m rest e : fst (or_fail m rest e) = Ok (true, None) <->
  exists err e1, m e = (Ok (true, err), e1) /\ fst (rest e1) = Ok (true, None).
Proof.
  unfold or_fail, sbind. destruct (m e) as [[[[] err]|x] e1]; cbn [fst snd]; split; try done.
  - intros H. by exists err, e1.
  - by intros (err' & e1' & [= <- <-] & H).
  - by intros (err' & e1' & H & _).
  - by intros (err' & e1' & H & _).
Qed.

Lemma verify_policy_pair p gov : verify_policy p gov = (fst (verify_policy p gov),
  if fst (verify_policy p gov) then None else snd (verify_policy p gov)).
Proof.
  unfold verify_policy. destruct (negb _); [done|]. destruct (policy_unsigned _ _ _ _); [|done].
  unfold check_signature. by destruct (ed_verify _ _ _) as [[]|].
Qed.

(** The names a strict check is about are members of the namespace. *)
Definition named_members (r : Receipt) (strict : bool) (ks : option (list string)) : Prop :=
  strict = true -> keys_to_check r ks ⊆ NAMESPACE_PHI_0.

Lemma D_j_accepts r strict ks : fst (D_j r strict ks) = true <-> named_members r strict ks.
Proof.
  unfold D_j, named_members, validate_name_keys. destruct strict; cbn [negb fst]; [|naive_solver].
  assert (H : forallb (fun k => mem_str k NAMESPACE_PHI_0) (keys_to_check r ks) = true <->
    keys_to_check r ks ⊆ NAMESPACE_PHI_0).
  { rewrite forallb_forall. split.
    - intros H x Hx. apply mem_str_spec, H. by apply list_elem_of_In.
    - intros H x Hx. apply mem_str_spec, H. by apply list_elem_of_In. }
  destruct (forallb _ _); cbn [fst]; rewrite <- H; naive_solver.
Qed.

Record operational (r : Receipt) : Prop := {
  op_committed : exists h, H_s (PStr (op r)) (parameters r) = Ok h /\ h_s r = hex h;
}.

(** A verified authority path whose capabilities only shrink, and a verified policy. *)
Definition authorised (r : Receipt) (gov : string) (t : option Z) (e : env) : Prop :=
  exists path g, canonical_path_for (graph e) (authority r) = (Ok path, g) /\ path <> [] /\
    Forall (edge_verifies gov t) path /\ (exists dst, path_from GOVERNOR_AUTHORITY path dst) /\
    decreasing CAPABILITY_VOCABULARY (map capability_set path).
Definition under_policy (r : Receipt) (gov : string) (e : env) : Prop :=
  exists p c, lookup_policy (policies e) (jurisdiction r) = Ok (p, c) /\ fst (verify_policy p gov) = true.
(** The epoch of the deployment, issued under the default key. *)
Definition fresh (gov : string) (t : option Z) : Prop :=
  gov = DEFAULT_TEST_PUBKEY_HEX /\ forall now, t = Some now -> 0 <= now <= max_epoch.

Lemma capabilities_shrink path :
  (exists caps, compute_effective_capabilities path = (Some caps, None)) <->
  decreasing CAPABILITY_VOCABULARY (map capability_set path).
Proof.
  unfold compute_effective_capabilities.
  destruct (attenuate_spec CAPABILITY_VOCABULARY path) as [[Hd ->]|[Hd ->]].
  - split; [done|]. intros _. eauto.
  - split; [by intros [? ?]|done].
Qed.
Lemma capabilities_pair path : compute_effective_capabilities path = (None, Some "CapabilityEscalation") \/
  exists caps, compute_effective_capabilities path = (Some caps, None).
Proof.
  unfold compute_effective_capabilities.
  destruct (attenuate_spec CAPABILITY_VOCABULARY path) as [[_ ->]|[_ ->]]; eauto.
Qed.

Lemma canonical_path_pair path gov t :
  verify_canonical_path path gov t = (true, None) \/ exists err, verify_canonical_path path gov t = (false, err).
Proof.
  assert (H : forall l prev, verify_edges prev l gov t = (true, None) \/
    exists err, verify_edges prev l gov t = (false, err)).
  { induction l as [|e l IH]; intros prev; [by left|]. cbn [verify_edges].
    destruct (verify_authority_edge e gov t) as [[] err]; [|by right; exists err].
    destruct prev as [p|]; [|apply IH]. destruct (str_eqb p (issuer e)); [apply IH|by right; eexists]. }
  unfold verify_canonical_path. destruct path as [|e0 path]; [by right; eexists|].
  destruct (negb _); [by right; eexists|apply H].
Qed.

Context {EL : Ed25519Laws E}.

Lemma epoch_decided gov t : ed_keypair DEFAULT_TEST_PRIVKEY_HEX DEFAULT_TEST_PUBKEY_HEX ->
  exists ei, default_epoch ID_PHI_0 = Ok ei /\
    let v := match t with
             | Some now => verify_freshness_claim (build_freshness_claim_from_epoch ei) now ID_PHI_0 gov
             | None => Ok (verify_epoch_issuance ei gov)
             end in
    exists b err, v = Ok (b, err) /\ (b = true <-> fresh gov t).
Proof.
  intros Hk. unfold fresh. unfold default_epoch.
  destruct (freshness_claim_window ID_PHI_0 0 0 max_epoch _ _ (match t with Some n => n | None => 0 end)
    ID_PHI_0 gov Hk) as (ei & Hei & Hv & Hf).
  exists ei. split; [done|]. destruct t as [now|]; cbv zeta.
  - rewrite Hf. rewrite str_eqb_refl. cbn [negb].
    destruct (Z.ltb_spec now 0); [eexists _, _; split; [done|]; split; [done|];
      intros [_ H']; specialize (H' now eq_refl); lia|].
    destruct (Z.ltb_spec max_epoch now); [eexists _, _; split; [done|]; split; [done|];
      intros [_ H']; specialize (H' now eq_refl); lia|].
    destruct (str_eqb DEFAULT_TEST_PUBKEY_HEX gov) eqn:Hg; cbn [negb]; eexists _, _; (split; [done|]).
    + apply str_eqb_spec in Hg as <-. split; [|done]. intros _. split; [done|].
      intros n [= <-]. lia.
    + split; [done|]. intros [-> _]. by rewrite str_eqb_refl in Hg.
  - unfold verify_epoch_issuance in *. destruct (str_eqb (ei_issuer_key_id ei) gov) eqn:Hg; cbn [negb].
    + assert (Hi : ei_issuer_key_id ei = DEFAULT_TEST_PUBKEY_HEX).
      { destruct (str_eqb (ei_issuer_key_id ei) DEFAULT_TEST_PUBKEY_HEX) eqn:Hi; [by apply str_eqb_spec in Hi|done]. }
      apply str_eqb_spec in Hg as <-. rewrite Hi in *. rewrite str_eqb_refl in Hv. cbn [negb] in Hv.
      rewrite Hv. exists true, None. split; [done|]. split; done.
    + eexists _, _. split; [done|]. split; [done|]. intros [-> _].
      destruct (str_eqb (ei_issuer_key_id ei) DEFAULT_TEST_PUBKEY_HEX) eqn:Hi; [congruence|done].
Qed.

Lemma context_accepts r gov t e : ed_keypair DEFAULT_TEST_PRIVKEY_HEX DEFAULT_TEST_PUBKEY_HEX ->
  (exists err e1, D_c r gov t e = (Ok (true, err), e1)) <->
  authorised r gov t e /\ under_policy r gov e /\ fresh gov t.
Proof.
  intros Hk. unfold D_c, authorised, under_policy, sbind, env_path.
  destruct (canonical_path_for (graph e) (authority r)) as [[path|x] g] eqn:Hpath.
  2:{ split; [by intros (? & ? & ?)|by intros ((? & ? & ? & _) & _)]. }
  assert (Hpw : authorised r gov t e <-> verify_canonical_path path gov t = (true, None) /\
      exists caps, compute_effective_capabilities path = (Some caps, None)).
  { rewrite verify_canonical_path_spec, capabilities_shrink. unfold authorised. rewrite Hpath. split.
    - intros (p & g' & [= <- <-] & H1 & H2 & H3 & H4). auto.
    - intros ((H1 & H2 & H3) & H4). by exists path, g. }
  unfold authorised in Hpw. rewrite Hpath in Hpw. rewrite Hpw. clear Hpw.
  destruct (canonical_path_pair path gov t) as [-> |[err ->]].
  2:{ split; [by intros (? & ? & ?)|by intros ([? _] & _)]. }
  destruct (capabilities_pair path) as [-> |[caps ->]].
  { split; [by intros (? & ? & ?)|by intros ([_ [? ?]] & _)]. }
  unfold env_policy. cbn [upd_env policies].
  destruct (lookup_policy (policies e) (jurisdiction r)) as [[p c]|x] eqn:Hpol.
  2:{ split; [by intros (? & ? & ?)|by intros (_ & (? & ? & ? & _) & _)]. }
  assert (Hpp : (exists p0 c0, Ok (E:=exn) (p, c) = Ok (p0, c0) /\ fst (verify_policy p0 gov) = true) <->
    fst (verify_policy p gov) = true).
  { split; [by intros (? & ? & [= <- <-] & H)|]. intros H. by exists p, c. }
  rewrite Hpp. clear Hpp. rewrite (verify_policy_pair p gov). destruct (fst (verify_policy p gov)).
  2:{ split; [by intros (? & ? & ?)|by intros (_ & ? & _)]. }
  destruct (epoch_decided gov t Hk) as (ei & -> & b & err & Hv & Hb). cbn [slift].
  assert (Hw : forall ev : env, (match t return M env decision with
      | Some now => slift (verify_freshness_claim (build_freshness_claim_from_epoch ei) now ID_PHI_0 gov)
      | None => sret (verify_epoch_issuance ei gov) end) ev = (Ok (b, err), ev)).
  { intros ev. destruct t as [now|]; [unfold slift; by rewrite Hv|]. apply Ok_inj in Hv. unfold sret. by rewrite Hv. }
  rewrite Hw. destruct b; cbn [fst].
  - split; [|by intros _; eexists _, _]. intros _. split_and!; eauto. by apply Hb.
  - split; [by intros (? & ? & ?)|]. intros (_ & _ & Hf). by apply Hb in Hf.
Qed.

Lemma verify_receipt_decides r gov t strict ks e :
  ed_keypair DEFAULT_TEST_PRIVKEY_HEX DEFAULT_TEST_PUBKEY_HEX ->
  fst (verify_receipt r gov t strict ks e) = Ok (true, None) <->
  operational r /\ (authorised r gov t e /\ under_policy r gov e /\ fresh gov t) /\
  (char_len (h_m r) = 64%nat /\ int16_ok (h_m r) = true) /\ named_members r strict ks.
Proof.
  intros Hk. unfold verify_receipt. rewrite or_fail_accepts.
  assert (Ho : (exists err e1, slift (D_s r) e = (Ok (true, err), e1)) <-> operational r).
  { unfold slift, D_s. destruct (H_s _ _) as [h|x] eqn:Hh; cbn [rbind].
    - destruct (str_eqb (hex h) (h_s r)) eqn:He.
      + apply str_eqb_spec in He. split; [|by eexists _, _]. intros _. split. by exists h.
      + split; [by intros (? & ? & ?)|]. intros [(h' & Hh' & Hs)]. rewrite Hh in Hh'. apply Ok_inj in Hh' as <-.
        by rewrite Hs, str_eqb_refl in He.
    - split; [by intros (? & ? & ?)|]. intros [(h' & Hh' & _)]. by rewrite Hh in Hh'. }
  assert (Hm : fst (D_m r) = true <-> char_len (h_m r) = 64%nat /\ int16_ok (h_m r) = true).
  { unfold D_m. destruct (Nat.eqb_spec (char_len (h_m r)) 64) as [Hl|Hl]; cbn [negb];
      destruct (int16_ok (h_m r)); cbn [fst]; naive_solver. }
  assert (Hrest : forall e1, fst (or_fail (sret (D_m r)) (or_fail (sret (D_j r strict ks)) (sret (true, None))) e1)
      = Ok (true, None) <-> fst (D_m r) = true /\ fst (D_j r strict ks) = true).
  { intros e1. unfold or_fail, sbind, sret. destruct (D_m r) as [[] ?]; cbn [fst snd]; [|naive_solver].
    destruct (D_j r strict ks) as [[] ?]; cbn [fst snd]; naive_solver. }
  rewrite <- Ho, <- Hm, <- D_j_accepts, <- (context_accepts r gov t e Hk). split.
  - intros (err & e1 & H1 & H). unfold slift in H1. apply pair_ok in H1 as [H1 <-].
    apply or_fail_accepts in H as (err2 & e2 & H2 & H). apply Hrest in H as [H3 H4].
    split_and!; eauto. exists err, e. unfold slift. by rewrite H1.
  - intros ((err & e1 & H1) & (err2 & e2 & H2) & H3 & H4). exists err, e1. split; [done|].
    unfold slift in H1. apply pair_ok in H1 as [_ <-]. apply or_fail_accepts. exists err2, e2. split; [done|].
    by apply Hrest.
Qed.

(** * Honest receipts *)

(** What a process that only ever issues its own edges and policies holds in its caches. *)
Definition own_edge (now : Z) (name : string) (ed : AuthorityEdge) : Prop :=
  issuer ed = GOVERNOR_AUTHORITY /\ subject ed = name /\ capability_set ed = CAPABILITY_VOCABULARY /\
  edge_verifies DEFAULT_TEST_PUBKEY_HEX (Some now) ed.
Record honest_env (now : Z) (e : env) : Prop := {
  he_edges : forall name ed, graph e !! name = Some ed -> own_edge now name ed;
  he_policies : forall j p, dict_get j (policies e) = Some p ->
    fst (verify_policy p DEFAULT_TEST_PUBKEY_HEX) = true;
}.

Lemma path_of_own_edge g name ed now : name <> GOVERNOR_AUTHORITY -> g !! name = Some ed ->
  own_edge now name ed -> canonical_path_for g name = (Ok [ed], g).
Proof.
  intros Hn Hg (Hi & Hs & _ & _). unfold canonical_path_for, _ensure_default_edge_for, has_subject.
  destruct (str_eqb name GOVERNOR_AUTHORITY) eqn:Hne; [by apply str_eqb_spec in Hne|]. rewrite Hg.
  f_equal. unfold canonical_path. rewrite Hne. destruct (size g) as [|n] eqn:Hz.
  { apply map_size_empty_inv in Hz. by rewrite Hz, lookup_empty in Hg. }
  cbn [walk]. rewrite Hne, Hg, Hi. cbn. by destruct n.
Qed.

(** The path of an ordinary authority is one edge of the Governor's. *)
Lemma honest_path now e name : ed_keypair DEFAULT_TEST_PRIVKEY_HEX DEFAULT_TEST_PUBKEY_HEX ->
  now <= max_epoch -> honest_env now e -> name <> GOVERNOR_AUTHORITY ->
  exists ed g, canonical_path_for (graph e) name = (Ok [ed], g) /\ own_edge now name ed /\
    forall n x, g !! n = Some x -> own_edge now n x.
Proof.
  intros Hk Hnow He Hn. destruct (graph e !! name) as [ed|] eqn:Hg.
  - pose proof (he_edges _ _ He _ _ Hg) as Ho. exists ed, (graph e).
    split; [by apply (path_of_own_edge _ _ _ now)|]. split; [done|]. apply (he_edges _ _ He).
  - destruct (default_authority_path (graph e) name now Hk Hg Hn Hnow) as (ed & Hp & Hs & Hv).
    unfold verify_authority_chain_with_capabilities in Hv.
    destruct (verify_canonical_path [ed] DEFAULT_TEST_PUBKEY_HEX (Some now)) as [[] err] eqn:Hc; [|done].
    assert (Hcan : verify_canonical_path [ed] DEFAULT_TEST_PUBKEY_HEX (Some now) = (true, None)).
    { destruct (canonical_path_pair [ed] DEFAULT_TEST_PUBKEY_HEX (Some now)) as [H|[? H]]; congruence. }
    apply verify_canonical_path_spec in Hcan as (_ & Hf & dst & Hi & _).
    assert (Ho : own_edge now name ed).
    { split; [done|]. split; [done|]. split; [|by apply Forall_inv in Hf].
      unfold compute_effective_capabilities, attenuate in Hv.
      destruct (subset_str (capability_set ed) CAPABILITY_VOCABULARY); [|done]. by injection Hv. }
    exists ed, (add_edge (graph e) ed). split; [done|]. split; [done|]. intros n x Hx.
    unfold add_edge in Hx. rewrite Hs in Hx. apply lookup_insert_Some in Hx as [[<- <-]|[_ Hx]]; [done|].
    by apply (he_edges _ _ He).
Qed.

Context {G : Engine}.

(** A written receipt carries the operational commitment of its operation and parameters,
    and its meaning commitment is a digest. *)
Lemma written_decidable a s r row : written a s r row ->
  operational r /\ char_len (h_m r) = 64%nat /\ int16_ok (h_m r) = true /\ authority r = w_authority a.
Proof.
  intros [eff p1 ps gr sn pj now cx g _ _ _ Hs _].
  apply seal_receipt_sealed in Hs as [k term cap cont br now' body tvh Hk _ _ _ _ _ ->].
  unfold compute_commitments in Hk. apply rbind_ok in Hk as (hs & Hhs & Hk).
  apply rbind_ok in Hk as (hc & _ & Hk). apply rbind_ok in Hk as (hm & Hhm & Hk).
  apply rbind_ok in Hk as (hj & _ & Hk). apply rbind_ok in Hk as (hr & _ & Hk). apply Ok_inj in Hk as <-.
  split; [split; by exists hs|]. cbn [h_m receipt_of k_m authority].
  assert (Hl : String.length hm = 32%nat).
  { unfold H_m in Hhm. apply rbind_ok in Hhm as (? & _ & Hhm). apply Ok_inj in Hhm as <-. apply sha256_length. }
  destruct (hexdigest_reads hm Hl). auto.
Qed.

(** The policy of every jurisdiction verifies. *)
Lemma honest_policy now e j : ed_keypair DEFAULT_TEST_PRIVKEY_HEX DEFAULT_TEST_PUBKEY_HEX ->
  honest_env now e -> exists p c, lookup_policy (policies e) j = Ok (p, c) /\
    fst (verify_policy p DEFAULT_TEST_PUBKEY_HEX) = true.
Proof.
  intros Hk He. unfold lookup_policy. destruct (dict_get j (policies e)) as [p|] eqn:Hg.
  - exists p, (policies e). split; [done|]. by apply (he_policies _ _ He j).
  - unfold default_policy_for, sign_policy.
    assert (exists u, policy_unsigned ["jurisdiction:" +:+ j] ["default-allow"] "v1" DEFAULT_TEST_PUBKEY_HEX = Ok u)
      as [u Hu] by by apply canonical_json_bytes_total.
    rewrite Hu. cbn [rbind]. eexists _, _. split; [done|]. unfold verify_policy.
    cbn [pol_subjects pol_decision_rules pol_version pol_issuer_key_id pol_signature].
    rewrite str_eqb_refl, Hu. cbn [negb]. unfold check_signature. by rewrite (ed_sound _ _ _ Hk).
Qed.

(** Honest receipts are decided.  Every receipt a store writes, for an authority other
    than the Governor itself, is accepted by any process whose caches hold only edges the
    Governor issued and policies it signed, at every time inside the epoch. *)
Theorem honest_receipt_decided a s r s' now e :
  ed_keypair DEFAULT_TEST_PRIVKEY_HEX DEFAULT_TEST_PUBKEY_HEX ->
  write a s = (Ok r, s') -> w_authority a <> GOVERNOR_AUTHORITY ->
  0 <= now <= max_epoch -> honest_env now e ->
  fst (verify_receipt r DEFAULT_TEST_PUBKEY_HEX (Some now) false None e) = Ok (true, None).
Proof.
  intros Hk Hw Hn Hnow He. apply write_spec in Hw as (_ & _ & _ & _ & r0 & row & Hw & -> & _).
  apply written_decidable in Hw as (Ho & Hl & Hi & Ha). apply verify_receipt_decides; [done|].
  split; [by destruct Ho as [Ho]; split|]. split; [|by split].
  split; [|split; [by apply (honest_policy now)|]].
  - destruct (honest_path now e (w_authority a) Hk) as (ed & g & Hp & (Hi' & _ & Hc & Hv) & _); [lia|done..|].
    exists [ed], g. unfold with_id. cbn [authority]. rewrite Ha, Hp. split_and!; [done..| | |].
    + by constructor.
    + exists (subject ed). by cbn.
    + cbn [map decreasing]. by rewrite Hc.
  - split; [done|]. by intros n [= <-].
Qed.

(** C32: what the verifier accepts.  A receipt is accepted exactly when its operation and
    parameters are those its operational commitment holds; its authority is reached from the
    Governor by a contiguous path of edges that verify, are not expired and only narrow
    the capabilities; the policy of its jurisdiction verifies; the epoch is the
    deployment's, under the key asked for and with the time in its window; its meaning commitment is 64
    characters that [int(h_m, 16)] reads; and, when the namespace is strict, the names asked for are
    members.  Those 64 characters need not be a digest: a prefix, a sign, underscores and
    blanks are read too ([loose_meaning_accepted]). *)
Theorem verify_receipt_accepts r gov t strict ks e :
  ed_keypair DEFAULT_TEST_PRIVKEY_HEX DEFAULT_TEST_PUBKEY_HEX ->
  fst (verify_receipt r gov t strict ks e) = Ok (true, None) <->
  operational r /\ (authorised r gov t e /\ under_policy r gov e /\ fresh gov t) /\
  (char_len (h_m r) = 64%nat /\ int16_ok (h_m r) = true) /\ named_members r strict ks.
Proof. apply verify_receipt_decides. Qed.
End accepted.

(** * The limits of the verifier *)

Section limits.
Context {U : Unicode} {E : Ed25519}.

(** A receipt of the Governor's own authority has an empty path: whatever else holds of
    it, it is refused. *)
Lemma governor_receipt_refused r gov t strict ks e h : authority r = GOVERNOR_AUTHORITY ->
  H_s (PStr (op r)) (parameters r) = Ok h -> h_s r = hex h ->
  fst (verify_receipt r gov t strict ks e) = Ok (false, Some "NoCanonicalPath").
Proof.
  intros Ha Hh Hs. unfold verify_receipt, or_fail, sbind, slift, D_s. rewrite Hh, Hs. cbn [rbind].
  rewrite str_eqb_refl. cbn [fst]. unfold D_c, sbind, env_path, canonical_path_for. rewrite Ha. done.
Qed.

(** The context and locality commitments, the root, the parent link, the body and the
    recorded legend, law, warrant and session are not read: [D_c] verifies the artifacts of
    the authority and the jurisdiction the receipt names, not the commitment that binds them. *)
Lemma other_commitments_unread r r' gov t strict ks :
  op r = op r' -> parameters r = parameters r' -> h_s r = h_s r' -> authority r = authority r' ->
  jurisdiction r = jurisdiction r' -> h_m r = h_m r' ->
  verify_receipt r gov t strict ks = verify_receipt r' gov t strict ks.
Proof.
  intros H1 H2 H3 H4 H5 H6. unfold verify_receipt, D_s, D_c, D_m, D_j, keys_to_check.
  by rewrite H1, H2, H3, H4, H5, H6.
Qed.
(** The meaning decision is documented to want 64 hexadecimal digits.  A receipt that is
    accepted is accepted as well with any of these for its meaning commitment. *)
Definition hex64 (s : string) : bool :=
  (String.length s =? 64)%nat && negb (str_existsb (fun c => negb (bool_decide (is_Some (hex_val c)))) s).
Definition run_of_a (n : nat) : string := concat_str (repeat "a" n).
Definition loose_meanings : list string :=
  ["0x" +:+ run_of_a 62; "-" +:+ run_of_a 63; "a_" +:+ run_of_a 62; "  " +:+ run_of_a 62].
Theorem loose_meaning_accepted r r' gov t strict ks e :
  op r = op r' -> parameters r = parameters r' -> h_s r = h_s r' -> authority r = authority r' ->
  jurisdiction r = jurisdiction r' -> h_m r' ∈ loose_meanings ->
  fst (verify_receipt r gov t strict ks e) = Ok (true, None) ->
  hex64 (h_m r') = false /\ fst (verify_receipt r' gov t strict ks e) = Ok (true, None).
Proof.
  intros H1 H2 H3 H4 H5 Hm H.
  assert (HD : hex64 (h_m r') = false /\ D_m r' = (true, None)).
  { unfold D_m. revert Hm. generalize (h_m r'). apply (proj1 (Forall_forall _ _)). repeat constructor. }
  destruct HD as [Hx HD]. split; [done|].
  assert (Hs : D_s r = D_s r' /\ D_c r gov t = D_c r' gov t /\ D_j r strict ks = D_j r' strict ks).
  { unfold D_s, D_c, D_j, keys_to_check. by rewrite H1, H2, H3, H4, H5. }
  destruct Hs as (Es & Ec & Ej). unfold verify_receipt in *. rewrite Es, Ec, Ej in H.
  apply or_fail_accepts in H as (x1 & e1 & Hr1 & H). apply or_fail_accepts. exists x1, e1. split; [done|].
  apply or_fail_accepts in H as (x2 & e2 & Hr2 & H). apply or_fail_accepts. exists x2, e2. split; [done|].
  apply or_fail_accepts in H as (x3 & e3 & Hr3 & H). apply or_fail_accepts. exists None, e2. rewrite HD.
  split; [done|]. by apply pair_ok in Hr3 as [_ ->].
Qed.
End limits.

(** * Examples *)

Lemma demo_honest_env now : @honest_env ed_demo now demo_env.
Proof. split; [intros n ed H; by destruct (lookup_empty_Some (M:=gmap string) n ed H)|done]. Qed.

Lemma honest_receipt_decided_witness :
  exists r s', demo_write demo_args demo_store1 = (Ok r, s') /\
    fst (@verify_receipt nfc_id ed_demo r DEFAULT_TEST_PUBKEY_HEX (Some 5) false None demo_env)
    = Ok (true, None).
Proof.
  destruct (demo_write demo_args demo_store1) as [[r|e] s'] eqn:H;
    [|vm_compute in H; discriminate H].
  exists r, s'. split; [reflexivity|].
  apply (@honest_receipt_decided nfc_id ed_demo ed_demo_laws demo_engine demo_args demo_store1 r s' 5 demo_env).
  - exact I.
  - exact H.
  - discriminate.
  - split; vm_compute; discriminate.
  - apply demo_honest_env.
Defined.

Definition decided_receipt : option Receipt :=
  Eval vm_compute in match fst (demo_write demo_args demo_store1) with Ok r => Some r | Err _ => None end.

Lemma verify_receipt_accepts_witness : exists r, decided_receipt = Some r /\
  (@operational nfc_id r /\ (@authorised ed_demo r DEFAULT_TEST_PUBKEY_HEX (Some 5) demo_env /\
     @under_policy ed_demo r DEFAULT_TEST_PUBKEY_HEX demo_env /\ fresh DEFAULT_TEST_PUBKEY_HEX (Some 5)) /\
   (char_len (h_m r) = 64%nat /\ int16_ok (h_m r) = true) /\ named_members r false None).
Proof.
  eexists. split; [reflexivity|].
  apply (@verify_receipt_accepts nfc_id ed_demo ed_demo_laws _ DEFAULT_TEST_PUBKEY_HEX (Some 5) false None demo_env I).
  vm_compute. reflexivity.
Defined.
