(* ===== verification/Witness.v ===== *)
(** Witness opening ([ugk/witness.py]): reconstructing the leaves of a receipt from its fields
    and the caches of the frame, opening one of them, and verifying an opening against a
    root; the recording requirement of the context-external mode. *)
From S2P Require Import Prelude Json Sha256 Binding BindingM2 Frame Authority Receipt Capability Sqlite Archives Store StoreFacts.

Definition MODE_STRICT := "strict".
Definition MODE_CONTEXT_EXTERNAL := "context_external".

(** The disclosed input is a dictionary. *)
Definition opening : Type := list (string * pyval).
Record Witness := {
  leaf_tag : Z;
  opened_input : opening;
  inclusion_path : list (string * side);
  h_r_claimed : string;
}.

(** [opened_input[key]], and [.encode("utf-8")] of it. *)
Definition field (k : string) (d : opening) : result exn pyval :=
  match dict_get k d with Some v => Ok v | None => Err (Exn KeyError k) end.
Definition encoded (v : pyval) : result exn string :=
  match v with PStr s => Ok s | _ => Err (Exn OtherError "AttributeError") end.

(** [except (KeyError, ValueError, TypeError)]: a canonicalization failure is a ValueError. *)
Definition opening_failure (x : exn) : bool :=
  match x with
  | Exn KeyError _ | Exn ValueError _ | Exn TypeError _ | Exn NonCanonical _ => true
  | _ => false
  end.

Section witness.
Context {U : Unicode} {E : Ed25519}.

(** ** From the receipt *)

Definition warrant_basis (r : Receipt) : list string :=
  if str_eqb (warrant_id r) "" then [] else [warrant_id r].

(** The seven leaves, with the lineage of a root receipt. *)
Definition leaves_of (r : Receipt) (fr : FreshnessClaim) (pid key : string) (chain : list pyval)
    (caps : list string) : result exn (list (Z * string)) :=
  let* h_s := H_s (PStr (op r)) (parameters r) in
  let* h_c := H_c (PList chain) (PStr pid) (pstrs caps) (pstrs (warrant_basis r))
                  (PStr (parent_h_r r)) (claim_val fr) in
  let* h_m := H_m (PStr (intent r)) (PStr (intent_ref r)) (PStr (legend_hash r)) (PList []) ID_SIGMA_0 in
  let* h_j := H_j (PStr (fc_phase_code fr)) (PStr MOSAIC_ROOT_PHI_0) (PStr (session_dkn r)) (PStr key) in
  Ok [(TAG_H_S, h_s); (TAG_H_C, h_c); (TAG_H_M, h_m); (TAG_H_J, h_j);
      (TAG_ID_P, H_id_P pid); (TAG_ID_SIGMA, H_id_Sigma ID_SIGMA_0); (TAG_ID_PHI, H_id_Phi ID_PHI_0)].

Definition _reconstruct_leaves_for (r : Receipt) : M env (list (Z * string)) :=
  let! ei := slift (default_epoch ID_PHI_0) in
  let! pid := env_policy_id (jurisdiction r) in
  let! key := env_authority_key (authority r) in
  let! path := env_path (authority r) in
  let! chain := env_path_dicts (authority r) in
  match compute_effective_capabilities path with
  | (Some caps, None) =>
      slift (leaves_of r (build_freshness_claim_from_epoch ei) pid key chain (sorted_str caps))
  | (_, _) => sraise (Exn ValueError "capability escalation in witness reconstruction")
  end.

(** What each leaf discloses. *)
Definition opening_of (r : Receipt) (tag : Z) (fr : FreshnessClaim) (pid key : string)
    (chain : list pyval) (caps : list string) : result exn opening :=
  if tag =? TAG_H_S then Ok [("op", PStr (op r)); ("parameters", parameters r)]
  else if tag =? TAG_H_C then
    Ok [("authority_chain", PList chain); ("policy_id", PStr pid); ("capabilities", pstrs caps);
        ("warrant_basis", pstrs (warrant_basis r)); ("parent_H_r", PStr (parent_h_r r));
        ("freshness", claim_val fr)]
  else if tag =? TAG_H_M then
    Ok [("intent", PStr (intent r)); ("intent_ref", PStr (intent_ref r));
        ("legend_hash", PStr (legend_hash r)); ("semantic_lineage", PList []);
        ("semantic_regime_id", PStr ID_SIGMA_0)]
  else if tag =? TAG_H_J then
    Ok [("phase_code", PStr (fc_phase_code fr)); ("mosaic_root", PStr MOSAIC_ROOT_PHI_0);
        ("session_id", PStr (session_dkn r)); ("authority_key", PStr key)]
  else if tag =? TAG_ID_P then Ok [("policy_id", PStr pid)]
  else if tag =? TAG_ID_SIGMA then Ok [("semantic_regime_id", PStr ID_SIGMA_0)]
  else if tag =? TAG_ID_PHI then Ok [("phase_code", PStr ID_PHI_0)]
  else Err (Exn ValueError "unknown leaf_tag").

(** [sorted(None)] when the path escalates: a TypeError. *)
Definition _opened_input_for (r : Receipt) (tag : Z) : M env opening :=
  let! ei := slift (default_epoch ID_PHI_0) in
  let! pid := env_policy_id (jurisdiction r) in
  let! key := env_authority_key (authority r) in
  let! chain := env_path_dicts (authority r) in
  let! path := env_path (authority r) in
  match fst (compute_effective_capabilities path) with
  | Some caps =>
      slift (opening_of r tag (build_freshness_claim_from_epoch ei) pid key chain (sorted_str caps))
  | None => sraise (Exn TypeError "'NoneType' object is not iterable")
  end.

Definition construct_witness (r : Receipt) (tag : Z) : M env Witness :=
  let! leaves := _reconstruct_leaves_for r in
  let! ' (target, path) := slift (build_inclusion_proof leaves tag) in
  let! input := _opened_input_for r tag in
  sret {| leaf_tag := tag; opened_input := input; inclusion_path := path; h_r_claimed := h_r r |}.

(** ** The verifier *)

Definition _recompute_leaf_hash (tag : Z) (d : opening) : result exn string :=
  if tag =? TAG_H_S then
    let* o := field "op" d in let* ps := field "parameters" d in H_s o ps
  else if tag =? TAG_H_C then
    let* chain := field "authority_chain" d in let* pid := field "policy_id" d in
    let* caps := field "capabilities" d in let* basis := field "warrant_basis" d in
    let* parent := field "parent_H_r" d in let* fr := field "freshness" d in
    H_c chain pid caps basis parent fr
  else if tag =? TAG_H_M then
    let* i := field "intent" d in let* ref := field "intent_ref" d in
    let* leg := field "legend_hash" d in let* lin := field "semantic_lineage" d in
    let* reg := field "semantic_regime_id" d in
    let* _ := c_m i ref leg lin in let* reg := encoded reg in H_m i ref leg lin reg
  else if tag =? TAG_H_J then
    let* ph := field "phase_code" d in let* root := field "mosaic_root" d in
    let* sid := field "session_id" d in let* key := field "authority_key" d in
    H_j ph root sid key
  else if tag =? TAG_ID_P then
    let* v := field "policy_id" d in let* s := encoded v in Ok (H_id_P s)
  else if tag =? TAG_ID_SIGMA then
    let* v := field "semantic_regime_id" d in let* s := encoded v in Ok (H_id_Sigma s)
  else if tag =? TAG_ID_PHI then
    let* v := field "phase_code" d in let* s := encoded v in Ok (H_id_Phi s)
  else Err (Exn ValueError "unknown leaf_tag").

Definition verify_witness (w : Witness) : result exn (bool * option string) :=
  match _recompute_leaf_hash (leaf_tag w) (opened_input w) with
  | Err x => if opening_failure x then Ok (false, Some "NonCanonical") else Err x
  | Ok leaf_hash =>
      let* target := _leaf_encoding (leaf_tag w) leaf_hash in
      match fromhex (h_r_claimed w) with
      | None => Ok (false, Some "NonCanonical")
      | Some root =>
          Ok (if verify_inclusion_proof root target (inclusion_path w)
              then (true, None) else (false, Some "NonCanonical"))
      end
  end.

(** The dictionary of external witnesses may be missing, lack a key or hold [None]. *)
Definition has_witness (k : string) (ws : option (list (string * option Witness))) : bool :=
  match ws with
  | Some d => match dict_get k d with Some (Some _) => true | _ => false end
  | None => false
  end.
Definition verify_well_recorded (mode : string) (ws : option (list (string * option Witness))) :
    result exn (bool * option string) :=
  if str_eqb mode MODE_STRICT then Ok (true, None)
  else if str_eqb mode MODE_CONTEXT_EXTERNAL then
    if negb (has_witness "recovery" ws) && negb (has_witness "collapse" ws)
    then Ok (false, Some "UnderRecordedCollapse") else Ok (true, None)
  else Err (Exn ValueError "unknown mode").
End witness.

(** * The caches after a reconstruction *)

(** A lookup that answers leaves its cache as a later lookup of the same name finds it,
    whatever happens to the other caches. *)
Definition settles {A B} (cache : env -> B) (m : M env A) : Prop := forall e a e' e'',
  m e = (Ok a, e') -> cache e'' = cache e' -> m e'' = (Ok a, e'').

Lemma dict_get_set_same {V} k (v : V) d : dict_get k (dict_set k v d) = Some v.
Proof.
  induction d as [|[k' v'] d IH]; cbn [dict_set dict_get]; [by rewrite str_eqb_refl|].
  destruct (str_eqb k k') eqn:Hk; cbn [dict_get]; by rewrite Hk.
Qed.

Lemma upd_env_self e : upd_env (graph e) (policies e) (keys e) (sp_counter e) (clock e) e = e.
Proof. by destruct e. Qed.

Section settled.
Context {U : Unicode} {E : Ed25519}.

Lemma policy_id_settles j : settles policies (env_policy_id j).
Proof.
  intros e i e' e''. unfold env_policy_id.
  destruct (lookup_policy_id (policies e) j) as [[i' c]|x] eqn:Hl; [|done].
  intros [H <-]%pair_ok. apply Ok_inj in H as <-. cbn [upd_env policies]. intros Hc. rewrite Hc.
  unfold lookup_policy_id in *. apply rbind_ok in Hl as ([p c'] & Hp & Hl).
  apply rbind_ok in Hl as (i2 & Hi & Hl). apply Ok_inj in Hl. injection Hl as -> ->.
  assert (Hget : dict_get j c = Some p).
  { unfold lookup_policy in Hp. destruct (dict_get j (policies e)) as [q|] eqn:Hq.
    - apply Ok_inj in Hp. injection Hp as -> <-. exact Hq.
    - apply rbind_ok in Hp as (q & _ & Hp). apply Ok_inj in Hp. injection Hp as -> <-. apply dict_get_set_same. }
  unfold lookup_policy. rewrite Hget. cbn [rbind]. rewrite Hi. cbn [rbind].
  by rewrite <- Hc, upd_env_self.
Qed.
Lemma authority_key_settles a : settles keys (env_authority_key a).
Proof.
  intros e k e' e''. unfold env_authority_key, lookup_authority_key.
  destruct (dict_get a (keys e)) as [q|] eqn:Hq; intros [H <-]%pair_ok; apply Ok_inj in H as <-;
    cbn [upd_env keys]; intros Hk; [rewrite Hk, Hq|rewrite Hk, dict_get_set_same]; by rewrite <- Hk, upd_env_self.
Qed.

(** A path once answered is answered again, from the same graph. *)
Lemma path_answered g a p g' : canonical_path_for g a = (Ok p, g') -> canonical_path_for g' a = (Ok p, g').
Proof.
  unfold canonical_path_for, _ensure_default_edge_for.
  destruct (str_eqb a GOVERNOR_AUTHORITY); [by intros [= <- <-]|].
  destruct (has_subject g a) eqn:Hs; [intros [= <- <-]; by rewrite Hs|].
  destruct (sign_authority_edge _ _ _ _ _ _ _) as [ed|x] eqn:He; [|done]. cbn [rbind]. intros [= <- <-].
  assert (Ha : subject ed = a).
  { unfold sign_authority_edge in He. cbv zeta in He. apply rbind_ok in He as (u & _ & He).
    by apply Ok_inj in He as <-. }
  assert (Hh : has_subject (add_edge g ed) a = true).
  { unfold has_subject, add_edge. by rewrite Ha, lookup_insert_eq. }
  by rewrite Hh.
Qed.
Lemma path_settles a : settles graph (env_path a).
Proof.
  intros e p e' e''. unfold env_path. destruct (canonical_path_for (graph e) a) as [[q|] g] eqn:Hq; [|done].
  intros [[= <-] <-]%pair_ok. cbn [upd_env graph]. intros Hg. rewrite Hg, (path_answered _ _ _ _ Hq).
  by rewrite <- Hg, upd_env_self.
Qed.
(** The path as dictionaries is read off the same graph. *)
Lemma path_dicts_of e a path : env_path a e = (Ok path, e) ->
  env_path_dicts a e = (Ok (map edge_canonical_dict path), e).
Proof.
  unfold env_path, env_path_dicts, canonical_path_as_dicts.
  destruct (canonical_path_for (graph e) a) as [[q|] g]; [|done]. intros [[= ->] H]%pair_ok. cbn [rmap rbind]. by rewrite H.
Qed.

(** What each lookup leaves alone. *)
Lemma policy_id_frame j e r e' : env_policy_id j e = (r, e') -> graph e' = graph e /\ keys e' = keys e.
Proof. unfold env_policy_id. destruct (lookup_policy_id _ _) as [[]|]; by intros [_ <-]%pair_ok. Qed.
Lemma authority_key_frame a e r e' : env_authority_key a e = (r, e') ->
  graph e' = graph e /\ policies e' = policies e.
Proof. unfold env_authority_key. destruct (lookup_authority_key _ _). by intros [_ <-]%pair_ok. Qed.
Lemma path_frame a e r e' : env_path a e = (r, e') -> keys e' = keys e /\ policies e' = policies e.
Proof. unfold env_path. destruct (canonical_path_for _ _). by intros [_ <-]%pair_ok. Qed.

(** The answers the caches hold for a receipt of this jurisdiction and authority. *)
Record holds (j a : string) (g : governed) (e : env) : Prop := {
  ho_epoch : exists ei, default_epoch ID_PHI_0 = Ok ei /\ g_freshness g = build_freshness_claim_from_epoch ei;
  ho_policy : env_policy_id j e = (Ok (g_policy_id g), e);
  ho_key : env_authority_key a e = (Ok (g_authority_key g), e);
  ho_path : exists path caps, env_path a e = (Ok path, e) /\ env_path_dicts a e = (Ok (g_chain g), e) /\
    compute_effective_capabilities path = (Some caps, None) /\ g_capabilities g = sorted_str caps;
}.

Lemma governed_holds j a g e e' : governed_inputs j a e = (Ok g, e') -> holds j a g e'.
Proof.
  unfold governed_inputs, sbind, slift.
  destruct (default_epoch ID_PHI_0) as [ei|] eqn:He; [|done].
  destruct (env_policy_id j e) as [[pid|] e1] eqn:Hp; [|done].
  destruct (env_authority_key a e1) as [[k|] e2] eqn:Hk; [|done].
  destruct (env_path a e2) as [[path|] e3] eqn:Hpa; [|done].
  pose proof (path_settles a _ _ _ e3 Hpa eq_refl) as Hpath.
  pose proof (path_dicts_of _ _ _ Hpath) as Hd. rewrite Hd.
  destruct (compute_effective_capabilities path) as [[caps|] [err|]] eqn:Hc; try done.
  intros [Hg <-]%pair_ok. apply Ok_inj in Hg as <-.
  apply authority_key_frame in Hk as Hf1. apply path_frame in Hpa as Hf2.
  destruct Hf1 as [_ Hf1], Hf2 as [Hf2 Hf3]. split; cbn.
  - by exists ei.
  - apply (policy_id_settles j _ _ _ _ Hp). congruence.
  - by apply (authority_key_settles a _ _ _ _ Hk).
  - by exists path, caps.
Qed.
End settled.

(** * Witnesses of written receipts *)

Section complete.
Context {U : Unicode} {E : Ed25519} {G : Engine}.

(** What a write committed to is still what the caches of the process answer. *)
Lemma write_governed a s r s' : write a s = (Ok r, s') ->
  exists g params r0 eff grade snapshot now codex n,
    holds (w_jurisdiction a) (w_authority a) g (s_env s') /\
    seal_receipt (front s) now codex g a eff params grade snapshot = Ok r0 /\ r = with_id n r0.
Proof.
  unfold write. destruct (_read_only s); [done|]. unfold write_prepare, sbind at 1, slift.
  intros H. revert H. unfold sbind, slift.
  destruct (_resolve_effect_surface _ _ _) as [[eff p1]|]; [|done].
  destruct (promote_reconciliation _ _ _) as [[p2 grade] snapshot].
  destruct (_params_json p2) as [pj|]; [|done].
  destruct (on_env time_now s) as [[now|] s1] eqn:H4; apply on_env_step in H4 as (e1 & ->); [|done].
  unfold sget. unfold on_env.
  destruct (governed_inputs _ _ _) as [[g|] e2] eqn:H5; [|done]. apply governed_holds in H5.
  cbn [front set_env]. set (s2 := set_env e2 (set_env e1 s)).
  destruct (seal_receipt _ _ _ _ _ _ _ _ _) as [r0|] eqn:H6; [|done]. unfold sret.
  intros H. apply write_append_spec in H as (_ & _ & He & _ & -> & _).
  exists g, p2, r0, eff, grade, snapshot, now, (_pinned_codex_hash (s_env s2)), (seq (view s2) + 1).
  split; [by rewrite He|]. by split.
Qed.

(** The leaves of a receipt with no predecessor are reconstructed as they were committed. *)
Record committed (g : governed) (r : Receipt) (leaves : list (Z * string)) : Prop := {
  cm_leaves : leaves_of r (g_freshness g) (g_policy_id g) (g_authority_key g) (g_chain g)
                (g_capabilities g) = Ok leaves;
  cm_root : exists root, compute_H_r leaves = Ok root /\ h_r r = hex root;
}.

Lemma root_receipt_committed f now codex g a eff params grade snapshot r0 n :
  seal_receipt f now codex g a eff params grade snapshot = Ok r0 -> prior_h_m f = None ->
  authority (with_id n r0) = w_authority a /\ jurisdiction (with_id n r0) = w_jurisdiction a /\
  exists leaves, committed g (with_id n r0) leaves.
Proof.
  intros Hs Hroot. apply seal_receipt_sealed in Hs as [k term cap cont br now' body tvh Hk _ _ _ _ _ ->].
  split; [done|]. split; [done|]. unfold compute_commitments in Hk. rewrite Hroot in Hk.
  apply rbind_ok in Hk as (hs & Hhs & Hk). apply rbind_ok in Hk as (hc & Hhc & Hk).
  apply rbind_ok in Hk as (hm & Hhm & Hk). apply rbind_ok in Hk as (hj & Hhj & Hk).
  apply rbind_ok in Hk as (hr & Hhr & Hk). apply Ok_inj in Hk as <-.
  exists (m2_leaves hs hc hm hj (g_policy_id g)). split.
  - unfold leaves_of, warrant_basis. cbn [with_id receipt_of op parameters parent_h_r warrant_id intent
      intent_ref legend_hash session_dkn build_lineage lineage_as_dicts map GENESIS_LINEAGE] in *.
    rewrite Hhs. cbn [rbind]. rewrite Hhc. cbn [rbind]. rewrite Hhm. cbn [rbind]. by rewrite Hhj.
  - exists hr. done.
Qed.

(** A disclosed input hashes to the leaf. *)
Lemma opening_recomputes r fr pid key chain caps leaves tag :
  leaves_of r fr pid key chain caps = Ok leaves -> 1 <= tag <= 7 ->
  exists d h, opening_of r tag fr pid key chain caps = Ok d /\ (tag, h) ∈ leaves /\
    _recompute_leaf_hash tag d = Ok h.
Proof.
  unfold leaves_of. intros (hs & Hhs & H)%rbind_ok. apply rbind_ok in H as (hc & Hhc & H).
  apply rbind_ok in H as (hm & Hhm & H). apply rbind_ok in H as (hj & Hhj & H). apply Ok_inj in H as <-.
  intros Ht.
  assert (tag = TAG_H_S \/ tag = TAG_H_C \/ tag = TAG_H_M \/ tag = TAG_H_J \/ tag = TAG_ID_P \/
    tag = TAG_ID_SIGMA \/ tag = TAG_ID_PHI) as Hcase
    by (unfold TAG_H_S, TAG_H_C, TAG_H_M, TAG_H_J, TAG_ID_P, TAG_ID_SIGMA, TAG_ID_PHI; lia).
  destruct Hcase as [->|[->|[->|[->|[->|[->| ->]]]]]]; unfold opening_of, _recompute_leaf_hash; cbn [Z.eqb Pos.eqb
    TAG_H_S TAG_H_C TAG_H_M TAG_H_J TAG_ID_P TAG_ID_SIGMA TAG_ID_PHI];
    (eexists _, _; split; [reflexivity|]; split; [rewrite !elem_of_cons; eauto 10|]);
    try done.
  assert (Hm : (let* _ := c_m (PStr (intent r)) (PStr (intent_ref r)) (PStr (legend_hash r)) (PList []) in
    H_m (PStr (intent r)) (PStr (intent_ref r)) (PStr (legend_hash r)) (PList []) ID_SIGMA_0) = Ok hm).
  { unfold H_m in Hhm. apply rbind_ok in Hhm as H. destruct H as (c & Hc & _). rewrite Hc. exact Hhm. }
  exact Hm.
Qed.

(** The opening of a receipt whose answers the caches hold. *)
Lemma opening_answered r tag g e d : holds (jurisdiction r) (authority r) g e ->
  opening_of r tag (g_freshness g) (g_policy_id g) (g_authority_key g) (g_chain g) (g_capabilities g) = Ok d ->
  _opened_input_for r tag e = (Ok d, e).
Proof.
  intros [(ei & He & Hf) Hp Hk (path & caps & Hpa & Hd & Hc & Hcaps)] Ho.
  unfold _opened_input_for, sbind, slift. rewrite He, Hp, Hk, Hd, Hpa, Hc. cbn [fst].
  by rewrite <- Hf, <- Hcaps, Ho.
Qed.
Lemma leaves_answered r g e leaves : holds (jurisdiction r) (authority r) g e ->
  leaves_of r (g_freshness g) (g_policy_id g) (g_authority_key g) (g_chain g) (g_capabilities g) = Ok leaves ->
  _reconstruct_leaves_for r e = (Ok leaves, e).
Proof.
  intros [(ei & He & Hf) Hp Hk (path & caps & Hpa & Hd & Hc & Hcaps)] Ho.
  unfold _reconstruct_leaves_for, sbind, slift. rewrite He, Hp, Hk, Hpa, Hd, Hc.
  by rewrite <- Hf, <- Hcaps, Ho.
Qed.

(** C34: every commitment of a first receipt can be opened.  For the first receipt of a chain
    and each of its seven leaves, the process that wrote it constructs a witness, the
    witness claims the root of the receipt, and the verifier, which holds nothing but the witness, accepts it. *)
Theorem witness_complete a s r s' tag : write a s = (Ok r, s') -> prior_h_m (front s) = None ->
  1 <= tag <= 7 ->
  exists w, construct_witness r tag (s_env s') = (Ok w, s_env s') /\ leaf_tag w = tag /\
    h_r_claimed w = h_r r /\ verify_witness w = Ok (true, None).
Proof.
  intros Hw Hroot Ht. destruct (write_governed a s r s' Hw) as (g & ps & r0 & eff & gr & sn & now & cx & n & Hg & Hs & ->).
  destruct (root_receipt_committed _ _ _ _ _ _ _ _ _ _ n Hs Hroot) as (Ha & Hj & leaves & [Hl (root & Hr & Hh)]).
  rewrite <- Ha, <- Hj in Hg.
  destruct (opening_recomputes _ _ _ _ _ _ _ tag Hl Ht) as (d & h & Hd & Hin & Hrec).
  destruct (inclusion_complete leaves tag h root Hr Hin) as (leaf & path & Hb & Henc & Hv).
  eexists. unfold construct_witness, sbind, slift. rewrite (leaves_answered _ _ _ _ Hg Hl), Hb.
  rewrite (opening_answered _ _ _ _ _ Hg Hd). split; [reflexivity|]. split; [done|]. split; [done|].
  unfold verify_witness. cbn [leaf_tag opened_input h_r_claimed inclusion_path]. rewrite Hrec, Henc. cbn [rbind].
  by rewrite Hh, fromhex_hex, Hv.
Qed.
End complete.

(** * What an accepted witness discloses *)

Section binding.
Context {U : Unicode} {UL : UnicodeLaws U}.

(** What hashing an opening feeds to SHA-256. *)
Definition opening_preimages (tag : Z) (d : opening) : list string :=
  let f k := match dict_get k d with Some v => v | None => PNone end in
  let t k := match f k with PStr s => s | _ => "" end in
  if tag =? TAG_H_S then [H_s_preimage (f "op") (f "parameters")]
  else if tag =? TAG_H_C then
    [H_c_preimage (f "authority_chain") (f "policy_id") (f "capabilities") (f "warrant_basis")
       (f "parent_H_r") (f "freshness"); G_c_preimage (f "authority_chain")]
  else if tag =? TAG_H_M then
    [H_m_preimage (f "intent") (f "intent_ref") (f "legend_hash") (f "semantic_lineage") (t "semantic_regime_id")]
  else if tag =? TAG_H_J then
    [H_j_preimage (f "phase_code") (f "mosaic_root") (f "session_id") (f "authority_key");
     phi_preimage (f "phase_code") (f "mosaic_root") (f "session_id")]
  else if tag =? TAG_ID_P then [concat_str ["UGK-id_P-v1"; t "policy_id"]]
  else if tag =? TAG_ID_SIGMA then [concat_str ["UGK-id_Sigma-v1"; t "semantic_regime_id"]]
  else [concat_str ["UGK-id_Phi-v1"; t "phase_code"]].

(** The fields an opening of a leaf discloses. *)
Definition opened_fields (tag : Z) : list string :=
  if tag =? TAG_H_S then ["op"; "parameters"]
  else if tag =? TAG_H_C then
    ["authority_chain"; "policy_id"; "capabilities"; "warrant_basis"; "parent_H_r"; "freshness"]
  else if tag =? TAG_H_M then
    ["intent"; "intent_ref"; "legend_hash"; "semantic_lineage"; "semantic_regime_id"]
  else if tag =? TAG_H_J then ["phase_code"; "mosaic_root"; "session_id"; "authority_key"]
  else if tag =? TAG_ID_P then ["policy_id"]
  else if tag =? TAG_ID_SIGMA then ["semantic_regime_id"]
  else if tag =? TAG_ID_PHI then ["phase_code"]
  else [].

(** Both openings have the field, with values of one normal form. *)
Definition same_field (d1 d2 : opening) (k : string) : Prop :=
  exists v1 v2, dict_get k d1 = Some v1 /\ dict_get k d2 = Some v2 /\ norm v1 = norm v2.

Lemma field_ok k d v : field k d = Ok v -> dict_get k d = Some v.
Proof. unfold field. destruct (dict_get k d); [|done]. by intros H%Ok_inj; subst. Qed.
Lemma encoded_ok v s : encoded v = Ok s -> v = PStr s.
Proof. destruct v; try done. by intros H%Ok_inj; subst. Qed.

(** An identity leaf holds its identifier. *)
Lemma id_leaf_inj p a b h : Ok (E:=exn) (_sha256 [p; a]) = Ok h -> Ok (E:=exn) (_sha256 [p; b]) = Ok h ->
  no_collision [concat_str [p; a]; concat_str [p; b]] -> a = b.
Proof.
  intros <-%Ok_inj H%Ok_inj Hnc. symmetry in H. apply _sha256_inj in H; [|exact Hnc].
  cbn [concat_str] in H. apply string_app_inv_l in H. by rewrite !string_app_nil_r in H.
Qed.

(** From both hashes to the values of the fields. *)
Ltac open_fields := repeat match goal with
  | H : rbind (field ?k ?d) _ = Ok _ |- _ =>
      let v := fresh "v" in let Hv := fresh "Hv" in
      apply rbind_ok in H as (v & Hv%field_ok & H)
  | H : rbind (encoded ?v) _ = Ok _ |- _ =>
      let s := fresh "s" in let Hs := fresh "Hs" in apply rbind_ok in H as (s & Hs%encoded_ok & H); subst v
  | H : rbind (c_m _ _ _ _) _ = Ok _ |- _ => apply rbind_ok in H as (? & _ & H)
  end.
(** The preimages of the two openings, with the values in them. *)
Ltac disclosed Hnc := repeat match goal with
  | H : dict_get ?k ?d = Some _ |- _ => lazymatch type of Hnc with context [dict_get k d] => rewrite H in Hnc end
  end; cbn [app] in Hnc.
Ltac fields_agree := repeat apply Forall_cons_2; try apply Forall_nil_2;
  eexists _, _; (split; [eassumption|split; [eassumption|first [assumption|reflexivity]]]).

(** The openings of one leaf hash. *)
Lemma opening_determined tag d1 d2 h :
  _recompute_leaf_hash tag d1 = Ok h -> _recompute_leaf_hash tag d2 = Ok h ->
  no_collision (opening_preimages tag d1 ++ opening_preimages tag d2) ->
  Forall (same_field d1 d2) (opened_fields tag).
Proof.
  unfold _recompute_leaf_hash, opening_preimages, opened_fields, same_field. cbv zeta.
  repeat lazymatch goal with |- (if ?b then _ else _) = _ -> _ => destruct b end; intros H1 H2 Hnc;
    try discriminate H1; open_fields; disclosed Hnc.
  - apply (H_s_determines _ _ _ _ _ H1 H2) in Hnc as (? & ?). fields_agree.
  - destruct (H_c_determines _ _ _ _ _ _ _ _ _ _ _ _ _ H1 H2) as (? & ? & ? & ? & ? & ?); cycle 2.
    + fields_agree.
    + eapply no_collision_mono; [|exact Hnc]. intros x. rewrite !elem_of_cons. tauto.
    + eapply no_collision_mono; [|exact Hnc]. intros x. rewrite !elem_of_cons. tauto.
  - apply (H_m_determines _ _ _ _ _ _ _ _ _ _ _ H1 H2) in Hnc as (? & ? & ? & ? & ->). fields_agree.
  - destruct (H_j_determines _ _ _ _ _ _ _ _ _ H1 H2) as (? & ? & ? & ?); cycle 2.
    + fields_agree.
    + eapply no_collision_mono; [|exact Hnc]. intros x. rewrite !elem_of_cons. tauto.
    + eapply no_collision_mono; [|exact Hnc]. intros x. rewrite !elem_of_cons. tauto.
  - pose proof (id_leaf_inj _ _ _ _ H1 H2 Hnc) as ->. fields_agree.
  - pose proof (id_leaf_inj _ _ _ _ H1 H2 Hnc) as ->. fields_agree.
  - pose proof (id_leaf_inj _ _ _ _ H1 H2 Hnc) as ->. fields_agree.
Qed.

Lemma verify_witness_accepts w : verify_witness w = Ok (true, None) <->
  exists h target root, _recompute_leaf_hash (leaf_tag w) (opened_input w) = Ok h /\
    _leaf_encoding (leaf_tag w) h = Ok target /\ fromhex (h_r_claimed w) = Some root /\
    verify_inclusion_proof root target (inclusion_path w) = true.
Proof.
  unfold verify_witness. destruct (_recompute_leaf_hash _ _) as [h|x].
  2:{ split; [by destruct (opening_failure x)|by intros (? & ? & ? & ? & _)]. }
  destruct (_leaf_encoding _ h) as [t|x] eqn:He; cbn [rbind].
  2:{ split; [done|]. intros (h' & ? & ? & Hh & He' & _). apply Ok_inj in Hh as <-. by rewrite He in He'. }
  destruct (fromhex _) as [root|].
  2:{ split; [done|]. by intros (? & ? & ? & _ & _ & ? & _). }
  split.
  - intros H. exists h, t, root. split; [done|]. split; [done|]. split; [done|].
    by destruct (verify_inclusion_proof root t _).
  - intros (h' & t' & root' & Hh & He' & Hr & Hv). apply Ok_inj in Hh as <-. rewrite He in He'.
    apply Ok_inj in He' as <-. apply Some_inj' in Hr as <-. by rewrite Hv.
Qed.

Definition sides (w : Witness) : list side := map snd (inclusion_path w).
Definition witness_preimages (w : Witness) : list string :=
  opening_preimages (leaf_tag w) (opened_input w) ++
  match rbind (_recompute_leaf_hash (leaf_tag w) (opened_input w)) (_leaf_encoding (leaf_tag w)) with
  | Ok target => path_preimages target (inclusion_path w) ++
      [concat_str [DS_R; ID_ROOT; foldl fold_step target (inclusion_path w)]]
  | Err _ => []
  end.

(** C35: an opening is binding.  Two accepted witnesses of one leaf under one claimed root,
    whose paths take the same sides, disclose the same value, up to the
    canonical form, in every field of the leaf, and carry the same path, unless SHA-256 collides on what
    the verifier hashed. *)
Theorem witness_binding w1 w2 :
  verify_witness w1 = Ok (true, None) -> verify_witness w2 = Ok (true, None) ->
  leaf_tag w1 = leaf_tag w2 -> h_r_claimed w1 = h_r_claimed w2 -> sides w1 = sides w2 -> sides w1 <> [] ->
  no_collision (witness_preimages w1 ++ witness_preimages w2) ->
  Forall (same_field (opened_input w1) (opened_input w2)) (opened_fields (leaf_tag w1)) /\
  inclusion_path w1 = inclusion_path w2.
Proof.
  intros (h1 & t1 & r1 & Hr1 & He1 & Hf1 & Hv1)%verify_witness_accepts
    (h2 & t2 & r2 & Hr2 & He2 & Hf2 & Hv2)%verify_witness_accepts Ht Hc Hs Hne Hnc.
  unfold witness_preimages in Hnc. rewrite <- Ht in *. rewrite Hr1, Hr2 in Hnc. cbn [rbind] in Hnc.
  rewrite He1, He2 in Hnc. rewrite Hc, Hf2 in Hf1. apply Some_inj' in Hf1 as ->.
  destruct (inclusion_proof_binding r1 t1 (inclusion_path w1) t2 (inclusion_path w2)) as [-> ->]; try done.
  - by rewrite (leaf_encoding_length _ _ _ He1), (leaf_encoding_length _ _ _ He2).
  - intros Hz. apply Hne. unfold sides. by rewrite Hz.
  - eapply no_collision_mono; [|exact Hnc]. intros x. rewrite !elem_of_app, !elem_of_cons. tauto.
  - split; [|done]. destruct (leaf_encoding_inj _ _ _ _ _ He1 He2) as [_ ->].
    apply (opening_determined _ _ _ _ Hr1 Hr2). eapply no_collision_mono; [|exact Hnc].
    intros x. rewrite !elem_of_app. tauto.
Qed.
End binding.

(** * Limits *)

Section lineage.
Context {U : Unicode} {E : Ed25519}.

(** The mode is decided: a strict receipt needs no external witness, a context-external one
    is under-recorded exactly when both are missing. *)
Lemma well_recorded_spec ws :
  verify_well_recorded MODE_STRICT ws = Ok (true, None) /\
  (verify_well_recorded MODE_CONTEXT_EXTERNAL ws = Ok (false, Some "UnderRecordedCollapse") <->
   has_witness "recovery" ws = false /\ has_witness "collapse" ws = false).
Proof.
  split; [done|]. unfold verify_well_recorded. cbn [str_eqb].
  destruct (has_witness "recovery" ws), (has_witness "collapse" ws); cbn; naive_solver.
Qed.

(** A leaf tag that is none of the seven is refused by the verifier and cannot be opened. *)
Lemma unknown_tag_refused w : ~ 1 <= leaf_tag w <= 7 -> verify_witness w = Ok (false, Some "NonCanonical").
Proof.
  intros H. unfold verify_witness, _recompute_leaf_hash, TAG_H_S, TAG_H_C, TAG_H_M, TAG_H_J, TAG_ID_P, TAG_ID_SIGMA, TAG_ID_PHI.
  repeat lazymatch goal with |- context [leaf_tag w =? ?n] => destruct (Z.eqb_spec (leaf_tag w) n); [lia|] end.
  done.
Qed.
End lineage.

(** * Examples *)

Definition demo_first : result exn Receipt * store := Eval vm_compute in demo_write demo_args (demo_store []).
Lemma demo_first_run : demo_write demo_args (demo_store []) = demo_first.
Proof. vm_compute. reflexivity. Qed.

Lemma witness_complete_witness : exists r s' w,
  demo_write demo_args (demo_store []) = (Ok r, s') /\
  @construct_witness nfc_id ed_demo r TAG_H_M (s_env s') = (Ok w, s_env s') /\ leaf_tag w = TAG_H_M /\
  h_r_claimed w = h_r r /\ @verify_witness nfc_id w = Ok (true, None).
Proof.
  destruct (demo_write demo_args (demo_store [])) as [[r|x] s'] eqn:H;
    [|rewrite demo_first_run in H; discriminate H].
  exists r, s'.
  destruct (@witness_complete nfc_id ed_demo demo_engine demo_args (demo_store []) r s' TAG_H_M H)
    as (w & H1 & H2); [reflexivity|split; discriminate|].
  exists w. split; [reflexivity|]. split; [exact H1|exact H2].
Defined.

(** The meaning leaf of the first receipt, opened twice. *)
Definition demo_opening (tag : Z) : Witness :=
  match demo_first with
  | (Ok r, s') => match fst (@construct_witness nfc_id ed_demo r tag (s_env s')) with
                  | Ok w => w
                  | Err _ => {| leaf_tag := 0; opened_input := []; inclusion_path := []; h_r_claimed := "" |}
                  end
  | (Err _, _) => {| leaf_tag := 0; opened_input := []; inclusion_path := []; h_r_claimed := "" |}
  end.
Definition demo_m : Witness := Eval vm_compute in demo_opening TAG_H_M.

(** The same opening, its fields in another order. *)
Definition demo_m' : Witness :=
  {| leaf_tag := TAG_H_M; opened_input := rev (opened_input demo_m);
     inclusion_path := inclusion_path demo_m; h_r_claimed := h_r_claimed demo_m |}.

Lemma witness_binding_witness :
  Forall (same_field (U:=nfc_id) (opened_input demo_m) (opened_input demo_m')) (opened_fields TAG_H_M) /\
  inclusion_path demo_m = inclusion_path demo_m'.
Proof.
  apply (@witness_binding nfc_id nfc_id_laws demo_m demo_m').
  - vm_compute. reflexivity.
  - vm_compute. reflexivity.
  - reflexivity.
  - reflexivity.
  - reflexivity.
  - vm_compute. discriminate.
  - apply no_collisionb_spec. vm_compute. reflexivity.
Defined.

(** The second receipt of a chain commits to a lineage that its own fields do not hold:
    the witness constructed for its meaning leaf does not verify. *)
Definition demo_second : result exn (bool * option string) * bool :=
  Eval vm_compute in
  match demo_write demo_args demo_store1 with
  | (Ok r, s') =>
      match fst (@construct_witness nfc_id ed_demo r TAG_H_M (s_env s')) with
      | Ok w => (@verify_witness nfc_id w, true)
      | Err x => (Err x, false)
      end
  | (Err x, _) => (Err x, false)
  end.
Lemma later_receipts_not_opened : demo_second = (Ok (false, Some "NonCanonical"), true) /\
  match demo_write demo_args demo_store1 with
  | (Ok r, s') => match fst (@construct_witness nfc_id ed_demo r TAG_ID_PHI (s_env s')) with
                  | Ok w => @verify_witness nfc_id w = Ok (false, Some "NonCanonical")
                  | Err _ => False
                  end
  | (Err _, _) => False
  end.
Proof. split; [reflexivity|]. vm_compute. reflexivity. Qed.
