(* ===== verification/Amendment.v ===== *)
(** Constitutional amendments ([ugk/amendment.py], [ugk/successor.py]): the signed record of a
    transition of the frame, the archive the records are kept in, the succession of
    Governor keys, the admissibility of a record, and the acceptance of a ledger of records: its
    genesis record, the walk and its head ([conformance/amendment_admissibility_gate.py]). *)
From S2P Require Import Prelude Json Sha256 Binding BindingM2 Frame Authority Receipt Trace Sqlite Archives Kernel Founding.

(** * The record *)

Record AmendmentRecord := {
  amendment_hash : string;
  prior_law_hash : string;
  successor_law_hash : string;
  invariants_added : list string;
  invariants_removed : list string;
  am_authority : string;
  am_signature : string;
  am_phase_code : string;
  am_timestamp : string;
  amendment_kind : string;
  prior_legend_hash : string;
  successor_legend_hash : string;
  prior_schema_hash : string;
  successor_schema_hash : string;
  prior_amendment_hash : string;
}.

(** The legs and the link are in a body only when they are not empty. *)
Definition present (l : list (string * string)) : list (string * pyval) :=
  map (fun kv => (fst kv, PStr (snd kv))) (List.filter (fun kv => negb (str_eqb (snd kv) "")) l).
Definition legs_of (r : AmendmentRecord) : list (string * string) :=
  [("prior_legend_hash", prior_legend_hash r); ("successor_legend_hash", successor_legend_hash r);
   ("prior_schema_hash", prior_schema_hash r); ("successor_schema_hash", successor_schema_hash r);
   ("prior_amendment_hash", prior_amendment_hash r)].
Definition moved_legs (r : AmendmentRecord) : list (string * pyval) := present (legs_of r).

Definition texts (l : list string) : pyval := PList (map PStr l).
(** The body the hash is over. *)
Definition hashed_body (r : AmendmentRecord) (added removed : list string) : pyval := PDict
  ([("amendment_kind", PStr (amendment_kind r)); ("authority", PStr (am_authority r));
    ("invariants_added", texts added); ("invariants_removed", texts removed);
    ("phase_code", PStr (am_phase_code r)); ("prior_law_hash", PStr (prior_law_hash r));
    ("signature", PStr (am_signature r)); ("successor_law_hash", PStr (successor_law_hash r));
    ("timestamp", PStr (am_timestamp r))] ++ moved_legs r).

Definition with_amendment_hash (h : string) (r : AmendmentRecord) : AmendmentRecord :=
  {| amendment_hash := h; prior_law_hash := prior_law_hash r; successor_law_hash := successor_law_hash r;
     invariants_added := invariants_added r; invariants_removed := invariants_removed r;
     am_authority := am_authority r; am_signature := am_signature r; am_phase_code := am_phase_code r;
     am_timestamp := am_timestamp r; amendment_kind := amendment_kind r;
     prior_legend_hash := prior_legend_hash r; successor_legend_hash := successor_legend_hash r;
     prior_schema_hash := prior_schema_hash r; successor_schema_hash := successor_schema_hash r;
     prior_amendment_hash := prior_amendment_hash r |}.

(** [AmendmentRecord.create]; [now] is the clock, read when no timestamp is given. *)
Definition create (now : string) (r : AmendmentRecord) : result exn AmendmentRecord :=
  let r' := {| amendment_hash := ""; prior_law_hash := prior_law_hash r;
     successor_law_hash := successor_law_hash r;
     invariants_added := sorted_str (invariants_added r);
     invariants_removed := sorted_str (invariants_removed r);
     am_authority := am_authority r; am_signature := am_signature r; am_phase_code := am_phase_code r;
     am_timestamp := if str_eqb (am_timestamp r) "" then now else am_timestamp r;
     amendment_kind := amendment_kind r;
     prior_legend_hash := prior_legend_hash r; successor_legend_hash := successor_legend_hash r;
     prior_schema_hash := prior_schema_hash r; successor_schema_hash := successor_schema_hash r;
     prior_amendment_hash := prior_amendment_hash r |} in
  let* body := canonical_json (hashed_body r' (invariants_added r') (invariants_removed r')) in
  Ok (with_amendment_hash (sha256_hex body) r').

Definition verify_hash (r : AmendmentRecord) : result exn bool :=
  let* body := canonical_json (hashed_body r (invariants_added r) (invariants_removed r)) in
  Ok (str_eqb (sha256_hex body) (amendment_hash r)).

(** The bytes the Governor signs: everything but the signature and the hash. *)
Definition signed_payload (r : AmendmentRecord) : result exn string := canonical_json (PDict
  ([("amendment_kind", PStr (amendment_kind r)); ("authority", PStr (am_authority r));
    ("invariants_added", texts (sorted_str (invariants_added r)));
    ("invariants_removed", texts (sorted_str (invariants_removed r)));
    ("phase_code", PStr (am_phase_code r)); ("prior_law_hash", PStr (prior_law_hash r));
    ("successor_law_hash", PStr (successor_law_hash r)); ("timestamp", PStr (am_timestamp r))]
   ++ moved_legs r)).

(** * The archive *)

(** [dataclasses.asdict], keys sorted. *)
Definition asdict (r : AmendmentRecord) : pyval := PDict
  [("amendment_hash", PStr (amendment_hash r)); ("amendment_kind", PStr (amendment_kind r));
   ("authority", PStr (am_authority r)); ("invariants_added", texts (invariants_added r));
   ("invariants_removed", texts (invariants_removed r)); ("phase_code", PStr (am_phase_code r));
   ("prior_amendment_hash", PStr (prior_amendment_hash r));
   ("prior_law_hash", PStr (prior_law_hash r)); ("prior_legend_hash", PStr (prior_legend_hash r));
   ("prior_schema_hash", PStr (prior_schema_hash r)); ("signature", PStr (am_signature r));
   ("successor_law_hash", PStr (successor_law_hash r));
   ("successor_legend_hash", PStr (successor_legend_hash r));
   ("successor_schema_hash", PStr (successor_schema_hash r)); ("timestamp", PStr (am_timestamp r))].

Definition record_fields : list string :=
  ["amendment_hash"; "prior_law_hash"; "successor_law_hash"; "invariants_added"; "invariants_removed";
   "authority"; "signature"; "phase_code"; "timestamp"; "amendment_kind"; "prior_legend_hash";
   "successor_legend_hash"; "prior_schema_hash"; "successor_schema_hash"; "prior_amendment_hash"].
(** A field with a default may be missing. *)
Definition text_or (k default : string) (d : cols) : option string :=
  match dict_get k d with Some (PStr s) => Some s | Some _ => None | None => Some default end.
Definition list_field (k : string) (d : cols) : option (list string) :=
  match dict_get k d with Some v => text_list v | None => None end.

(** [AmendmentRecord( ** entry)].  An unknown field, a missing one or an entry that is no object is
    an exception; so, here, is a field of another type, which the code would keep. *)
Definition record_of_entry (e : pyval) : option AmendmentRecord :=
  match e with
  | PDict d =>
      if forallb (fun kv => mem_str (fst kv) record_fields) d then
        let? ah := text_field "amendment_hash" d in let? pl := text_field "prior_law_hash" d in
        let? sl := text_field "successor_law_hash" d in let? ad := list_field "invariants_added" d in
        let? re := list_field "invariants_removed" d in let? au := text_field "authority" d in
        let? sg := text_field "signature" d in let? ph := text_field "phase_code" d in
        let? ts := text_field "timestamp" d in let? ki := text_or "amendment_kind" "ordinary" d in
        let? pg := text_or "prior_legend_hash" "" d in let? sc := text_or "successor_legend_hash" "" d in
        let? ps := text_or "prior_schema_hash" "" d in let? ss := text_or "successor_schema_hash" "" d in
        let? pa := text_or "prior_amendment_hash" "" d in
        Some {| amendment_hash := ah; prior_law_hash := pl; successor_law_hash := sl;
                invariants_added := ad; invariants_removed := re; am_authority := au;
                am_signature := sg; am_phase_code := ph; am_timestamp := ts; amendment_kind := ki;
                prior_legend_hash := pg; successor_legend_hash := sc; prior_schema_hash := ps;
                successor_schema_hash := ss; prior_amendment_hash := pa |}
      else None
  | _ => None
  end.

(** [_load]: the first entry that is refused ends the load, and what was read before it stays. *)
Fixpoint load_entries (es : list pyval) : list AmendmentRecord :=
  match es with
  | [] => []
  | e :: es' => match record_of_entry e with Some r => r :: load_entries es' | None => [] end
  end.
Definition load_records (f : artifact) : list AmendmentRecord :=
  match f with Parsed (PList es) => load_entries es | _ => [] end.

Record archive := { ar_file : artifact; ar_records : list AmendmentRecord }.
Definition open_archive (f : artifact) : archive := {| ar_file := f; ar_records := load_records f |}.
(** [append]: the whole file is written from the records in memory. *)
Definition append (r : AmendmentRecord) (a : archive) : archive :=
  let rs := ar_records a ++ [r] in {| ar_file := Parsed (PList (map asdict rs)); ar_records := rs |}.
Definition record_for_transition (prior successor : string) (a : archive) : option AmendmentRecord :=
  List.find (fun r => str_eqb (prior_law_hash r) prior && str_eqb (successor_law_hash r) successor) (ar_records a).

(** * Succession of keys *)

Record SuccessorLineage := {
  lineage_hash : string;
  predecessor_mosaic : string;
  successor_mosaic : string;
  successor_pubkey : string;
  succession_proof : string;
  sl_authority : string;
  sl_amendment_hash : string;
  sl_timestamp : string;
}.
Definition lineage_body (l : SuccessorLineage) : list (string * pyval) :=
  [("amendment_hash", PStr (sl_amendment_hash l)); ("authority", PStr (sl_authority l));
   ("predecessor_mosaic", PStr (predecessor_mosaic l)); ("successor_mosaic", PStr (successor_mosaic l));
   ("successor_pubkey", PStr (successor_pubkey l)); ("timestamp", PStr (sl_timestamp l))].
Definition verify_lineage_hash (l : SuccessorLineage) : result exn bool :=
  let* b := canonical_json (PDict (lineage_body l ++ [("succession_proof", PStr (succession_proof l))])) in
  Ok (str_eqb (sha256_hex b) (lineage_hash l)).

(** [load_from_genesis]: a file that is missing, unreadable or of other fields is no lineage. *)
Definition lineage_fields : list string :=
  ["lineage_hash"; "predecessor_mosaic"; "successor_mosaic"; "successor_pubkey"; "succession_proof";
   "authority"; "amendment_hash"; "timestamp"].
Definition load_lineage (f : artifact) : option SuccessorLineage :=
  match f with
  | Parsed (PDict d) =>
      if forallb (fun kv => mem_str (fst kv) lineage_fields) d then
        let? lh := text_field "lineage_hash" d in let? pm := text_field "predecessor_mosaic" d in
        let? sm := text_field "successor_mosaic" d in let? sp := text_field "successor_pubkey" d in
        let? pr := text_field "succession_proof" d in let? au := text_field "authority" d in
        let? ah := text_field "amendment_hash" d in let? ts := text_field "timestamp" d in
        Some {| lineage_hash := lh; predecessor_mosaic := pm; successor_mosaic := sm;
                successor_pubkey := sp; succession_proof := pr; sl_authority := au;
                sl_amendment_hash := ah; sl_timestamp := ts |}
      else None
  | _ => None
  end.

Definition _mosaic (pubkey_hex : string) : result exn string :=
  match fromhex pubkey_hex with
  | Some b => Ok (sha256_hex b)
  | None => Err (Exn ValueError "non-hexadecimal number found in fromhex() arg")
  end.

Section keys.
Context {E : Ed25519}.

Definition verify_succession (l : SuccessorLineage) (predecessor_pubkey : string) : bool :=
  match canonical_json (PDict (lineage_body l)) with
  | Ok body => verify_governor predecessor_pubkey body (succession_proof l)
  | Err _ => false
  end.

(** The keys after [current]: the walk stops at the first link that does not continue. *)
Fixpoint successor_keys (current : string) (chain : list SuccessorLineage) : result exn (list string) :=
  match chain with
  | [] => Ok []
  | link :: rest =>
      let* m := _mosaic current in
      if negb (str_eqb (predecessor_mosaic link) m) then Ok []
      else if negb (verify_succession link current) then Ok []
      else let* ks := successor_keys (successor_pubkey link) rest in Ok (successor_pubkey link :: ks)
  end.
Definition _authorized_keys (governor_pubkey : string) (succession : list SuccessorLineage) :
    result exn (list string) :=
  let* ks := successor_keys governor_pubkey succession in Ok (governor_pubkey :: ks).

(** [[k for k in authorized if _mosaic(k) == authority]] *)
Fixpoint matching (authority : string) (keys : list string) : result exn (list string) :=
  match keys with
  | [] => Ok []
  | k :: rest =>
      let* m := _mosaic k in let* ms := matching authority rest in
      Ok (if str_eqb m authority then k :: ms else ms)
  end.

(** * Admissibility *)

Record frame_legs := { leg_law : string; leg_legend : string; leg_schema : string }.
Definition frame_eqb (f g : frame_legs) : bool :=
  str_eqb (leg_law f) (leg_law g) && str_eqb (leg_legend f) (leg_legend g) && str_eqb (leg_schema f) (leg_schema g).

(** A predecessor or a known successor is given by its law hash or by its frame. *)
Inductive lineage_key := ByLaw (h : string) | ByFrame (f : frame_legs).

(** A leg the record commits must move as it says, another must not move. *)
Definition check_leg (leg committed_prior committed_successor prior successor : string) : option string :=
  if negb (str_eqb committed_successor "") then
    if negb (str_eqb committed_prior prior) then Some (leg +:+ ": committed prior differs")
    else if negb (str_eqb committed_successor successor) then Some (leg +:+ ": committed successor differs")
    else None
  else if negb (str_eqb prior successor) then Some (leg +:+ " moved but the record commits no successor for it")
  else None.

Definition check_prior (r : AmendmentRecord) (prior : frame_legs) (prior_successor : option lineage_key) :
    option string :=
  match prior_successor with
  | None => None
  | Some (ByFrame f) =>
      if frame_eqb prior f then None else Some "append-only lineage broken: prior frame != predecessor successor frame"
  | Some (ByLaw h) =>
      if str_eqb (prior_law_hash r) h then None else Some "append-only lineage broken: prior != predecessor successor"
  end.
(** Frames are looked for when any is given, law hashes otherwise. *)
Definition is_frame (k : lineage_key) : bool := match k with ByFrame _ => true | ByLaw _ => false end.
Definition has_frame (f : frame_legs) (l : list lineage_key) : bool :=
  existsb (fun k => match k with ByFrame g => frame_eqb f g | ByLaw _ => false end) l.
Definition has_law (h : string) (l : list lineage_key) : bool :=
  existsb (fun k => match k with ByLaw g => str_eqb h g | ByFrame _ => false end) l.
Definition check_new (r : AmendmentRecord) (successor : frame_legs) (existing : list lineage_key) : option string :=
  if existsb is_frame existing then
    if has_frame successor existing then Some "successor frame already present (not append-only)" else None
  else if has_law (successor_law_hash r) existing then Some "successor already present (not append-only)" else None.
Definition check_link (r : AmendmentRecord) (predecessor : option string) : option string :=
  if str_eqb (prior_amendment_hash r) "" then None
  else match predecessor with
       | None => Some "record commits prior_amendment_hash but no predecessor record was supplied"
       | Some h => if str_eqb (prior_amendment_hash r) h then None
                   else Some "prior_amendment_hash != predecessor record amendment_hash"
       end.

(** [return False, detail] when there is one. *)
Definition refuse_or (d : option string) (rest : result exn (bool * string)) : result exn (bool * string) :=
  match d with Some why => Ok (false, why) | None => rest end.
Definition unless (ok : bool) (why : string) : option string := if ok then None else Some why.

Definition is_admissible (r : AmendmentRecord) (prior successor : frame_legs) (governor_pubkey : string)
    (prior_successor : option lineage_key) (existing : list lineage_key)
    (succession : list SuccessorLineage) (historical : bool) (predecessor : option string) :
    result exn (bool * string) :=
  refuse_or (unless (mem_str (amendment_kind r) ["genesis"; "ordinary"]) "amendment_kind invalid") (
  let* intact := verify_hash r in
  refuse_or (unless intact "amendment_hash does not match body (integrity)") (
  refuse_or (unless (str_eqb (prior_law_hash r) (leg_law prior)) "prior_law_hash != c_n law leg") (
  refuse_or (unless (str_eqb (successor_law_hash r) (leg_law successor)) "successor_law_hash != c_{n+1} law leg") (
  refuse_or (check_leg "legend_hash" (prior_legend_hash r) (successor_legend_hash r) (leg_legend prior) (leg_legend successor)) (
  refuse_or (check_leg "schema_hash" (prior_schema_hash r) (successor_schema_hash r) (leg_schema prior) (leg_schema successor)) (
  refuse_or (unless (negb (str_eqb (am_signature r) "")) "no Governor signature (admission requires signed authority)") (
  let* payload := signed_payload r in
  let* authorized := _authorized_keys governor_pubkey succession in
  let* matches := matching (am_authority r) authorized in
  match matches with
  | [] => Ok (false, "authority not authorized by the succession lineage")
  | signing_key :: _ =>
      let active_key := List.last authorized governor_pubkey in
      refuse_or (unless (str_eqb signing_key active_key || historical) "retired era key used for a new amendment") (
      refuse_or (unless (verify_governor signing_key payload (am_signature r)) "Governor signature does not verify") (
      refuse_or (check_prior r prior prior_successor) (
      refuse_or (check_new r successor existing) (
      refuse_or (check_link r predecessor) (
      Ok (true, "ADMITTED"))))))
  end))))))).
End keys.

(** * The record and its hash *)

(** Closed decidable facts. *)
Ltac by_decide := match goal with |- ?P => apply (bool_decide_eq_true_1 P); vm_compute; reflexivity end.

Lemma present_keys k l : k ∈ map fst (present l) -> k ∈ map fst l.
Proof.
  unfold present. rewrite map_map. cbn [fst]. rewrite !list_elem_of_In, !in_map_iff.
  intros ([k' v] & <- & [H _]%filter_In). by exists (k', v).
Qed.
Lemma present_nodup l : NoDup (map fst l) -> NoDup (map fst (present l)).
Proof.
  unfold present. rewrite map_map. cbn [fst].
  induction l as [|[k v] l IH]; cbn; [constructor|]. intros [Hk Hl]%NoDup_cons.
  destruct (negb (str_eqb v "")); cbn; [|by apply IH]. apply NoDup_cons. split; [|by apply IH].
  contradict Hk. rewrite list_elem_of_In in *. apply in_map_iff in Hk as ([k' v'] & <- & [H _]%filter_In).
  apply in_map_iff. by exists (k', v').
Qed.
Lemma present_get k l : NoDup (map fst l) -> dict_get k (present l) =
  match dict_get k l with Some s => if str_eqb s "" then None else Some (PStr s) | None => None end.
Proof.
  induction l as [|[k' v] l IH]; [done|]. cbn [map fst dict_get]. intros [Hk Hl]%NoDup_cons.
  specialize (IH Hl). unfold present in *. cbn [List.filter snd].
  destruct (str_eqb v "") eqn:Hv; cbn [negb map fst snd dict_get].
  - destruct (str_eqb k k') eqn:Hkk; [|exact IH]. apply str_eqb_spec in Hkk as ->. rewrite Hv.
    rewrite IH. destruct (dict_get k' l) eqn:Hg; [|done]. exfalso. apply Hk.
    apply list_elem_of_In, in_map_iff. clear -Hg. induction l as [|[k v] l IH]; [done|]. cbn in Hg.
    destruct (str_eqb k' k) eqn:Hkk; [apply str_eqb_spec in Hkk as ->; by eexists (_, _); split; [|left]|].
    destruct (IH Hg) as (x & Hx & Hin). exists x. split; [done|by right].
  - destruct (str_eqb k k') eqn:Hkk; [|exact IH]. by rewrite Hv.
Qed.

Definition amendment_dict (r : AmendmentRecord) (added removed : list string) : list (string * pyval) :=
  match hashed_body r added removed with PDict d => d | _ => [] end.
Lemma body_nodup r added removed : NoDup (map fst (amendment_dict r added removed)).
Proof.
  unfold amendment_dict, hashed_body. rewrite map_app. apply NoDup_app. split; [|split].
  - by_decide.
  - intros x Hx Hp. apply present_keys in Hp. apply mem_str_spec in Hp. cbn [map fst] in Hx.
    repeat (apply elem_of_cons in Hx as [->|Hx]; [discriminate Hp|]). by apply elem_of_nil in Hx.
  - apply present_nodup. by_decide.
Qed.

Definition hashed_text (r : AmendmentRecord) : string :=
  match canonical_json (hashed_body r (invariants_added r) (invariants_removed r)) with Ok t => t | Err _ => "" end.

Lemma texts_inj l k : canon (texts l) = canon (texts k) -> l = k.
Proof.
  unfold texts. cbn [canon]. rewrite !map_map. cbn [canon]. intros H. injection H as H. revert k H.
  induction l as [|x l IH]; intros [|y k] H; try done. injection H as -> H. by rewrite (IH _ H).
Qed.

(** The value of a field that is left out when empty. *)
Lemma optional_text_inj (a b : string) :
  option_map canon (if str_eqb a "" then None else Some (PStr a)) =
  option_map canon (if str_eqb b "" then None else Some (PStr b)) -> a = b.
Proof.
  destruct (str_eqb a "") eqn:Ha, (str_eqb b "") eqn:Hb; cbn; try done.
  - by apply str_eqb_spec in Ha as ->, Hb as ->.
  - by intros [= ->].
Qed.

(** A leg is in the body when it is not empty. *)
Lemma body_leg k r added removed : k ∈ map fst (legs_of r) ->
  dict_get k (amendment_dict r added removed) =
  match dict_get k (legs_of r) with Some s => if str_eqb s "" then None else Some (PStr s) | None => None end.
Proof.
  intros Hk. unfold amendment_dict, hashed_body, moved_legs. rewrite dict_get_app, present_get by by_decide.
  cbn [map fst legs_of] in Hk. repeat (apply elem_of_cons in Hk as [->|Hk]; [reflexivity|]).
  by apply elem_of_nil in Hk.
Qed.

Lemma body_determines r1 r2 t :
  canonical_json (hashed_body r1 (invariants_added r1) (invariants_removed r1)) = Ok t ->
  canonical_json (hashed_body r2 (invariants_added r2) (invariants_removed r2)) = Ok t ->
  amendment_hash r1 = amendment_hash r2 -> r1 = r2.
Proof.
  intros H1 H2 Hh.
  assert (Hok : forall r, pyval_ok (hashed_body r (invariants_added r) (invariants_removed r)) = true).
  { intros r. apply andb_true_iff. split; [apply bool_decide_eq_true, body_nodup|]. rewrite forallb_app.
    unfold texts. cbn [forallb snd pyval_ok]. rewrite !forallb_map_pystr by done. cbn [andb].
    unfold moved_legs, present. by induction (List.filter _ _). }
  pose proof (json_dumps_inj _ style_default_sorted_wf _ _ t (Hok r1) (Hok r2) H1 H2) as Hc.
  pose proof (fun k => canon_dict_get k _ _ (body_nodup r1 _ _) (body_nodup r2 _ _) Hc) as Hf.
  assert (Hlegs : forall k, k ∈ map fst (legs_of r1) -> dict_get k (legs_of r1) = dict_get k (legs_of r2)).
  { intros k Hk. specialize (Hf k). rewrite !(body_leg k) in Hf by exact Hk.
    cbn [map fst legs_of] in Hk. unfold legs_of in *.
    repeat (apply elem_of_cons in Hk as [->|Hk]; [cbn in Hf |- *; f_equal; by apply optional_text_inj|]).
    by apply elem_of_nil in Hk. }
  pose proof (Hlegs "prior_legend_hash" ltac:(by_decide)) as L1.
  pose proof (Hlegs "successor_legend_hash" ltac:(by_decide)) as L2.
  pose proof (Hlegs "prior_schema_hash" ltac:(by_decide)) as L3.
  pose proof (Hlegs "successor_schema_hash" ltac:(by_decide)) as L4.
  pose proof (Hlegs "prior_amendment_hash" ltac:(by_decide)) as L5.
  pose proof (Hf "amendment_kind") as F1. pose proof (Hf "authority") as F2.
  pose proof (Hf "invariants_added") as F3. pose proof (Hf "invariants_removed") as F4.
  pose proof (Hf "phase_code") as F5. pose proof (Hf "prior_law_hash") as F6.
  pose proof (Hf "signature") as F7. pose proof (Hf "successor_law_hash") as F8.
  pose proof (Hf "timestamp") as F9.
  clear Hf Hlegs Hc Hok H1 H2. destruct r1, r2.
  cbn -[texts] in *. apply Some_inj', texts_inj in F3, F4.
  injection F1. injection F2. injection F5. injection F6. injection F7. injection F8. injection F9.
  injection L1. injection L2. injection L3. injection L4. injection L5. intros. by subst.
Qed.

Lemma verify_hash_ok r : verify_hash r = Ok true <->
  exists t, canonical_json (hashed_body r (invariants_added r) (invariants_removed r)) = Ok t /\
    sha256_hex t = amendment_hash r.
Proof.
  unfold verify_hash. destruct (canonical_json _) as [t|x]; cbn [rbind]; [|naive_solver]. split.
  - intros H%Ok_inj. exists t. split; [done|]. by apply str_eqb_spec.
  - intros (t' & H & He). apply Ok_inj in H as <-. by rewrite He, str_eqb_refl.
Qed.

(** A created record has the hash of its body. *)
Lemma create_verifies now r r' : create now r = Ok r' -> verify_hash r' = Ok true.
Proof.
  unfold create. cbv zeta. intros (t & Ht & H)%rbind_ok. apply Ok_inj in H as <-.
  apply verify_hash_ok. exists t. split; [exact Ht|reflexivity].
Qed.

(** The amendment hash commits the whole record.  Two records that pass the integrity check under one
    hash are the same record: every leg, the documentary lists, the signature and
    the link to the predecessor, whether they are in the body or left out of it when empty. *)
Theorem amendment_hash_commits r1 r2 : verify_hash r1 = Ok true -> verify_hash r2 = Ok true ->
  amendment_hash r1 = amendment_hash r2 -> no_collision [hashed_text r1; hashed_text r2] -> r1 = r2.
Proof.
  intros (t1 & H1 & E1)%verify_hash_ok (t2 & H2 & E2)%verify_hash_ok Hh Hnc.
  unfold hashed_text in Hnc. rewrite H1, H2 in Hnc.
  assert (t1 = t2) as <-.
  { apply Hnc; [by left|by right; left|]. apply hex_inj. unfold sha256_hex in *. congruence. }
  by apply (body_determines r1 r2 t1).
Qed.

(** * The archive *)

Lemma load_entries_app rs es : (forall r, r ∈ rs -> record_of_entry (asdict r) = Some r) ->
  load_entries (map asdict rs ++ es) = rs ++ load_entries es.
Proof.
  induction rs as [|r rs IH]; intros H; [done|]. cbn [map app load_entries].
  rewrite H by left. f_equal. apply IH. intros x Hx. apply H. by right.
Qed.
Lemma text_list_texts l : text_list (texts l) = Some l.
Proof.
  unfold text_list, texts. assert (H : forall acc, foldl (fun acc x => match acc, x with
    | Some l, PStr s => Some (s :: l) | _, _ => None end) (Some acc) (map PStr l) = Some (rev l ++ acc)).
  { induction l as [|x l IH]; intros acc; [done|]. cbn [map foldl]. rewrite IH. cbn [rev]. by rewrite <- app_assoc. }
  rewrite H, app_nil_r. cbn [option_map]. by rewrite rev_involutive.
Qed.
Lemma entry_round_trip r : record_of_entry (asdict r) = Some r.
Proof.
  assert (Ha : forall k l d, dict_get k d = Some (texts l) -> list_field k d = Some l).
  { intros k l d H. unfold list_field. by rewrite H, text_list_texts. }
  unfold record_of_entry, asdict.
  rewrite (Ha "invariants_added" (invariants_added r)) by reflexivity.
  rewrite (Ha "invariants_removed" (invariants_removed r)) by reflexivity. by destruct r.
Qed.

(** The archive keeps every record in order: appended records are read back after those that were read before. *)
Lemma archive_round_trip rs f :
  ar_records (open_archive (ar_file (fold_left (fun a r => append r a) rs (open_archive f)))) =
  match rs with [] => load_records f | _ => load_records f ++ rs end.
Proof.
  assert (H : forall rs a, ar_records (fold_left (fun a r => append r a) rs a) = ar_records a ++ rs).
  { clear. induction rs as [|r rs IH]; intros a; cbn; [by rewrite app_nil_r|]. rewrite IH. cbn.
    by rewrite <- app_assoc. }
  assert (Hf : forall rs a, rs <> [] -> let a' := fold_left (fun a r => append r a) rs a in
    ar_file a' = Parsed (PList (map asdict (ar_records a')))).
  { clear. intros rs. induction rs as [|r rs IH]; intros a Hne; [done|]. destruct rs as [|r' rs]; [done|].
    apply (IH (append r a)). done. }
  destruct rs as [|r rs]; [done|]. rewrite Hf by done. unfold open_archive at 1. cbn [ar_records load_records].
  rewrite H. rewrite <- (app_nil_r (map asdict _)), load_entries_app.
  - by rewrite app_nil_r.
  - intros x _. apply entry_round_trip.
Qed.

(** * Keys *)

Section key_facts.
Context {E : Ed25519}.

(** A link continues a key: it names it and the key has signed it. *)
Definition succeeds (k : string) (l : SuccessorLineage) : Prop :=
  _mosaic k = Ok (predecessor_mosaic l) /\ verify_succession l k = true.
(** The keys along links that continue one another. *)
Fixpoint succession_from (k : string) (links : list SuccessorLineage) : Prop :=
  match links with [] => True | l :: rest => succeeds k l /\ succession_from (successor_pubkey l) rest end.
Definition last_key (k : string) (links : list SuccessorLineage) : string :=
  List.last (map successor_pubkey links) k.

Lemma last_cons {A} (x y : A) l : List.last (x :: l) y = List.last l x.
Proof.
  revert x y. induction l as [|z l IH]; intros x y; [done|].
  change (List.last (z :: l) y = List.last (z :: l) x). by rewrite !IH.
Qed.

Lemma successor_keys_spec k chain ks : successor_keys k chain = Ok ks <->
  exists links rest, chain = links ++ rest /\ ks = map successor_pubkey links /\ succession_from k links /\
    match rest with
    | [] => True
    | l :: _ => (exists m, _mosaic (last_key k links) = Ok m) /\ ~ succeeds (last_key k links) l
    end.
Proof.
  revert k ks. induction chain as [|l chain IH]; intros k ks; cbn [successor_keys].
  { split.
    - intros <-%Ok_inj. by exists [], [].
    - intros (links & rest & H & -> & _). symmetry in H. by apply app_eq_nil in H as [-> _]. }
  split.
  - intros (m & Hm & H)%rbind_ok.
    destruct (str_eqb (predecessor_mosaic l) m) eqn:Hp; cbn [negb] in H.
    2:{ apply Ok_inj in H as <-. exists [], (l :: chain). split_and!; try done; cbn; [by exists m|].
        intros [Hm' _]. rewrite Hm in Hm'. apply Ok_inj in Hm' as ->. by rewrite str_eqb_refl in Hp. }
    apply str_eqb_spec in Hp as <-.
    destruct (verify_succession l k) eqn:Hv; cbn [negb] in H.
    2:{ apply Ok_inj in H as <-. exists [], (l :: chain). split_and!; try done; cbn; [by eexists|].
        intros [_ Hv']. congruence. }
    apply rbind_ok in H as (ks' & Hk & H). apply Ok_inj in H as <-.
    apply IH in Hk as (links & rest & -> & -> & Hs & Hr). exists (l :: links), rest.
    split_and!; try done. unfold last_key. cbn [map]. by rewrite last_cons.
  - intros (links & rest & Hc & -> & Hs & Hr). destruct links as [|l' links].
    + cbn in Hc. subst rest. destruct Hr as [[m Hm] Hns]. cbn in Hm, Hns. rewrite Hm. cbn [rbind].
      destruct (str_eqb (predecessor_mosaic l) m) eqn:Hp; cbn [negb]; [|done].
      apply str_eqb_spec in Hp as <-. destruct (verify_succession l k) eqn:Hv; cbn [negb]; [|done].
      by destruct Hns.
    + cbn in Hc. injection Hc as <- ->. destruct Hs as [[Hm Hv] Hs]. rewrite Hm. cbn [rbind].
      rewrite str_eqb_refl, Hv. cbn [negb]. rewrite (proj2 (IH _ (map successor_pubkey links))); [done|].
      exists links, rest. split_and!; try done. unfold last_key in *. cbn [map] in Hr. by rewrite last_cons in Hr.
Qed.

(** Who may sign.  The authorized keys are the installed Governor key and the keys of the
    longest run of links from it that each name the key before them and are signed by it:
    the first link that does not ends the succession, whatever follows it. *)
Theorem authorized_keys_exact gov chain keys : _authorized_keys gov chain = Ok keys <->
  exists links rest, chain = links ++ rest /\ keys = gov :: map successor_pubkey links /\
    succession_from gov links /\
    match rest with
    | [] => True
    | l :: _ => (exists m, _mosaic (last_key gov links) = Ok m) /\ ~ succeeds (last_key gov links) l
    end.
Proof.
  unfold _authorized_keys. split.
  - intros (ks & Hk & H)%rbind_ok. apply Ok_inj in H as <-.
    apply successor_keys_spec in Hk as (links & rest & -> & -> & H). by exists links, rest.
  - intros (links & rest & -> & -> & H).
    rewrite (proj2 (successor_keys_spec gov (links ++ rest) (map successor_pubkey links))); [done|].
    by exists links, rest.
Qed.

Lemma matching_spec a keys ms : matching a keys = Ok ms <->
  Forall (fun k => exists m, _mosaic k = Ok m) keys /\
  ms = List.filter (fun k => match _mosaic k with Ok m => str_eqb m a | Err _ => false end) keys.
Proof.
  revert ms. induction keys as [|k keys IH]; intros ms; cbn [matching List.filter].
  { split; [intros <-%Ok_inj; by split; [constructor|]|by intros [_ ->]]. }
  destruct (_mosaic k) as [m|x] eqn:Hm; cbn [rbind].
  2:{ split; [done|]. intros [H _]. apply Forall_inv in H as [m H]. congruence. }
  split.
  - intros (ms' & H & He)%rbind_ok. apply Ok_inj in He as <-. apply IH in H as [Hf ->].
    split; [constructor; [by exists m|done]|]. by destruct (str_eqb m a).
  - intros [Hf ->]. apply Forall_inv_tail in Hf. rewrite (proj2 (IH _) (conj Hf eq_refl)). cbn [rbind].
    by destruct (str_eqb m a).
Qed.
End key_facts.

(** * What is admissible *)

Section admissible.
Context {E : Ed25519}.

(** A leg moves as committed, or does not move. *)
Definition leg_moves (cp cs p s : string) : Prop := cs <> "" /\ cp = p /\ cs = s \/ cs = "" /\ p = s.

Lemma check_leg_spec leg cp cs p s : check_leg leg cp cs p s = None <-> leg_moves cp cs p s.
Proof.
  unfold check_leg, leg_moves. destruct (str_eqb cs "") eqn:H0; cbn [negb].
  - apply str_eqb_spec in H0 as ->. destruct (str_eqb p s) eqn:H; cbn [negb].
    + apply str_eqb_spec in H as ->. naive_solver.
    + split; [done|]. intros [[? _]|[_ ->]]; [done|]. by rewrite str_eqb_refl in H.
  - assert (cs <> "") as Hne by (intros ->; by rewrite str_eqb_refl in H0).
    destruct (str_eqb cp p) eqn:H1; cbn [negb].
    2:{ split; [done|]. intros [(_ & -> & _)|[? _]]; [by rewrite str_eqb_refl in H1|done]. }
    destruct (str_eqb cs s) eqn:H2; cbn [negb].
    2:{ split; [done|]. intros [(_ & _ & ->)|[? _]]; [by rewrite str_eqb_refl in H2|done]. }
    apply str_eqb_spec in H1, H2. naive_solver.
Qed.

Lemma frame_eqb_spec f g : frame_eqb f g = true <-> f = g.
Proof.
  unfold frame_eqb. rewrite !andb_true_iff, !str_eqb_spec. destruct f, g; cbn. naive_solver.
Qed.

(** Signed under the key its authority names, the active one unless the record is historical. *)
Definition signed_by_era (r : AmendmentRecord) (keys : list string) (gov : string) (historical : bool) : Prop :=
  exists payload pre k post, signed_payload r = Ok payload /\ keys = pre ++ k :: post /\
    _mosaic k = Ok (am_authority r) /\ Forall (fun x => _mosaic x <> Ok (am_authority r)) pre /\
    Forall (fun x => exists m, _mosaic x = Ok m) keys /\
    (k = List.last keys gov \/ historical = true) /\ verify_governor k payload (am_signature r) = true.

Definition continues (r : AmendmentRecord) (prior successor : frame_legs) (prior_successor : option lineage_key)
    (existing : list lineage_key) (predecessor : option string) : Prop :=
  (forall f, prior_successor = Some (ByFrame f) -> prior = f) /\
  (forall h, prior_successor = Some (ByLaw h) -> prior_law_hash r = h) /\
  (if existsb is_frame existing then ByFrame successor ∉ existing else ByLaw (successor_law_hash r) ∉ existing) /\
  (prior_amendment_hash r <> "" -> predecessor = Some (prior_amendment_hash r)).

Record admissible (r : AmendmentRecord) (prior successor : frame_legs) (gov : string)
    (prior_successor : option lineage_key) (existing : list lineage_key)
    (chain : list SuccessorLineage) (historical : bool) (predecessor : option string) : Prop := {
  ad_kind : amendment_kind r = "genesis" \/ amendment_kind r = "ordinary";
  ad_intact : verify_hash r = Ok true;
  ad_law : prior_law_hash r = leg_law prior /\ successor_law_hash r = leg_law successor;
  ad_legend : leg_moves (prior_legend_hash r) (successor_legend_hash r) (leg_legend prior) (leg_legend successor);
  ad_schema : leg_moves (prior_schema_hash r) (successor_schema_hash r) (leg_schema prior) (leg_schema successor);
  ad_signed : am_signature r <> "" /\ exists keys, _authorized_keys gov chain = Ok keys /\
                signed_by_era r keys gov historical;
  ad_continues : continues r prior successor prior_successor existing predecessor;
}.

Lemma has_frame_spec f l : has_frame f l = true <-> ByFrame f ∈ l.
Proof.
  unfold has_frame. rewrite existsb_exists. split.
  - intros ([h|g] & Hin & Hx); [done|]. apply frame_eqb_spec in Hx as ->. by apply list_elem_of_In.
  - intros H. exists (ByFrame f). split; [by apply list_elem_of_In|]. by apply frame_eqb_spec.
Qed.
Lemma has_law_spec h l : has_law h l = true <-> ByLaw h ∈ l.
Proof.
  unfold has_law. rewrite existsb_exists. split.
  - intros ([g|f] & Hin & Hx); [|done]. apply str_eqb_spec in Hx as ->. by apply list_elem_of_In.
  - intros H. exists (ByLaw h). split; [by apply list_elem_of_In|]. by apply str_eqb_spec.
Qed.
Lemma bool_not (b : bool) (P : Prop) : (b = true <-> P) -> (b = false <-> ~ P).
Proof. intros H. rewrite <- H. by destruct b. Qed.

Lemma continues_spec r prior successor ps ex pred :
  check_prior r prior ps = None /\ check_new r successor ex = None /\ check_link r pred = None <->
  continues r prior successor ps ex pred.
Proof.
  unfold continues. assert (H1 : check_prior r prior ps = None <->
    (forall f, ps = Some (ByFrame f) -> prior = f) /\ (forall h, ps = Some (ByLaw h) -> prior_law_hash r = h)).
  { unfold check_prior. destruct ps as [[h|f]|]; [| |naive_solver].
    - pose proof (str_eqb_spec (prior_law_hash r) h). destruct (str_eqb _ h); naive_solver.
    - pose proof (frame_eqb_spec prior f). destruct (frame_eqb _ f); naive_solver. }
  assert (H2 : check_new r successor ex = None <-> if existsb is_frame ex
    then ByFrame successor ∉ ex else ByLaw (successor_law_hash r) ∉ ex).
  { unfold check_new. destruct (existsb is_frame ex).
    - rewrite <- (bool_not _ _ (has_frame_spec successor ex)). by destruct (has_frame successor ex).
    - rewrite <- (bool_not _ _ (has_law_spec (successor_law_hash r) ex)). by destruct (has_law _ ex). }
  assert (H3 : check_link r pred = None <-> (prior_amendment_hash r <> "" -> pred = Some (prior_amendment_hash r))).
  { unfold check_link. destruct (str_eqb (prior_amendment_hash r) "") eqn:H0.
    - apply str_eqb_spec in H0. naive_solver.
    - assert (prior_amendment_hash r <> "") by (intros Hz; rewrite Hz in H0; done).
      destruct pred as [h|]; [|naive_solver].
      pose proof (str_eqb_spec (prior_amendment_hash r) h). destruct (str_eqb _ h); naive_solver. }
  rewrite H1, H2, H3. tauto.
Qed.

Lemma refuse_or_ok d rest why : refuse_or d rest = Ok (true, why) <-> d = None /\ rest = Ok (true, why).
Proof. destruct d; cbn; [|tauto]. split; [done|by intros [? _]]. Qed.
Lemma unless_none b why : unless b why = None <-> b = true.
Proof. by destruct b. Qed.

(** The first key that passes the filter. *)
Lemma first_filter {A} (f : A -> bool) l k rest : List.filter f l = k :: rest ->
  exists pre post, l = pre ++ k :: post /\ f k = true /\ Forall (fun x => f x = false) pre.
Proof.
  induction l as [|x l IH]; [done|]. cbn. destruct (f x) eqn:Hx.
  - intros [= -> _]. exists [], l. by split_and!; [| |constructor].
  - intros H. destruct (IH H) as (pre & post & -> & Hk & Hp). exists (x :: pre), post.
    split_and!; [done|done|by constructor].
Qed.
Lemma filter_first {A} (f : A -> bool) pre k post : f k = true -> Forall (fun x => f x = false) pre ->
  exists rest, List.filter f (pre ++ k :: post) = k :: rest.
Proof.
  intros Hk Hp. induction Hp as [|x pre Hx _ IH]; cbn; [rewrite Hk; by eexists|]. by rewrite Hx.
Qed.

Lemma signed_by_era_spec r payload keys gov hist : signed_payload r = Ok payload ->
  (exists k ms, matching (am_authority r) keys = Ok (k :: ms) /\
     (str_eqb k (List.last keys gov) || hist) = true /\ verify_governor k payload (am_signature r) = true) <->
  signed_by_era r keys gov hist.
Proof.
  intros Hp. set (f := fun k => match _mosaic k with Ok m => str_eqb m (am_authority r) | Err _ => false end).
  assert (Hf : forall k, f k = true <-> _mosaic k = Ok (am_authority r)).
  { intros k. unfold f. destruct (_mosaic k) as [m|]; [|done]. rewrite str_eqb_spec. naive_solver. }
  split.
  - intros (k & ms & Hm & Ha & Hv). apply matching_spec in Hm as [Hh Hm]. symmetry in Hm.
    apply first_filter in Hm as (pre & post & -> & Hk & Hpre). exists payload, pre, k, post.
    split_and!; try done; [by apply Hf| |].
    + eapply Forall_impl; [exact Hpre|]. intros x Hx Hx'. apply Hf in Hx'. unfold f in Hx'. congruence.
    + apply orb_true_iff in Ha as [Ha|Ha]; [left; by apply str_eqb_spec|by right].
  - intros (p & pre & k & post & Hp' & -> & Hk & Hpre & Hh & Ha & Hv). rewrite Hp in Hp'. apply Ok_inj in Hp' as <-.
    destruct (filter_first f pre k post) as [rest Hr]; [by apply Hf| |].
    { eapply Forall_impl; [exact Hpre|]. intros x Hx. destruct (f x) eqn:Hfx; [|done]. by apply Hf in Hfx. }
    exists k, rest. split; [by apply matching_spec|]. split; [|done].
    destruct Ha as [Ha| ->]; [|apply orb_true_r]. apply orb_true_iff. left. by apply str_eqb_spec.
Qed.

Lemma is_admissible_spec r prior successor gov ps ex chain hist pred : 
  (exists why, is_admissible r prior successor gov ps ex chain hist pred = Ok (true, why)) <->
  admissible r prior successor gov ps ex chain hist pred.
Proof.
  unfold is_admissible.
  assert (Hkind : mem_str (amendment_kind r) ["genesis"; "ordinary"] = true <->
    amendment_kind r = "genesis" \/ amendment_kind r = "ordinary").
  { rewrite mem_str_spec, !elem_of_cons, elem_of_nil. tauto. }
  assert (Hcore : forall rest, (exists why, refuse_or (unless (negb (str_eqb (am_signature r) "")) "no Governor signature (admission requires signed authority)") rest = Ok (true, why)) <->
    am_signature r <> "" /\ exists why, rest = Ok (true, why)).
  { intros rest. pose proof (str_eqb_spec (am_signature r) ""). 
    destruct (str_eqb (am_signature r) "") eqn:H0; cbn; naive_solver. }
  split.
  - intros (why & H). apply refuse_or_ok in H as [H1 H]. apply unless_none, Hkind in H1.
    apply rbind_ok in H as (intact & H2 & H). apply refuse_or_ok in H as [H3 H]. apply unless_none in H3 as ->.
    apply refuse_or_ok in H as [H4 H]. apply unless_none, str_eqb_spec in H4.
    apply refuse_or_ok in H as [H5 H]. apply unless_none, str_eqb_spec in H5.
    apply refuse_or_ok in H as [H6 H]. apply check_leg_spec in H6.
    apply refuse_or_ok in H as [H7 H]. apply check_leg_spec in H7.
    destruct (proj1 (Hcore _) (ex_intro _ why H)) as [H8 [why' H9]]. clear H Hcore.
    apply rbind_ok in H9 as (payload & Hp & H). apply rbind_ok in H as (keys & Hk & H).
    apply rbind_ok in H as (ms & Hm & H). destruct ms as [|k ms]; [done|]. cbv zeta in H.
    apply refuse_or_ok in H as [H9 H]. apply unless_none in H9.
    apply refuse_or_ok in H as [H10 H]. apply unless_none in H10.
    apply refuse_or_ok in H as [H11 H]. apply refuse_or_ok in H as [H12 H]. apply refuse_or_ok in H as [H13 _].
    constructor; try done; [|by apply continues_spec].
    split; [done|]. exists keys. split; [done|]. apply (signed_by_era_spec r payload); [done|]. by exists k, ms.
  - intros [H1 H2 [H4 H5] H6 H7 [H8 (keys & Hk & Hs)] Hc].
    pose proof Hs as (payload & _ & _ & _ & Hp & _).
    apply (signed_by_era_spec _ _ _ _ _ Hp) in Hs as (k & ms & Hm & Ha & Hv).
    apply continues_spec in Hc as (H11 & H12 & H13).
    exists "ADMITTED". apply Hkind in H1. rewrite H1, H2. cbn [unless refuse_or rbind].
    rewrite H4, H5, !str_eqb_refl. cbn [unless refuse_or].
    rewrite (proj2 (check_leg_spec "legend_hash" _ _ _ _) H6), (proj2 (check_leg_spec "schema_hash" _ _ _ _) H7).
    destruct (str_eqb (am_signature r) "") eqn:H0; [by apply str_eqb_spec in H0|].
    cbn [negb unless refuse_or]. rewrite Hp, Hk. cbn [rbind]. rewrite Hm. cbn [rbind]. rewrite Ha, Hv.
    cbn [unless refuse_or]. by rewrite H11, H12, H13.
Qed.

(** C19: what is admissible.  A record is admitted between two frames exactly when its kind is known, its
    hash is that of its body, its law leg is the move of the law leg, every other leg moves
    exactly as the record commits or does not move, it is signed under the first
    authorized key its authority names (the active key, unless the record is
    historical), and it continues the lineage: after its predecessor, to a frame not seen before,
    and linked to the predecessor's hash if it commits one. *)
Theorem amendment_admissible_exact r prior successor gov ps ex chain hist pred :
  (exists why, is_admissible r prior successor gov ps ex chain hist pred = Ok (true, why)) <->
  admissible r prior successor gov ps ex chain hist pred.
Proof. apply is_admissible_spec. Qed.
End admissible.

(** * The ledger *)

(** The state of the walk over a ledger: the evolving frame, the successor frames seen, the
    last of them, and the hash of the last record. *)
Record ledger_state := {
  wk_frame : frame_legs;
  wk_seen : list frame_legs;
  wk_prev : option frame_legs;
  wk_hash : option string;
}.
Definition start_walk (f : frame_legs) : ledger_state :=
  {| wk_frame := f; wk_seen := []; wk_prev := None; wk_hash := None |}.
(** [a or b] on text. *)
Definition or_else (a b : string) : string := if str_eqb a "" then b else a.
Definition successor_frame (r : AmendmentRecord) (f : frame_legs) : frame_legs :=
  {| leg_law := successor_law_hash r; leg_legend := or_else (successor_legend_hash r) (leg_legend f);
     leg_schema := or_else (successor_schema_hash r) (leg_schema f) |}.
(** The frame a ledger starts from: law from the genesis record, the other legs from the first record
    that commits them, or the live ones. *)
Definition start_frame (genesis : AmendmentRecord) (recs : list AmendmentRecord) (live : frame_legs) : frame_legs :=
  let first g := match List.find (fun r => negb (str_eqb (g r) "")) recs with Some r => Some (g r) | None => None end in
  {| leg_law := prior_law_hash genesis;
     leg_legend := match first prior_legend_hash with Some h => h | None => leg_legend live end;
     leg_schema := match first prior_schema_hash with Some h => h | None => leg_schema live end |}.

Section ledger.
Context {E : Ed25519}.

Definition walk_step (pub : string) (r : AmendmentRecord) (w : ledger_state) : result exn (bool * ledger_state) :=
  let sf := successor_frame r (wk_frame w) in
  let* '(ok, _) := is_admissible r (wk_frame w) sf pub (option_map ByFrame (wk_prev w))
                     (map ByFrame (wk_seen w)) [] false (wk_hash w) in
  Ok (ok, if ok then {| wk_frame := sf; wk_seen := sf :: wk_seen w; wk_prev := Some sf;
                        wk_hash := Some (amendment_hash r) |} else w).
(** The walk stops at the first record that is not admitted. *)
Fixpoint walk_ledger (pub : string) (recs : list AmendmentRecord) (w : ledger_state) : result exn (bool * ledger_state) :=
  match recs with
  | [] => Ok (true, w)
  | r :: rest => let* '(ok, w') := walk_step pub r w in if ok then walk_ledger pub rest w' else Ok (false, w')
  end.
(** The genesis record of before the schema was generalised: its hash is the known one and that
    of its body, and its signature is over a body without a link. *)
Definition unlinked (r : AmendmentRecord) : AmendmentRecord :=
  {| amendment_hash := amendment_hash r; prior_law_hash := prior_law_hash r; successor_law_hash := successor_law_hash r;
     invariants_added := invariants_added r; invariants_removed := invariants_removed r;
     am_authority := am_authority r; am_signature := am_signature r; am_phase_code := am_phase_code r;
     am_timestamp := am_timestamp r; amendment_kind := amendment_kind r;
     prior_legend_hash := prior_legend_hash r; successor_legend_hash := successor_legend_hash r;
     prior_schema_hash := prior_schema_hash r; successor_schema_hash := successor_schema_hash r;
     prior_amendment_hash := "" |}.
Definition GENESIS_HASH := "5fe68bbc".
Definition genesis_accepted (pub : string) (g : AmendmentRecord) : result exn bool :=
  let* intact := verify_hash g in
  let* payload := signed_payload (unlinked g) in
  Ok (String.prefix GENESIS_HASH (amendment_hash g) && intact && verify_governor pub payload (am_signature g)).

(** The ledger is accepted when its genesis record is, every record is, each is found by its
    transition, and the ledger ends in the live frame. *)
Definition ledger_accepted (pub : string) (a : archive) (live : frame_legs) : result exn bool :=
  let recs := ar_records a in
  match List.find (fun r => str_eqb (amendment_kind r) "genesis") recs with
  | None => Ok false
  | Some genesis =>
      let* founded := genesis_accepted pub genesis in
      let* '(ok, w) := walk_ledger pub recs (start_walk (start_frame genesis recs live)) in
      let found := forallb (fun r =>
        bool_decide (is_Some (record_for_transition (prior_law_hash r) (successor_law_hash r) a))) recs in
      Ok (founded && ok && found && frame_eqb (wk_frame w) live)
  end.

(** The frames a ledger goes through after a frame. *)
Fixpoint frames_of (recs : list AmendmentRecord) (f : frame_legs) : list frame_legs :=
  match recs with
  | [] => []
  | r :: rest => let f' := successor_frame r f in f' :: frames_of rest f'
  end.
Definition final_frame (recs : list AmendmentRecord) (f : frame_legs) : frame_legs := List.last (frames_of recs f) f.

(** One record after another: the law leg moves from where it was, what a record commits of
    another leg is where it was, the Governor signed it, and a link names the hash before. *)
Fixpoint chain_of (pub : string) (recs : list AmendmentRecord) (f : frame_legs) (prev : option string) : Prop :=
  match recs with
  | [] => True
  | r :: rest =>
      (amendment_kind r = "genesis" \/ amendment_kind r = "ordinary") /\ verify_hash r = Ok true /\
      prior_law_hash r = leg_law f /\
      (successor_legend_hash r <> "" -> prior_legend_hash r = leg_legend f) /\
      (successor_schema_hash r <> "" -> prior_schema_hash r = leg_schema f) /\
      (exists payload, signed_payload r = Ok payload /\ _mosaic pub = Ok (am_authority r) /\
         verify_governor pub payload (am_signature r) = true) /\
      (prior_amendment_hash r <> "" -> prev = Some (prior_amendment_hash r)) /\
      chain_of pub rest (successor_frame r f) (Some (amendment_hash r))
  end.

Lemma sole_key_signs r pub hist : signed_by_era r [pub] pub hist ->
  exists payload, signed_payload r = Ok payload /\ _mosaic pub = Ok (am_authority r) /\
    verify_governor pub payload (am_signature r) = true.
Proof.
  intros (p & pre & k & post & Hp & Hk & Hm & _ & _ & _ & Hv).
  destruct pre as [|x pre]; [|destruct pre; done]. injection Hk as -> _. by exists p.
Qed.

Lemma step_admits pub r w w' : walk_step pub r w = Ok (true, w') ->
  admissible r (wk_frame w) (successor_frame r (wk_frame w)) pub (option_map ByFrame (wk_prev w))
    (map ByFrame (wk_seen w)) [] false (wk_hash w) /\
  w' = {| wk_frame := successor_frame r (wk_frame w); wk_seen := successor_frame r (wk_frame w) :: wk_seen w;
          wk_prev := Some (successor_frame r (wk_frame w)); wk_hash := Some (amendment_hash r) |}.
Proof.
  unfold walk_step. intros ([ok why] & H & He)%rbind_ok. apply Ok_inj in He. injection He as -> <-.
  split; [|done]. apply is_admissible_spec. by exists why.
Qed.

Lemma fresh_frame f seen : (if existsb is_frame (map ByFrame seen) then ByFrame f ∉ map ByFrame seen
  else ByLaw (leg_law f) ∉ map ByFrame seen) -> f ∉ seen.
Proof.
  destruct seen as [|g seen]; [by intros _ ?%elem_of_nil|]. cbn [map existsb is_frame orb].
  intros H Hf. apply H. change (ByFrame f ∈ map ByFrame (g :: seen)). by apply list_elem_of_fmap_2.
Qed.

Lemma walk_chain pub recs w w' : walk_ledger pub recs w = Ok (true, w') ->
  chain_of pub recs (wk_frame w) (wk_hash w) /\ wk_frame w' = final_frame recs (wk_frame w) /\
  NoDup (frames_of recs (wk_frame w)) /\ (forall f, f ∈ frames_of recs (wk_frame w) -> f ∉ wk_seen w).
Proof.
  revert w. induction recs as [|r rest IH]; intros w; cbn [walk_ledger].
  { intros H%Ok_inj. injection H as <-. split_and!; [done|done|constructor|]. by intros f ?%elem_of_nil. }
  intros ([ok w1] & H1 & H)%rbind_ok. destruct ok; [|by apply Ok_inj in H].
  apply step_admits in H1 as [Ha ->]. apply IH in H as (Hc & Hf & Hnd & Hns). cbn [wk_frame wk_hash wk_seen] in *.
  destruct Ha as [Hk Hi [Hl _] Hg Hs [_ (keys & Hkeys & Hsig)] (_ & _ & Hnew & Hlink)].
  apply Ok_inj in Hkeys as <-. apply sole_key_signs in Hsig. apply fresh_frame in Hnew.
  cbn [chain_of frames_of]. split_and!; try done.
  - destruct Hg as [(_ & <- & _)|[-> _]]; done.
  - destruct Hs as [(_ & <- & _)|[-> _]]; done.
  - unfold final_frame. cbn [frames_of]. by rewrite last_cons.
  - constructor; [|done]. intros Hin. apply (Hns _ Hin). by left.
  - intros f [->|Hin]%elem_of_cons; [done|]. intros Hs'. apply (Hns _ Hin). by right.
Qed.

(** C20: an accepted ledger is a chain to the present.  When the ledger is accepted, it holds a
    genesis record of the known hash, every record is intact, signed by the installed Governor, moves
    the frame from exactly where the records before it left it and links to the record before
    it if it commits a link; the frames it reaches are all different; and the last is the live one. *)
Theorem ledger_chains_to_live pub a live : ledger_accepted pub a live = Ok true ->
  exists genesis, genesis ∈ ar_records a /\ amendment_kind genesis = "genesis" /\
    String.prefix GENESIS_HASH (amendment_hash genesis) = true /\
    let f0 := start_frame genesis (ar_records a) live in
    chain_of pub (ar_records a) f0 None /\ NoDup (frames_of (ar_records a) f0) /\
    final_frame (ar_records a) f0 = live.
Proof.
  unfold ledger_accepted. cbv zeta. destruct (List.find _ (ar_records a)) as [g|] eqn:Hg; [|done].
  apply find_some in Hg as [Hin Hk]. apply str_eqb_spec in Hk.
  intros (founded & Hf0 & H)%rbind_ok. apply rbind_ok in H as ([ok w] & H & He).
  apply Ok_inj, andb_true_iff in He as [He Hlive]. apply frame_eqb_spec in Hlive.
  apply andb_true_iff in He as [He _]. apply andb_true_iff in He as [-> ->].
  unfold genesis_accepted in Hf0. apply rbind_ok in Hf0 as (i & _ & Hf0). apply rbind_ok in Hf0 as (p & _ & Hf0).
  apply Ok_inj, andb_true_iff in Hf0 as [Hf0 _]. apply andb_true_iff in Hf0 as [Hpre _].
  apply walk_chain in H as (Hc & Hf & Hnd & _). cbn [start_walk wk_frame wk_hash] in *.
  exists g. split; [by apply list_elem_of_In|]. split; [done|]. split; [done|]. split_and!; [done|done|congruence].
Qed.
End ledger.

(** * Examples *)

Definition demo_sign (r : AmendmentRecord) : result exn AmendmentRecord :=
  let* p := signed_payload r in
  create "2026-01-01T00:00:00Z"
    {| amendment_hash := ""; prior_law_hash := prior_law_hash r; successor_law_hash := successor_law_hash r;
       invariants_added := invariants_added r; invariants_removed := invariants_removed r;
       am_authority := am_authority r; am_signature := @ed_sign ed_demo p DEFAULT_TEST_PRIVKEY_HEX;
       am_phase_code := am_phase_code r; am_timestamp := am_timestamp r; amendment_kind := amendment_kind r;
       prior_legend_hash := prior_legend_hash r; successor_legend_hash := successor_legend_hash r;
       prior_schema_hash := prior_schema_hash r; successor_schema_hash := successor_schema_hash r;
       prior_amendment_hash := prior_amendment_hash r |}.
Definition demo_record (kind law law' schema schema' prev : string) : AmendmentRecord :=
  {| amendment_hash := ""; prior_law_hash := law; successor_law_hash := law';
     invariants_added := ["X-S-01"; "A-S-01"]; invariants_removed := [];
     am_authority := match _mosaic DEFAULT_TEST_PUBKEY_HEX with Ok m => m | Err _ => "" end;
     am_signature := ""; am_phase_code := "ugk"; am_timestamp := "2026-01-01T00:00:00Z"; amendment_kind := kind;
     prior_legend_hash := ""; successor_legend_hash := ""; prior_schema_hash := schema;
     successor_schema_hash := schema'; prior_amendment_hash := prev |}.
Definition or_record (m : result exn AmendmentRecord) : AmendmentRecord :=
  match m with Ok r => r | Err _ => demo_record "" "" "" "" "" "" end.
Definition demo_genesis : AmendmentRecord :=
  Eval vm_compute in or_record (demo_sign (demo_record "genesis" "law0" "law1" "" "" "")).
(** The first six records of the ledger the repository ships ([ugk/amendment_ledger.json]): the
    genesis, four moves of the law, and a move of the schema alone. *)
Definition shipped_pubkey : string := "ceb70ad0db209d9fa497898b43fdff9268ecedab27fad822f94af6df020fe5c8".
Definition shipped_authority : string := "ad5ba7c5019f97411061bb0b123760f89be96f30db36c8fe67a644eba49b3fca".
Definition shipped_ledger : archive := {| ar_file := Absent; ar_records := [
    {| amendment_hash := "5fe68bbca54bcbc2040afc63c624fb1fec47d58fb6de87dbd078cd49cf87e21b";
       prior_law_hash := "546a9e90fd780dec098d833b4a960f20db530bca9f946244a4ae3d7ebe156820";
       successor_law_hash := "5f8cf9f3a52c889f4c94e24603bd430089714370a2148dfa2a11c94545572029";
       invariants_added := ["AMD-S-02"; "AMD-S-03"]; invariants_removed := []; am_authority := shipped_authority;
       am_signature := "988d63bd1e4dc67000a9ebdb2f5e88d89745865622827f1b988521bf19125cde" +:+
         "082049a90074d4012948571091757ed92aeb4769e66e7a448b51bed3d1f09a0b";
       am_phase_code := "ugk-phase17-v0.1.0"; am_timestamp := "2026-01-01T00:00:00Z"; amendment_kind := "genesis";
       prior_legend_hash := ""; successor_legend_hash := "";
       prior_schema_hash := "";
       successor_schema_hash := "";
       prior_amendment_hash := "" |};
    {| amendment_hash := "dee83f6428844db4df628ee4614b15823e647426ef27616d5a5f1f7f8d1f8f5d";
       prior_law_hash := "5f8cf9f3a52c889f4c94e24603bd430089714370a2148dfa2a11c94545572029";
       successor_law_hash := "10982c574f39a4f8f89130ea6a2f639c71c4bb59bab90bfa2b43b590d1f71016";
       invariants_added := []; invariants_removed := []; am_authority := shipped_authority;
       am_signature := "5ca4a4e9602bd42a99ba31226175dc32455243e458698176f8b5ea0162a08d94" +:+
         "6e5368f97d17f0f3d7d363922ca37e543047a27a4f5a6967299306a15799760f";
       am_phase_code := "ugk-phase19-v0.1.0"; am_timestamp := "2026-01-03T00:00:00Z"; amendment_kind := "ordinary";
       prior_legend_hash := ""; successor_legend_hash := "";
       prior_schema_hash := "";
       successor_schema_hash := "";
       prior_amendment_hash := "" |};
    {| amendment_hash := "54fc2a5fbab60c81d691ff00387ff58b0b81e2164ae2aaae702e90ad8e1cd19c";
       prior_law_hash := "10982c574f39a4f8f89130ea6a2f639c71c4bb59bab90bfa2b43b590d1f71016";
       successor_law_hash := "9a858283a9d96fbb803745a7fa6153fbec4c2ec872343e2351908ebb8318eeff";
       invariants_added := ["NS-S-01"; "NS-S-02"; "NS-S-03"]; invariants_removed := []; am_authority := shipped_authority;
       am_signature := "607df47c811b77b97b25b75ffb2db94664cc27d55fe55a393683f499253ac9de" +:+
         "eef0241067fd10840251121fb3901a67b4b9bdb0f77b959da375ba1f34b1d10d";
       am_phase_code := "ugk-phase20-v0.1.0"; am_timestamp := "2026-01-05T00:00:00Z"; amendment_kind := "ordinary";
       prior_legend_hash := ""; successor_legend_hash := "";
       prior_schema_hash := "";
       successor_schema_hash := "";
       prior_amendment_hash := "" |};
    {| amendment_hash := "4b197df1ba6220272ad763ddffb21f5cd23921b9b86409a56001d9130bd2f00c";
       prior_law_hash := "9a858283a9d96fbb803745a7fa6153fbec4c2ec872343e2351908ebb8318eeff";
       successor_law_hash := "a89ec07db9fa20bc5c34f43c8466159356b8d8c8aaa406001f1cfe64d0e96043";
       invariants_added := []; invariants_removed := []; am_authority := shipped_authority;
       am_signature := "dbc5885290f6a7aea74ce53a4312fdd3b9712a423e87f53de14862d65bd0bd78" +:+
         "fbc47c34fb9e85efb1386ca32de2b01d16b146e0a9436bb0b5ddb29d69491606";
       am_phase_code := "ugk-phase20-v0.1.0"; am_timestamp := "2026-01-01T00:00:00Z"; amendment_kind := "ordinary";
       prior_legend_hash := ""; successor_legend_hash := "";
       prior_schema_hash := "";
       successor_schema_hash := "";
       prior_amendment_hash := "" |};
    {| amendment_hash := "8960453e1ed057fa5cec185d229104baea3c078d7353ad60731ba93184f91397";
       prior_law_hash := "a89ec07db9fa20bc5c34f43c8466159356b8d8c8aaa406001f1cfe64d0e96043";
       successor_law_hash := "064f7476e01f16b69ebb33a11244d6fb3d8d639b05c958573f7d6c080b191246";
       invariants_added := []; invariants_removed := []; am_authority := shipped_authority;
       am_signature := "4fed8c8377d44e4adf51c7f0e992472b430a3c9f612b4574b4e5fc8693b383f7" +:+
         "abe01b0960169073ccdd5f06bc496403ee7ebe3fa9f7e8d018654ea779d14b00";
       am_phase_code := "ugk-phase20-v0.1.0"; am_timestamp := "2026-01-01T00:00:00Z"; amendment_kind := "ordinary";
       prior_legend_hash := ""; successor_legend_hash := "";
       prior_schema_hash := "";
       successor_schema_hash := "";
       prior_amendment_hash := "4b197df1ba6220272ad763ddffb21f5cd23921b9b86409a56001d9130bd2f00c" |};
    {| amendment_hash := "59e3ef9ea94756dcb6772a39d30f079c1f6947387a8add2fc54134f4b3e5f926";
       prior_law_hash := "064f7476e01f16b69ebb33a11244d6fb3d8d639b05c958573f7d6c080b191246";
       successor_law_hash := "064f7476e01f16b69ebb33a11244d6fb3d8d639b05c958573f7d6c080b191246";
       invariants_added := []; invariants_removed := []; am_authority := shipped_authority;
       am_signature := "158dbc6634aa93575130f3f720c1c17115f5150d0ab4634624b70b71c55089e3" +:+
         "d3d4d76a69eaed832333a032414452a510bd0b818a75abad55cd1ff18a55b304";
       am_phase_code := "ugk-phase20-v0.1.0"; am_timestamp := "2026-01-01T00:00:00Z"; amendment_kind := "ordinary";
       prior_legend_hash := ""; successor_legend_hash := "";
       prior_schema_hash := "bcb3397f260b1332f80c4acd33d2dd2ac3f27133042838784868e95a7d08d394";
       successor_schema_hash := "c44bec33a95e76e7281bcb1f3d2aff6bdbf3d4d35f711983644d3d1e842de8f9";
       prior_amendment_hash := "8960453e1ed057fa5cec185d229104baea3c078d7353ad60731ba93184f91397" |} ] |}.
Definition shipped_live : frame_legs :=
  {| leg_law := "064f7476e01f16b69ebb33a11244d6fb3d8d639b05c958573f7d6c080b191246";
     leg_legend := "legend";
     leg_schema := "c44bec33a95e76e7281bcb1f3d2aff6bdbf3d4d35f711983644d3d1e842de8f9" |}.
(** Signatures are those of the file: the scheme itself is not evaluated. *)
Definition ed_shipped : Ed25519 :=
  {| ed_sign _ _ := ""; ed_verify _ sg _ := Ok (mem_str sg (map am_signature (ar_records shipped_ledger))) |}.
Lemma shipped_ledger_run : @ledger_accepted ed_shipped shipped_pubkey shipped_ledger shipped_live = Ok true.
Proof. vm_compute. reflexivity. Qed.

Lemma ledger_chains_to_live_witness : exists genesis, genesis ∈ ar_records shipped_ledger /\
  amendment_kind genesis = "genesis" /\
  let f0 := start_frame genesis (ar_records shipped_ledger) shipped_live in
  @chain_of ed_shipped shipped_pubkey (ar_records shipped_ledger) f0 None /\
  NoDup (frames_of (ar_records shipped_ledger) f0) /\ final_frame (ar_records shipped_ledger) f0 = shipped_live.
Proof.
  destruct (@ledger_chains_to_live ed_shipped shipped_pubkey shipped_ledger shipped_live shipped_ledger_run)
    as (g & H1 & H2 & _ & H3).
  exists g. split; [exact H1|]. split; [exact H2|exact H3].
Defined.

Lemma amendment_hash_commits_witness : demo_genesis = or_record (create "now" demo_genesis).
Proof.
  apply amendment_hash_commits.
  - vm_compute. reflexivity.
  - vm_compute. reflexivity.
  - vm_compute. reflexivity.
  - apply no_collisionb_spec. vm_compute. reflexivity.
Defined.

(** A second run of the ledger is no longer a move to a new frame. *)
Example repeated_ledger_refused :
  @ledger_accepted ed_shipped shipped_pubkey
    {| ar_file := Absent; ar_records := ar_records shipped_ledger ++ ar_records shipped_ledger |} shipped_live = Ok false.
Proof. vm_compute. reflexivity. Qed.

(** The archive is no append-only file when an entry cannot be read: the load stops there without
    a word, and the next append writes the file back without what followed it. *)
Lemma damaged_archive_truncated (bad : pyval) (good later r : AmendmentRecord) :
  record_of_entry bad = None ->
  let file := Parsed (PList [asdict good; bad; asdict later]) in
  ar_records (open_archive file) = [good] /\
  ar_file (append r (open_archive file)) = Parsed (PList [asdict good; asdict r]).
Proof.
  intros Hb file. unfold append, open_archive, file. cbn [load_records load_entries ar_records].
  rewrite entry_round_trip, Hb. done.
Qed.

(** With an installed key that is no key yet, the check is not refused: it raises. *)
Lemma unset_key_raises : @is_admissible ed_demo demo_genesis
    {| leg_law := "law0"; leg_legend := "l"; leg_schema := "s" |}
    {| leg_law := "law1"; leg_legend := "l"; leg_schema := "s" |}
    "GOVERNOR_KEY_UNSET__RUN_UGK_CHARTER" None [] [] false None
  = Err (Exn ValueError "non-hexadecimal number found in fromhex() arg").
Proof. vm_compute. reflexivity. Qed.
