(* ===== verification/Scale.v ===== *)
(** The opt-in scale lane ([ugk/scale/oracle.py], [ugk/scale/scheduler.py]): the dependency oracle, the
    commit lane, and the scheduler that orders a batch by priority without crossing a
    dependency and records every decision in its own log. *)
From S2P Require Import Prelude Json Sha256.

(** * [repr] *)

(** Bytes above 127 belong to characters that are printed as they are. *)
Definition hex2 (c : ascii) : string :=
  let n := N_of_ascii c in String (hex_digit (n / 16)) (String (hex_digit (n mod 16)) "").
Definition str_has (q : ascii) (s : string) : bool := str_existsb (Ascii.eqb q) s.
Fixpoint repr_chars (q : ascii) (s : string) : string :=
  match s with
  | EmptyString => ""
  | String c s' =>
      let n := N_of_ascii c in
      (if Ascii.eqb c q || Ascii.eqb c "\" then String "\" (String c "")
       else if (n =? 10)%N then "\n" else if (n =? 13)%N then "\r" else if (n =? 9)%N then "\t"
       else if (n <? 32)%N || (n =? 127)%N then "\x" +:+ hex2 c
       else String c "") +:+ repr_chars q s'
  end.
Definition apostrophe : ascii := "'".
Definition quotation : ascii := ascii_of_nat 34.
Definition repr_str (s : string) : string :=
  let q := if str_has apostrophe s && negb (str_has quotation s) then quotation else apostrophe in
  String q (repr_chars q s) +:+ String q "".
Definition repr_tuple (l : list string) : string :=
  match l with [x] => "(" +:+ x +:+ ",)" | _ => "(" +:+ join ", " l +:+ ")" end.

(** * The chain *)

(** A binding key is an effect and an authority. *)
Definition binding : Type := string * string.
Definition repr_keys (l : list binding) : string :=
  repr_tuple (map (fun k => repr_tuple [repr_str (fst k); repr_str (snd k)]) l).

(** What a refusal is about: a hash or an effect, a binding key, or everything. *)
Inductive subject := SName (s : string) | SKey (k : binding).
#[export] Instance subject_eq_dec : EqDecision subject.
Proof. solve_decision. Defined.
Definition ALL_PENDING := SName "ALL_PENDING".

Record Candidate := {
  cd_op : string;
  cd_agent : string;
  cd_session : option string;
  input_refs : option (list string);
  warrant_basis_refs : option (list string);
  binding_key : list binding;
  refusal_subject : option subject;
  posture_affecting : option bool;
  session_marker : option string;
  member_range : option (list string);
  produces_effects : list string;
  cd_grant : bool;
  is_aggregate : bool;
}.

Record LaneReceipt := {
  lr_pos : Z;
  lr_hash : string;
  lr_prior : string;
  lr_op : string;
  lr_agent : string;
  lr_session : option string;
  lr_keys : list binding;
  lr_effects : list string;
  lr_grant : bool;
  lr_failed : bool;
}.

(** The indexes by hash and by effect are read off the list; the last receipt of a hash counts. *)
Definition Chain : Type := list LaneReceipt.
Definition CHAIN_GENESIS : string := concat_str (repeat "0" 64).
Definition tip (ch : Chain) : string := List.last (map lr_hash ch) CHAIN_GENESIS.
Definition has_hash (ch : Chain) (h : string) : bool := existsb (fun r => str_eqb (lr_hash r) h) ch.
Definition has_effect (ch : Chain) (e : string) : bool := existsb (fun r => mem_str e (lr_effects r)) ch.
Definition chain_receipt (ch : Chain) (h : string) : option LaneReceipt :=
  List.find (fun r => str_eqb (lr_hash r) h) (rev ch).

Definition session_text (s : option string) : string := match s with Some s => s | None => "None" end.
Definition receipt_body (pos : Z) (prior op agent : string) (session : option string) (keys : list binding) : string :=
  join "|" [str_of_Z pos; prior; op; agent; session_text session; repr_keys keys].
(** The position, the link and the binding are the chain's, not the candidate's. *)
Definition mint (ch : Chain) (c : Candidate) (actual : option (list binding)) : LaneReceipt :=
  let pos := Z.of_nat (length ch) in
  let keys := match actual with Some k => k | None => binding_key c end in
  {| lr_pos := pos; lr_hash := sha256_hex (receipt_body pos (tip ch) (cd_op c) (cd_agent c) (cd_session c) keys);
     lr_prior := tip ch; lr_op := cd_op c; lr_agent := cd_agent c; lr_session := cd_session c;
     lr_keys := keys; lr_effects := produces_effects c; lr_grant := cd_grant c; lr_failed := false |}.

(** * The dependency oracle *)

Definition SAFETY_OPS : list string :=
  ["gate_refuse"; "invariant_violation"; "replay_detect"; "rollback"; "corruption_alert"].
Definition POSTURE_OPS : list string :=
  ["authority_model_set"; "a1_posture_set"; "rho_posture_set"; "constitution_set"].

Inductive dependence := DEPENDENT | INDEPENDENT.
(** [OracleRefusal], by its code. *)
Definition oracle (A : Type) : Type := result string A.

Definition _posture_check (c : Candidate) : oracle bool :=
  let in_class := mem_str (cd_op c) POSTURE_OPS in
  let declared := match posture_affecting c with Some true => true | _ => false end in
  if in_class && negb declared then Err "D5-POSTURE-UNDERDECLARED" else Ok (in_class || declared).

(** A narrowed subject counts when the chain knows it. *)
Definition narrowed (s : option subject) : bool :=
  match s with None => false | Some s => negb (bool_decide (s = ALL_PENDING)) end.
Definition _refusal_subject_verifiable (c : Candidate) (ch : Chain) : bool :=
  match refusal_subject c with
  | Some (SName s) => narrowed (refusal_subject c) && (has_hash ch s || has_effect ch s)
  | _ => false
  end.
Definition _is_barrier (c : Candidate) (ch : Chain) : oracle bool :=
  let* p := _posture_check c in
  Ok (p || (mem_str (cd_op c) SAFETY_OPS && negb (_refusal_subject_verifiable c ch))).

Definition _verified_input_refs (c : Candidate) (ch : Chain) : option (list string) :=
  match input_refs c with
  | None | Some [] => None
  | Some refs => if forallb (fun r => has_hash ch r || has_effect ch r) refs then Some refs else None
  end.
Definition grants (ch : Chain) (h : string) : bool :=
  match chain_receipt ch h with Some r => lr_grant r | None => false end.
Definition _verified_warrant (c : Candidate) (ch : Chain) : option (list string) :=
  match warrant_basis_refs c with
  | None => None
  | Some refs => if forallb (grants ch) refs then Some refs else None
  end.

Definition meets (a b : list string) : bool := existsb (fun x => mem_str x b) a.
Definition key_eqb (a b : binding) : bool := str_eqb (fst a) (fst b) && str_eqb (snd a) (snd b).
Definition keys_meet (a b : list binding) : bool := existsb (fun x => existsb (key_eqb x) b) a.

Definition aggregate_of (a : Candidate) : bool :=
  is_aggregate a && match member_range a with Some (_ :: _) => true | _ => false end.
(** [subj in b.produces_effects or subj in b.binding_key] *)
Definition is_subject_of (a b : Candidate) : bool :=
  mem_str (cd_op a) SAFETY_OPS && narrowed (refusal_subject a) &&
  match refusal_subject a with
  | Some (SName s) => mem_str s (produces_effects b)
  | Some (SKey k) => existsb (key_eqb k) (binding_key b)
  | None => false
  end.
Definition session_eqb (a b : option string) : bool :=
  match a, b with Some a, Some b => str_eqb a b | None, None => true | _, _ => false end.
Definition at_boundary (a b : Candidate) : bool :=
  match session_marker a with
  | Some m => (str_eqb m "open" || str_eqb m "close") && session_eqb (cd_session b) (cd_session a)
  | None => false
  end.

Definition independent (x y : Candidate) (ch : Chain) : oracle dependence :=
  if aggregate_of x || aggregate_of y then Ok DEPENDENT else
  let* bx := _is_barrier x ch in
  let* barrier := if bx then Ok true else _is_barrier y ch in
  if barrier then Ok DEPENDENT
  else if is_subject_of x y || is_subject_of y x then Ok DEPENDENT
  else if keys_meet (binding_key x) (binding_key y) then Ok DEPENDENT
  else match binding_key x, binding_key y with
  | [], _ | _, [] => Ok DEPENDENT
  | _, _ =>
  match _verified_input_refs x ch, _verified_input_refs y ch with
  | Some xin, Some yin =>
      if meets (produces_effects y) xin || meets (produces_effects x) yin then Ok DEPENDENT
      else match _verified_warrant x ch, _verified_warrant y ch with
      | Some _, Some _ =>
          if at_boundary x y || at_boundary y x then Ok DEPENDENT else Ok INDEPENDENT
      | _, _ => Ok DEPENDENT
      end
  | _, _ => Ok DEPENDENT
  end end.

(** * The log of the scheduler *)

Inductive detail := DText (s : string) | DInt (z : Z) | DBool (b : bool) | DTexts (l : list string).
Definition repr_detail (d : detail) : string :=
  match d with
  | DText s => repr_str s
  | DInt z => str_of_Z z
  | DBool b => if b then "True" else "False"
  | DTexts l => "[" +:+ join ", " (map repr_str l) +:+ "]"
  end.

Definition SCALE_OPS : list string :=
  ["scheduler_policy_set"; "independence_set_computed"; "priority_class_assigned"; "backpressure_engaged";
   "backpressure_released"; "queue_overflow_refused"; "batch_envelope_created"; "worker_pool_scaled";
   "lane_paused"; "lane_resumed"].
Record I5Receipt := {
  i5_seq : Z;
  i5_op : string;
  i5_detail : list (string * detail);
  i5_prior : string;
}.
Definition i5_hash (r : I5Receipt) : string :=
  sha256_hex (join "|" [str_of_Z (i5_seq r); i5_prior r; i5_op r;
    "[" +:+ join ", " (map (fun kv => repr_tuple [repr_str (fst kv); repr_detail (snd kv)])
                         (sort_by fst (i5_detail r))) +:+ "]"]).
Definition i5_tip (log : list I5Receipt) : string := List.last (map i5_hash log) CHAIN_GENESIS.
Definition about (id : string) (r : I5Receipt) : bool :=
  match dict_get "cand" (i5_detail r) with Some (DText s) => str_eqb s id | _ => false end.
(** [why], [reconstruct_why] *)
Definition why (id : string) (log : list I5Receipt) : list (string * list (string * detail)) :=
  map (fun r => (i5_op r, i5_detail r)) (List.filter (about id) log).

(** * The lane and the scheduler *)

Section lane.
Context {W V : Type}.

(** The chain is one object, shared by the lane and the scheduler; [world] is what the
    admission and the effect see and change. *)
Record scale := {
  sc_chain : Chain;
  durable_queue : list Candidate;
  committed_then_effect : list (LaneReceipt * bool);
  i5 : list I5Receipt;
  world : W;
}.
Definition set_i5 (l : list I5Receipt) (s : scale) : scale :=
  {| sc_chain := sc_chain s; durable_queue := durable_queue s;
     committed_then_effect := committed_then_effect s; i5 := l; world := world s |}.
Definition set_world (w : W) (s : scale) : scale :=
  {| sc_chain := sc_chain s; durable_queue := durable_queue s;
     committed_then_effect := committed_then_effect s; i5 := i5 s; world := w |}.
Definition set_queue (q : list Candidate) (s : scale) : scale :=
  {| sc_chain := sc_chain s; durable_queue := q;
     committed_then_effect := committed_then_effect s; i5 := i5 s; world := world s |}.
Definition append_receipt (r : LaneReceipt) (s : scale) : scale :=
  {| sc_chain := sc_chain s ++ [r]; durable_queue := durable_queue s;
     committed_then_effect := committed_then_effect s ++ [(r, false)]; i5 := i5 s; world := world s |}.
(** [committed_then_effect[-1] = (r, True)] *)
Definition effect_done (r : LaneReceipt) (s : scale) : scale :=
  {| sc_chain := sc_chain s; durable_queue := durable_queue s;
     committed_then_effect := removelast (committed_then_effect s) ++ [(r, true)]; i5 := i5 s; world := world s |}.

(** The callbacks see the chain as it stands when they are called. *)
Variable admit_fn : Candidate -> Chain -> M W bool.
Variable effect_fn : Candidate -> Chain -> M W V.
Definition on_world {A} (m : Chain -> M W A) : M scale A := fun s =>
  let '(r, w) := m (sc_chain s) (world s) in (r, set_world w s).

Definition emit (op : string) (d : list (string * detail)) : M scale unit := fun s =>
  if mem_str op SCALE_OPS
  then (Ok tt, set_i5 (i5 s ++ [{| i5_seq := Z.of_nat (length (i5 s)); i5_op := op; i5_detail := d;
                                   i5_prior := i5_tip (i5 s) |}]) s)
  else (Err (Exn OtherError ("AssertionError: undeclared scale op: " +:+ op)), s).

Definition enqueue (c : Candidate) (s : scale) : scale := set_queue (durable_queue s ++ [c]) s.

Definition refusal (code : string) : exn := Exn OracleRefusalC code.
Definition same_binding_keys (a b : list binding) : bool :=
  forallb (fun x => existsb (key_eqb x) b) a && forallb (fun x => existsb (key_eqb x) a) b.

(** The receipt is on the chain before the effect runs. *)
Definition commit_and_effect (c : Candidate) (actual : option (list binding)) : M scale (LaneReceipt * V) :=
  let! admitted := on_world (admit_fn c) in
  if negb admitted then sraise (refusal "LANE-REFUSED-AT-COMMIT")
  else if match actual with Some k => negb (same_binding_keys k (binding_key c)) | None => false end
  then sraise (refusal "BINDING-DECL-ACTUAL-MISMATCH")
  else
    let! r := sget (fun s => mint (sc_chain s) c actual) in
    let! _ := smod (append_receipt r) in
    let! v := on_world (effect_fn c) in
    let! _ := smod (effect_done r) in
    sret (r, v).

(** A durable candidate is offered again, never committed by the recovery. *)
Fixpoint reoffer (q : list Candidate) : M scale (list Candidate) :=
  match q with
  | [] => sret []
  | c :: q' =>
      let! ok := on_world (admit_fn c) in
      let! rest := reoffer q' in sret (if ok then c :: rest else rest)
  end.
Definition recover_after_crash : M scale (list Candidate) :=
  let! q := sget durable_queue in
  let! promoted := reoffer q in
  let! _ := smod (set_queue []) in sret promoted.

(** ** Ordering a batch *)

Definition PRIORITY : list (string * Z) :=
  [("gate_refuse", 0); ("invariant_violation", 0); ("replay_detect", 0);
   ("authority_model_set", 1); ("a1_posture_set", 1); ("session_open", 1); ("app_write", 2); ("bulk", 3)].
Definition prio (c : Candidate) : Z := match dict_get (cd_op c) PRIORITY with Some p => p | None => 2 end.

(** [independent(...) == INDEPENDENT], a refusal being no proof. *)
Definition proven (ch : Chain) (x y : Candidate) : bool :=
  match independent x y ch with Ok INDEPENDENT => true | _ => false end.

(** A candidate, with its place in the batch and its identifier. *)
Record placed := { pl_index : nat; pl_id : string; pl_cand : Candidate }.

(** The members in order of admission, each independent of all before it. *)
Fixpoint independence_members (ch : Chain) (members batch : list placed) : list placed :=
  match batch with
  | [] => members
  | p :: batch' =>
      independence_members ch
        (if forallb (fun m => proven ch (pl_cand p) (pl_cand m)) members then members ++ [p] else members) batch'
  end.

(** The later one has priority and nothing holds it back. *)
Definition overtakes (ch : Chain) (a b : placed) : bool :=
  (prio (pl_cand b) <? prio (pl_cand a)) && proven ch (pl_cand a) (pl_cand b).
(** A pass over adjacent pairs, [a] being carried; and whether it changed anything. *)
Fixpoint pass (ch : Chain) (a : placed) (rest : list placed) : list placed * bool :=
  match rest with
  | [] => ([a], false)
  | b :: rest' =>
      if overtakes ch a b
      then let '(l, _) := pass ch a rest' in (b :: l, true)
      else let '(l, changed) := pass ch b rest' in (a :: l, changed)
  end.
Definition one_pass (ch : Chain) (order : list placed) : list placed * bool :=
  match order with [] => ([], false) | a :: rest => pass ch a rest end.
(** [while changed and passes < n] *)
Fixpoint passes (n : nat) (ch : Chain) (order : list placed) : list placed :=
  match n with
  | O => order
  | S n => let '(order', changed) := one_pass ch order in if changed then passes n ch order' else order'
  end.
Definition _safe_priority_order (ch : Chain) (batch : list placed) : list placed :=
  passes (length batch) ch batch.

(** ** Scheduling *)

(** The batch comes with one identifier for each candidate. *)
Fixpoint place (i : nat) (batch : list (string * Candidate)) : list placed :=
  match batch with
  | [] => []
  | (id, c) :: rest => {| pl_index := i; pl_id := id; pl_cand := c |} :: place (S i) rest
  end.
Definition in_set (p : placed) (members : list placed) : bool :=
  existsb (fun m => (pl_index m =? pl_index p)%nat) members.

Fixpoint overflow (ids : list string) : M scale unit :=
  match ids with
  | [] => sret tt
  | id :: rest =>
      let! _ := emit "queue_overflow_refused" [("cand", DText id); ("reason", DText "capacity-exceeded")] in
      overflow rest
  end.

(** [except OracleRefusal]: whatever raised it. *)
Definition commit_one (p : placed) : M scale (list (string * string)) := fun s =>
  match commit_and_effect (pl_cand p) (Some (binding_key (pl_cand p))) s with
  | (Ok (r, _), s') => (Ok [(pl_id p, lr_hash r)], s')
  | (Err x, s') =>
      if bool_decide (exn_cls x = OracleRefusalC)
      then (let! _ := emit "queue_overflow_refused"
              [("cand", DText (pl_id p)); ("reason", DText ("lane-refused:" +:+ exn_msg x))] in sret []) s'
      else (Err x, s')
  end.
Fixpoint commit_all (members order : list placed) : M scale (list (string * string)) :=
  match order with
  | [] => sret []
  | p :: rest =>
      let inside := in_set p members in
      let! _ := emit "priority_class_assigned"
        [("cand", DText (pl_id p)); ("prio", DInt (prio (pl_cand p))); ("in_independent_set", DBool inside);
         ("note", DText (if inside then "ordered within independent set" else "serialized (dependent)"))] in
      let! done := commit_one p in
      let! more := commit_all members rest in
      sret (done ++ more)
  end.

Definition schedule (capacity : nat) (batch : list (string * Candidate)) : M scale (list (string * string)) :=
  let full := (capacity <? length batch)%nat in
  let! _ := (if full then
    let! _ := emit "backpressure_engaged" [("pending", DInt (Z.of_nat (length batch))); ("capacity", DInt (Z.of_nat capacity))] in
    let! _ := overflow (map fst (drop capacity batch)) in
    emit "backpressure_released" [("admitted", DInt (Z.of_nat (length (take capacity batch))))]
    else sret tt) in
  let kept := place 0 (if full then take capacity batch else batch) in
  let! ch := sget sc_chain in
  let members := independence_members ch [] kept in
  let! _ := emit "independence_set_computed" [("members", DTexts (map pl_id members));
    ("basis", DText "positive input_refs + grant warrant + disjoint binding + cross-agent")] in
  commit_all members (_safe_priority_order ch kept).
End lane.

(** [GovernedScheduler(chain, capacity)] *)
Definition new_scheduler {W : Type} (ch : Chain) (capacity : nat) (w : W) : result exn unit * scale :=
  emit "scheduler_policy_set"
    [("policy", DText "independence-set + priority-within-set + aging"); ("capacity", DInt (Z.of_nat capacity));
     ("profile", DText "microservice-only")]
    {| sc_chain := ch; durable_queue := []; committed_then_effect := []; i5 := []; world := w |}.

(** * The order respects dependence *)

Section order.
Variable ch : Chain.

(** One exchange of neighbours. *)
Inductive swapped : list placed -> list placed -> Prop :=
| Swap p a b s : overtakes ch a b = true -> swapped (p ++ a :: b :: s) (p ++ b :: a :: s).

Lemma swapped_cons x l l' : swapped l l' -> swapped (x :: l) (x :: l').
Proof. intros [p a b s H]. by apply (Swap (x :: p)). Qed.
Lemma steps_cons x l l' : rtc swapped l l' -> rtc swapped (x :: l) (x :: l').
Proof. induction 1; [done|]. eapply rtc_l; [by apply swapped_cons|done]. Qed.

Lemma pass_steps a rest : rtc swapped (a :: rest) (fst (pass ch a rest)).
Proof.
  revert a. induction rest as [|b rest IH]; intros a; [done|]. cbn [pass].
  destruct (overtakes ch a b) eqn:Hs.
  - pose proof (IH a) as H. destruct (pass ch a rest) as [l c]. cbn [fst] in *.
    eapply rtc_l; [exact (Swap [] a b rest Hs)|]. by apply steps_cons.
  - pose proof (IH b) as H. destruct (pass ch b rest) as [l c]. cbn [fst] in *. by apply steps_cons.
Qed.
Lemma passes_steps n l : rtc swapped l (passes n ch l).
Proof.
  revert l. induction n as [|n IH]; intros l; [done|]. cbn [passes].
  assert (H : rtc swapped l (fst (one_pass ch l))) by (destruct l; [done|apply pass_steps]).
  destruct (one_pass ch l) as [l' []]; cbn [fst] in H; [|done]. by etrans; [exact H|apply IH].
Qed.

(** One place comes before another in an order. *)
Fixpoint before (y x : placed) (l : list placed) : Prop :=
  match l with [] => False | z :: l' => y = z /\ x ∈ l' \/ before y x l' end.

Lemma before_swap y x p a b s : before y x (p ++ b :: a :: s) ->
  before y x (p ++ a :: b :: s) \/ y = b /\ x = a.
Proof.
  induction p as [|z p IH]; cbn.
  - rewrite !elem_of_cons. naive_solver.
  - intros [[-> Hx]|H].
    + left. left. split; [done|]. revert Hx. rewrite !elem_of_app, !elem_of_cons. tauto.
    + destruct (IH H); auto.
Qed.

Lemma steps_before l l' : rtc swapped l l' -> forall y x, before y x l' ->
  before y x l \/ overtakes ch x y = true.
Proof.
  induction 1 as [l|l m l' Hs _ IH]; intros y x Hb; [by left|].
  destruct (IH y x Hb) as [Hm|Hm]; [|by right]. destruct Hs as [p a b s Hab].
  apply before_swap in Hm as [Hm|[-> ->]]; [by left|by right].
Qed.
Lemma steps_perm l l' : rtc swapped l l' -> Permutation l' l.
Proof.
  induction 1 as [l|l m l' [p a b s _] _ IH]; [done|]. rewrite IH. apply Permutation_app_head, perm_swap.
Qed.

Lemma proven_spec x y : proven ch x y = true <-> independent x y ch = Ok INDEPENDENT.
Proof. unfold proven. destruct (independent x y ch) as [[]|]; naive_solver. Qed.

Lemma place_index i batch x : x ∈ place i batch -> (i <= pl_index x)%nat.
Proof.
  revert i. induction batch as [|[id c] batch IH]; intros i; cbn; [by intros ?%elem_of_nil|].
  intros [->|H]%elem_of_cons; [done|]. apply IH in H. lia.
Qed.
Lemma place_before i batch y x : before y x (place i batch) -> (pl_index y < pl_index x)%nat.
Proof.
  revert i. induction batch as [|[id c] batch IH]; intros i; cbn; [done|].
  intros [[-> H]|H]; [apply place_index in H; cbn; lia|by eapply IH].
Qed.

Lemma safe_order_perm batch : Permutation (_safe_priority_order ch batch) batch.
Proof. apply steps_perm, passes_steps. Qed.

(** C23: priority never crosses a dependency.  The order in which a batch is committed is a
    rearrangement of it, and wherever it departs from the order of submission, the
    candidate that was moved ahead has strictly higher priority and the oracle
    proved the two independent. *)
Theorem priority_respects_dependence batch :
  let order := _safe_priority_order ch (place 0 batch) in
  Permutation order (place 0 batch) /\
  forall a b, before b a order -> (pl_index a < pl_index b)%nat ->
    prio (pl_cand b) < prio (pl_cand a) /\ independent (pl_cand a) (pl_cand b) ch = Ok INDEPENDENT.
Proof.
  intros order. pose proof (passes_steps (length (place 0 batch)) (place 0 batch)) as H.
  split; [by apply steps_perm|]. intros a b Hb Hi.
  destruct (steps_before _ _ H b a Hb) as [Hp|Ho].
  - apply place_before in Hp. lia.
  - apply andb_true_iff in Ho as [Hp Hv]. split; [by apply Z.ltb_lt|by apply proven_spec].
Qed.
End order.

(** * What the oracle takes for independence *)

Section clearance.
Variable ch : Chain.

(** The chain knows a reference. *)
Definition known (r : string) : Prop := has_hash ch r = true \/ has_effect ch r = true.
(** No global barrier: no posture, and a safety operation is about something the chain knows. *)
Definition no_barrier (c : Candidate) : Prop :=
  posture_affecting c <> Some true /\ cd_op c ∉ POSTURE_OPS /\
  (cd_op c ∈ SAFETY_OPS -> exists s, refusal_subject c = Some (SName s) /\ s <> "ALL_PENDING" /\ known s).
(** Inputs are declared, some, and the chain knows them. *)
Definition declared_inputs (c : Candidate) (refs : list string) : Prop :=
  input_refs c = Some refs /\ refs <> [] /\ Forall known refs.
(** A list of warrants is given, each a grant on the chain.  It may be empty, and what the
    other candidate produces is not looked at ([empty_warrant_accepted],
    [warrant_may_name_products]). *)
Definition declared_warrant (c : Candidate) : Prop :=
  exists refs, warrant_basis_refs c = Some refs /\ Forall (fun h => grants ch h = true) refs.
Definition refuses (a b : Candidate) : Prop := cd_op a ∈ SAFETY_OPS /\
  exists s, refusal_subject a = Some (SName s) /\ s ∈ produces_effects b.
Definition bounds_session (a b : Candidate) : Prop :=
  cd_session a = cd_session b /\ (session_marker a = Some "open" \/ session_marker a = Some "close").

Record cleared (x y : Candidate) : Prop := {
  cl_members : aggregate_of x = false /\ aggregate_of y = false;
  cl_barrier : no_barrier x /\ no_barrier y;
  cl_subject : ~ refuses x y /\ ~ refuses y x;
  cl_keys : binding_key x <> [] /\ binding_key y <> [] /\ (forall k, k ∈ binding_key x -> k ∉ binding_key y);
  cl_inputs : exists xin yin, declared_inputs x xin /\ declared_inputs y yin /\
    (forall e, e ∈ produces_effects y -> e ∉ xin) /\ (forall e, e ∈ produces_effects x -> e ∉ yin);
  cl_warrant : declared_warrant x /\ declared_warrant y;
  cl_session : ~ bounds_session x y /\ ~ bounds_session y x;
}.

Lemma verifiable_spec c : _refusal_subject_verifiable c ch = true <->
  exists s, refusal_subject c = Some (SName s) /\ s <> "ALL_PENDING" /\ known s.
Proof.
  unfold _refusal_subject_verifiable, narrowed, known, ALL_PENDING.
  destruct (refusal_subject c) as [[s|k]|].
  - rewrite andb_true_iff, orb_true_iff, negb_true_iff, bool_decide_eq_false. split.
    + intros [Hn H]. exists s. split; [done|]. split; [congruence|done].
    + intros (s' & [= <-] & Hn & H). split; [congruence|done].
  - split; [done|by intros (? & ? & _)].
  - split; [done|by intros (? & ? & _)].
Qed.

Lemma barrier_spec c : _is_barrier c ch = Ok false <-> no_barrier c.
Proof.
  unfold _is_barrier, _posture_check, no_barrier. rewrite <- (mem_str_spec (cd_op c) POSTURE_OPS).
  rewrite <- (mem_str_spec (cd_op c) SAFETY_OPS), <- (verifiable_spec c).
  set (d := match posture_affecting c with Some true => true | _ => false end).
  assert (Hd : d = false <-> posture_affecting c <> Some true).
  { subst d. destruct (posture_affecting c) as [[]|]; split; try done. }
  rewrite <- Hd. destruct (mem_str (cd_op c) POSTURE_OPS), d, (mem_str (cd_op c) SAFETY_OPS),
    (_refusal_subject_verifiable c ch); cbn; split; try done; try (intros (? & ? & H); try done; by specialize (H eq_refl));
    intros _; split_and!; done.
Qed.

Lemma inputs_spec c refs : _verified_input_refs c ch = Some refs <-> declared_inputs c refs.
Proof.
  unfold _verified_input_refs, declared_inputs.
  assert (Hf : forall l, forallb (fun r => has_hash ch r || has_effect ch r) l = true <-> Forall known l).
  { intros l. unfold known. rewrite forallb_forall, Forall_forall. setoid_rewrite <- list_elem_of_In.
    setoid_rewrite orb_true_iff. done. }
  destruct (input_refs c) as [[|r l]|].
  { split; [done|]. by intros ([= <-] & ? & _). }
  2:{ split; [done|by intros (? & _)]. }
  specialize (Hf (r :: l)). destruct (forallb _ (r :: l)); split.
  - intros [= <-]. split; [done|]. split; [done|by apply Hf].
  - by intros ([= <-] & _ & _).
  - done.
  - intros ([= <-] & _ & H). by apply Hf in H.
Qed.
Lemma warrant_spec c : (exists refs, _verified_warrant c ch = Some refs) <-> declared_warrant c.
Proof.
  unfold _verified_warrant, declared_warrant. destruct (warrant_basis_refs c) as [l|].
  2:{ split; [by intros [? ?]|by intros (? & ? & _)]. }
  assert (Hf : forallb (grants ch) l = true <-> Forall (fun h => grants ch h = true) l).
  { rewrite forallb_forall, Forall_forall. by setoid_rewrite <- list_elem_of_In. }
  destruct (forallb (grants ch) l) eqn:Hb; split.
  - intros _. exists l. split; [done|by apply Hf].
  - intros _. by exists l.
  - by intros [? ?].
  - intros (refs & [= <-] & H). by apply Hf in H.
Qed.

Lemma key_eqb_spec a b : key_eqb a b = true <-> a = b.
Proof. unfold key_eqb. rewrite andb_true_iff, !str_eqb_spec. destruct a, b; cbn. naive_solver. Qed.
Lemma meets_spec a b : meets a b = false <-> forall x, x ∈ a -> x ∉ b.
Proof.
  unfold meets. rewrite <- not_true_iff_false, existsb_exists. setoid_rewrite mem_str_spec.
  setoid_rewrite <- list_elem_of_In. naive_solver.
Qed.
Lemma keys_meet_spec a b : keys_meet a b = false <-> forall x, x ∈ a -> x ∉ b.
Proof.
  unfold keys_meet. rewrite <- not_true_iff_false, existsb_exists. setoid_rewrite existsb_exists.
  setoid_rewrite key_eqb_spec. setoid_rewrite <- list_elem_of_In. naive_solver.
Qed.

Lemma subject_spec a b : no_barrier a -> is_subject_of a b = false <-> ~ refuses a b.
Proof.
  intros (_ & _ & Hs). unfold is_subject_of, refuses. rewrite <- (mem_str_spec (cd_op a) SAFETY_OPS) in *.
  destruct (mem_str (cd_op a) SAFETY_OPS) eqn:Ho; cbn [andb]; [|naive_solver].
  destruct (Hs eq_refl) as (s & Hr & Hne & _). unfold narrowed, ALL_PENDING. rewrite Hr.
  rewrite bool_decide_eq_false_2 by congruence. cbn [negb andb].
  rewrite <- not_true_iff_false, mem_str_spec. naive_solver.
Qed.
Lemma boundary_spec a b : at_boundary a b = false <-> ~ bounds_session a b.
Proof.
  unfold at_boundary, bounds_session. destruct (session_marker a) as [m|]; [|naive_solver].
  rewrite <- not_true_iff_false, andb_true_iff, orb_true_iff, !str_eqb_spec.
  assert (session_eqb (cd_session b) (cd_session a) = true <-> cd_session a = cd_session b) as ->.
  { destruct (cd_session a), (cd_session b); cbn; rewrite ?str_eqb_spec; naive_solver. }
  naive_solver.
Qed.

Lemma independent_spec x y : independent x y ch = Ok INDEPENDENT <-> cleared x y.
Proof.
  unfold independent. split.
  - destruct (aggregate_of x) eqn:A1, (aggregate_of y) eqn:A2; cbn [orb]; try done.
    intros (bx & Hx & H)%rbind_ok. destruct bx; [by apply rbind_ok in H as (? & [= <-] & H)|].
    apply rbind_ok in H as (by' & Hy & H). destruct by'; [done|].
    apply barrier_spec in Hx, Hy.
    destruct (is_subject_of x y) eqn:S1, (is_subject_of y x) eqn:S2; cbn [orb] in H; try done.
    destruct (keys_meet (binding_key x) (binding_key y)) eqn:K; [done|]. pose proof (proj1 (keys_meet_spec _ _) K) as K'.
    destruct (binding_key x) as [|k1 ks1] eqn:B1; [done|]. destruct (binding_key y) as [|k2 ks2] eqn:B2; [done|].
    destruct (_verified_input_refs x ch) as [xin|] eqn:I1; [|done].
    destruct (_verified_input_refs y ch) as [yin|] eqn:I2; [|done].
    destruct (meets (produces_effects y) xin) eqn:M1, (meets (produces_effects x) yin) eqn:M2; cbn [orb] in H; try done.
    destruct (_verified_warrant x ch) as [xw|] eqn:W1; [|done].
    destruct (_verified_warrant y ch) as [yw|] eqn:W2; [|done].
    destruct (at_boundary x y) eqn:T1, (at_boundary y x) eqn:T2; cbn [orb] in H; try done.
    apply inputs_spec in I1, I2. rewrite meets_spec in M1, M2. rewrite boundary_spec in T1, T2.
    rewrite (subject_spec _ _ Hx) in S1. rewrite (subject_spec _ _ Hy) in S2. constructor; try done.
    + rewrite B1, B2. by split_and!.
    + by exists xin, yin.
    + split; apply warrant_spec; eauto.
  - intros [[-> ->] [Hx Hy] [S1 S2] (B1 & B2 & K) (xin & yin & I1 & I2 & M1 & M2) [W1 W2] [T1 T2]].
    rewrite (proj2 (barrier_spec x) Hx). cbn [orb rbind]. rewrite (proj2 (barrier_spec y) Hy). cbn [rbind].
    rewrite (proj2 (subject_spec x y Hx) S1), (proj2 (subject_spec y x Hy) S2). cbn [orb].
    rewrite (proj2 (keys_meet_spec _ _) K).
    destruct (binding_key x) as [|k1 ks1]; [done|]. destruct (binding_key y) as [|k2 ks2]; [done|].
    rewrite (proj2 (inputs_spec x xin) I1), (proj2 (inputs_spec y yin) I2).
    rewrite (proj2 (meets_spec _ _) M1), (proj2 (meets_spec _ _) M2). cbn [orb].
    apply warrant_spec in W1 as [xw ->], W2 as [yw ->].
    by rewrite (proj2 (boundary_spec x y) T1), (proj2 (boundary_spec y x) T2).
Qed.

Lemma chain_receipt_hash h r : chain_receipt ch h = Some r -> has_hash ch h = true.
Proof.
  unfold chain_receipt, has_hash. intros [Hin Hh]%find_some. apply existsb_exists. exists r.
  split; [by apply in_rev|done].
Qed.
Lemma warrant_known c refs h : declared_warrant c -> warrant_basis_refs c = Some refs -> h ∈ refs -> has_hash ch h = true.
Proof.
  intros (refs' & H1 & H2) H3 Hh. rewrite H1 in H3. apply Some_inj' in H3 as ->.
  rewrite Forall_forall in H2. specialize (H2 h Hh). unfold grants in H2.
  destruct (chain_receipt ch h) as [r|] eqn:Hr; [|done]. by apply chain_receipt_hash in Hr.
Qed.

(** C24: when the oracle answers independent.  It does so exactly when neither candidate is
    an aggregate or a global barrier, neither is the subject the other refuses, their declared
    bindings are not empty and disjoint, their inputs are declared, some, known to the
    chain and none of the other's products, each gives a list of warrants that are all
    grants on the chain, and neither opens or closes the session of the other; and the
    answer does not depend on the order of the two.  The list of warrants may be empty, and
    a warrant may name a product of the other, but only one that is also the hash of a
    receipt of the chain. *)
Theorem independence_exact x y :
  (independent x y ch = Ok INDEPENDENT <-> cleared x y) /\
  (independent x y ch = Ok INDEPENDENT <-> independent y x ch = Ok INDEPENDENT) /\
  (independent x y ch = Ok INDEPENDENT -> forall refs e, warrant_basis_refs x = Some refs -> e ∈ refs ->
     e ∈ produces_effects y -> has_hash ch e = true).
Proof.
  split; [apply independent_spec|]. rewrite !independent_spec. split.
  - split; intros [[? ?] [? ?] [? ?] (? & ? & K) (a & b & ? & ? & ? & ?) [? ?] [? ?]];
      (constructor; [done|done|done| |by exists b, a|done|done]); (split_and!; [done|done|]); intros k Hk Hk'; by apply (K k).
  - intros [_ _ _ _ _ [Hw _] _] refs e Hr He _. by apply (warrant_known x refs).
Qed.
End clearance.

(** * What a schedule commits *)

Section commits.
Context {W V : Type}.
Variable admit_fn : Candidate -> Chain -> M W bool.
Variable effect_fn : Candidate -> Chain -> M W V.

(** Every receipt stands at its position, on the hash of the one before it. *)
Definition linked (ch : Chain) : Prop := forall p r q, ch = p ++ r :: q ->
  lr_prior r = tip p /\ lr_pos r = Z.of_nat (length p).
Definition i5_linked (log : list I5Receipt) : Prop := forall p r q, log = p ++ r :: q ->
  i5_prior r = i5_tip p /\ i5_seq r = Z.of_nat (length p).

(** A list with one more element, cut at an element: before it or at it. *)
Lemma snoc_cut {A} (l p q : list A) x r : l ++ [x] = p ++ r :: q ->
  (exists q', l = p ++ r :: q') \/ l = p /\ x = r /\ q = [].
Proof.
  destruct q as [|y q _] using rev_ind.
  - intros H. apply app_inj_tail in H as [-> ->]. by right.
  - intros H. left. change (l ++ [x] = p ++ [r] ++ q ++ [y]) in H. rewrite !app_assoc in H.
    apply app_inj_tail in H as [-> _]. exists q. by rewrite <- app_assoc.
Qed.
Lemma linked_mint ch c actual : linked ch -> linked (ch ++ [mint ch c actual]).
Proof.
  intros H p r q Hq. apply snoc_cut in Hq as [[q' Hl]|(-> & <- & _)]; [by apply (H p r q')|done].
Qed.

(** A receipt is minted for a candidate: its operation, agent, session, binding and effects. *)
Definition made (c : Candidate) (e : LaneReceipt * bool) : Prop :=
  lr_op (fst e) = cd_op c /\ lr_agent (fst e) = cd_agent c /\ lr_session (fst e) = cd_session c /\
  lr_keys (fst e) = binding_key c /\ lr_effects (fst e) = produces_effects c.

(** ** The lane as a relation *)

(** The receipt of a candidate committed at the end of a chain. *)
Definition receipt_at (ch : Chain) (p : placed) : LaneReceipt := mint ch (pl_cand p) (Some (binding_key (pl_cand p))).

(** What becomes of one candidate: not admitted, by an answer or by an exception, and nothing
    is committed; admitted and committed, the effect failing after its receipt; or done. *)
Inductive fate (p : placed) (ch : Chain) (w : W) : list (LaneReceipt * bool) -> result exn unit -> W -> Prop :=
| Refused w' : admit_fn (pl_cand p) ch w = (Ok false, w') ->
    fate p ch w [] (Err (refusal "LANE-REFUSED-AT-COMMIT")) w'
| Unadmitted x w' : admit_fn (pl_cand p) ch w = (Err x, w') -> fate p ch w [] (Err x) w'
| Unfinished w1 x w' : admit_fn (pl_cand p) ch w = (Ok true, w1) ->
    effect_fn (pl_cand p) (ch ++ [receipt_at ch p]) w1 = (Err x, w') ->
    fate p ch w [(receipt_at ch p, false)] (Err x) w'
| Done w1 v w' : admit_fn (pl_cand p) ch w = (Ok true, w1) ->
    effect_fn (pl_cand p) (ch ++ [receipt_at ch p]) w1 = (Ok v, w') ->
    fate p ch w [(receipt_at ch p, true)] (Ok tt) w'.

(** The lines of the log of the scheduler. *)
Definition line : Type := string * list (string * detail).
Definition said (r : I5Receipt) : line := (i5_op r, i5_detail r).
Definition assigned (members : list placed) (p : placed) : line :=
  ("priority_class_assigned",
   [("cand", DText (pl_id p)); ("prio", DInt (prio (pl_cand p))); ("in_independent_set", DBool (in_set p members));
    ("note", DText (if in_set p members then "ordered within independent set" else "serialized (dependent)"))]).
Definition refused_line (p : placed) (code : string) : line :=
  ("queue_overflow_refused", [("cand", DText (pl_id p)); ("reason", DText ("lane-refused:" +:+ code))]).
Definition over_line (id : string) : line :=
  ("queue_overflow_refused", [("cand", DText id); ("reason", DText "capacity-exceeded")]).
Definition pressure_lines (capacity : nat) (batch : list (string * Candidate)) : list line :=
  if (capacity <? length batch)%nat
  then [("backpressure_engaged", [("pending", DInt (Z.of_nat (length batch))); ("capacity", DInt (Z.of_nat capacity))])]
       ++ map over_line (map fst (drop capacity batch))
       ++ [("backpressure_released", [("admitted", DInt (Z.of_nat (length (take capacity batch))))])]
  else [].
Definition set_line (members : list placed) : line :=
  ("independence_set_computed", [("members", DTexts (map pl_id members));
    ("basis", DText "positive input_refs + grant warrant + disjoint binding + cross-agent")]).

(** The candidates in their order, each offered on the chain the ones before it left: done and
    returned; refused and logged, with what it had committed; or broken off by an exception
    that is no refusal, which ends the run. *)
Inductive lane_run (members : list placed) : list placed -> Chain -> W ->
    list (LaneReceipt * bool) -> list line -> result exn (list (string * string)) -> W -> Prop :=
| run_nil ch w : lane_run members [] ch w [] [] (Ok []) w
| run_done p rest ch w r w1 log lines res w2 : fate p ch w [(r, true)] (Ok tt) w1 ->
    lane_run members rest (ch ++ [r]) w1 log lines res w2 ->
    lane_run members (p :: rest) ch w ((r, true) :: log) (assigned members p :: lines)
      (let* done := res in Ok ((pl_id p, lr_hash r) :: done)) w2
| run_refused p rest ch w e x w1 log lines res w2 : fate p ch w e (Err x) w1 -> exn_cls x = OracleRefusalC ->
    lane_run members rest (ch ++ map fst e) w1 log lines res w2 ->
    lane_run members (p :: rest) ch w (e ++ log) (assigned members p :: refused_line p (exn_msg x) :: lines) res w2
| run_broken p rest ch w e x w1 : fate p ch w e (Err x) w1 -> exn_cls x <> OracleRefusalC ->
    lane_run members (p :: rest) ch w e [assigned members p] (Err x) w1.

(** ** From one state to the next *)

Record gained (s s' : @scale W) (log : list (LaneReceipt * bool)) (lines : list line) : Prop := {
  ga_chain : sc_chain s' = sc_chain s ++ map fst log;
  ga_effects : committed_then_effect s' = committed_then_effect s ++ log;
  ga_queue : durable_queue s' = durable_queue s;
  ga_lines : map said (i5 s') = map said (i5 s) ++ lines;
  ga_linked : i5_linked (i5 s) -> i5_linked (i5 s');
}.
Lemma gained_refl s w : gained s (set_world w s) [] [].
Proof. split; cbn; rewrite ?app_nil_r; done. Qed.
Lemma gained_trans s1 s2 s3 l1 l2 m1 m2 : gained s1 s2 l1 m1 -> gained s2 s3 l2 m2 ->
  gained s1 s3 (l1 ++ l2) (m1 ++ m2).
Proof.
  intros [C1 E1 Q1 L1 K1] [C2 E2 Q2 L2 K2]. split; [| |congruence| |auto].
  - by rewrite C2, C1, map_app, app_assoc.
  - by rewrite E2, E1, app_assoc.
  - by rewrite L2, L1, app_assoc.
Qed.

Lemma emit_gained op d s : mem_str op SCALE_OPS = true ->
  exists s', emit op d s = (Ok tt, s') /\ world s' = world s /\ gained s s' [] [(op, d)].
Proof.
  intros H. unfold emit. rewrite H. eexists. split; [reflexivity|]. split; [done|].
  split; cbn; rewrite ?app_nil_r; [done|done|done|by rewrite map_app|].
  intros Hl p r q Hq. apply snoc_cut in Hq as [[q' Hq]|(-> & <- & _)]; [by apply (Hl p r q')|done].
Qed.
Lemma overflow_gained ids : forall s, exists s', overflow ids s = (Ok tt, s') /\ world s' = world s /\
  gained s s' [] (map over_line ids).
Proof.
  induction ids as [|id ids IH]; intros s; cbn [overflow map].
  { exists s. split; [done|]. split; [done|]. split; by rewrite ?app_nil_r. }
  destruct (emit_gained "queue_overflow_refused" [("cand", DText id); ("reason", DText "capacity-exceeded")] s eq_refl)
    as (s1 & H1 & W1 & G1). destruct (IH s1) as (s2 & H2 & W2 & G2). exists s2.
  split; [unfold sbind; by rewrite H1|]. split; [congruence|]. exact (gained_trans _ _ _ [] [] _ _ G1 G2).
Qed.

Lemma same_binding_refl k : same_binding_keys k k = true.
Proof.
  unfold same_binding_keys. rewrite andb_diag. apply forallb_forall. intros x Hx. apply existsb_exists.
  exists x. split; [done|by apply key_eqb_spec].
Qed.
Lemma commit_fate p s res s' :
  commit_and_effect admit_fn effect_fn (pl_cand p) (Some (binding_key (pl_cand p))) s = (res, s') ->
  exists log, gained s s' log [] /\
    match res with
    | Ok (r, _) => log = [(r, true)] /\ fate p (sc_chain s) (world s) log (Ok tt) (world s')
    | Err x => fate p (sc_chain s) (world s) log (Err x) (world s')
    end.
Proof.
  unfold commit_and_effect, sbind, on_world, smod, sget. rewrite same_binding_refl.
  destruct (admit_fn (pl_cand p) (sc_chain s) (world s)) as [[[]|x] w1] eqn:Ha; cbn [negb].
  - cbn [sc_chain set_world append_receipt world]. fold (receipt_at (sc_chain s) p).
    destruct (effect_fn (pl_cand p) (sc_chain s ++ [receipt_at (sc_chain s) p]) w1) as [[v|x] w2] eqn:He;
      intros [<- <-]%pair_ok.
    + exists [(receipt_at (sc_chain s) p, true)].
      split; [|by split; [|apply (Done p _ _ w1 v)]].
      split; cbn; rewrite ?app_nil_r, ?removelast_last; done.
    + exists [(receipt_at (sc_chain s) p, false)]. split; [|by apply (Unfinished p _ _ w1)].
      split; cbn; rewrite ?app_nil_r; done.
  - intros [<- <-]%pair_ok. exists []. split; [apply gained_refl|by apply Refused].
  - intros [<- <-]%pair_ok. exists []. split; [apply gained_refl|by apply Unadmitted].
Qed.

Lemma commit_one_run p s res s' : commit_one admit_fn effect_fn p s = (res, s') ->
  exists log, match res with
  | Ok done => (exists r, done = [(pl_id p, lr_hash r)] /\ log = [(r, true)] /\ gained s s' log [] /\
                  fate p (sc_chain s) (world s) log (Ok tt) (world s'))
      \/ (exists x, done = [] /\ exn_cls x = OracleRefusalC /\ gained s s' log [refused_line p (exn_msg x)] /\
            fate p (sc_chain s) (world s) log (Err x) (world s'))
  | Err x => exn_cls x <> OracleRefusalC /\ gained s s' log [] /\ fate p (sc_chain s) (world s) log (Err x) (world s')
  end.
Proof.
  unfold commit_one. destruct (commit_and_effect _ _ _ _ s) as [r s1] eqn:Hc.
  apply commit_fate in Hc as (log & Hg & Hf). intros H. exists log. revert H. destruct r as [[r v]|x].
  - intros [<- <-]%pair_ok. destruct Hf as [-> Hf]. left. by exists r.
  - destruct (bool_decide (exn_cls x = OracleRefusalC)) eqn:Hx.
    + apply bool_decide_eq_true in Hx.
      destruct (emit_gained "queue_overflow_refused"
        [("cand", DText (pl_id p)); ("reason", DText ("lane-refused:" +:+ exn_msg x))] s1 eq_refl) as (s2 & H2 & W2 & G2).
      unfold sbind. rewrite H2. intros [<- <-]%pair_ok. right. exists x. rewrite W2.
      split_and!; try done. pose proof (gained_trans _ _ _ _ _ _ _ Hg G2) as G. by rewrite app_nil_r in G.
    + apply bool_decide_eq_false in Hx. by intros [<- <-]%pair_ok.
Qed.

Lemma commit_all_run members order : forall s res s', commit_all admit_fn effect_fn members order s = (res, s') ->
  exists log lines, lane_run members order (sc_chain s) (world s) log lines res (world s') /\ gained s s' log lines.
Proof.
  induction order as [|p order IH]; intros s res s'; cbn [commit_all].
  { intros [<- <-]%pair_ok. exists [], []. split; [constructor|]. split; by rewrite ?app_nil_r. }
  destruct (emit_gained "priority_class_assigned" (snd (assigned members p)) s eq_refl) as (s1 & H1 & W1 & G1).
  pose proof (ga_chain _ _ _ _ G1) as C1. cbn [map] in C1. rewrite app_nil_r in C1.
  unfold sbind. cbn [assigned snd] in H1. rewrite H1.
  destruct (commit_one admit_fn effect_fn p s1) as [r1 s2] eqn:H2.
  apply commit_one_run in H2 as (e & H2). rewrite C1, W1 in H2. destruct r1 as [d1|x].
  2:{ intros [<- <-]%pair_ok. destruct H2 as (Hx & G2 & Hf). exists e, [assigned members p].
      split; [by apply run_broken|exact (gained_trans _ _ _ [] e _ [] G1 G2)]. }
  destruct (commit_all admit_fn effect_fn members order s2) as [r3 s3] eqn:H3.
  apply IH in H3 as (log & lines & Hr & G3).
  assert (C2 : forall m, gained s1 s2 e m -> sc_chain s2 = sc_chain s ++ map fst e).
  { intros m G. by rewrite (ga_chain _ _ _ _ G), C1. }
  intros H. assert (s' = s3 /\ res = (let* more := r3 in Ok (d1 ++ more))) as [-> ->].
  { destruct r3; apply pair_ok in H as [<- <-]; done. }
  destruct H2 as [(r & -> & -> & G2 & Hf)|(x & -> & Hx & G2 & Hf)]; rewrite (C2 _ G2) in Hr.
  - exists ((r, true) :: log), (assigned members p :: lines). split; [by eapply run_done|].
    exact (gained_trans _ _ _ [] _ [_] _ G1 (gained_trans _ _ _ [(r, true)] log [] lines G2 G3)).
  - exists (e ++ log), (assigned members p :: refused_line p (exn_msg x) :: lines). split.
    + replace (let* more := r3 in Ok ([] ++ more)) with r3 by (by destruct r3). by eapply run_refused.
    + exact (gained_trans _ _ _ [] _ [_] _ G1 (gained_trans _ _ _ e log [_] lines G2 G3)).
Qed.

(** ** What every run of the lane has *)

Lemma fate_log p ch w e r w' : fate p ch w e r w' -> e = [] \/ exists b, e = [(receipt_at ch p, b)].
Proof. intros []; eauto. Qed.
Lemma fate_made p ch w e r w' : fate p ch w e r w' -> exists picked, sublist picked [pl_cand p] /\ Forall2 made picked e.
Proof.
  intros [->|[b ->]]%fate_log; [exists []|exists [pl_cand p]]; split; try done; [apply sublist_nil_l|].
  constructor; [done|constructor].
Qed.
Lemma lane_picked members order ch w log lines res w' : lane_run members order ch w log lines res w' ->
  exists picked, sublist picked (map pl_cand order) /\ Forall2 made picked log.
Proof.
  induction 1 as [|p rest ch w r w1 log lines res w2 Hf _ (l & Hs & Hm)
    |p rest ch w e x w1 log lines res w2 Hf _ _ (l & Hs & Hm)|p rest ch w e x w1 Hf _]; [by exists []|..];
    apply fate_made in Hf as (l1 & Hs1 & Hm1).
  - exists (l1 ++ l). split; [exact (sublist_app _ _ _ _ Hs1 Hs)|exact (Forall2_app Hm1 Hm)].
  - exists (l1 ++ l). split; [exact (sublist_app _ _ _ _ Hs1 Hs)|exact (Forall2_app Hm1 Hm)].
  - exists l1. split; [|done]. cbn [map]. change (pl_cand p :: map pl_cand rest) with ([pl_cand p] ++ map pl_cand rest).
    rewrite <- (app_nil_r l1). apply sublist_app; [done|apply sublist_nil_l].
Qed.
Lemma lane_linked members order ch w log lines res w' : lane_run members order ch w log lines res w' ->
  linked ch -> linked (ch ++ map fst log).
Proof.
  assert (Hone : forall p ch w e r w', fate p ch w e r w' -> linked ch -> linked (ch ++ map fst e)).
  { intros p ch0 w0 e r w0' [->|[b ->]]%fate_log Hl; [by rewrite app_nil_r|by apply linked_mint]. }
  induction 1 as [|p rest ch w r w1 log lines res w2 Hf _ IH|p rest ch w e x w1 log lines res w2 Hf _ _ IH
    |p rest ch w e x w1 Hf _]; intros Hl; [by rewrite app_nil_r|..].
  - cbn [map fst]. change (r :: map fst log) with ([r] ++ map fst log). rewrite app_assoc.
    apply IH. exact (Hone _ _ _ _ _ _ Hf Hl).
  - rewrite map_app, app_assoc. apply IH. by apply (Hone _ _ _ _ _ _ Hf).
  - by apply (Hone _ _ _ _ _ _ Hf).
Qed.
Lemma lane_done members order ch w log lines res w' : lane_run members order ch w log lines res w' ->
  forall done, res = Ok done -> map snd done = map (fun e => lr_hash (fst e)) (List.filter snd log).
Proof.
  induction 1 as [|p rest ch w r w1 log lines res w2 Hf _ IH|p rest ch w e x w1 log lines res w2 Hf _ _ IH
    |p rest ch w e x w1 Hf _]; intros ds Hd; [by apply Ok_inj in Hd as <-|..|discriminate Hd].
  - apply rbind_ok in Hd as (d & -> & Hd). apply Ok_inj in Hd as <-. cbn. f_equal. by apply IH.
  - rewrite List.filter_app, map_app, <- (IH _ Hd). inversion Hf; subst; done.
Qed.
Lemma lane_assigned members order ch w log lines res w' : lane_run members order ch w log lines res w' ->
  is_ok res = true -> forall p, p ∈ order -> assigned members p ∈ lines.
Proof.
  induction 1 as [|q rest ch w r w1 log lines res w2 Hf _ IH|q rest ch w e x w1 log lines res w2 Hf _ _ IH
    |q rest ch w e x w1 Hf _]; intros Hok p; [by intros ?%elem_of_nil|..|done]; rewrite !elem_of_cons.
  - destruct res; [|done]. intros [->|Hp]; [by left|right; by apply IH].
  - intros [->|Hp]; [by left|right; right; by apply IH].
Qed.

(** ** The log answers for every candidate *)

Definition answered (id : string) (log : list I5Receipt) : Prop := why id log <> [].
Lemma answered_said id l log : l ∈ map said log -> dict_get "cand" (snd l) = Some (DText id) -> answered id log.
Proof.
  intros Hl Hc Hw. apply list_elem_of_In, in_map_iff in Hl as (r & <- & Hr). cbn [said snd] in Hc.
  unfold why in Hw. apply map_eq_nil in Hw.
  assert (Hin : In r (List.filter (about id) log)).
  { apply filter_In. split; [done|]. unfold about. by rewrite Hc, str_eqb_refl. }
  by rewrite Hw in Hin.
Qed.

Lemma place_length i batch : length (place i batch) = length batch.
Proof. revert i. induction batch as [|[id c] batch IH]; intros i; cbn; [done|]. by rewrite IH. Qed.
Lemma place_ids i batch : map pl_id (place i batch) = map fst batch.
Proof. revert i. induction batch as [|[id c] batch IH]; intros i; cbn; [done|]. by rewrite IH. Qed.

(** What [schedule] does: its log, then the lane. *)
Lemma schedule_run capacity batch s res s' : schedule admit_fn effect_fn capacity batch s = (res, s') ->
  let kept := place 0 (take capacity batch) in
  let members := independence_members (sc_chain s) [] kept in
  exists log lines,
    lane_run members (_safe_priority_order (sc_chain s) kept) (sc_chain s) (world s) log lines res (world s') /\
    gained s s' log (pressure_lines capacity batch ++ set_line members :: lines).
Proof.
  intros H kept members. unfold schedule in H. unfold pressure_lines.
  assert (Hkept : place 0 (if (capacity <? length batch)%nat then take capacity batch else batch) = kept).
  { subst kept. destruct (Nat.ltb_spec capacity (length batch)); [done|]. by rewrite take_ge. }
  rewrite Hkept in H. clearbody kept. clear Hkept. set (full := (capacity <? length batch)%nat) in *. unfold sbind at 1 in H.
  match type of H with context [(if full then ?a else ?b) s] => set (m := if full then a else b) in H end.
  set (pl := if full then _ else []).
  assert (H0 : exists s0, m s = (Ok tt, s0) /\ world s0 = world s /\ gained s s0 [] pl).
  { subst m pl. destruct full; [|exists s; split; [done|]; split; [done|]; split; by rewrite ?app_nil_r].
    destruct (emit_gained "backpressure_engaged" [("pending", DInt (Z.of_nat (length batch)));
      ("capacity", DInt (Z.of_nat capacity))] s eq_refl) as (s1 & E1 & W1 & G1).
    destruct (overflow_gained (map fst (drop capacity batch)) s1) as (s2 & E2 & W2 & G2).
    destruct (emit_gained "backpressure_released" [("admitted", DInt (Z.of_nat (length (take capacity batch))))] s2 eq_refl)
      as (s3 & E3 & W3 & G3).
    exists s3. split; [unfold sbind; by rewrite E1, E2|]. split; [congruence|].
    exact (gained_trans _ _ _ [] [] [_] _ G1 (gained_trans _ _ _ [] [] _ _ G2 G3)). }
  destruct H0 as (s0 & E0 & W0 & G0). rewrite E0 in H. clearbody m pl.
  pose proof (ga_chain _ _ _ _ G0) as C0. cbn [map] in C0. rewrite app_nil_r in C0.
  unfold sbind, sget in H. rewrite C0 in H. fold members in H.
  destruct (emit_gained "independence_set_computed" (snd (set_line members)) s0 eq_refl) as (s1 & E1 & W1 & G1).
  cbn [set_line snd] in E1. rewrite E1 in H. apply commit_all_run in H as (log & lines & Hr & G).
  pose proof (ga_chain _ _ _ _ G1) as C1. cbn [map] in C1. rewrite app_nil_r in C1. rewrite C1, C0, W1, W0 in Hr.
  exists log, lines. split; [exact Hr|].
  exact (gained_trans _ _ _ [] _ _ _ G0 (gained_trans _ _ _ [] log [_] lines G1 G)).
Qed.

(** C25: what a schedule does, whatever its end.  The candidates it takes, as many as its
    capacity, are offered to the lane in the order of priority, each on the chain the ones before
    it left, and each has one fate ([lane_run]): the admission answers no or raises, and nothing
    is committed; it answers yes, and its receipt is on the chain before its effect runs.
    A refusal is logged and the next one is offered; any other exception ends the schedule and
    is raised.  The receipts are appended in place and linked, at most as many as the
    capacity, with the effects that were done marked; the durable queue is untouched; and
    the log of the scheduler, linked in the same way, gains exactly the lines of the overflow,
    of the independent set and of the fates.  A schedule that returns has committed receipts of
    some of its candidates, none twice, returns the hashes of those whose effect was done, and
    has an answer in its log for every candidate of the batch. *)
Theorem schedule_exact capacity batch s res s' :
  schedule admit_fn effect_fn capacity batch s = (res, s') ->
  linked (sc_chain s) -> i5_linked (i5 s) ->
  let kept := place 0 (take capacity batch) in
  let members := independence_members (sc_chain s) [] kept in
  let order := _safe_priority_order (sc_chain s) kept in
  exists log lines,
    lane_run members order (sc_chain s) (world s) log lines res (world s') /\
    sc_chain s' = sc_chain s ++ map fst log /\ linked (sc_chain s') /\
    committed_then_effect s' = committed_then_effect s ++ log /\ (length log <= capacity)%nat /\
    durable_queue s' = durable_queue s /\ i5_linked (i5 s') /\
    map said (i5 s') = map said (i5 s) ++ pressure_lines capacity batch ++ set_line members :: lines /\
    forall done, res = Ok done ->
      map snd done = map (fun e => lr_hash (fst e)) (List.filter snd log) /\
      (exists picked, Forall2 made picked log /\ sublist picked (map pl_cand order)) /\
      forall id, id ∈ map fst batch -> answered id (i5 s').
Proof.
  intros H Hl Hi kept members order. destruct (schedule_run _ _ _ _ _ H) as (log & lines & Hr & [C E Q L K]).
  fold kept members order in Hr, L. pose proof (safe_order_perm (sc_chain s) kept) as Hperm. fold order in Hperm.
  destruct (lane_picked _ _ _ _ _ _ _ _ Hr) as (picked & Hp & Hm).
  exists log, lines. split_and!; auto.
  - rewrite C. by apply (lane_linked _ _ _ _ _ _ _ _ Hr).
  - rewrite <- (Forall2_length _ _ _ Hm). etrans; [by apply sublist_length|].
    rewrite length_map, (Permutation_length Hperm). unfold kept. rewrite place_length, length_take. lia.
  - intros ds Hd. split; [by apply (lane_done _ _ _ _ _ _ _ _ Hr)|]. split; [by exists picked|].
    intros id Hid. rewrite <- (take_drop capacity batch), map_app, elem_of_app in Hid. destruct Hid as [Hid|Hid].
    + rewrite <- (place_ids 0) in Hid. apply list_elem_of_In, in_map_iff in Hid as (p & <- & Hin%list_elem_of_In).
      apply (answered_said _ (assigned members p)); [|done]. rewrite L, !elem_of_app, elem_of_cons. right. right. right.
      apply (lane_assigned _ _ _ _ _ _ _ _ Hr); [by rewrite Hd|]. by rewrite Hperm.
    + apply (answered_said _ (over_line id)); [|done]. rewrite L, !elem_of_app. right. left. unfold pressure_lines.
      destruct (Nat.ltb_spec capacity (length batch)) as [_|Hge].
      * rewrite !elem_of_app. right. left. by apply list_elem_of_fmap_2.
      * rewrite drop_ge in Hid by done. by apply elem_of_nil in Hid.
Qed.
End commits.

(** A recovery offers the durable candidates again and commits none of them. *)
Lemma recovery_commits_nothing {W} (admit_fn : Candidate -> Chain -> M W bool) s promoted s' :
  recover_after_crash admit_fn s = (Ok promoted, s') ->
  sc_chain s' = sc_chain s /\ committed_then_effect s' = committed_then_effect s /\
  durable_queue s' = [] /\ sublist promoted (durable_queue s).
Proof.
  unfold recover_after_crash, sbind, sget, smod.
  assert (H : forall q t ps t', reoffer admit_fn q t = (Ok ps, t') ->
    sc_chain t' = sc_chain t /\ committed_then_effect t' = committed_then_effect t /\ sublist ps q).
  { induction q as [|c q IH]; intros t ps t'; cbn [reoffer].
    - intros [<-%Ok_inj <-]%pair_ok. by split_and!.
    - unfold sbind, on_world. destruct (admit_fn c (sc_chain t) (world t)) as [[ok|x] w]; [|done].
      destruct (reoffer admit_fn q _) as [[rest|x] t1] eqn:Hq; [|done]. apply IH in Hq as (H1 & H2 & H3).
      intros [<-%Ok_inj <-]%pair_ok. split; [done|]. split; [done|].
      destruct ok; [by apply sublist_skip|by apply sublist_cons]. }
  destruct (reoffer admit_fn (durable_queue s) s) as [[ps|x] t] eqn:Hq; [|done].
  apply H in Hq as (H1 & H2 & H3). intros [<-%Ok_inj <-]%pair_ok. by split_and!.
Qed.

(** * Examples *)

Definition demo_candidate (op agent : string) (inputs : list string) (warrant : list string)
    (keys : list binding) (effects : list string) (grant : bool) : Candidate :=
  {| cd_op := op; cd_agent := agent; cd_session := None; input_refs := Some inputs;
     warrant_basis_refs := Some warrant; binding_key := keys; refusal_subject := None;
     posture_affecting := None; session_marker := None; member_range := None;
     produces_effects := effects; cd_grant := grant; is_aggregate := false |}.
Definition demo_grant : LaneReceipt :=
  Eval vm_compute in mint [] (demo_candidate "grant" "governor" [] [] [] ["e0"] true) None.
Definition demo_chain : Chain := [demo_grant].
(** A bulk write, a session that does not depend on it, and a session that touches what the write touches. *)
Definition demo_batch : list (string * Candidate) :=
  [("w", demo_candidate "bulk" "a" ["e0"] [lr_hash demo_grant] [("k1", "a")] ["e1"] false);
   ("s", demo_candidate "session_open" "b" ["e0"] [lr_hash demo_grant] [("k2", "b")] ["e2"] false);
   ("t", demo_candidate "session_open" "c" ["e0"] [lr_hash demo_grant] [("k1", "a")] ["e3"] false)].
Definition demo_lane : @scale unit :=
  {| sc_chain := demo_chain; durable_queue := []; committed_then_effect := []; i5 := []; world := tt |}.
Definition demo_admit (_ : Candidate) (_ : Chain) : M unit bool := sret true.
Definition demo_effect (c : Candidate) (_ : Chain) : M unit unit :=
  if str_eqb (cd_agent c) "c" then sraise (refusal "FROM-THE-EFFECT") else sret tt.

(** The independent session overtakes the write, the other stays behind it. *)
Example demo_order : map pl_id (_safe_priority_order demo_chain (place 0 demo_batch)) = ["s"; "w"; "t"].
Proof. vm_compute. reflexivity. Qed.

Definition demo_schedule : result exn (list (string * string)) * @scale unit :=
  Eval vm_compute in schedule demo_admit demo_effect 10 demo_batch demo_lane.
Lemma demo_schedule_run : schedule demo_admit demo_effect 10 demo_batch demo_lane = (fst demo_schedule, snd demo_schedule).
Proof. vm_compute. reflexivity. Qed.

Lemma schedule_exact_witness : exists log lines,
  lane_run demo_admit demo_effect (independence_members demo_chain [] (place 0 demo_batch))
    (_safe_priority_order demo_chain (place 0 demo_batch)) demo_chain tt log lines (fst demo_schedule) tt /\
  sc_chain (snd demo_schedule) = demo_chain ++ map fst log /\ (length log <= 10)%nat.
Proof.
  destruct (schedule_exact demo_admit demo_effect 10 demo_batch demo_lane (fst demo_schedule) (snd demo_schedule)
    demo_schedule_run) as (log & lines & H1 & H2 & _ & _ & H3 & _).
  - intros p r q Hq. destruct p as [|x p]; [injection Hq as <- _; split; vm_compute; reflexivity|].
    injection Hq as _ Hq. by destruct p.
  - intros p r q Hq. by destruct p.
  - exists log, lines. split; [exact H1|]. split; [exact H2|exact H3].
Defined.

(** An effect that itself raises a refusal of the oracle is reported as refused by the lane, although
    its receipt is on the chain and it ran. *)
Lemma refusing_effect_reported_refused :
  map fst (match fst demo_schedule with Ok done => done | Err _ => [] end) = ["s"; "w"] /\
  map lr_agent (sc_chain (snd demo_schedule)) = ["governor"; "b"; "a"; "c"] /\
  why "t" (i5 (snd demo_schedule)) =
    [("priority_class_assigned", [("cand", DText "t"); ("prio", DInt 1); ("in_independent_set", DBool false);
        ("note", DText "serialized (dependent)")]);
     ("queue_overflow_refused", [("cand", DText "t"); ("reason", DText "lane-refused:FROM-THE-EFFECT")])].
Proof. vm_compute. auto. Qed.

(** *** What counts as a warrant *)

Definition warranted (agent : string) (warrant effects : list string) (key : string) : Candidate :=
  demo_candidate "app_write" agent ["e0"] warrant [(key, agent)] effects false.

(** A list of warrants with nothing in it passes, where a list of inputs with nothing in it does not. *)
Theorem empty_warrant_accepted :
  independent (warranted "a" [] ["e1"] "k1") (warranted "b" [] ["e2"] "k2") demo_chain = Ok INDEPENDENT /\
  independent (demo_candidate "app_write" "a" [] [lr_hash demo_grant] [("k1", "a")] ["e1"] false)
    (warranted "b" [lr_hash demo_grant] ["e2"] "k2") demo_chain = Ok DEPENDENT.
Proof. vm_compute. auto. Qed.
(** A warrant that names what the other candidate produces does not make the two dependent. *)
Theorem warrant_may_name_products : let h := lr_hash demo_grant in
  h ∈ produces_effects (warranted "b" [h] [h] "k2") /\
  independent (warranted "a" [h] ["e1"] "k1") (warranted "b" [h] [h] "k2") demo_chain = Ok INDEPENDENT.
Proof. split; [by left|vm_compute; reflexivity]. Qed.
