(* ===== verification/Transport.v ===== *)
(** The transport layer: the broker that routes a governed request to the kernel
    ([ugk/transport/broker.py]), the agent's entry point ([ugk/transport/agent.py]) and the
    govern method of the RPC server with its replay protection ([ugk/transport/rpc.py]). *)
From S2P Require Import Prelude Json Sha256 Binding BindingM2 Frame Authority Receipt Trace Capability Sqlite Integrity Archives Store StoreFacts StoreTxn Will Warrant Effects EffectsIrr EffectsRev Csh Kernel KernelFacts ExecuteFacts Founding Session.

(** The text Python gives an exception, [str(e)], and the name of its class: an exception of
    the model keeps neither the operation it was raised for nor the class under its family. *)
Class ExnText := { exn_str : exn -> string; exn_type : exn -> string }.

Section transport.
Context {U : Unicode} {E : Ed25519} {G : Engine} {D : Deployment} {T : ExnText}.

(** * The broker *)

Record GovernedRequest := {
  gr_op : string;
  gr_authority : string;
  gr_parameters : pyval;
  gr_intent : option string;
  gr_jurisdiction : string;
  gr_gate : option callable;
  gr_effect : option callable;
  gr_atomicity : option EffectAtomicity;
  gr_idempotency_key : pyval;
}.

(** What a submission answers. *)
Record reply := {
  rp_admitted : bool;
  rp_receipt_hash : string;
  rp_reason : option string;
  rp_payload : pyval;
}.
Definition refused_reply (h reason : string) : reply :=
  {| rp_admitted := false; rp_receipt_hash := h; rp_reason := Some reason; rp_payload := PNone |}.

(** The call of [execute]: the arguments that are not given keep their defaults; [now] is the clock. *)
Definition exec_of (now : string) (q : GovernedRequest) : exec_args :=
  {| x_op := gr_op q; x_authority := PStr (gr_authority q); x_parameters := gr_parameters q;
     x_gate := gr_gate q; x_effect := gr_effect q; x_atomicity := gr_atomicity q;
     x_idempotency_key := gr_idempotency_key q; x_gate_margin := PNone; x_layer := "I";
     x_jurisdiction := gr_jurisdiction q; x_governor_sig := None; x_warrant_basis := NoBasis;
     x_intent_ref := ""; x_authority_set := PNone; x_capability_verdicts := [];
     x_required_locality := None; x_now := now |}.

(** The receipt of a request the broker refuses: written by the broker itself, with the store's defaults. *)
Definition broker_refusal (q : GovernedRequest) (parameters : cols) : write_args :=
  let ps := dict_set "refuse_reason" (PStr "missing_effect_atomicity_declaration")
              (dict_set "broker_refused" (PBool true) parameters) in
  {| w_op := gr_op q; w_authority := gr_authority q; w_parameters := PDict ps; w_failed := true;
     w_intent := None; w_jurisdiction := gr_jurisdiction q; w_confidence := "high";
     w_session_dkn := ""; w_law_hash := ""; w_legend_hash := ""; w_warrant_id := "";
     w_intent_ref := ""; compress := false; commit_terminal_outcome := false;
     terminal_outcome_override := None; commit_capability_evidence := false; capability_ledger := None;
     effect_columns := None; reconciliation_grade := PNone; reconciliation_warrant_snapshot := PNone;
     w_continuation := PNone; w_bridge := PNone; bridge_verifier := None |}.

Definition undeclared (q : GovernedRequest) : bool :=
  match gr_effect q, gr_atomicity q with Some _, None => true | _, _ => false end.
Definition protocol_class (e : exn) : bool :=
  match exn_cls e with
  | KernelInternalOpC | GovernanceNotFoundedC | UndeclaredOpC | ProtocolErrorC => true
  | _ => false
  end.
Definition kernel_tip (k : kernel) : string := stream_hash (view (k_store k)).

Definition submit (now : string) (q : GovernedRequest) : M kernel reply := fun k =>
  if undeclared q then
    match gr_parameters q with
    | PDict d =>
        (let! r := on_store (write (broker_refusal q d)) in
         sret (refused_reply (h_r r) "missing effect_atomicity declaration (effect present, no class)")) k
    | _ => (Err (Exn TypeError "argument is not a mapping"), k)
    end
  else match execute (exec_of now q) k with
  | (Ok v, k') => (Ok {| rp_admitted := true; rp_receipt_hash := kernel_tip k'; rp_reason := None; rp_payload := v |}, k')
  | (Err e, k') =>
      if bool_decide (exn_cls e = GateRefusalC) then (Ok (refused_reply (kernel_tip k') ("GateRefusal: " +:+ exn_msg e)), k')
      else if protocol_class e then (Ok (refused_reply "" (exn_str e)), k')
      else if is_exception e then (Ok (refused_reply (kernel_tip k') (exn_type e +:+ ": " +:+ exn_str e)), k')
      else (Err e, k')
  end.

(** * The agent *)

(** The dimension is appended to the authority. *)
Definition envelope (authority : string) (k : kernel) : string :=
  let d := k_dimension_id (k_frame k) in
  if str_eqb d "" then authority else authority +:+ "@" +:+ substring 0 16 d.

Record GoverndResult := {
  gd_admitted : bool;
  gd_op : string;
  gd_authority : string;
  gd_receipt_hash : string;
  gd_stream_hash : string;
  gd_dimension_id : string;
  gd_reason : string;
}.
Definition agent_request (intent subject authority op : string) (k : kernel) : GovernedRequest :=
  {| gr_op := op; gr_authority := envelope authority k;
     gr_parameters := PDict [("intent", PStr intent); ("subject", PStr subject)]; gr_intent := None;
     gr_jurisdiction := "session"; gr_gate := None; gr_effect := None; gr_atomicity := None;
     gr_idempotency_key := PNone |}.
Definition ugk_govern (now intent subject authority op : string) : M kernel GoverndResult := fun k =>
  (let! r := submit now (agent_request intent subject authority op k) in
   let! tip := sget kernel_tip in
   sret {| gd_admitted := rp_admitted r; gd_op := op; gd_authority := envelope authority k;
           gd_receipt_hash := rp_receipt_hash r; gd_stream_hash := tip;
           gd_dimension_id := k_dimension_id (k_frame k);
           gd_reason := match rp_reason r with Some s => s | None => "" end |}) k.

(** * The RPC server *)

Record rpc_server := {
  rpc_kernel : kernel;
  _authority : string;
  _seen_nonces : list string;
}.
(** The parameters of a govern request that are text, where given. *)
Record govern_params := {
  gp_intent : option string;
  gp_subject : option string;
  gp_authority : option string;
  gp_op : option string;
  gp_nonce : option string;
}.
Definition given (o : option string) (default : string) : string :=
  match o with Some s => s | None => default end.
Inductive govern_reply :=
| Replayed (nonce : string)
| Executed (op stream_hash dimension_id : string)
| Refused (reason : string)
| Rejected (kind detail : string).

Definition rpc_call (now : string) (p : govern_params) (s : rpc_server) : exec_args :=
  let k := rpc_kernel s in
  {| x_op := given (gp_op p) "crp_evidence";
     x_authority := PStr (envelope (given (gp_authority p) (_authority s)) k);
     x_parameters := PDict [("intent", PStr (given (gp_intent p) "observe"));
                            ("subject", PStr (given (gp_subject p) "")); ("nonce", PStr (given (gp_nonce p) ""))];
     x_gate := None; x_effect := None; x_atomicity := None; x_idempotency_key := PNone;
     x_gate_margin := PNone; x_layer := "I"; x_jurisdiction := "session"; x_governor_sig := None;
     x_warrant_basis := NoBasis; x_intent_ref := ""; x_authority_set := PNone;
     x_capability_verdicts := []; x_required_locality := None; x_now := now |}.
Definition with_rpc_kernel (k : kernel) (s : rpc_server) : rpc_server :=
  {| rpc_kernel := k; _authority := _authority s; _seen_nonces := _seen_nonces s |}.
Definition see_nonce (n : string) (s : rpc_server) : rpc_server :=
  {| rpc_kernel := rpc_kernel s; _authority := _authority s; _seen_nonces := n :: _seen_nonces s |}.

(** The nonce is recorded, under the lock, before anything is executed. *)
Definition _handle_govern (now : string) (p : govern_params) : M rpc_server govern_reply := fun s =>
  let nonce := given (gp_nonce p) "" in
  if mem_str nonce (_seen_nonces s) then (Ok (Replayed nonce), s)
  else
    let '(r, k) := execute (rpc_call now p s) (rpc_kernel s) in
    let s' := with_rpc_kernel k (see_nonce nonce s) in
    (match r with
     | Ok _ => Ok (Executed (given (gp_op p) "crp_evidence") (kernel_tip k) (k_dimension_id (k_frame (rpc_kernel s))))
     | Err e =>
         match exn_cls e with
         | GateRefusalC => Ok (Refused (exn_str e))
         | GovernanceNotFoundedC => Ok (Rejected "governance_not_founded" (exn_str e))
         | UndeclaredOpC => Ok (Rejected "undeclared_op" (exn_str e))
         | KernelInternalOpC => Ok (Rejected "kernel_internal_op" (exn_str e))
         | _ => Err e
         end
     end, s').

(** [handle_request] turns an exception of the method into an error answer; a server handles one request after another. *)
Definition answer (now : string) (p : govern_params) (s : rpc_server) : option govern_reply * rpc_server :=
  match _handle_govern now p s with
  | (Ok r, s') => (Some r, s')
  | (Err e, s') => (None, s')
  end.
Fixpoint serve (reqs : list (string * govern_params)) (s : rpc_server) : list (option govern_reply) * rpc_server :=
  match reqs with
  | [] => ([], s)
  | (now, p) :: rest =>
      let '(a, s1) := answer now p s in
      let '(rs, s2) := serve rest s1 in (a :: rs, s2)
  end.
End transport.

(** * What the broker answers *)

Section broker_facts.
Context {U : Unicode} {E : Ed25519} {G : Engine} {D : Deployment} {T : ExnText} (anchor : string).

Lemma plain_row a s r row : written a s r row -> compress a = false ->
  op row = w_op a /\ failed row = w_failed a /\ authority row = w_authority a.
Proof.
  intros [eff p1 ps gr sn pj now cx g _ _ _ Hs Hr] Hc.
  apply seal_receipt_sealed in Hs as [kk term cap cont br now' body tvh _ _ _ _ _ _ Hsr].
  unfold row_of in Hr. do 6 apply rbind_ok in Hr as (? & _ & Hr). apply Ok_inj in Hr. subst row r.
  cbn [op failed authority receipt_of]. unfold stored. by rewrite Hc.
Qed.

(** What the kernel is called with: what the request declares, as it is, and nothing else. *)
Definition relayed (now : string) (q : GovernedRequest) (c : exec_args) : Prop :=
  (x_op c = gr_op q /\ x_authority c = PStr (gr_authority q) /\ x_parameters c = gr_parameters q /\
   x_gate c = gr_gate q /\ x_effect c = gr_effect q /\ x_jurisdiction c = gr_jurisdiction q /\
   x_atomicity c = gr_atomicity q /\ x_idempotency_key c = gr_idempotency_key q) /\
  (x_gate_margin c = PNone /\ x_layer c = "I" /\ x_governor_sig c = None /\ x_warrant_basis c = NoBasis /\
   x_intent_ref c = "" /\ x_authority_set c = PNone /\ x_capability_verdicts c = [] /\
   x_required_locality c = None /\ x_now c = now).

(** How the outcome of the kernel is answered. *)
Definition answers (k : kernel) (res : result exn pyval) (r : result exn reply) : Prop :=
  match res with
  | Ok v => r = Ok {| rp_admitted := true; rp_receipt_hash := kernel_tip k; rp_reason := None; rp_payload := v |}
  | Err e =>
      if is_exception e then
        exists h reason, r = Ok (refused_reply h reason) /\
          h = (if protocol_class e then "" else kernel_tip k) /\
          reason = (if protocol_class e then exn_str e else match exn_cls e with
                    | GateRefusalC => "GateRefusal: " +:+ exn_msg e
                    | _ => exn_type e +:+ ": " +:+ exn_str e end)
      else r = Err e
  end.

Lemma submit_answers now q k : undeclared q = false ->
  k_store (snd (submit now q k)) = k_store (snd (execute (exec_of now q) k)) /\
  answers (snd (execute (exec_of now q) k)) (fst (execute (exec_of now q) k)) (fst (submit now q k)).
Proof.
  unfold submit. intros ->. destruct (execute (exec_of now q) k) as [[v|e] k1]; cbn [fst snd]; [done|].
  unfold answers, is_exception. destruct e as [c m]. cbn [exn_cls exn_msg].
  destruct (bool_decide_reflect (c = GateRefusalC)) as [->|Hg].
  - cbn [fst snd]. split; [done|]. rewrite bool_decide_eq_true_2 by done. by do 2 eexists.
  - destruct (protocol_class (Exn c m)) eqn:Hp; cbn [fst snd]; [|].
    + split; [done|]. rewrite bool_decide_eq_true_2 by (intros ->; discriminate Hp). by do 2 eexists.
    + destruct (bool_decide (c <> BaseExceptionC)); cbn [fst snd]; split; try done.
      do 2 eexists. split; [done|]. split; [done|]. by destruct c.
Qed.

(** C4: the broker submits and answers.  From rest, with a gate and an effect that only add receipts, a
    submission comes to rest with the chain sound.  An effect without a declared class is never
    executed: the answer is a refusal that names the one failed receipt it left (or the
    failure to write it is raised, and nothing is left).  Otherwise the kernel ran
    the call exactly as its specification allows, the call is the request with its gate,
    effect, declared class and key as they are ([relayed]), and the answer is that of the
    kernel: admitted with its value and the new tip, or refused, with the reason of a gate's
    refusal, the text of a protocol rejection (and no receipt), or the class and text of any other exception. *)
Theorem submit_refines now q k r k' : submit now q k = (r, k') -> calm anchor k ->
  (forall g, gr_gate q = Some g -> lawful g) -> (forall f, gr_effect q = Some f -> lawful f) ->
  calm anchor k' /\ exists l, grows k k' l /\
    if undeclared q then
      match r with
      | Ok rp => rp_admitted rp = false /\ rp_payload rp = PNone /\ exists row, l = [row] /\
          op row = gr_op q /\ authority row = gr_authority q /\ failed row = true /\ h_r row = rp_receipt_hash rp
      | Err _ => l = []
      end
    else relayed now q (exec_of now q) /\ exists res lg l', l = lg ++ l' /\ (quiet_gate (exec_of now q) -> lg = []) /\
      behaviour (exec_of now q) res l' /\ answers k' res r.
Proof.
  intros H Hc Hg Hl. destruct (undeclared q) eqn:Hu.
  - assert (Hlead : leads anchor (submit now q) k (fun r l _ => match r with
      | Ok rp => rp_admitted rp = false /\ rp_payload rp = PNone /\ exists row, l = [row] /\
          op row = gr_op q /\ authority row = gr_authority q /\ failed row = true /\ h_r row = rp_receipt_hash rp
      | Err _ => l = [] end)).
    { destruct (gr_parameters q) as [| | | | | | |d|] eqn:Hp;
        try (apply (leads_eq anchor _ (sraise (Exn TypeError "argument is not a mapping")));
             [unfold submit; by rewrite Hu, Hp|by apply leads_pure]).
      apply (leads_eq anchor _ (let! r := on_store (write (broker_refusal q d)) in
         sret (refused_reply (h_r r) "missing effect_atomicity declaration (effect present, no class)")));
        [unfold submit; by rewrite Hu, Hp|].
      apply leads_bind, leads_write; [|done].
      intros x r0 row s Hw Hh _. apply leads_pure; [done|]. cbn [fst sret rp_admitted refused_reply rp_payload rp_receipt_hash].
      apply plain_row in Hw as (H1 & H2 & H3); [|done]. split; [done|]. split; [done|]. exists row. by split_and!. }
    destruct (Hlead Hc) as (l & H1 & H2 & H3). rewrite H in *. cbn [fst snd] in *. split; [done|]. by exists l.
  - destruct (submit_answers now q k Hu) as [Hs Ha]. rewrite H in Hs, Ha. cbn [fst snd] in Hs, Ha.
    destruct (leads_execute anchor (exec_of now q) k Hg Hl Hc) as (l & Hc' & Hgr & lg & l' & -> & H1 & H2).
    destruct (execute (exec_of now q) k) as [res k1]. cbn [fst snd] in *.
    split; [destruct Hc' as [F C S K]; by split; rewrite ?Hs|].
    exists (lg ++ l'). split; [unfold grows, kview in *; by rewrite Hs|]. split; [by split; split_and!|]. exists res, lg, l'.
    split_and!; try done. unfold answers, kernel_tip in *. by rewrite Hs.
Qed.
End broker_facts.

(** * Replay *)

Section replay.
Context {U : Unicode} {E : Ed25519} {G : Engine} {D : Deployment} {T : ExnText}.

Definition nonce_of (req : string * govern_params) : string := given (gp_nonce (snd req)) "".

(** The requests whose nonce is new. *)
Fixpoint firsts (seen : list string) (reqs : list (string * govern_params)) : list (string * govern_params) :=
  match reqs with
  | [] => []
  | req :: rest => if mem_str (nonce_of req) seen then firsts seen rest
                   else req :: firsts (nonce_of req :: seen) rest
  end.

Lemma answer_seen now p s : nonce_of (now, p) ∈ _seen_nonces s ->
  answer now p s = (Some (Replayed (nonce_of (now, p))), s).
Proof. intros H%mem_str_spec. unfold answer, _handle_govern, nonce_of in *. cbn [snd] in *. by rewrite H. Qed.
Lemma answer_new now p s : nonce_of (now, p) ∉ _seen_nonces s ->
  _seen_nonces (snd (answer now p s)) = nonce_of (now, p) :: _seen_nonces s.
Proof.
  intros H. unfold answer, _handle_govern, nonce_of in *. cbn [snd] in *.
  destruct (mem_str _ _) eqn:Hm; [by apply mem_str_spec in Hm|].
  destruct (execute _ _) as [[v|e] k]; [done|]. by destruct (exn_cls e).
Qed.
Lemma answer_nonces now p s n : n ∈ _seen_nonces (snd (answer now p s)) <->
  n = nonce_of (now, p) \/ n ∈ _seen_nonces s.
Proof.
  destruct (decide (nonce_of (now, p) ∈ _seen_nonces s)) as [H|H].
  - rewrite answer_seen by done. cbn [snd]. naive_solver.
  - rewrite answer_new by done. by rewrite elem_of_cons.
Qed.

Lemma serve_firsts reqs s : snd (serve reqs s) = snd (serve (firsts (_seen_nonces s) reqs) s).
Proof.
  revert s. induction reqs as [|[now p] rest IH]; intros s; [done|]. cbn [firsts].
  destruct (mem_str (nonce_of (now, p)) (_seen_nonces s)) eqn:Hm.
  - apply mem_str_spec in Hm. cbn [serve]. rewrite answer_seen by done.
    pose proof (IH s) as H. destruct (serve rest s) as [rs s2]. exact H.
  - assert (Hn : nonce_of (now, p) ∉ _seen_nonces s) by (intros H%mem_str_spec; congruence).
    pose proof (answer_new now p s Hn) as Hs. cbn [serve].
    destruct (answer now p s) as [a s1]. cbn [snd] in Hs. pose proof (IH s1) as H. rewrite Hs in H.
    destruct (serve rest s1), (serve (firsts _ rest) s1). exact H.
Qed.

Lemma firsts_spec seen reqs : NoDup (map nonce_of (firsts seen reqs)) /\
  forall n, n ∈ map nonce_of (firsts seen reqs) -> n ∉ seen /\ n ∈ map nonce_of reqs.
Proof.
  revert seen. induction reqs as [|req rest IH]; intros seen; cbn [firsts map].
  { split; [constructor|]. by intros n ?%elem_of_nil. }
  destruct (mem_str (nonce_of req) seen) eqn:Hm.
  - destruct (IH seen) as [H1 H2]. split; [done|]. intros n Hn. destruct (H2 n Hn). split; [done|by right].
  - assert (Hs : nonce_of req ∉ seen) by (intros H%mem_str_spec; congruence).
    destruct (IH (nonce_of req :: seen)) as [H1 H2]. cbn [map]. split.
    + constructor; [|done]. intros Hin. destruct (H2 _ Hin) as [Hn _]. apply Hn. by left.
    + intros n [->|Hn]%elem_of_cons; [split; [done|by left]|]. destruct (H2 n Hn) as [Hx Hy].
      rewrite not_elem_of_cons in Hx. split; [apply Hx|by right].
Qed.

Lemma serve_answers pre now p post s :
  nonce_of (now, p) ∈ _seen_nonces s \/ nonce_of (now, p) ∈ map nonce_of pre ->
  fst (serve (pre ++ (now, p) :: post) s) !! length pre = Some (Some (Replayed (nonce_of (now, p)))).
Proof.
  revert s. induction pre as [|[now' p'] pre IH]; intros s H; cbn [app serve length].
  - destruct H as [H|H]; [|by apply elem_of_nil in H]. rewrite answer_seen by done. by destruct (serve post s).
  - pose proof (answer_nonces now' p' s (nonce_of (now, p))) as Hn. destruct (answer now' p' s) as [a s1].
    cbn [snd map] in *. rewrite elem_of_cons in H. specialize (IH s1). 
    destruct (serve (pre ++ (now, p) :: post) s1) as [rs s2]. cbn [fst] in *. cbn [lookup list_lookup].
    apply IH. rewrite Hn. tauto.
Qed.

(** C33: a nonce is executed once.  Whatever requests a server handles, in whatever order, its kernel
    ends where the requests with new nonces alone would have brought it, those nonces are
    all different and none was seen before; and every request whose nonce was seen before or was used by an
    earlier request is answered as a replay, even if that earlier request was refused. *)
Theorem nonce_executes_once reqs s :
  let new := firsts (_seen_nonces s) reqs in
  snd (serve reqs s) = snd (serve new s) /\
  NoDup (map nonce_of new) /\ (forall n, n ∈ map nonce_of new -> n ∉ _seen_nonces s) /\
  forall pre now p post, reqs = pre ++ (now, p) :: post ->
    nonce_of (now, p) ∈ _seen_nonces s \/ nonce_of (now, p) ∈ map nonce_of pre ->
    fst (serve reqs s) !! length pre = Some (Some (Replayed (nonce_of (now, p)))).
Proof.
  intros new. destruct (firsts_spec (_seen_nonces s) reqs) as [H1 H2]. split; [apply serve_firsts|].
  split; [done|]. split; [intros n Hn; by apply H2|]. intros pre now p post ->. apply serve_answers.
Qed.
End replay.

(** * Limits *)

Section limits.
Context {U : Unicode} {E : Ed25519} {G : Engine} {D : Deployment} {T : ExnText}.

(** The intent of a request reaches neither the kernel nor the broker's own receipt. *)
Lemma intent_not_relayed now q i : let q' := {| gr_op := gr_op q; gr_authority := gr_authority q;
    gr_parameters := gr_parameters q; gr_intent := i; gr_jurisdiction := gr_jurisdiction q; gr_gate := gr_gate q;
    gr_effect := gr_effect q; gr_atomicity := gr_atomicity q; gr_idempotency_key := gr_idempotency_key q |} in
  submit now q' = submit now q.
Proof. done. Qed.
End limits.

(** * Examples *)

Definition demo_request (op : string) (eff : option callable) (c : option EffectAtomicity) : GovernedRequest :=
  {| gr_op := op; gr_authority := "client"; gr_parameters := PDict [("amount", PInt 3)];
     gr_intent := Some "settle"; gr_jurisdiction := "session"; gr_gate := None; gr_effect := eff;
     gr_atomicity := c; gr_idempotency_key := PNone |}.
Definition demo_text : ExnText := {| exn_str := exn_msg; exn_type := fun _ => "Exception" |}.
Definition demo_submit := @submit nfc_id ed_demo demo_engine demo_deployment demo_text.

Lemma demo_rest fs : fs = [] -> calm GENESIS (demo_kernel fs).
Proof. intros ->. split; try (vm_compute; reflexivity). split; vm_compute; reflexivity. Qed.

Lemma submit_refines_witness : exists r k',
  demo_submit "0" (demo_request "transfer" (Some (sret PNone)) None) (demo_kernel []) = (r, k') /\
  calm GENESIS k' /\ exists l, grows (demo_kernel []) k' l /\
    match r with
    | Ok rp => rp_admitted rp = false /\ rp_payload rp = PNone /\ exists row, l = [row] /\
        op row = "transfer" /\ authority row = "client" /\ failed row = true /\ h_r row = rp_receipt_hash rp
    | Err _ => l = []
    end.
Proof.
  destruct (demo_submit "0" (demo_request "transfer" (Some (sret PNone)) None) (demo_kernel [])) as [r k'] eqn:H.
  exists r, k'. split; [reflexivity|].
  apply (@submit_refines nfc_id ed_demo demo_engine demo_deployment demo_text GENESIS "0"
    (demo_request "transfer" (Some (sret PNone)) None) (demo_kernel []) r k' H).
  - by apply demo_rest.
  - discriminate.
  - intros f Hf. apply Some_inj' in Hf as <-. by apply lawful_quiet.
Defined.

(** A rejected operation is answered without a receipt, although the kernel has recorded the rejection. *)
Definition demo_rejection : result exn reply * kernel :=
  Eval vm_compute in demo_submit "0" (demo_request "unheard_of" None None) (demo_kernel []).
Lemma rejection_has_receipt :
  match demo_rejection with
  | (Ok rp, k') => rp_admitted rp = false /\ rp_receipt_hash rp = "" /\
      map op (rows (view (k_store k'))) = ["protocol_error"]
  | (Err _, _) => False
  end.
Proof. vm_compute. auto. Qed.

(** A refusal the broker cannot write is raised to the caller. *)
Lemma broker_refusal_raises :
  exists e, fst (demo_submit "0" (demo_request "transfer" (Some (sret PNone)) None)
                  (demo_kernel [Some "disk full"])) = Err e.
Proof. eexists. vm_compute. reflexivity. Qed.
