(* ===== verification/Endpoints.v ===== *)
(** The read-only endpoints of the agent ([ugk/transport/agent.py]) and of the RPC server
    ([ugk/transport/rpc.py]), and the scoped session of the agent. *)
From S2P Require Import Prelude Json Sha256 Binding BindingM2 Frame Authority Receipt Trace Capability Sqlite Integrity Archives Store StoreFacts StoreTxn Will Warrant Effects EffectsIrr EffectsRev Csh Kernel KernelFacts ExecuteFacts Founding Session Transport.

Section endpoints.
Context {U : Unicode} {E : Ed25519} {G : Engine} {D : Deployment}.

(** * Attestation and status *)

Record AttestationResult := {
  ar_stream_hash : string;
  ar_hash_verified : bool;
  ar_law_hash : string;
  ar_csh_finality_hash : string;
  ar_csh_quorum_achieved : bool;
  ar_mosaic_root : string;
  ar_dimension_id : string;
  ar_governance_status : status;
}.

(** The chain is intact and the quorum is achieved. *)
Definition sound (a : AttestationResult) : bool := ar_hash_verified a && ar_csh_quorum_achieved a.

Definition ugk_attest (g : governance) : result exn AttestationResult :=
  let* s := snapshot g in
  Ok {| ar_stream_hash := sn_stream_hash s; ar_hash_verified := default false (sn_hash_verified s);
        ar_law_hash := k_law_hash (sn_frame s); ar_csh_finality_hash := sn_finality_hash s;
        ar_csh_quorum_achieved := sn_quorum s; ar_mosaic_root := k_mosaic_root (sn_frame s);
        ar_dimension_id := k_dimension_id (sn_frame s); ar_governance_status := sn_status s |}.

Definition ugk_status (g : governance) : result exn snapshot_fields := snapshot_fast g.

(** * A scoped session *)

(** The body runs in a session that is closed whatever the body did; an exception of the close
    takes the place of the body's outcome.  A kernel that is not active is founded first; [fresh]
    is the identifier drawn when none is given, and the clock is read at each step. *)
Definition ugk_session {A} (session_id : option string) (fresh founded opened closed : string)
    (body : M governance A) : M governance A := fun g =>
  (let! _ := if bool_decide (k_status (gk g) = ACTIVE) then sret tt else _ceremony founded None None in
   let! _ := on_kernel (open_session session_id fresh opened) in
   fun g1 =>
     let '(r, g2) := body g1 in
     match on_kernel (close_session closed) g2 with
     | (Ok _, g3) => (r, g3)
     | (Err e, g3) => (Err e, g3)
     end) g.

(** * The read-only methods of the RPC server *)

(** The values of a snapshot that JSON cannot hold are rendered by [str]; none is. *)
Definition _handle_status (g : governance) : result exn snapshot_fields := snapshot_fast g.

Record verify_reply := {
  vf_chain_intact : bool;
  vf_receipt_count : Z;
  vf_stream_hash : string;
}.
Definition _handle_verify (g : governance) : result exn verify_reply :=
  let d := view (k_store (gk g)) in
  let* ok := verify_stream_hash d None in
  Ok {| vf_chain_intact := ok; vf_receipt_count := receipt_count d; vf_stream_hash := stream_hash d |}.

Record attest_reply := {
  ap_stream_hash : string;
  ap_hash_verified : option bool;
  ap_law_hash : string;
  ap_csh_finality_hash : string;
  ap_csh_quorum_achieved : bool;
  ap_mosaic_root : string;
  ap_dimension_id : string;
}.
Definition _handle_attest (g : governance) : result exn attest_reply :=
  let* s := snapshot g in
  Ok {| ap_stream_hash := sn_stream_hash s; ap_hash_verified := sn_hash_verified s;
        ap_law_hash := k_law_hash (sn_frame s); ap_csh_finality_hash := sn_finality_hash s;
        ap_csh_quorum_achieved := sn_quorum s; ap_mosaic_root := k_mosaic_root (sn_frame s);
        ap_dimension_id := k_dimension_id (sn_frame s) |}.
End endpoints.

(** * What the endpoints promise *)

Section endpoint_facts.
Context {U : Unicode} {E : Ed25519} {G : Engine} {D : Deployment} (anchor : string).

Lemma snapshot_ok g s : snapshot g = Ok s ->
  exists ok, verify_stream_hash (view (k_store (gk g))) None = Ok ok /\
    sn_hash_verified s = Some ok /\ sn_quorum s = _csh_quorum_achieved (gcsh g) /\
    sn_stream_hash s = stream_hash (view (k_store (gk g))) /\
    sn_receipt_count s = receipt_count (view (k_store (gk g))) /\ sn_frame s = k_frame (gk g).
Proof.
  unfold snapshot. intros (f & _ & (ok & Hok & H)%rbind_ok)%rbind_ok. exists ok. split; [done|].
  unfold snapshot_of in H. cbv zeta in H. do 3 (apply rbind_ok in H as (? & _ & H)). by apply Ok_inj in H as <-.
Qed.

(** A store whose chain is sound verifies, when its rows can be read. *)
Lemma calm_verifies k ok : calm GENESIS k -> verify_stream_hash (view (k_store k)) None = Ok ok -> ok = true.
Proof.
  intros [_ _ _ [Hs _]]. unfold verify_stream_hash. intros (rs & Hrs & H)%rbind_ok.
  apply all_receipts_links in Hrs as [Hrs _].
  destruct rs as [|r rs]; [by apply Ok_inj in H|]. apply Ok_inj in H as <-.
  by rewrite (verify_segment_links _ _ _ Hrs).
Qed.

(** The agent and the server attest the same things, and exactly these: the frame of the kernel,
    the tip and the verification of its chain, and its finality. *)
Theorem attestations_agree g a b : ugk_attest g = Ok a -> _handle_attest g = Ok b ->
  ap_hash_verified b = Some (ar_hash_verified a) /\ ap_stream_hash b = ar_stream_hash a /\
  ap_csh_quorum_achieved b = ar_csh_quorum_achieved a /\ ap_law_hash b = ar_law_hash a /\
  (sound a = true <->
    verify_stream_hash (view (k_store (gk g))) None = Ok true /\ _csh_quorum_achieved (gcsh g) = true).
Proof.
  unfold ugk_attest, _handle_attest. intros (s & Hs & <-%Ok_inj)%rbind_ok (s' & Hs' & <-%Ok_inj)%rbind_ok.
  rewrite Hs in Hs'. apply Ok_inj in Hs' as <-. destruct (snapshot_ok g s Hs) as (ok & Hok & Hv & Hq & _).
  unfold sound. cbn. rewrite Hv, Hq, Hok, andb_true_iff. cbn. split_and!; try done.
  split; [by intros [-> ->]|]. intros [[= ->]%Ok_inj ->]. done.
Qed.

(** Closing a session leaves one receipt, or fails and leaves none. *)
Lemma close_session_leads now k : leads anchor (close_session now) k (fun r l _ =>
  match r with Ok _ => exists c, l = [c] /\ decision "session_close" false c | Err _ => l = [] end).
Proof.
  intros Hc. destruct (leads_emit anchor (kernel_receipt "session_close" (k_authority k)
    (PDict [("session_id", match k_identity (k_session k) with
       | Some i => PStr (si_session_id i) | None => PNone end)]) false "session_close" true) k Hc)
    as (l & Hc' & Hg & Hq).
  exists l. unfold close_session. cbv zeta. unfold sbind, sget.
  destruct (kwrite _ k) as [[x|e] k1]; cbn [fst snd] in *; split_and!; try done.
  destruct Hq as (row & -> & Hen). exists row. split; [done|]. by apply entered_decision in Hen.
Qed.

(** A session opened for a body is closed after it.  From rest, with a body that only adds
    receipts, the receipts a scoped session leaves are its opening, those of the body, and its
    close; the outcome is that of the body, even an exception.  Only when the close cannot be
    written is it missing, and then that failure is raised. *)
Theorem session_closes {A} session_id fresh founded opened closed (body : M governance A) g sid g1 :
  k_status (gk g) = ACTIVE -> calm anchor (gk g) ->
  on_kernel (open_session session_id fresh opened) g = (Ok sid, g1) ->
  (calm anchor (gk g1) -> calm anchor (gk (snd (body g1))) /\ exists l, grows (gk g1) (gk (snd (body g1))) l) ->
  let '(r, g') := ugk_session session_id fresh founded opened closed body g in
  calm anchor (gk g') /\ exists o lb, decision "session_open" false o /\
    grows (gk g1) (gk (snd (body g1))) lb /\
    ((exists c, decision "session_close" false c /\ grows (gk g) (gk g') (o :: lb ++ [c]) /\ r = fst (body g1)) \/
     (grows (gk g) (gk g') (o :: lb) /\ exists e, r = Err e)).
Proof.
  intros Hs Hc Hopen Hbody. unfold ugk_session. rewrite bool_decide_true by done.
  unfold sbind at 1, sret. unfold sbind at 1. rewrite Hopen.
  unfold on_kernel in Hopen. destruct (open_session session_id fresh opened (gk g)) as [ro k1] eqn:Hok.
  apply pair_ok in Hopen as [-> <-].
  destruct (open_session_binds anchor session_id fresh opened (gk g) sid k1 Hok Hc)
    as (Hc1 & _ & _ & _ & _ & _ & _ & _ & (o & Hgo & Ho) & _).
  destruct (Hbody Hc1) as (Hcb & lb & Hgb). destruct (body (set_gk k1 g)) as [r g2] eqn:Hb. cbn [fst snd] in *.
  destruct (close_session_leads closed (gk g2) Hcb) as (lc & Hcc & Hgc & Hq).
  unfold on_kernel. destruct (close_session closed (gk g2)) as [rc k3]. cbn [fst snd] in *.
  pose proof (grows_trans _ _ _ _ _ Hgo Hgb) as Hg2.
  destruct rc as [s|e]; (split; [exact Hcc|]); exists o, lb; (split; [done|split; [done|]]).
  - left. destruct Hq as (c & -> & Hdc). exists c. split; [done|]. split; [|done].
    change (o :: lb ++ [c]) with (([o] ++ lb) ++ [c]). by eapply grows_trans.
  - right. subst lc. split; [|eauto]. change (o :: lb) with ([o] ++ lb). rewrite <- (app_nil_r ([o] ++ lb)).
    by eapply grows_trans.
Qed.
End endpoint_facts.

Section attested.
Context {U : Unicode} {E : Ed25519} {G : Engine} {D : Deployment}.

(** After a scoped session from rest, whatever its body recorded and whether it raised, the agent
    attests an intact chain. *)
Theorem session_leaves_attested {A} session_id fresh founded opened closed (body : M governance A) g sid g1 a :
  k_status (gk g) = ACTIVE -> calm GENESIS (gk g) ->
  on_kernel (open_session session_id fresh opened) g = (Ok sid, g1) ->
  (calm GENESIS (gk g1) -> calm GENESIS (gk (snd (body g1))) /\
    exists l, grows (gk g1) (gk (snd (body g1))) l) ->
  ugk_attest (snd (ugk_session session_id fresh founded opened closed body g)) = Ok a ->
  ar_hash_verified a = true.
Proof.
  intros Hs Hc Hopen Hbody.
  pose proof (session_closes GENESIS session_id fresh founded opened closed body g sid g1 Hs Hc Hopen Hbody) as H.
  destruct (ugk_session _ _ _ _ _ body g) as [r g']. destruct H as [Hc' _]. cbn [snd].
  unfold ugk_attest. intros (s & Hsn & <-%Ok_inj)%rbind_ok.
  destruct (snapshot_ok _ s Hsn) as (ok & Hok & Hv & _). cbn. rewrite Hv. cbn. by eapply calm_verifies.
Qed.
End attested.
