(* ===== verification/Evidence.v ===== *)
(** The evidence a consumer declares for its capabilities
    ([ugk/authority/capability_evidence.py]), the set-valued verification of the authorities of
    an effect ([ugk/authority/a1_verifier.py]), and the hardened check of a reused authority
    ([ugk/rho_hardened.py]). *)
From S2P Require Import Prelude Json Capability.

(** * Capability evidence *)

Definition STATUS_VOCAB : list string :=
  ["DONE"; "PARTIAL"; "FUTURE"; "OUT_OF_SCOPE"; "ASPIRATIONAL"; "UNDECLARED"].
Definition _GATE_REQUIRED_STATUSES : list string := ["DONE"; "PARTIAL"].

Record CapabilityClaim := {
  cap_id : string;
  cc_name : string;
  status : string;
  gate : pyval;
  deterministic : option bool;
  scope_notes : string;
}.

Definition status_vocabulary : list string := STATUS_VOCAB.

Section scope.
(** [str] on the values whose rendering is not written out ([Capability.py_str]). *)
Context (repr : pyval -> string).
Notation py_str := (py_str repr).

Definition load_entry (item : string * pyval) : result exn CapabilityClaim :=
  let '(cap, e) := item in
  match e with
  | PDict entry =>
      match dict_get "name" entry, dict_get "status" entry with
      | None, _ => Err (Exn ValueError "missing required field 'name'")
      | _, None => Err (Exn ValueError "missing required field 'status'")
      | Some nm, Some (PStr st) =>
          guard* mem_str st STATUS_VOCAB else Exn ValueError "has unknown status" in
          let* det := match dict_get "deterministic" entry with
                      | None | Some PNone => Ok None
                      | Some (PBool b) => Ok (Some b)
                      | Some _ => Err (Exn ValueError "deterministic must be bool or None")
                      end in
          Ok {| cap_id := cap; cc_name := py_str nm; status := st;
                gate := default PNone (dict_get "gate" entry); deterministic := det;
                scope_notes := py_str (default (PStr "") (dict_get "scope_notes" entry)) |}
      | Some _, Some _ => Err (Exn ValueError "has unknown status")
      end
  | _ => Err (Exn ValueError "SCOPE entry must be a dict")
  end.

(** [load_scope] on a module: the value of its [SCOPE] attribute, when it has one.  The entries
    are read in order, so the first bad one raises. *)
Definition load_scope (SCOPE : option pyval) : result exn (list CapabilityClaim) :=
  match SCOPE with
  | None => Err (Exn ValueError "has no SCOPE attribute")
  | Some (PDict raw) => sequence (map load_entry raw)
  | Some _ => Err (Exn ValueError "SCOPE must be a dict")
  end.

(** Whether a file of that name is under the directory of the gates. *)
Context (gate_file : string -> bool).

Definition gate_required (c : CapabilityClaim) : bool := mem_str (status c) _GATE_REQUIRED_STATUSES.
Definition is_none (v : pyval) : bool := match v with PNone => true | _ => false end.
Definition gate_name (c : CapabilityClaim) : string := py_str (gate c) +:+ ".py".

Definition no_gate_of (claims : list CapabilityClaim) : list string :=
  map (fun c => cap_id c +:+ "(" +:+ status c +:+ ",no-gate-named)")
    (List.filter (fun c => gate_required c && is_none (gate c)) claims).
Definition missing_of (claims : list CapabilityClaim) : list string :=
  map (fun c => cap_id c +:+ "->" +:+ gate_name c +:+ "(absent)")
    (List.filter (fun c => gate_required c && negb (is_none (gate c)) && negb (gate_file (gate_name c))) claims).

Definition count (p : CapabilityClaim -> bool) (claims : list CapabilityClaim) : Z :=
  Z.of_nat (length (List.filter p claims)).
Definition has_status (s : string) (c : CapabilityClaim) : bool := str_eqb (status c) s.

Definition verify_evidence_map (claims : list CapabilityClaim) : bool * string :=
  let missing := missing_of claims in
  let no_gate := no_gate_of claims in
  let asserted := count gate_required claims in
  let problems := missing ++ no_gate in
  match problems with
  | [] => (true, "claims=" +:+ str_of_Z (Z.of_nat (length claims)) +:+ " asserted=" +:+ str_of_Z asserted
                 +:+ " (DONE " +:+ str_of_Z (count (has_status "DONE") claims) +:+ ", PARTIAL "
                 +:+ str_of_Z (count (has_status "PARTIAL") claims) +:+ "); all gates present")
  | _ => (false, "problems (" +:+ str_of_Z (Z.of_nat (length problems)) +:+ "): " +:+ join "; " problems)
  end.
End scope.

(** [sorted(a - b)] and [sorted(a & b)] of two sets given by their members. *)
Definition distinct (l : list string) : list string := nodup string_dec l.
Definition sorted_minus (a b : list string) : list string :=
  sorted_str (List.filter (fun x => negb (mem_str x b)) (distinct a)).
Definition sorted_meet (a b : list string) : list string :=
  sorted_str (List.filter (fun x => mem_str x b) (distinct a)).

Record registry_diff := {
  in_registry_not_in_scope : list string;
  in_scope_not_in_registry : list string;
  in_both : list string;
}.

Definition diff_against_registry (claims : list CapabilityClaim) (registry_caps : list string) : registry_diff :=
  let scope_ids := map cap_id claims in
  {| in_registry_not_in_scope := sorted_minus registry_caps scope_ids;
     in_scope_not_in_registry := sorted_minus scope_ids registry_caps;
     in_both := sorted_meet scope_ids registry_caps |}.

Record evidence_summary := {
  total : Z;
  by_status : list (string * Z);
  det_true : Z;
  det_false : Z;
  det_none : Z;
  evidenced : Z;
  unevidenced : Z;
}.

Definition count_status (k : string) (d : list (string * Z)) : list (string * Z) :=
  dict_set k (default 0 (dict_get k d) + 1) d.

Definition claim_evidenced (c : CapabilityClaim) : bool := gate_required c && negb (is_none (gate c)).

Definition summarize_step (s : evidence_summary) (c : CapabilityClaim) : evidence_summary :=
  {| total := total s;
     by_status := count_status (status c) (by_status s);
     det_true := det_true s + (if bool_decide (deterministic c = Some true) then 1 else 0);
     det_false := det_false s + (if bool_decide (deterministic c = Some false) then 1 else 0);
     det_none := det_none s + (if bool_decide (deterministic c = None) then 1 else 0);
     evidenced := evidenced s + (if claim_evidenced c then 1 else 0);
     unevidenced := unevidenced s |}.

Definition summarize_claims (claims : list CapabilityClaim) : evidence_summary :=
  let start := {| total := Z.of_nat (length claims); by_status := map (fun s => (s, 0)) STATUS_VOCAB;
                  det_true := 0; det_false := 0; det_none := 0; evidenced := 0; unevidenced := 0 |} in
  let s := fold_left summarize_step claims start in
  {| total := total s; by_status := by_status s; det_true := det_true s; det_false := det_false s;
     det_none := det_none s; evidenced := evidenced s; unevidenced := total s - evidenced s |}.

(** * Set-valued authority verification (A1) *)

Definition KNOWN_CC_VERSIONS : list string := ["c_c.v1"; "c_c.v2"].

(** [A1Posture]: verification runs only when it is enabled. *)
Record A1Posture := { a1_enabled : bool }.

(** The authorities a receipt asserts; metadata of the verifier, never hashed. *)
Record EffectClaim := {
  claimed_authorities : list string;
  cc_version : string;
  stage_authorities : list (string * pyval);
}.

Definition route_version (v : string) : string :=
  if str_eqb v "c_c.v1" then "v1-rule" else if str_eqb v "c_c.v2" then "v2-rule" else "FAIL-CLOSED".

Definition without (A : string) (chain : list string) : list string :=
  List.filter (fun x => negb (str_eqb x A)) chain.

(** The authorities without which the effect is not admitted; [admissibility] decides
    admission under a chain. *)
Definition reconstruct_auth (chain : list string) (admissibility : list string -> bool) : gset string :=
  list_to_set (List.filter (fun A => negb (admissibility (without A chain))) chain).

Definition refuse {A} (reason : string) : result exn A := Err (Exn GateRefusalC reason).

Definition verify_a1 (chain : list string) (claim : EffectClaim)
    (admissibility : list string -> bool) (posture : A1Posture) : result exn string :=
  if negb (a1_enabled posture) then Ok "a1-disabled" else
  let route := route_version (cc_version claim) in
  if str_eqb route "FAIL-CLOSED" then refuse "A1-UNKNOWN-CANON-VERSION" else
  let actual := reconstruct_auth chain admissibility in
  let claimed : gset string := list_to_set (claimed_authorities claim) in
  if str_eqb route "v1-rule" then
    match chain with
    | [A] => if bool_decide (A ∈ actual) then Ok "legit" else refuse "A1-NONCUTSET-CLAIM"
    | _ => refuse "A1-VERSION-MISMATCH"
    end
  else if bool_decide (actual ∖ claimed <> ∅) then refuse "A1-OMITTED-AUTHORITY"
  else if bool_decide (claimed ∖ actual <> ∅) then refuse "A1-NONCUTSET-CLAIM"
  else Ok "legit".

(** * The hardened check of a reused authority *)

Record RhoPosture := { rho_enabled : bool }.

Record CanonicalAuthority := {
  canonical_id : string;
  canonical : bool;
  aliases : list string;
}.

Record AdmissibilityStamp := {
  reachable_without_A : bool;
  evaluated_at_position : Z;
  attested_honest : bool;
}.

Record ReuseBoundary := {
  rb_effect_id : string;
  rb_authority : CanonicalAuthority;
  t0 : Z;
  t1 : Z;
  binding_at_t0 : bool;
  t1_references_t0 : bool;
}.

Definition _check_E1_boundary_validity (b : ReuseBoundary) : result exn unit :=
  guard* t1 b >? t0 b else Exn GateRefusalC "E1-BOUNDARY-NONMONOTONIC" in
  guard* binding_at_t0 b else Exn GateRefusalC "E1-NO-BINDING-AT-T0" in
  guard* t1_references_t0 b else Exn GateRefusalC "E1-T1-DOES-NOT-REFERENCE-T0" in
  Ok tt.

Definition _check_E2_freshness (b : ReuseBoundary) (stamp : option AdmissibilityStamp) :
    result exn AdmissibilityStamp :=
  match stamp with
  | None => refuse "E2-NO-ADMISSIBILITY-STAMP"
  | Some s =>
      guard* evaluated_at_position s =? t1 b else Exn GateRefusalC "E2-STALE-STAMP" in
      guard* attested_honest s else Exn GateRefusalC "E2-STAMP-UNATTESTED" in
      Ok s
  end.

Definition _check_E3_canonical (b : ReuseBoundary) : result exn unit :=
  guard* canonical (rb_authority b) else Exn GateRefusalC "E3-RAW-AUTHORITY-HANDLE" in Ok tt.

Definition rho_hardened (b : ReuseBoundary) (stamp : option AdmissibilityStamp)
    (posture : RhoPosture) : result exn string :=
  if negb (rho_enabled posture) then Ok "rho-disabled" else
  let* _ := _check_E1_boundary_validity b in
  let* s := _check_E2_freshness b stamp in
  let* _ := _check_E3_canonical b in
  if reachable_without_A s then refuse "TEMPORAL-STALE-REUSE" else Ok "admit".

(** * Facts about capability evidence *)

Lemma gate_required_spec c : gate_required c = true <-> status c = "DONE" \/ status c = "PARTIAL".
Proof.
  unfold gate_required, _GATE_REQUIRED_STATUSES. rewrite mem_str_spec.
  rewrite !elem_of_cons, elem_of_nil. tauto.
Qed.

(** What an entry of the scope must be for a claim to be read from it. *)
Inductive entry_reads (repr : pyval -> string) : string * pyval -> CapabilityClaim -> Prop :=
| entry_reads_intro cap entry nm st det :
    dict_get "name" entry = Some nm ->
    dict_get "status" entry = Some (PStr st) -> st ∈ STATUS_VOCAB ->
    match det with
    | Some b => dict_get "deterministic" entry = Some (PBool b)
    | None => dict_get "deterministic" entry = None \/ dict_get "deterministic" entry = Some PNone
    end ->
    entry_reads repr (cap, PDict entry)
      {| cap_id := cap; cc_name := py_str repr nm; status := st;
         gate := default PNone (dict_get "gate" entry); deterministic := det;
         scope_notes := py_str repr (default (PStr "") (dict_get "scope_notes" entry)) |}.

Lemma load_entry_spec repr item c : load_entry repr item = Ok c <-> entry_reads repr item c.
Proof.
  split.
  - destruct item as [cap [| | | | | | |entry|]]; try discriminate. unfold load_entry.
    destruct (dict_get "name" entry) as [nm|] eqn:Hn; [|discriminate].
    destruct (dict_get "status" entry) as [[| | | |st| | | |]|] eqn:Hs; try discriminate.
    destruct (mem_str st STATUS_VOCAB) eqn:Hm; [|discriminate]. apply mem_str_spec in Hm.
    destruct (dict_get "deterministic" entry) as [[|b| | | | | | |]|] eqn:Hd; try discriminate;
      cbn [rbind]; intros <-%Ok_inj; apply entry_reads_intro; eauto.
  - intros [cap' entry nm st det Hn Hs Hm Hd]. unfold load_entry. rewrite Hn, Hs.
    apply mem_str_spec in Hm. rewrite Hm.
    destruct det as [b|]; [by rewrite Hd|]. destruct Hd as [->| ->]; done.
Qed.

(** Reading a scope: one claim per entry, in order, exactly when every entry is well formed. *)
Theorem load_scope_exact repr raw cs :
  load_scope repr (Some (PDict raw)) = Ok cs <-> Forall2 (entry_reads repr) raw cs.
Proof.
  cbn [load_scope]. revert cs. induction raw as [|e raw IH]; intros cs; cbn [map sequence].
  - split; [intros <-%Ok_inj; constructor|]. intros H. by inversion H.
  - split.
    + intros H. apply rbind_ok in H as (c & Hc & H). apply rbind_ok in H as (r & Hr & <-%Ok_inj).
      constructor; [by apply load_entry_spec|by apply IH].
    + inversion 1 as [|x c l r Hc Hr]; subst. apply load_entry_spec in Hc. apply IH in Hr.
      by rewrite Hc, Hr.
Qed.

Lemma filter_nothing {A} (p : A -> bool) l : (forall x, x ∈ l -> p x = false) -> List.filter p l = [].
Proof.
  induction l as [|x l IH]; [done|]. intros H. cbn [List.filter]. rewrite H by left.
  apply IH. intros y Hy. apply H. by right.
Qed.

(** The evidence map is accepted exactly when every DONE or PARTIAL claim names a gate whose
    file exists. *)
Theorem verify_evidence_map_exact repr gate_file claims :
  fst (verify_evidence_map repr gate_file claims) = true <->
  forall c, c ∈ claims -> status c = "DONE" \/ status c = "PARTIAL" ->
    gate c <> PNone /\ gate_file (gate_name repr c) = true.
Proof.
  unfold verify_evidence_map.
  assert (missing_of repr gate_file claims ++ no_gate_of claims = [] <->
    forall c, c ∈ claims -> gate_required c = true ->
      is_none (gate c) = false /\ gate_file (gate_name repr c) = true) as Hp.
  { unfold missing_of, no_gate_of. rewrite app_nil. split.
    - intros [Hm%map_eq_nil Hn%map_eq_nil] c Hc Hr. rewrite list_elem_of_In in Hc. split.
      + destruct (is_none (gate c)) eqn:E; [|done]. exfalso.
        apply (in_nil (a:=c)). rewrite <- Hn. apply filter_In. by rewrite Hr, E.
      + destruct (gate_file _) eqn:E; [done|]. exfalso.
        destruct (is_none (gate c)) eqn:E'.
        * apply (in_nil (a:=c)). rewrite <- Hn. apply filter_In. by rewrite Hr, E'.
        * apply (in_nil (a:=c)). rewrite <- Hm. apply filter_In. by rewrite Hr, E', E.
    - intros H. split; rewrite filter_nothing; try done; intros c Hc;
        destruct (gate_required c) eqn:Hr; try done; destruct (H c Hc Hr) as [-> E2];
        rewrite ?E2; done. }
  transitivity (missing_of repr gate_file claims ++ no_gate_of claims = []).
  { destruct (missing_of repr gate_file claims ++ no_gate_of claims); done. }
  rewrite Hp. split; intros H c Hc Hs; destruct (H c Hc) as [H1 H2]; try by apply gate_required_spec.
  - split; [|done]. intros E. by rewrite E in H1.
  - split; [|done]. by destruct (gate c).
Qed.

Lemma sorted_minus_spec a b x : x ∈ sorted_minus a b <-> x ∈ a /\ x ∉ b.
Proof.
  unfold sorted_minus. rewrite sorted_str_perm, list_elem_of_In, filter_In. unfold distinct.
  rewrite nodup_In, <- list_elem_of_In, negb_true_iff, mem_str_false. done.
Qed.

Lemma sorted_meet_spec a b x : x ∈ sorted_meet a b <-> x ∈ a /\ x ∈ b.
Proof.
  unfold sorted_meet. rewrite sorted_str_perm, list_elem_of_In, filter_In. unfold distinct.
  rewrite nodup_In, <- list_elem_of_In, mem_str_spec. done.
Qed.

(** The drift report is exact: the three lists are the two differences and the meet of the
    identifiers in scope and in the registry. *)
Theorem diff_against_registry_exact claims registry x :
  let d := diff_against_registry claims registry in
  let scope := map cap_id claims in
  (x ∈ in_registry_not_in_scope d <-> x ∈ registry /\ x ∉ scope) /\
  (x ∈ in_scope_not_in_registry d <-> x ∈ scope /\ x ∉ registry) /\
  (x ∈ in_both d <-> x ∈ scope /\ x ∈ registry).
Proof. cbn. by rewrite !sorted_minus_spec, sorted_meet_spec. Qed.

Lemma count_cons p c cs : count p (c :: cs) = (if p c then 1 else 0) + count p cs.
Proof. unfold count. cbn [List.filter]. destruct (p c); cbn [length]; lia. Qed.

Lemma dict_get_set {V} k k' (v : V) d :
  dict_get k (dict_set k' v d) = if str_eqb k k' then Some v else dict_get k d.
Proof.
  induction d as [|[x w] d IH]; cbn [dict_set dict_get].
  - done.
  - destruct (str_eqb k' x) eqn:E; cbn [dict_get].
    + apply str_eqb_spec in E as ->. by destruct (str_eqb k x).
    + rewrite IH. destruct (str_eqb k k') eqn:E2; [|done].
      apply str_eqb_spec in E2 as ->. by rewrite E.
Qed.

Lemma count_status_get k k' d : default 0 (dict_get k (count_status k' d)) =
  default 0 (dict_get k d) + (if str_eqb k' k then 1 else 0).
Proof.
  unfold count_status. rewrite dict_get_set. destruct (str_eqb k k') eqn:E.
  - apply str_eqb_spec in E as ->. rewrite str_eqb_refl. cbn. lia.
  - apply str_eqb_false in E. assert (str_eqb k' k = false) as -> by (apply str_eqb_false; congruence).
    cbn. lia.
Qed.

Lemma summarize_fold claims s0 k :
  let s := fold_left summarize_step claims s0 in
  total s = total s0 /\
  default 0 (dict_get k (by_status s)) = default 0 (dict_get k (by_status s0)) + count (has_status k) claims /\
  det_true s = det_true s0 + count (fun c => bool_decide (deterministic c = Some true)) claims /\
  det_false s = det_false s0 + count (fun c => bool_decide (deterministic c = Some false)) claims /\
  det_none s = det_none s0 + count (fun c => bool_decide (deterministic c = None)) claims /\
  evidenced s = evidenced s0 + count claim_evidenced claims.
Proof.
  revert s0. induction claims as [|c cs IH]; intros s0; cbn [fold_left].
  - unfold count. cbn. repeat split; lia.
  - destruct (IH (summarize_step s0 c)) as (H1 & H2 & H3 & H4 & H5 & H6). cbv zeta.
    rewrite H1, H2, H3, H4, H5, H6, !count_cons. cbn [summarize_step total by_status det_true det_false det_none evidenced].
    rewrite count_status_get. change (str_eqb (status c) k) with (has_status k c). split_and!; lia.
Qed.

(** The summary counts what it says it counts, and a map that is accepted leaves no DONE or
    PARTIAL claim outside the evidenced ones. *)
Theorem summarize_counts repr gate_file claims k :
  let s := summarize_claims claims in
  default 0 (dict_get k (by_status s)) = count (has_status k) claims /\
  det_true s + det_false s + det_none s = total s /\
  evidenced s = count claim_evidenced claims /\ evidenced s + unevidenced s = total s /\
  (fst (verify_evidence_map repr gate_file claims) = true -> evidenced s = count gate_required claims).
Proof.
  unfold summarize_claims. cbv zeta. destruct (summarize_fold claims {| total := Z.of_nat (length claims);
    by_status := map (fun s => (s, 0)) STATUS_VOCAB; det_true := 0; det_false := 0; det_none := 0;
    evidenced := 0; unevidenced := 0 |} k) as (H1 & H2 & H3 & H4 & H5 & H6). cbv zeta in *.
  cbn [total by_status det_true det_false det_none evidenced unevidenced] in *.
  rewrite H1, H2, H3, H4, H5, H6. split_and!.
  - assert (default 0 (dict_get k (map (fun s => (s, 0)) STATUS_VOCAB)) = 0) as ->; [|lia].
    cbn. by repeat case_match.
  - clear. induction claims as [|c cs IH]; [done|]. rewrite !count_cons. cbn [length].
    rewrite Nat2Z.inj_succ. destruct (deterministic c) as [[]|]; repeat case_bool_decide;
      try congruence; lia.
  - lia.
  - lia.
  - intros Hv. rewrite verify_evidence_map_exact in Hv. rewrite Z.add_0_l.
    unfold count. do 2 f_equal. apply filter_ext_in. intros c Hc.
    unfold claim_evidenced. destruct (gate_required c) eqn:Hr; [|done].
    apply list_elem_of_In in Hc. apply gate_required_spec in Hr. destruct (Hv c Hc Hr) as [Hg _].
    by destruct (gate c).
Qed.

(** * Facts about the authority checks *)

(** An authority without which the effect is not admitted. *)
Definition cut_authority (chain : list string) (admissibility : list string -> bool) (A : string) : Prop :=
  A ∈ chain /\ admissibility (without A chain) = false.

Lemma reconstruct_auth_spec chain adm A : A ∈ reconstruct_auth chain adm <-> cut_authority chain adm A.
Proof.
  unfold reconstruct_auth, cut_authority.
  rewrite elem_of_list_to_set, list_elem_of_In, filter_In, negb_true_iff, <- list_elem_of_In. done.
Qed.

Lemma without_only A : without A [A] = [].
Proof. unfold without. cbn. by rewrite str_eqb_refl. Qed.

Lemma route_spec v :
  (v = "c_c.v1" /\ route_version v = "v1-rule") \/ (v = "c_c.v2" /\ route_version v = "v2-rule") \/
  (v <> "c_c.v1" /\ v <> "c_c.v2" /\ route_version v = "FAIL-CLOSED").
Proof.
  unfold route_version. destruct (str_eqb v "c_c.v1") eqn:E1; [apply str_eqb_spec in E1; auto|].
  destruct (str_eqb v "c_c.v2") eqn:E2; [apply str_eqb_spec in E2; auto|].
  apply str_eqb_false in E1, E2. auto.
Qed.

Lemma differences_empty (X Y : gset string) : X ∖ Y = ∅ -> Y ∖ X = ∅ -> forall x, x ∈ X <-> x ∈ Y.
Proof.
  intros H1 H2 x.
  assert (x ∉ X ∖ Y /\ x ∉ Y ∖ X) as [Hx Hy] by (rewrite H1, H2; set_solver).
  rewrite elem_of_difference in Hx, Hy. destruct (decide (x ∈ X)), (decide (x ∈ Y)); tauto.
Qed.

(** With verification enabled a receipt is legit exactly when it is a version 1 receipt of one
    authority that the effect needs, or a version 2 receipt whose claimed authorities are the
    authorities the effect needs, none omitted and none added; every other one is refused. *)
Theorem verify_a1_exact chain claim adm :
  let v := verify_a1 chain claim adm {| a1_enabled := true |} in
  (v = Ok "legit" <->
    (cc_version claim = "c_c.v1" /\ exists A, chain = [A] /\ adm [] = false) \/
    (cc_version claim = "c_c.v2" /\
     forall A, A ∈ claimed_authorities claim <-> cut_authority chain adm A)) /\
  (v <> Ok "legit" -> exists reason, v = refuse reason).
Proof.
  cbv zeta. unfold verify_a1. cbn [a1_enabled negb].
  destruct (route_spec (cc_version claim)) as [[Hc ->]|[[Hc ->]|(H1 & H2 & ->)]]; cbn [str_eqb];
    rewrite ?Hc.
  - change (str_eqb "v1-rule" "FAIL-CLOSED") with false. cbv iota. rewrite str_eqb_refl.
    destruct chain as [|A [|B chain]]; cycle 1.
    + case_bool_decide as Hin; rewrite reconstruct_auth_spec in Hin; unfold cut_authority in Hin;
        rewrite without_only in Hin; (split; [|try done; by eexists]).
      * split; [|done]. intros _. left. split; [done|]. exists A. split; [done|apply Hin].
      * split; [done|]. intros [(_ & A' & [= <-] & Ha)|[[=] _]]. destruct Hin. split; [left|done].
    + split; [|by eexists]. split; [done|]. intros [(_ & A' & [=] & _)|[[=] _]].
    + split; [|by eexists]. split; [done|]. intros [(_ & A' & [=] & _)|[[=] _]].
  - change (str_eqb "v2-rule" "FAIL-CLOSED") with false. change (str_eqb "v2-rule" "v1-rule") with false.
    cbv iota.
    case_bool_decide as Ho; [|case_bool_decide as Hp]; (split; [|try done; by eexists]); split; try done.
    + intros [[[=] _]|[_ Heq]]. destruct Ho. apply set_eq. intros A.
      rewrite elem_of_difference, elem_of_list_to_set, reconstruct_auth_spec, Heq. set_solver.
    + intros [[[=] _]|[_ Heq]]. destruct Hp. apply set_eq. intros A.
      rewrite elem_of_difference, elem_of_list_to_set, reconstruct_auth_spec, Heq. set_solver.
    + intros _. right. split; [done|]. intros A.
      rewrite <- reconstruct_auth_spec, (differences_empty _ _ Ho Hp A).
      by rewrite elem_of_list_to_set.
  - rewrite str_eqb_refl. split; [|by eexists]. split; [done|]. intros [[H _]|[H _]]; done.
Qed.

(** With verification off nothing is refused. *)
Lemma a1_disabled chain claim adm :
  verify_a1 chain claim adm {| a1_enabled := false |} = Ok "a1-disabled".
Proof. done. Qed.

(** Two authorities that each suffice are neither of them needed: the receipt that claims none
    is the legit one, and the one that claims both is refused. *)
Example redundant_authorities_unclaimed :
  let chain := ["A"; "B"] in let adm := fun l : list string => negb (Nat.eqb (length l) 0) in
  let claim l := {| claimed_authorities := l; cc_version := "c_c.v2"; stage_authorities := [] |} in
  verify_a1 chain (claim []) adm {| a1_enabled := true |} = Ok "legit" /\
  verify_a1 chain (claim chain) adm {| a1_enabled := true |} = refuse "A1-NONCUTSET-CLAIM".
Proof. vm_compute. done. Qed.

(** Closes a branch of [rho_hardened] that refuses. *)
Ltac rho_refused :=
  split; [split; [discriminate | intros (? & ? & ? & ? & ? & [= ->] & ? & ? & ?); (congruence || lia)]
         | by eexists].

(** A reused authority is admitted exactly when the boundary is well formed, the stamp is of the
    reuse position and attested, the authority is canonical, and the effect needs it still. *)
Theorem rho_hardened_exact b stamp :
  let v := rho_hardened b stamp {| rho_enabled := true |} in
  (v = Ok "admit" <->
    t0 b < t1 b /\ binding_at_t0 b = true /\ t1_references_t0 b = true /\
    canonical (rb_authority b) = true /\
    exists s, stamp = Some s /\ evaluated_at_position s = t1 b /\ attested_honest s = true /\
      reachable_without_A s = false) /\
  (v <> Ok "admit" -> exists reason, v = refuse reason).
Proof.
  unfold rho_hardened, _check_E1_boundary_validity, _check_E2_freshness, _check_E3_canonical, refuse.
  cbn [rho_enabled negb]. cbv zeta. rewrite Z.gtb_ltb.
  destruct (Z.ltb_spec (t0 b) (t1 b)); cbn [rbind]; [|rho_refused].
  destruct (binding_at_t0 b); cbn [rbind]; [|rho_refused].
  destruct (t1_references_t0 b); cbn [rbind]; [|rho_refused].
  destruct stamp as [s|]; cbn [rbind]; [|rho_refused].
  destruct (Z.eqb_spec (evaluated_at_position s) (t1 b)); cbn [rbind]; [|rho_refused].
  destruct (attested_honest s) eqn:Ha; cbn [rbind]; [|rho_refused].
  destruct (canonical (rb_authority b)); cbn [rbind]; [|rho_refused].
  destruct (reachable_without_A s) eqn:Hr; [rho_refused|].
  split; [|done]. split; [|done]. intros _. split_and!; try done. by exists s.
Qed.
