(* ===== verification/CkCanon.v ===== *)
(** CK-CANON-0.1 ([tools/smh/ck_canon.py]): the canonical bytes of a value of the restricted
    value model and the domain-separated hash of them. *)
From S2P Require Import Prelude Json Sha256 Binding BindingM2.

(** * UTF-8 and UTF-16 *)

(** The code points of a text; [None] on bytes that no Python [str] encodes to. *)
Fixpoint code_points (s : string) : option (list N) :=
  match s with
  | EmptyString => Some []
  | String c s1 =>
      let n := N_of_ascii c in
      if (n <? 128)%N then let? l := code_points s1 in Some (n :: l)
      else match s1 with
      | String c1 s2 =>
          let n1 := N_of_ascii c1 in
          if negb (is_cont n1) then None else
          if ((194 <=? n) && (n <? 224))%N then
            let? l := code_points s2 in Some (((n - 192) * 64 + (n1 - 128))%N :: l)
          else match s2 with
          | String c2 s3 =>
              let n2 := N_of_ascii c2 in
              if negb (is_cont n2) then None else
              if ((224 <=? n) && (n <? 240))%N then
                let cp := ((n - 224) * 4096 + (n1 - 128) * 64 + (n2 - 128))%N in
                if ((cp <? 2048) || ((55296 <=? cp) && (cp <? 57344)))%N then None else
                let? l := code_points s3 in Some (cp :: l)
              else match s3 with
              | String c3 s4 =>
                  let n3 := N_of_ascii c3 in
                  if negb (is_cont n3) then None else
                  let cp := ((n - 240) * 262144 + (n1 - 128) * 4096
                             + (n2 - 128) * 64 + (n3 - 128))%N in
                  if ((n <? 240) || (cp <? 65536) || (1114112 <=? cp))%N then None else
                  let? l := code_points s4 in Some (cp :: l)
              | EmptyString => None
              end
          | EmptyString => None
          end
      | EmptyString => None
      end
  end.

Definition be16 (n : N) : string := String (ascii_of_N (n / 256)) (String (ascii_of_N (n mod 256)) "").
Definition utf16_cp (n : N) : string :=
  if (n <? 65536)%N then be16 n
  else be16 (55296 + (n - 65536) / 1024)%N +:+ be16 (56320 + (n - 65536) mod 1024)%N.

(** [k.encode("utf-16-be")] of a text. *)
Definition utf16_be (s : string) : string :=
  match code_points s with Some l => concat_str (map utf16_cp l) | None => s end.

(** * The serializer *)

Definition _MAX_SAFE : Z := 2 ^ 53 - 1.

Definition canon_error {A} (reason : string) : result exn A := Err (Exn CanonErrorC reason).

Section canon.
Context {U : Unicode}.

Definition _escape_string (s : string) : string := quote (esc_utf8 (nfc s)).

Definition _encode_integer (n : Z) : result exn string :=
  guard* Z.abs n <=? _MAX_SAFE else Exn CanonErrorC "oversized_integer_as_number" in
  Ok (str_of_Z n).

Definition by_utf16 {V} (kv : string * V) : string := utf16_be (fst kv).

Definition member (kt : string * result exn string) : result exn string :=
  let* t := snd kt in Ok (_escape_string (fst kt) +:+ ":" +:+ t).

Fixpoint _serialize (v : pyval) : result exn string :=
  match v with
  | PBool true => Ok "true"
  | PBool false => Ok "false"
  | PNone => Ok "null"
  | PStr s => Ok (_escape_string s)
  | PFloat _ => canon_error "float_present"
  | PInt z => _encode_integer z
  | PDict d =>
      let* ms := sequence (map member (sort_by by_utf16 (map (fun kv => (fst kv, _serialize (snd kv))) d))) in
      Ok ("{" +:+ join "," ms +:+ "}")
  | PList l | PTuple l =>
      let* ts := sequence (map _serialize l) in Ok ("[" +:+ join "," ts +:+ "]")
  | PObj => canon_error "unsupported_type"
  end.

(** The governance region: a dictionary without its top-level [ext]. *)
Definition strip_ext (v : pyval) : pyval :=
  match v with
  | PDict d => PDict (List.filter (fun kv => negb (str_eqb (fst kv) "ext")) d)
  | v => v
  end.

Definition canonical_bytes (v : pyval) : result exn string := _serialize (strip_ext v).

Definition nul : ascii := "000".

Definition domain_hash (domain_tag : string) (v : pyval) : result exn string :=
  guard* is_ascii_str domain_tag else Exn CanonErrorC "bad_domain_tag" in
  let* cb := canonical_bytes v in
  Ok (sha256_hex (domain_tag +:+ String nul cb)).

Definition ref_form (domain_tag : string) (v : pyval) : result exn string :=
  let* h := domain_hash domain_tag v in Ok (domain_tag +:+ ":" +:+ h).
End canon.

(** * Code points and the order of the keys *)

(** A Unicode scalar value. *)
Definition scalar (n : N) : Prop := (n < 1114112)%N /\ (n < 55296 \/ 57344 <= n)%N.

Lemma code_points_cons (n : N) l rest : (let? k := l in Some (n :: k)) = Some rest ->
  exists k, l = Some k /\ rest = n :: k.
Proof. destruct l as [k|]; [|done]. intros [= <-]. eauto. Qed.

Lemma utf8_enc_1 c : (N_of_ascii c < 128)%N -> utf8_enc (N_of_ascii c) = String c "".
Proof.
  intros H. unfold utf8_enc. destruct (N.ltb_spec (N_of_ascii c) 128); [|lia].
  by rewrite ascii_N_embedding.
Qed.

(** A text is the encoding of its code points. *)
Lemma code_points_enc s l : code_points s = Some l ->
  s = concat_str (map utf8_enc l) /\ Forall scalar l.
Proof.
  remember (String.length s) as n eqn:Hn. revert s l Hn.
  induction (lt_wf n) as [n _ IH]. intros s l -> H.
  assert (IH' : forall s' l', (String.length s' < String.length s)%nat -> code_points s' = Some l' ->
    s' = concat_str (map utf8_enc l') /\ Forall scalar l') by (intros; by eapply IH).
  clear IH. destruct s as [|c s1]; cbn [code_points] in H; [injection H as <-; split; [done|constructor]|].
  destruct (N_of_ascii c <? 128)%N eqn:E0; bool_to_prop.
  { apply code_points_cons in H as (k & Hk & ->). destruct (IH' s1 k ltac:(cbn; lia) Hk) as [-> ?].
    cbn [map concat_str]. rewrite utf8_enc_1 by done. split; [done|].
    constructor; [split; lia|done]. }
  destruct s1 as [|c1 s2]; [done|].
  destruct (is_cont (N_of_ascii c1)) eqn:E1; cbn [negb] in H; [|done].
  destruct ((194 <=? N_of_ascii c) && (N_of_ascii c <? 224))%N eqn:E2; bool_to_prop.
  { apply code_points_cons in H as (k & Hk & ->). destruct (IH' s2 k ltac:(cbn; lia) Hk) as [-> ?].
    cbn [map concat_str]. rewrite utf8_enc_2 by lia. split; [done|].
    constructor; [split; lia|done]. }
  destruct s2 as [|c2 s3]; [done|].
  destruct (is_cont (N_of_ascii c2)) eqn:E3; cbn [negb] in H; [|done].
  destruct ((224 <=? N_of_ascii c) && (N_of_ascii c <? 240))%N eqn:E4; bool_to_prop.
  { destruct (_ || _) eqn:E5 in H; [done|]; bool_to_prop.
    apply code_points_cons in H as (k & Hk & ->). destruct (IH' s3 k ltac:(cbn; lia) Hk) as [-> ?].
    cbn [map concat_str]. rewrite (utf8_enc_3 c c1 c2) by lia. split; [done|].
    constructor; [split; lia|done]. }
  destruct s3 as [|c3 s4]; [done|].
  destruct (is_cont (N_of_ascii c3)) eqn:E5; cbn [negb] in H; [|done].
  destruct (_ || _) eqn:E6 in H; [done|]; bool_to_prop.
  apply code_points_cons in H as (k & Hk & ->). destruct (IH' s4 k ltac:(cbn; lia) Hk) as [-> ?].
  cbn [map concat_str]. rewrite (utf8_enc_4 c c1 c2 c3) by lia. split; [done|].
  constructor; [split; lia|done].
Qed.

Lemma be16_inj n m r r' : (n < 65536)%N -> (m < 65536)%N ->
  (be16 n +:+ r = be16 m +:+ r')%string -> n = m /\ r = r'.
Proof.
  intros Hn Hm H. unfold be16 in H. cbn [String.append] in H. injection H as H1 H2 ->.
  apply (f_equal N_of_ascii) in H1, H2. rewrite !N_ascii_embedding in H1, H2
    by (first [apply N.Div0.div_lt_upper_bound | pose proof (N.mod_lt n 256); pose proof (N.mod_lt m 256)]; lia).
  split; [|done]. rewrite (N.div_mod n 256), (N.div_mod m 256) by done. congruence.
Qed.

Lemma utf16_cp_inj n m r r' : scalar n -> scalar m ->
  (utf16_cp n +:+ r = utf16_cp m +:+ r')%string -> n = m /\ r = r'.
Proof.
  intros [Hn Hn'] [Hm Hm'] H. unfold utf16_cp in H.
  assert (forall x, (65536 <= x < 1114112)%N ->
    (55296 <= 55296 + (x - 65536) / 1024 < 56320)%N /\
    (56320 + (x - 65536) mod 1024 < 57344)%N /\
    x = (65536 + (x - 65536) / 1024 * 1024 + (x - 65536) mod 1024)%N) as Hs.
  { intros x Hx. pose proof (N.div_mod (x - 65536) 1024 ltac:(done)).
    pose proof (N.mod_lt (x - 65536) 1024 ltac:(done)).
    assert ((x - 65536) / 1024 < 1024)%N by (apply N.Div0.div_lt_upper_bound; lia). lia. }
  destruct (N.ltb_spec n 65536) as [Ln|Ln], (N.ltb_spec m 65536) as [Lm|Lm]; rewrite ?string_app_assoc in H.
  - by apply be16_inj in H.
  - destruct (Hs m) as (? & ? & ?); [lia|]. apply be16_inj in H as [? _]; lia.
  - destruct (Hs n) as (? & ? & ?); [lia|]. apply be16_inj in H as [? _]; lia.
  - destruct (Hs n) as (? & ? & En); [lia|]. destruct (Hs m) as (? & ? & Em); [lia|].
    apply be16_inj in H as [Hq H]; [|lia..]. apply be16_inj in H as [Hq2 ->]; [|lia..].
    split; [|done]. rewrite En, Em. lia.
Qed.

Lemma utf16_cp_cons n : exists c s, utf16_cp n = String c s.
Proof. unfold utf16_cp, be16. case_match; cbn [String.append]; eauto. Qed.

Lemma utf16_inj l k : Forall scalar l -> Forall scalar k ->
  concat_str (map utf16_cp l) = concat_str (map utf16_cp k) -> l = k.
Proof.
  intros Hl. revert k. induction Hl as [|n l Hn Hl IH]; intros [|m k] Hk H; cbn [map concat_str] in H.
  - done.
  - destruct (utf16_cp_cons m) as (c & s & E). by rewrite E in H.
  - destruct (utf16_cp_cons n) as (c & s & E). by rewrite E in H.
  - apply Forall_cons in Hk as [Hm Hk]. apply utf16_cp_inj in H as [-> H]; [|done|done].
    f_equal. by apply IH.
Qed.

(** What a Python [str] without lone surrogates encodes to. *)
Definition text (s : string) : bool := bool_decide (is_Some (code_points s)).

(** The sort key separates keys that differ. *)
Lemma utf16_be_inj s t : text s = true -> text t = true -> utf16_be s = utf16_be t -> s = t.
Proof.
  unfold text, utf16_be. rewrite !bool_decide_eq_true. intros [l Hl] [k Hk]. rewrite Hl, Hk.
  apply code_points_enc in Hl as [-> Hl]. apply code_points_enc in Hk as [-> Hk].
  intros ->%utf16_inj; done.
Qed.

Lemma by_utf16_nodup {V} (d : list (string * V)) : Forall (fun kv => text (fst kv) = true) d ->
  NoDup (map fst d) -> NoDup (map by_utf16 d).
Proof.
  intros Ht. induction Ht as [|kv d Hkv Ht IH]; cbn [map]; [done|].
  rewrite !NoDup_cons. intros [Hn Hd]. split; [|by apply IH].
  rewrite list_elem_of_fmap. intros (kv' & E & Hin). apply Hn.
  rewrite Forall_forall in Ht. apply utf16_be_inj in E; [|done|by apply Ht].
  apply list_elem_of_fmap. eauto.
Qed.

(** * What the canonical bytes are *)

(** The style of the canonical bytes, with the order of the keys left as it is. *)
Definition style_plain : json_style := JsonStyle "," ":" false false false.

Lemma style_plain_seps : style_seps style_plain.
Proof. split; exists ""; done. Qed.

Section canon_facts.
Context {U : Unicode}.

(** The value model: no float, no integer that a double cannot hold, nothing else than JSON. *)
Fixpoint ck_domain (v : pyval) : bool :=
  match v with
  | PInt z => Z.abs z <=? _MAX_SAFE
  | PFloat _ | PObj => false
  | PList l | PTuple l => forallb ck_domain l
  | PDict d => forallb (fun kv => ck_domain (snd kv)) d
  | _ => true
  end.

Definition nfc_key {V} (kv : string * V) : string * V := (nfc (fst kv), snd kv).

(** The value the canonical bytes spell: texts composed, keys in the order of their UTF-16
    units (of the keys as given). *)
Fixpoint ck_norm (v : pyval) : pyval :=
  match v with
  | PStr s => PStr (nfc s)
  | PList l | PTuple l => PList (map ck_norm l)
  | PDict d => PDict (map nfc_key (sort_by by_utf16 (map (fun kv => (fst kv, ck_norm (snd kv))) d)))
  | v => v
  end.

Lemma is_ok_sequence {E A} (l : list (result E A)) : is_ok (sequence l) = forallb is_ok l.
Proof.
  induction l as [|[a|e] l IH]; cbn [sequence rbind forallb is_ok]; [done| |done].
  rewrite <- IH. by destruct (sequence l).
Qed.

Lemma is_ok_bind {E A B} (m : result E A) (f : A -> B) : is_ok (let* a := m in Ok (f a)) = is_ok m.
Proof. by destruct m. Qed.

Lemma forallb_map_Forall {A B} (f : A -> B) (p : B -> bool) (q : A -> bool) l :
  Forall (fun x => p (f x) = q x) l -> forallb p (map f l) = forallb q l.
Proof. induction 1 as [|x l Hx _ IH]; cbn [map forallb]; congruence. Qed.

(** Serialization answers exactly on the value model. *)
Theorem serialize_total v : is_ok (_serialize v) = ck_domain v.
Proof.
  induction v as [|[]|z|r|s|l IH|l IH|d IH|] using pyval_ind'; cbn [_serialize ck_domain]; try done.
  - unfold _encode_integer. by destruct (_ <=? _).
  - rewrite is_ok_bind, is_ok_sequence. by apply forallb_map_Forall.
  - rewrite is_ok_bind, is_ok_sequence. by apply forallb_map_Forall.
  - rewrite is_ok_bind, is_ok_sequence, (sort_by_map _ by_utf16 by_utf16), !map_map by done.
    rewrite <- (forallb_perm _ _ _ (sort_by_perm by_utf16 d)).
    apply forallb_map_Forall. rewrite (sort_by_perm by_utf16 d). eapply Forall_impl; [exact IH|].
    intros kv Hkv. unfold member. cbn [snd fst]. by rewrite is_ok_bind.
Qed.

(** On it the bytes are the JSON text of the normal form. *)
Lemma serialize_dumps v : ck_domain v = true -> _serialize v = json_dumps style_plain (ck_norm v).
Proof.
  induction v as [|[]|z|r|s|l IH|l IH|d IH|] using pyval_ind'; cbn [_serialize ck_domain ck_norm json_dumps]; try done.
  - unfold _encode_integer. by intros ->.
  - intros Hd. rewrite map_map. do 2 f_equal. apply map_ext_Forall.
    rewrite forallb_forall in Hd. rewrite Forall_forall in IH |- *. intros x Hx.
    by apply IH, Hd, list_elem_of_In.
  - intros Hd. rewrite map_map. do 2 f_equal. apply map_ext_Forall.
    rewrite forallb_forall in Hd. rewrite Forall_forall in IH |- *. intros x Hx.
    by apply IH, Hd, list_elem_of_In.
  - intros Hd. rewrite !(sort_by_map _ by_utf16 by_utf16), !map_map by done.
    cbn [sort_keys style_plain]. do 2 f_equal. rewrite map_map. apply map_ext_Forall.
    rewrite (sort_by_perm by_utf16 d).
    rewrite forallb_forall in Hd. rewrite Forall_forall in IH |- *. intros x Hx.
    unfold member, dumps_member, nfc_key, dumps_str. cbn [fst snd ensure_ascii style_plain rbind].
    pose proof (proj1 (list_elem_of_In _ _) Hx) as Hin. by rewrite (IH x Hx (Hd x Hin)).
Qed.

Lemma read_form_norm v : read_form false (ck_norm v) = ck_norm v.
Proof.
  induction v as [|[]|z|r|s|l IH|l IH|d IH|] using pyval_ind'; cbn [ck_norm read_form]; try done.
  - rewrite map_map. f_equal. by apply map_ext_Forall.
  - rewrite map_map. f_equal. by apply map_ext_Forall.
  - rewrite !(sort_by_map _ by_utf16 by_utf16), !map_map by done. f_equal. apply map_ext_Forall.
    rewrite (sort_by_perm by_utf16 d). eapply Forall_impl; [exact IH|].
    intros kv Hkv. unfold nfc_key. cbn [fst snd] in *. by rewrite Hkv.
Qed.

(** Reading the canonical bytes gives the normal form, when composing the keys keeps them
    apart. *)
Theorem canonical_reads_back v t : _serialize v = Ok t -> pyval_ok (ck_norm v) = true ->
  json_loads t = Some (ck_norm v).
Proof.
  intros Ht Hok. assert (ck_domain v = true) as Hd by (by rewrite <- serialize_total, Ht).
  rewrite serialize_dumps in Ht by done.
  rewrite (json_loads_form style_plain style_plain_seps _ _ Hok Ht). f_equal. apply read_form_norm.
Qed.

(** Two values with the same canonical bytes have the same normal form. *)
Theorem canonical_bytes_commit v w t : canonical_bytes v = Ok t -> canonical_bytes w = Ok t ->
  pyval_ok (ck_norm (strip_ext v)) = true -> pyval_ok (ck_norm (strip_ext w)) = true ->
  ck_norm (strip_ext v) = ck_norm (strip_ext w).
Proof.
  unfold canonical_bytes. intros Hv Hw Ov Ow.
  apply canonical_reads_back in Hv; [|done]. apply canonical_reads_back in Hw; [|done]. congruence.
Qed.

(** ** Insertion order *)

(** Dictionaries as Python holds them: distinct keys, each of them a text. *)
Fixpoint keys_ok (v : pyval) : bool :=
  match v with
  | PList l | PTuple l => forallb keys_ok l
  | PDict d => bool_decide (NoDup (map fst d)) && forallb (fun kv => text (fst kv) && keys_ok (snd kv)) d
  | _ => true
  end.

Lemma keys_ok_eq v w : py_eq v w -> keys_ok v = keys_ok w.
Proof.
  induction 1 as [| |u v w _ IH1 _ IH2|d d' Hp|d1 k v w d2 _ IH|l1 v w l2 _ IH];
    cbn [keys_ok]; try congruence.
  - f_equal; [|by apply forallb_perm]. apply bool_decide_ext. by rewrite Hp.
  - rewrite !map_app, !forallb_app. cbn [map forallb fst snd]. by rewrite IH.
  - rewrite !forallb_app. cbn [forallb]. by rewrite IH.
Qed.

(** The order in which the keys were inserted does not show in the bytes. *)
Theorem serialize_insertion_order v w : py_eq v w -> keys_ok v = true -> _serialize v = _serialize w.
Proof.
  induction 1 as [|v w Hvw IH|u v w Huv IH1 _ IH2|d d' Hp|d1 k v w d2 Hvw IH|l1 v w l2 Hvw IH];
    intros Hok.
  - done.
  - symmetry. apply IH. by rewrite (keys_ok_eq _ _ Hvw).
  - rewrite IH1 by done. apply IH2. by rewrite <- (keys_ok_eq _ _ Huv).
  - cbn [keys_ok _serialize] in *. apply andb_true_iff in Hok as [Hnd%bool_decide_eq_true Ht].
    rewrite (sort_by_perm_eq by_utf16 _ (map (fun kv => (fst kv, _serialize (snd kv))) d')); [done| |by rewrite Hp].
    assert (map by_utf16 (map (fun kv => (fst kv, _serialize (snd kv))) d) = map by_utf16 d) as ->
      by by rewrite map_map.
    apply by_utf16_nodup; [|done]. apply Forall_forall. intros kv Hkv.
    rewrite forallb_forall in Ht. specialize (Ht kv (proj1 (list_elem_of_In _ _) Hkv)).
    by apply andb_true_iff in Ht as [? _].
  - cbn [keys_ok _serialize] in *. rewrite !map_app. cbn [map fst snd]. rewrite IH; [done|].
    rewrite forallb_app in Hok. cbn [forallb fst snd] in Hok.
    by apply andb_true_iff in Hok as [_ [_ [[_ ?]%andb_true_iff _]%andb_true_iff]%andb_true_iff].
  - cbn [keys_ok _serialize] in *. rewrite !map_app. cbn [map]. rewrite IH; [done|].
    rewrite forallb_app in Hok. cbn [forallb] in Hok.
    by apply andb_true_iff in Hok as [_ [? _]%andb_true_iff].
Qed.

(** The order and the class of the members do not show either: reading a value back from its
    JSON text keeps its canonical bytes. *)
Lemma serialize_members (d1 d2 : list (string * pyval)) :
  bool_decide (NoDup (map fst d2)) = true -> forallb (fun kv => text (fst kv)) d2 = true ->
  Permutation (map (fun kv => (fst kv, _serialize (snd kv))) d1)
    (map (fun kv => (fst kv, _serialize (snd kv))) d2) ->
  _serialize (PDict d1) = _serialize (PDict d2).
Proof.
  intros Hnd%bool_decide_eq_true Ht Hp. cbn [_serialize].
  assert (NoDup (map by_utf16 (map (fun kv => (fst kv, _serialize (snd kv))) d2))) as Hn.
  { rewrite map_map. apply by_utf16_nodup; [|done]. apply Forall_forall. intros kv Hkv.
    rewrite forallb_forall in Ht. by apply Ht, list_elem_of_In. }
  by rewrite (sort_by_perm_eq by_utf16 _ _ Hn (Permutation_sym Hp)).
Qed.

Lemma keys_ok_dict d : keys_ok (PDict d) = true -> bool_decide (NoDup (map fst d)) = true /\
  forallb (fun kv => text (fst kv)) d = true /\ (forall kv, kv ∈ d -> keys_ok (snd kv) = true).
Proof.
  cbn [keys_ok]. intros [Hnd Ht]%andb_true_iff. rewrite forallb_forall in Ht. split_and!; [done| |].
  - apply forallb_forall. intros kv Hkv. by apply Ht, andb_true_iff in Hkv as [? _].
  - intros kv Hkv%list_elem_of_In. by apply Ht, andb_true_iff in Hkv as [_ ?].
Qed.

Lemma serialize_canon v : keys_ok v = true -> _serialize (canon v) = _serialize v.
Proof.
  induction v as [|b|z|r|s|l IH|l IH|d IH|] using pyval_ind'; cbn [canon _serialize]; try done;
    intros Hok.
  1,2: rewrite map_map; do 2 f_equal; apply map_ext_Forall; cbn [keys_ok] in Hok;
    rewrite forallb_forall in Hok; rewrite Forall_forall in IH |- *; intros x Hx;
    by apply IH, Hok, list_elem_of_In.
  apply keys_ok_dict in Hok as (Hnd & Ht & Hk). apply (serialize_members _ d Hnd Ht).
  rewrite (sort_by_perm fst), map_map. apply reflexive_eq, map_ext_Forall.
  rewrite Forall_forall in IH |- *. intros kv Hkv. cbn [fst snd]. f_equal. by apply IH, Hk.
Qed.

Lemma list_filter_perm {A} (p : A -> bool) l k : Permutation l k -> Permutation (List.filter p l) (List.filter p k).
Proof.
  induction 1 as [|x l k _ IH|x y l|l m k _ IH1 _ IH2]; cbn [List.filter]; [done| | |by rewrite IH1].
  - by destruct (p x); [constructor|].
  - destruct (p x), (p y); [apply Permutation_swap|done..].
Qed.

Lemma canonical_bytes_canon d : keys_ok (PDict d) = true ->
  canonical_bytes (canon (PDict d)) = canonical_bytes (PDict d).
Proof.
  intros (Hnd & Ht & Hk)%keys_ok_dict. unfold canonical_bytes. cbn [canon strip_ext].
  set (P := fun kv : string * pyval => negb (str_eqb (fst kv) "ext")).
  apply bool_decide_eq_true in Hnd. rewrite forallb_forall in Ht.
  apply (serialize_members _ (List.filter P d)).
  - apply bool_decide_eq_true. clear Ht Hk. induction d as [|kv d IH]; [done|]. cbn [map List.filter] in *.
    apply NoDup_cons in Hnd as [Hn Hd]. destruct (P kv); [|by apply IH]. cbn [map].
    apply NoDup_cons. split; [|by apply IH]. intros Hin. apply Hn. rewrite list_elem_of_fmap in Hin |- *.
    destruct Hin as (x & E & Hx). exists x. split; [done|].
    apply list_elem_of_In, filter_In in Hx as [Hx _]. by apply list_elem_of_In.
  - apply forallb_forall. intros kv [Hkv _]%filter_In. by apply Ht.
  - transitivity (map (fun kv => (fst kv, _serialize (snd kv)))
      (List.filter P (map (fun kv => (fst kv, canon (snd kv))) d))).
    { apply Permutation_map, list_filter_perm, sort_by_perm. }
    clear Hnd Ht. induction d as [|kv d IH]; [done|]. cbn [map List.filter].
    assert (P (fst kv, canon (snd kv)) = P kv) as -> by done.
    destruct (P kv); cbn [map]; [|apply IH; intros; apply Hk; by right].
    cbn [fst snd]. rewrite serialize_canon by (apply Hk; left). constructor. apply IH. intros; apply Hk; by right.
Qed.

(** ** Canonical values *)

(** Every key is composed already. *)
Fixpoint nfc_keys (v : pyval) : bool :=
  match v with
  | PList l | PTuple l => forallb nfc_keys l
  | PDict d => forallb (fun kv => str_eqb (nfc (fst kv)) (fst kv) && nfc_keys (snd kv)) d
  | _ => true
  end.

Lemma map_id_Forall {A} (f : A -> A) l : Forall (fun x => f x = x) l -> map f l = l.
Proof. induction 1 as [|x l Hx _ IH]; cbn [map]; congruence. Qed.

Context {UL : UnicodeLaws U}.

(** Canonicalizing what was canonicalized changes nothing: the normal form of a value with
    composed keys has the bytes of the value. *)
Theorem serialize_normal v : nfc_keys v = true -> _serialize (ck_norm v) = _serialize v.
Proof.
  induction v as [|[]|z|r|s|l IH|l IH|d IH|] using pyval_ind'; cbn [ck_norm _serialize nfc_keys]; try done.
  - intros _. unfold _escape_string. by rewrite nfc_idem.
  - intros Hk. rewrite map_map. do 2 f_equal. apply map_ext_Forall.
    rewrite forallb_forall in Hk. rewrite Forall_forall in IH |- *. intros x Hx.
    by apply IH, Hk, list_elem_of_In.
  - intros Hk. rewrite map_map. do 2 f_equal. apply map_ext_Forall.
    rewrite forallb_forall in Hk. rewrite Forall_forall in IH |- *. intros x Hx.
    by apply IH, Hk, list_elem_of_In.
  - intros Hk. rewrite forallb_forall in Hk. rewrite Forall_forall in IH.
    assert (forall kv, kv ∈ d -> nfc (fst kv) = fst kv /\ _serialize (ck_norm (snd kv)) = _serialize (snd kv)) as H.
    { intros kv Hkv. specialize (Hk kv (proj1 (list_elem_of_In _ _) Hkv)).
      apply andb_true_iff in Hk as [Hk1%str_eqb_spec Hk2]. split; [done|by apply IH]. }
    rewrite (map_id_Forall nfc_key).
    2:{ rewrite (sort_by_perm by_utf16). apply Forall_map, Forall_forall. intros kv Hkv.
        unfold nfc_key. cbn [fst snd]. by rewrite (proj1 (H kv Hkv)). }
    rewrite (sort_by_map (fun kv => (fst kv, ck_norm (snd kv))) by_utf16 by_utf16), map_map by done.
    erewrite (map_ext_Forall _ (fun kv => (fst kv, _serialize (snd kv))));
      [by rewrite <- (sort_by_map _ by_utf16 by_utf16), sort_by_idemp|].
    rewrite (sort_by_perm by_utf16 d). apply Forall_forall. intros kv Hkv. cbn [fst snd].
    by rewrite (proj2 (H kv Hkv)).
Qed.
End canon_facts.

(** * The hash *)

Definition nul_free (s : string) : bool := str_forallb (fun c => negb (Ascii.eqb c nul)) s.

Lemma nul_free_app a b : nul_free (a +:+ b) = nul_free a && nul_free b.
Proof.
  induction a as [|c a IH]; [done|]. unfold nul_free in *. cbn [String.append str_forallb].
  by rewrite IH, andb_assoc.
Qed.

Lemma nul_free_join l : forallb nul_free l = true -> nul_free (join "," l) = true.
Proof.
  induction l as [|s [|s' l] IH]; [done| |].
  - cbn [forallb join]. intros [? _]%andb_true_iff. done.
  - cbn [forallb join] in *. intros [Hs Hl]%andb_true_iff. rewrite !nul_free_app, Hs.
    by apply IH.
Qed.

Lemma nul_free_esc s : nul_free (esc_utf8 s) = true.
Proof.
  induction s as [|c s IH]; [done|]. cbn [esc_utf8]. rewrite nul_free_app, IH, andb_true_r.
  by destruct c as [[] [] [] [] [] [] [] []].
Qed.

Lemma nul_free_quote s : nul_free (quote (esc_utf8 s)) = true.
Proof.
  unfold quote. change (nul_free (String dq "" +:+ (esc_utf8 s +:+ String dq "")) = true).
  by rewrite !nul_free_app, nul_free_esc.
Qed.

Lemma sequence_forall {E A} (P : A -> Prop) (l : list (result E A)) r :
  sequence l = Ok r -> (forall m a, m ∈ l -> m = Ok a -> P a) -> Forall P r.
Proof.
  revert r. induction l as [|m l IH]; intros r H HP; cbn [sequence] in H.
  - apply Ok_inj in H as <-. constructor.
  - apply rbind_ok in H as (a & Ha & H). apply rbind_ok in H as (k & Hk & <-%Ok_inj).
    constructor; [eapply HP; [left|exact Ha]|]. apply IH; [done|]. intros m' a' Hm'. apply HP. by right.
Qed.

Section hash.
Context {U : Unicode}.

(** The canonical bytes hold no NUL: the separator of the hash occurs in the tag or nowhere. *)
Lemma serialize_nul_free v t : _serialize v = Ok t -> nul_free t = true.
Proof.
  revert t. induction v as [|[]|z|r|s|l IH|l IH|d IH|] using pyval_ind'; intros t H;
    cbn [_serialize] in H; try (apply Ok_inj in H as <-; done); try discriminate.
  - unfold _encode_integer in H. destruct (_ <=? _); [|discriminate]. apply Ok_inj in H as <-.
    unfold nul_free. eapply str_forallb_impl; [|apply str_of_Z_chars].
    intros c. by destruct c as [[] [] [] [] [] [] [] []].
  - apply Ok_inj in H as <-. apply nul_free_quote.
  - apply rbind_ok in H as (ts & Hts & <-%Ok_inj). rewrite !nul_free_app, nul_free_join; [done|].
    apply forallb_forall, List.Forall_forall. eapply sequence_forall; [exact Hts|].
    intros m a (x & -> & Hx)%list_elem_of_fmap. rewrite Forall_forall in IH. by apply IH.
  - apply rbind_ok in H as (ts & Hts & <-%Ok_inj). rewrite !nul_free_app, nul_free_join; [done|].
    apply forallb_forall, List.Forall_forall. eapply sequence_forall; [exact Hts|].
    intros m a (x & -> & Hx)%list_elem_of_fmap. rewrite Forall_forall in IH. by apply IH.
  - apply rbind_ok in H as (ts & Hts & <-%Ok_inj). rewrite !nul_free_app, nul_free_join; [done|].
    apply forallb_forall, List.Forall_forall. eapply sequence_forall; [exact Hts|].
    intros m a (x & -> & Hx)%list_elem_of_fmap Hm.
    rewrite sort_by_perm, list_elem_of_fmap in Hx. destruct Hx as (kv & -> & Hkv).
    unfold member in Hm. cbn [fst snd] in Hm. apply rbind_ok in Hm as (b & Hb & <-%Ok_inj).
    rewrite Forall_forall in IH. rewrite !nul_free_app, (IH kv Hkv b Hb). unfold _escape_string.
    by rewrite nul_free_quote.
Qed.

(** The last separator is the one before a text without it. *)
Lemma last_nul a b r r' : nul_free r = true -> nul_free r' = true ->
  (a +:+ String nul r = b +:+ String nul r')%string -> a = b /\ r = r'.
Proof.
  intros Hr Hr'. revert b. induction a as [|x a IH]; intros [|y b] H; cbn [String.append] in H;
    injection H as; subst.
  - done.
  - rewrite nul_free_app in Hr. unfold nul_free in Hr at 2. cbn [str_forallb] in Hr.
    by rewrite Ascii.eqb_refl, andb_false_r in Hr.
  - rewrite nul_free_app in Hr'. unfold nul_free in Hr' at 2. cbn [str_forallb] in Hr'.
    by rewrite Ascii.eqb_refl, andb_false_r in Hr'.
  - destruct (IH b) as [-> ->]; done.
Qed.

(** What a domain hash is the digest of. *)
Definition hash_preimage (tag : string) (v : pyval) : string :=
  match canonical_bytes v with Ok cb => tag +:+ String nul cb | Err _ => "" end.

Lemma domain_hash_ok tag v h : domain_hash tag v = Ok h ->
  exists cb, canonical_bytes v = Ok cb /\ is_ascii_str tag = true /\ h = sha256_hex (hash_preimage tag v).
Proof.
  unfold domain_hash, hash_preimage. destruct (is_ascii_str tag); [|discriminate].
  intros H. apply rbind_ok in H as (cb & Hcb & <-%Ok_inj). rewrite Hcb. eauto.
Qed.

(** A domain hash commits to the tag and to the canonical bytes. *)
Theorem domain_hash_commits tag1 v1 tag2 v2 h :
  domain_hash tag1 v1 = Ok h -> domain_hash tag2 v2 = Ok h ->
  no_collision [hash_preimage tag1 v1; hash_preimage tag2 v2] ->
  tag1 = tag2 /\ canonical_bytes v1 = canonical_bytes v2.
Proof.
  intros H1 H2 Hc. apply domain_hash_ok in H1 as (b1 & Hb1 & _ & E1).
  apply domain_hash_ok in H2 as (b2 & Hb2 & _ & E2).
  assert (hash_preimage tag1 v1 = hash_preimage tag2 v2) as E.
  { apply Hc; [left|right; left|]. apply (inj hex). unfold sha256_hex in E1, E2. congruence. }
  unfold hash_preimage in E. rewrite Hb1, Hb2 in E |- *.
  apply last_nul in E as [-> ->]; [done|by eapply serialize_nul_free..].
Qed.
End hash.

(** * Limits

    A composition that maps the decomposed letter to the composed one: keys are sorted before
    they are composed, so equivalent spellings of one key give different bytes, and a dictionary
    that holds both spellings prints one key twice. *)
Definition decomposed : string := String "e" (String (ascii_of_N 204) (String (ascii_of_N 129) "")).
Definition composed : string := String (ascii_of_N 195) (String (ascii_of_N 169) "").
Definition nfc_e : Unicode := fun s => if str_eqb s decomposed then composed else s.

Lemma nfc_e_laws : UnicodeLaws nfc_e.
Proof.
  split; intros s; unfold nfc, nfc_e.
  - destruct (str_eqb s decomposed) eqn:E; [done|by rewrite E].
  - destruct (str_eqb s decomposed) eqn:E; [|done]. apply str_eqb_spec in E as ->. done.
Qed.

Example canonical_bytes_not_unique :
  let v := PDict [(decomposed, PInt 1); ("f", PInt 2)] in
  let w := PDict [(composed, PInt 1); ("f", PInt 2)] in
  ck_norm (U:=nfc_e) (PStr decomposed) = ck_norm (U:=nfc_e) (PStr composed) /\
  nfc (Unicode:=nfc_e) decomposed = composed /\
  canonical_bytes (U:=nfc_e) v <> canonical_bytes (U:=nfc_e) w /\
  is_ok (canonical_bytes (U:=nfc_e) v) = true /\ is_ok (canonical_bytes (U:=nfc_e) w) = true.
Proof. vm_compute. split_and!; done. Qed.

Example composed_keys_printed_twice :
  let v := PDict [(decomposed, PInt 1); (composed, PInt 2)] in
  keys_ok v = true /\ pyval_ok (ck_norm (U:=nfc_e) v) = false /\
  rmap json_loads (canonical_bytes (U:=nfc_e) v) = Ok (Some (PDict [(composed, PInt 2)])).
Proof. vm_compute. split_and!; done. Qed.
