(* ===== verification/SmhProjection.v ===== *)
(** The projection registry ([tools/smh/smh_projection_registry.py]): typed citations of
    canonical sources, the identity of a projection descriptor, the read-only assessment of its
    currency, and the external registry of descriptors. *)
From S2P Require Import Prelude Json Sha256 Binding BindingM2 Capability CkCanon.

Definition SMH_DESCRIPTOR_TAG : string := "smh.projection.descriptor.v1".
Definition SMH_ARCHIVE_TAG : string := "smh.archive.v1".
Definition PROJECTION_KINDS : list string :=
  ["derived_document"; "derived_index"; "lineage_projection"; "materialized_view"; "search_index"].
Definition FRESHNESS_BASES : list string := ["cited_hash_comparison"; "re_derivation"].
Definition REF_TYPES : list string := ["ck_ref"; "smh_archive_ref"; "external_hash_ref"].

Definition smh_error {A} (msg : string) : result exn A := Err (Exn SmhErrorC msg).
Definition no_attribute {A} : result exn A := Err (Exn OtherError "AttributeError").

Abbreviation dict := (list (string * pyval)).

(** [v.get(k)] and [v[k]] of a value that may be no dictionary. *)
Definition get (k : string) (v : pyval) : result exn pyval :=
  match v with PDict d => Ok (default PNone (dict_get k d)) | _ => no_attribute end.
Definition index (k : string) (v : pyval) : result exn pyval :=
  match v with
  | PDict d => match dict_get k d with Some x => Ok x | None => Err (Exn KeyError k) end
  | _ => Err (Exn TypeError "not a dictionary")
  end.
Definition is_text (v : pyval) (s : string) : bool := match v with PStr t => str_eqb t s | _ => false end.
Definition one_of (v : pyval) (l : list string) : bool := match v with PStr t => mem_str t l | _ => false end.

(** Content resolved for a citation: raw bytes, or a value of the value model. *)
Inductive content := Bytes (b : string) | Value (v : pyval).

(** The hash over raw archive bytes. *)
Definition smh_archive_hash (c : content) : result exn string :=
  match c with
  | Bytes b => Ok (sha256_hex (SMH_ARCHIVE_TAG +:+ String nul b))
  | Value _ => smh_error "smh_archive_hash: bytes required"
  end.

Definition smh_archive_ref (c : content) : result exn dict :=
  let* h := smh_archive_hash c in
  Ok [("ref_type", PStr "smh_archive_ref"); ("domain_tag", PStr SMH_ARCHIVE_TAG); ("digest", PStr h)].

Definition external_hash_ref (regime digest : string) (domain_tag : option string) : result exn dict :=
  guard* negb (str_eqb regime "") else Exn SmhErrorC "external_hash_ref: explicit regime required" in
  let r := [("ref_type", PStr "external_hash_ref"); ("regime", PStr regime); ("digest", PStr digest)] in
  Ok match domain_tag with Some t => r ++ [("domain_tag", PStr t)] | None => r end.

(** The result of verifying an envelope: its identity, or what is wrong with it. *)
Inductive verdict := Intact (id : string) | Corrupt (detail : string).

(** What is found of one cited source. *)
Inductive source_report :=
| Missing (ref_type h_cited : pyval)
| CorruptSource (ref_type : pyval) (h_self h_recomputed : string) (h_cited : pyval)
| Fresh (ref_type : pyval) (h_self : string)
| Stale (ref_type : pyval) (h_self : string) (h_cited : pyval).

Definition finding (r : source_report) : string :=
  match r with Missing _ _ => "missing" | CorruptSource _ _ _ _ => "corrupt" | Fresh _ _ => "fresh"
             | Stale _ _ _ => "stale" end.

(** What a resolver answers for a citation. *)
Record resolution := {
  present : bool;
  current : content;
  declared_identity : option string;
}.

Record assessment := {
  projection_finding : string;
  descriptor : verdict;
  sources : list source_report;
  authority_note : option string;
}.

Section projection.
Context {U : Unicode}.
(** [str] on the values whose rendering is not written out ([Capability.py_str]). *)
Context (repr : pyval -> string).

Definition value_of (c : content) : pyval := match c with Value v => v | Bytes _ => PObj end.

Definition ck_ref (domain_tag : string) (v : pyval) : result exn dict :=
  let* h := domain_hash domain_tag v in
  Ok [("ref_type", PStr "ck_ref"); ("domain_tag", PStr domain_tag); ("digest", PStr h)].

Definition content_bytes (c : content) : string :=
  match c with Bytes b => b | Value v => py_str repr v end.

Definition _recompute_source_identity (ref : pyval) (c : content) : result exn string :=
  let* t := index "ref_type" ref in
  if is_text t "ck_ref" then
    let* tag := index "domain_tag" ref in
    match tag with
    | PStr tag => domain_hash tag (value_of c)
    | _ => canon_error "bad_domain_tag"
    end
  else if is_text t "smh_archive_ref" then smh_archive_hash c
  else if is_text t "external_hash_ref" then
    let* regime := get "regime" ref in
    guard* is_text regime "sha-256" else Exn SmhErrorC "external_hash_ref: unsupported declared regime" in
    let* dt := get "domain_tag" ref in
    match dt with
    | PNone => Ok (sha256_hex (content_bytes c))
    | PStr tag =>
        guard* is_ascii_str tag else Exn ValueError "ascii" in
        Ok (sha256_hex (tag +:+ String nul (content_bytes c)))
    | _ => no_attribute
    end
  else smh_error "unknown ref_type".

(** Every reference of a list names one of the three types. *)
Fixpoint check_refs (msg : string) (refs : list pyval) : result exn unit :=
  match refs with
  | [] => Ok tt
  | r :: rs =>
      let* t := get "ref_type" r in
      guard* one_of t REF_TYPES else Exn SmhErrorC msg in check_refs msg rs
  end.

Definition make_descriptor_body (projection_kind : string) (refs : list pyval)
    (derivation_rule_ref freshness_basis : string) : result exn dict :=
  guard* mem_str projection_kind PROJECTION_KINDS else Exn SmhErrorC "bad projection_kind" in
  guard* mem_str freshness_basis FRESHNESS_BASES else Exn SmhErrorC "bad freshness_basis" in
  guard* match refs with [] => false | _ => true end
    else Exn SmhErrorC "at least one canonical_source_ref required (fail-closed)" in
  let* _ := check_refs "bad source ref type" refs in
  Ok [("projection_kind", PStr projection_kind); ("canonical_source_refs", PList refs);
      ("derivation_rule_ref", PStr derivation_rule_ref); ("freshness_basis", PStr freshness_basis);
      ("tier", PStr "WARM"); ("authoritative", PBool false)].

(** A body that carries its own identity has none. *)
Definition body_id (tag self : string) (body : dict) : result exn string :=
  guard* negb (mem_str self (map fst body))
    else Exn SmhErrorC (self +:+ " must NOT be a member of the body (self-hash forbidden)") in
  domain_hash tag (PDict body).

Definition compute_projection_id (body : dict) : result exn string :=
  body_id SMH_DESCRIPTOR_TAG "projection_id" body.

Definition make_projection_envelope (body : dict) : result exn dict :=
  guard* is_text (default PNone (dict_get "tier" body)) "WARM"
         && match dict_get "authoritative" body with Some (PBool false) => true | _ => false end
    else Exn SmhErrorC "invariant: projection tier=WARM, authoritative=false" in
  let* id := compute_projection_id body in
  Ok [("projection_id", PStr id); ("descriptor_body", PDict body)].

(** The verification both envelopes share: only the error class of this module is caught. *)
Definition check_envelope (compute : dict -> result exn string) (body_key id_key : string)
    (envelope : dict) : result exn verdict :=
  match dict_get body_key envelope, dict_get id_key envelope with
  | Some (PDict body), Some (PStr id) =>
      match compute body with
      | Ok h => Ok (if str_eqb h id then Intact id else Corrupt (id_key +:+ " mismatch"))
      | Err e => if bool_decide (exn_cls e = SmhErrorC) then Ok (Corrupt (exn_msg e)) else Err e
      end
  | _, _ => Ok (Corrupt "malformed envelope")
  end.

Definition verify_projection_envelope : dict -> result exn verdict :=
  check_envelope compute_projection_id "descriptor_body" "projection_id".

Definition assess_source (ref : pyval) (resolved : option resolution) : result exn source_report :=
  let* h_cited := get "digest" ref in
  let absent := let* t := index "ref_type" ref in Ok (Missing t h_cited) in
  match resolved with
  | None => absent
  | Some r =>
      if negb (present r) then absent else
      let* h_recomputed := _recompute_source_identity ref (current r) in
      let h_self := default h_recomputed (declared_identity r) in
      let* t := index "ref_type" ref in
      Ok (if negb (str_eqb h_recomputed h_self) then CorruptSource t h_self h_recomputed h_cited
          else if is_text h_cited h_self then Fresh t h_self else Stale t h_self h_cited)
  end.

(** Iterating over the value of [canonical_source_refs]; no character of a text and no key has
    the [get] the assessment asks of a reference. *)
Definition iter_refs (v : pyval) : result exn (list pyval) :=
  match v with
  | PList l | PTuple l => Ok l
  | PStr "" | PDict [] => Ok []
  | PStr _ | PDict _ => no_attribute
  | _ => Err (Exn TypeError "not iterable")
  end.

Definition has_finding (f : string) (found : list source_report) : bool :=
  existsb (fun r => str_eqb (finding r) f) found.

Definition currency (found : list source_report) : string :=
  if has_finding "missing" found then "undetermined_missing_source"
  else if has_finding "corrupt" found then "undetermined_corrupt_source"
  else if has_finding "stale" found then "stale" else "fresh".

Definition REBUILD_NOTE : string :=
  "resolve to cited canonical (now advanced); flag projection for rebuild".

Definition assess_projection (envelope : dict) (resolver : pyval -> option resolution) :
    result exn assessment :=
  let* v := verify_projection_envelope envelope in
  match v with
  | Corrupt _ => Ok {| projection_finding := "corrupt_descriptor"; descriptor := v; sources := [];
                       authority_note := None |}
  | Intact _ =>
      let* body := index "descriptor_body" (PDict envelope) in
      let* cited := index "canonical_source_refs" body in
      let* refs := iter_refs cited in
      let* src := sequence (map (fun r => assess_source r (resolver r)) refs) in
      let agg := currency src in
      Ok {| projection_finding := agg; descriptor := v; sources := src;
            authority_note := if str_eqb agg "stale" then Some REBUILD_NOTE else None |}
  end.
End projection.

(** * The external registry *)

(** The file of an owner: none, one that reads back as a document, or one left half-written. *)
Inductive file_state := Absent | Holds (doc : pyval) | Unreadable.

(** [ProjectionRegistry]: the index (a dictionary, unless the file held something else), whether
    it has a path, and the file of that path. *)
Record ProjectionRegistry := {
  reg_path : bool;
  reg_index : pyval;
  reg_file : file_state;
}.

(** [json.dump] of a document to the path of the owner: the file reads back as the canonical
    form of the document; a document that cannot be written leaves it half-written. *)
Definition dump_to (path : bool) (doc : pyval) (file : file_state) : result exn unit * file_state :=
  if path then
    match json_dumps style_default_sorted doc with
    | Ok _ => (Ok tt, Holds (canon doc))
    | Err e => (Err e, Unreadable)
    end
  else (Ok tt, file).

(** The member of the document in the file; the given value without a path or a file. *)
Definition load_member (member : string) (empty : pyval) (path : bool) (file : file_state) : result exn pyval :=
  if negb path then Ok empty else
  match file with
  | Absent => Ok empty
  | Holds (PDict d) => Ok (default empty (dict_get member d))
  | Holds _ => no_attribute
  | Unreadable => Err (Exn ValueError "JSONDecodeError")
  end.

Definition open_registry (path : bool) (file : file_state) : result exn ProjectionRegistry :=
  let* v := load_member "projections" (PDict []) path file in
  Ok {| reg_path := path; reg_index := v; reg_file := file |}.

Section registry.
Context {U : Unicode}.

Definition flush_registry : M ProjectionRegistry unit := fun s =>
  let '(r, f) := dump_to (reg_path s)
    (PDict [("model", PStr "smh.projection.registry.v1"); ("projections", reg_index s)]) (reg_file s) in
  (r, {| reg_path := reg_path s; reg_index := reg_index s; reg_file := f |}).

Definition register (envelope : dict) : M ProjectionRegistry string := fun s =>
  match verify_projection_envelope envelope with
  | Err e => (Err e, s)
  | Ok (Corrupt detail) =>
      (smh_error ("refusing to register a corrupt descriptor: " +:+ detail), s)
  | Ok (Intact id) =>
      match reg_index s with
      | PDict d =>
          sbind flush_registry (fun _ => sret id)
            {| reg_path := reg_path s; reg_index := PDict (dict_set id (PDict envelope) d);
               reg_file := reg_file s |}
      | _ => (Err (Exn TypeError "no item assignment"), s)
      end
  end.

Definition get_projection (id : string) (s : ProjectionRegistry) : result exn pyval := get id (reg_index s).
Definition list_ids (s : ProjectionRegistry) : result exn (list string) :=
  match reg_index s with PDict d => Ok (sorted_str (map fst d)) | _ => no_attribute end.
End registry.

(** * The identity of a projection *)

Lemma check_envelope_intact compute bk ik env id :
  check_envelope compute bk ik env = Ok (Intact id) <->
  exists body, dict_get bk env = Some (PDict body) /\ dict_get ik env = Some (PStr id) /\ compute body = Ok id.
Proof.
  unfold check_envelope. split.
  - destruct (dict_get bk env) as [[| | | | | | |body|]|]; try discriminate.
    destruct (dict_get ik env) as [[| | | |id'| | | |]|]; try discriminate.
    destruct (compute body) as [h|e] eqn:Hc.
    + destruct (str_eqb h id') eqn:E; intros [= <-]. apply str_eqb_spec in E as ->. eauto.
    + case_bool_decide; discriminate.
  - intros (body & -> & -> & ->). by rewrite str_eqb_refl.
Qed.

Section projection_facts.
Context {U : Unicode} (repr : pyval -> string).

Lemma body_id_ok tag self body h : body_id tag self body = Ok h ->
  self ∉ map fst body /\ domain_hash tag (PDict body) = Ok h.
Proof.
  unfold body_id. destruct (mem_str self (map fst body)) eqn:E; [discriminate|].
  cbn [negb]. apply mem_str_false in E. done.
Qed.

(** What is made is intact: an envelope around a body the constructor accepts verifies. *)
Theorem made_envelope_intact kind refs rule basis body env :
  make_descriptor_body kind refs rule basis = Ok body -> make_projection_envelope body = Ok env ->
  exists id, verify_projection_envelope env = Ok (Intact id) /\ dict_get "projection_id" env = Some (PStr id).
Proof.
  intros _ He. unfold make_projection_envelope in He.
  destruct (_ && _); [|discriminate]. apply rbind_ok in He as (id & Hid & <-%Ok_inj).
  exists id. split; [|done]. apply check_envelope_intact. exists body. done.
Qed.

(** * Assessment *)

Lemma has_finding_spec f l : reflect (exists r, r ∈ l /\ finding r = f) (has_finding f l).
Proof.
  apply iff_reflect. unfold has_finding. rewrite existsb_exists. setoid_rewrite str_eqb_spec.
  by setoid_rewrite list_elem_of_In.
Qed.

Lemma finding_cases r : finding r = "missing" \/ finding r = "corrupt" \/ finding r = "fresh" \/ finding r = "stale".
Proof. destruct r; cbn; auto. Qed.

(** The currency of a projection: fresh when every source is; stale when some source is behind
    an intact canonical and no source is missing or corrupt. *)
Lemma currency_fresh l : currency l = "fresh" <-> forall r, r ∈ l -> finding r = "fresh".
Proof.
  unfold currency.
  destruct (has_finding_spec "missing" l) as [(r & Hr & E)|Hm];
    [split; [done|]; intros H; by rewrite (H r Hr) in E|].
  destruct (has_finding_spec "corrupt" l) as [(r & Hr & E)|Hc];
    [split; [done|]; intros H; by rewrite (H r Hr) in E|].
  destruct (has_finding_spec "stale" l) as [(r & Hr & E)|Hs];
    [split; [done|]; intros H; by rewrite (H r Hr) in E|].
  split; [|done]. intros _ r Hr.
  destruct (finding_cases r) as [E|[E|[E|E]]]; [destruct Hm|destruct Hc| |destruct Hs]; eauto.
Qed.

Lemma currency_stale l : currency l = "stale" <->
  (forall r, r ∈ l -> finding r = "fresh" \/ finding r = "stale") /\ exists r, r ∈ l /\ finding r = "stale".
Proof.
  unfold currency.
  destruct (has_finding_spec "missing" l) as [(r & Hr & E)|Hm];
    [split; [done|]; intros [H _]; destruct (H r Hr) as [E'|E']; by rewrite E' in E|].
  destruct (has_finding_spec "corrupt" l) as [(r & Hr & E)|Hc];
    [split; [done|]; intros [H _]; destruct (H r Hr) as [E'|E']; by rewrite E' in E|].
  destruct (has_finding_spec "stale" l) as [Hs|Hs]; [|split; [done|]; by intros [_ ?]].
  split; [|done]. intros _. split; [|done]. intros r Hr.
  destruct (finding_cases r) as [E|[E|[E|E]]]; [destruct Hm|destruct Hc| |]; eauto.
Qed.

(** When a source is found fresh, its content was resolved, hashes to the digest cited, and is
    not declared to be anything else. *)
Lemma assess_source_fresh ref resolved rep : assess_source repr ref resolved = Ok rep -> finding rep = "fresh" ->
  exists r h, resolved = Some r /\ present r = true /\
    _recompute_source_identity repr ref (current r) = Ok h /\ get "digest" ref = Ok (PStr h) /\
    default h (declared_identity r) = h.
Proof.
  unfold assess_source. intros H Hf. apply rbind_ok in H as (cited & Hcited & H).
  assert ((let* t := index "ref_type" ref in Ok (Missing t cited)) <> Ok rep) as Habs.
  { intros (t & _ & <-%Ok_inj)%rbind_ok. done. }
  destruct resolved as [r|]; [|done]. destruct (present r) eqn:Hp; cbn [negb] in H; [|done].
  apply rbind_ok in H as (h & Hh & H). apply rbind_ok in H as (t & Ht & H). apply Ok_inj in H as <-.
  exists r, h. destruct (str_eqb h _) eqn:E; cbn [negb finding] in Hf; [|done].
  apply str_eqb_spec in E. destruct (is_text cited _) eqn:Et; cbn [finding] in Hf; [|done].
  split_and!; try done.
  rewrite Hcited. f_equal. destruct cited; try done. cbn in Et. apply str_eqb_spec in Et. congruence.
Qed.

(** A citation of a value, or of an archive. *)
Inductive cites : pyval -> content -> Prop :=
| cites_value tag v d : ck_ref tag v = Ok d -> cites (PDict d) (Value v)
| cites_archive b d : smh_archive_ref (Bytes b) = Ok d -> cites (PDict d) (Bytes b).

(** What the identity of a content is the digest of, under a citation. *)
Definition source_preimage (ref : pyval) (c : content) : string :=
  match c, index "domain_tag" ref with
  | Bytes b, _ => SMH_ARCHIVE_TAG +:+ String nul b
  | Value v, Ok (PStr tag) => hash_preimage tag v
  | Value _, _ => ""
  end.

Definition same_content (c c' : content) : Prop :=
  match c, c' with
  | Bytes b, Bytes b' => b = b'
  | Value v, Value w => canonical_bytes v = canonical_bytes w
  | _, _ => False
  end.

Lemma smh_archive_hash_ok c h : smh_archive_hash c = Ok h ->
  exists b, c = Bytes b /\ h = sha256_hex (SMH_ARCHIVE_TAG +:+ String nul b).
Proof. destruct c as [b|v]; [|discriminate]. intros H. apply Ok_inj in H as <-. eauto. Qed.

(** A citation found fresh cites the content that is there now. *)
Lemma fresh_source_unchanged ref c0 resolved rep : cites ref c0 ->
  assess_source repr ref resolved = Ok rep -> finding rep = "fresh" ->
  exists r, resolved = Some r /\ present r = true /\
    (no_collision [source_preimage ref c0; source_preimage ref (current r)] -> same_content c0 (current r)).
Proof.
  intros Hc H Hf. destruct (assess_source_fresh _ _ _ H Hf) as (r & h & -> & Hp & Hh & Hd & _).
  exists r. split_and!; try done. intros Hnc. destruct Hc as [tag v d Hd'|b d Hd'].
  - apply rbind_ok in Hd' as (h0 & Hh0 & <-%Ok_inj). apply Ok_inj in Hd. injection Hd as ->.
    change (domain_hash tag (value_of (current r)) = Ok h) in Hh.
    unfold source_preimage in Hnc. cbn [index dict_get] in Hnc.
    destruct (current r) as [b|w]; [|by destruct (domain_hash_commits _ _ _ _ _ Hh0 Hh Hnc)].
    apply domain_hash_ok in Hh as (cb & Hcb & _). discriminate.
  - apply rbind_ok in Hd' as (h0 & Hh0 & <-%Ok_inj). apply Ok_inj in Hd. injection Hd as ->.
    change (smh_archive_hash (current r) = Ok h) in Hh.
    apply smh_archive_hash_ok in Hh0 as (b0 & [= <-] & E0), Hh as (b1 & E & E1).
    rewrite E in Hnc |- *. cbn [source_preimage same_content] in *.
    assert (SMH_ARCHIVE_TAG +:+ String nul b = SMH_ARCHIVE_TAG +:+ String nul b1)%string as Heq.
    { apply Hnc; [left|right; left|]. apply (inj hex). unfold sha256_hex in E0, E1. congruence. }
    apply string_app_inv_l in Heq. by injection Heq.
Qed.

Lemma sequence_in {E A} (l : list (result E A)) r : sequence l = Ok r ->
  (forall a, a ∈ r -> Ok a ∈ l) /\ (forall m, m ∈ l -> exists a, m = Ok a /\ a ∈ r).
Proof.
  revert r. induction l as [|m l IH]; intros r H; cbn [sequence] in H.
  - apply Ok_inj in H as <-. split; [intros a Ha|intros m Ha]; by apply elem_of_nil in Ha.
  - apply rbind_ok in H as (a & -> & H). apply rbind_ok in H as (k & Hk & <-%Ok_inj).
    destruct (IH k Hk) as [H1 H2]. split.
    + intros x [->|Hx]%elem_of_cons; [left|right; auto].
    + intros m [->|Hm]%elem_of_cons; [exists a; split; [done|left]|].
      destruct (H2 m Hm) as (x & -> & Hx). exists x. split; [done|by right].
Qed.

(** What an assessment that answers says, with the cited references of the envelope. *)
Lemma assess_projection_ok env resolver a body refs :
  assess_projection repr env resolver = Ok a ->
  dict_get "descriptor_body" env = Some (PDict body) ->
  dict_get "canonical_source_refs" body = Some (PList refs) ->
  (exists detail, descriptor a = Corrupt detail /\ projection_finding a = "corrupt_descriptor") \/
  (exists id, descriptor a = Intact id /\ compute_projection_id body = Ok id /\
    sequence (map (fun r => assess_source repr r (resolver r)) refs) = Ok (sources a) /\
    projection_finding a = currency (sources a)).
Proof.
  unfold assess_projection. intros H Hb Hr. apply rbind_ok in H as (v & Hv & H).
  destruct v as [id|detail]; [|apply Ok_inj in H as <-; left; eauto].
  right. cbn [index] in H. rewrite Hb in H. cbn [rbind index] in H. rewrite Hr in H. cbn [rbind iter_refs] in H.
  apply rbind_ok in H as (src & Hsrc & <-%Ok_inj).
  apply check_envelope_intact in Hv as (body' & Hb' & _ & Hid). rewrite Hb in Hb'. injection Hb' as <-.
  exists id. done.
Qed.

(** A projection assessed fresh is the projection whose identity it carries, and every source it
    cites is there with the content that was cited; one assessed stale has every source intact
    and at least one that moved. *)
Theorem assess_projection_sound env resolver a body refs :
  assess_projection repr env resolver = Ok a ->
  dict_get "descriptor_body" env = Some (PDict body) ->
  dict_get "canonical_source_refs" body = Some (PList refs) ->
  (projection_finding a = "fresh" ->
    (exists id, dict_get "projection_id" env = Some (PStr id) /\ compute_projection_id body = Ok id) /\
    forall ref c0, ref ∈ refs -> cites ref c0 -> exists r, resolver ref = Some r /\ present r = true /\
      (no_collision [source_preimage ref c0; source_preimage ref (current r)] -> same_content c0 (current r))) /\
  (projection_finding a = "stale" <->
    (exists id, descriptor a = Intact id) /\
    (forall s, s ∈ sources a -> finding s = "fresh" \/ finding s = "stale") /\
    exists s, s ∈ sources a /\ finding s = "stale").
Proof.
  intros H Hb Hr. destruct (assess_projection_ok _ _ _ _ _ H Hb Hr)
    as [(detail & Hd & Hf)|(id & Hd & Hid & Hsrc & Hf)]; rewrite Hf, Hd.
  - split; [done|]. split; [done|]. by intros [[id [=]] _].
  - split; [|rewrite currency_stale; naive_solver].
    rewrite currency_fresh. intros Hall. split.
    + exists id. split; [|done]. unfold assess_projection in H. apply rbind_ok in H as (v & Hv & H).
      destruct v as [id'|]; [|apply Ok_inj in H as <-; discriminate].
      apply check_envelope_intact in Hv as (body' & Hb' & Hi & Hc). congruence.
    + intros ref c0 Hin Hc.
      destruct (sequence_in _ _ Hsrc) as [_ Hs].
      destruct (Hs (assess_source repr ref (resolver ref))) as (rep & Hrep & Hin').
      { apply list_elem_of_fmap. eauto. }
      by apply (fresh_source_unchanged ref c0 (resolver ref) rep), Hall.
Qed.
End projection_facts.

(** * The registry *)

Section registry_facts.
Context {U : Unicode}.

(** Every descriptor of the index is intact and stands under its own identity. *)
Definition registry_sound (s : ProjectionRegistry) : Prop :=
  exists d, reg_index s = PDict d /\
    forall id v, dict_get id d = Some v -> exists env, v = PDict env /\ verify_projection_envelope env = Ok (Intact id).

Lemma dict_get_set_cases {V} k k' (v : V) d w : dict_get k (dict_set k' v d) = Some w ->
  (k = k' /\ w = v) \/ (k <> k' /\ dict_get k d = Some w).
Proof.
  induction d as [|[x y] d IH]; cbn [dict_set dict_get].
  - destruct (str_eqb k k') eqn:E; [|done]. apply str_eqb_spec in E. intros [= ->]. auto.
  - destruct (str_eqb k' x) eqn:Ex; cbn [dict_get].
    + apply str_eqb_spec in Ex as ->. destruct (str_eqb k x) eqn:E.
      * apply str_eqb_spec in E. intros [= ->]. auto.
      * apply str_eqb_false in E. auto.
    + destruct (str_eqb k x) eqn:E; [|done]. apply str_eqb_spec in E as ->. intros [= ->].
      apply str_eqb_false in Ex. right. split; congruence || done.
Qed.

Lemma dict_get_set_there {V} k (v : V) d : dict_get k (dict_set k v d) = Some v.
Proof.
  induction d as [|[x y] d IH]; cbn [dict_set dict_get]; [by rewrite str_eqb_refl|].
  destruct (str_eqb k x) eqn:E; cbn [dict_get]; by rewrite E.
Qed.

Lemma flush_index s : reg_index (snd (flush_registry s)) = reg_index s.
Proof. unfold flush_registry. by destruct (dump_to _ _ _). Qed.

(** Registering keeps the registry sound, whatever is offered; what is refused is not recorded,
    and what is recorded is found under its identity. *)
Theorem register_sound env s : registry_sound s ->
  registry_sound (snd (register env s)) /\
  ((forall id, verify_projection_envelope env <> Ok (Intact id)) -> snd (register env s) = s) /\
  (forall id, fst (register env s) = Ok id ->
     verify_projection_envelope env = Ok (Intact id) /\
     get_projection id (snd (register env s)) = Ok (PDict env)).
Proof.
  intros (d & Hd & Hs). unfold register.
  destruct (verify_projection_envelope env) as [[id|detail]|e] eqn:Hv.
  2,3: split_and!; [exists d; done|done|intros id; discriminate].
  rewrite Hd. set (s1 := {| reg_path := _; reg_index := _; reg_file := _ |}).
  assert (snd (sbind flush_registry (fun _ => sret id) s1) = snd (flush_registry s1) /\
    (forall id', fst (sbind flush_registry (fun _ => sret id) s1) = Ok id' -> id' = id)) as [Hf Hid].
  { unfold sbind. destruct (flush_registry s1) as [[[]|e] s2]; (split; [done|]); intros id'; [|discriminate].
    intros E. by apply Ok_inj in E. }
  rewrite Hf. split_and!.
  - exists (dict_set id (PDict env) d). rewrite flush_index. split; [done|].
    intros id' v [[-> ->]|[_ H]]%dict_get_set_cases; [eauto|by apply Hs].
  - intros H. by destruct (H id).
  - intros id' ->%Hid. split; [done|]. unfold get_projection. rewrite flush_index.
    cbn [reg_index s1 get]. by rewrite dict_get_set_there.
Qed.

(** An identity stands for one body. *)
Theorem projection_id_commits body1 body2 id :
  compute_projection_id body1 = Ok id -> compute_projection_id body2 = Ok id ->
  no_collision [hash_preimage SMH_DESCRIPTOR_TAG (PDict body1); hash_preimage SMH_DESCRIPTOR_TAG (PDict body2)] ->
  canonical_bytes (PDict body1) = canonical_bytes (PDict body2).
Proof.
  intros [_ H1]%body_id_ok [_ H2]%body_id_ok Hc. by destruct (domain_hash_commits _ _ _ _ _ H1 H2 Hc).
Qed.
End registry_facts.

(** * Limits

    Only the error class of this module is caught: a body with a float is no corrupt descriptor,
    the verification raises.  A body without references, which the constructor refuses, is read
    from a file as a projection that is fresh. *)
Example float_body_escapes :
  let env := [("projection_id", PStr "0"); ("descriptor_body", PDict [("x", PFloat "1.5")])] in
  verify_projection_envelope (U:=nfc_id) env = Err (Exn CanonErrorC "float_present").
Proof. reflexivity. Qed.

Example no_sources_fresh :
  let body := [("canonical_source_refs", PList [])] in
  (let* id := compute_projection_id (U:=nfc_id) body in
   let env := [("projection_id", PStr id); ("descriptor_body", PDict body)] in
   rmap projection_finding (assess_projection (U:=nfc_id) (fun _ => "") env (fun _ => None))) = Ok "fresh".
Proof. vm_compute. reflexivity. Qed.
