(* ===== verification/SmhLedger.v ===== *)
(** The tier-transition ledger ([tools/smh/smh_tier_ledger.py]) and the hooks that record
    movements of archives in it ([tools/smh/smh_emission_hooks.py],
    [tools/smh/emit_release_receipt.py]). *)
From S2P Require Import Prelude Json Sha256 Binding BindingM2 Receipt CkCanon SmhProjection.

Definition TIER_TRANSITION_TAG : string := "smh.tier.transition.receipt.v1".
Definition MOVEMENT_KINDS : list string :=
  ["hydration"; "eviction"; "tier_transition"; "projection_rebuild"; "deep_export"; "restore"].
Definition TIERS : list string := ["HOT"; "WARM"; "COLD"; "DEEP"].

(** Receipt classes. *)
Inductive receipt_class := REQUIRED | OPTIONAL | NO_RECEIPT.
#[export] Instance receipt_class_eq_dec : EqDecision receipt_class.
Proof. solve_decision. Defined.

Definition classify_movement (movement : string) (eviction_target : option string) : result exn receipt_class :=
  if mem_str movement ["hot_frontier_update"; "readonly_cold_access"] then Ok NO_RECEIPT
  else if str_eqb movement "hydration" then Ok REQUIRED
  else if str_eqb movement "deep_export" then Ok REQUIRED
  else if str_eqb movement "restore" then Ok REQUIRED
  else if str_eqb movement "eviction" then
    match eviction_target with
    | Some "canonical" => Ok REQUIRED
    | Some "rebuildable_projection" => Ok OPTIONAL
    | _ => smh_error "eviction requires eviction_target in {canonical, rebuildable_projection}"
    end
  else if str_eqb movement "tier_transition" then Ok OPTIONAL
  else if str_eqb movement "projection_rebuild" then Ok OPTIONAL
  else smh_error "unknown movement".

Definition is_tier (t : option string) : bool := match t with Some t => mem_str t TIERS | None => false end.
Definition opt_text (t : option string) : pyval := match t with Some t => PStr t | None => PNone end.

Definition make_receipt_body (movement_kind : string) (from_tier to_tier : option string)
    (subject_refs : list pyval) (prior_ref : pyval) : result exn dict :=
  guard* mem_str movement_kind MOVEMENT_KINDS else Exn SmhErrorC "bad movement_kind" in
  guard* is_tier from_tier && is_tier to_tier else Exn SmhErrorC "bad tier" in
  guard* match subject_refs with [] => false | _ => true end
    else Exn SmhErrorC "at least one subject_ref required (fail-closed)" in
  let* _ := check_refs "bad subject ref type" subject_refs in
  let body := [("movement_kind", PStr movement_kind); ("from_tier", opt_text from_tier);
               ("to_tier", opt_text to_tier); ("subject_refs", PList subject_refs)] in
  Ok match prior_ref with PNone => body | p => body ++ [("prior_ref", p)] end.

(** [TierTransitionLedger]: the chain (a list, unless the file held something else), whether it
    has a path, and the file of that path. *)
Record TierTransitionLedger := {
  led_path : bool;
  led_chain : pyval;
  led_file : file_state;
}.

(** What [record_movement] answers. *)
Record movement_result := {
  emitted : bool;
  mv_class : receipt_class;
  mv_receipt_id : option string;
}.

(** What [verify_chain] answers. *)
Inductive chain_report :=
| ChainValid (n : Z)
| ChainCorrupt (at_ : Z) (detail : string)
| ChainBroken (at_ : Z) (expected got : pyval).

Section ledger.
Context {U : Unicode}.

Definition compute_receipt_id (body : dict) : result exn string :=
  body_id TIER_TRANSITION_TAG "receipt_id" body.

Definition make_envelope (body : dict) : result exn dict :=
  let* id := compute_receipt_id body in
  Ok [("receipt_id", PStr id); ("receipt_body", PDict body)].

Definition verify_envelope : dict -> result exn verdict :=
  check_envelope compute_receipt_id "receipt_body" "receipt_id".

Definition open_ledger (path : bool) (file : file_state) : result exn TierTransitionLedger :=
  let* v := load_member "receipts" (PList []) path file in
  Ok {| led_path := path; led_chain := v; led_file := file |}.

Definition ledger_doc (chain : pyval) : pyval :=
  PDict [("model", PStr "smh.tier.transition.ledger.v1"); ("receipts", chain)].

Definition _flush : M TierTransitionLedger unit := fun s =>
  let '(r, f) := dump_to (led_path s) (ledger_doc (led_chain s)) (led_file s) in
  (r, {| led_path := led_path s; led_chain := led_chain s; led_file := f |}).

(** [self._chain[-1]["receipt_id"] if self._chain else None]. *)
Definition last_receipt_id (chain : pyval) : result exn pyval :=
  match chain with
  | PList l => match last l with Some env => index "receipt_id" env | None => Ok PNone end
  | PDict (_ :: _) => Err (Exn KeyError "-1")
  | v => if truthy v then Err (Exn TypeError "not subscriptable") else Ok PNone
  end.

Definition append_envelope (env : dict) : M TierTransitionLedger unit := fun s =>
  match led_chain s with
  | PList l => (Ok tt, {| led_path := led_path s; led_chain := PList (l ++ [PDict env]);
                          led_file := led_file s |})
  | _ => (no_attribute, s)
  end.

Definition not_emitted (c : receipt_class) : movement_result :=
  {| emitted := false; mv_class := c; mv_receipt_id := None |}.

Definition record_movement (movement : string) (from_tier to_tier : option string)
    (subject_refs : list pyval) (eviction_target : option string) (emit_optional : bool) :
    M TierTransitionLedger movement_result :=
  let! cls := slift (classify_movement movement eviction_target) in
  if bool_decide (cls = NO_RECEIPT) then sret (not_emitted NO_RECEIPT)
  else if bool_decide (cls = OPTIONAL) && negb emit_optional then sret (not_emitted OPTIONAL)
  else
    let! chain := sget led_chain in
    let! prior := slift (last_receipt_id chain) in
    let! body := slift (make_receipt_body movement from_tier to_tier subject_refs prior) in
    let! id := slift (compute_receipt_id body) in
    let! _ := append_envelope [("receipt_id", PStr id); ("receipt_body", PDict body)] in
    let! _ := _flush in
    sret {| emitted := true; mv_class := cls; mv_receipt_id := Some id |}.

Definition same_ref (a b : pyval) : bool :=
  match a, b with
  | PNone, PNone => true
  | PStr x, PStr y => str_eqb x y
  | _, _ => false
  end.

(** The loop of [verify_chain] over the envelopes left, after the one named by [prev]. *)
Fixpoint verify_from (i : Z) (prev : pyval) (envs : list pyval) : result exn chain_report :=
  match envs with
  | [] => Ok (ChainValid i)
  | PDict env :: rest =>
      let* v := verify_envelope env in
      match v with
      | Corrupt detail => Ok (ChainCorrupt i detail)
      | Intact id =>
          let* body := index "receipt_body" (PDict env) in
          let* pr := get "prior_ref" body in
          if negb (same_ref pr prev) then Ok (ChainBroken i prev pr)
          else verify_from (i + 1) (PStr id) rest
      end
  | _ :: _ => no_attribute
  end.

Definition verify_ledger (s : TierTransitionLedger) : result exn chain_report :=
  let* envs := iter_refs (led_chain s) in verify_from 0 PNone envs.

(** * The hooks

    The file at the path of an artifact: its bytes, or nothing. *)
Definition _read_bytes (artifact : option string) : result exn string :=
  match artifact with Some b => Ok b | None => Err (Exn OtherError "artifact not present") end.

Definition record_archive (movement from_tier to_tier : string) (artifact : option string) :
    M TierTransitionLedger movement_result :=
  let! b := slift (_read_bytes artifact) in
  let! subject := slift (smh_archive_ref (Bytes b)) in
  record_movement movement (Some from_tier) (Some to_tier) [PDict subject] None false.

Definition on_release_minted : option string -> M TierTransitionLedger movement_result :=
  record_archive "deep_export" "COLD" "DEEP".
Definition on_archive_restored : option string -> M TierTransitionLedger movement_result :=
  record_archive "restore" "DEEP" "COLD".
Definition on_archive_hydrated (artifact : option string) (to_tier : string) :
    M TierTransitionLedger movement_result :=
  record_archive "hydration" "COLD" to_tier artifact.
Definition on_hot_frontier_tick (subject_refs : list pyval) : M TierTransitionLedger movement_result :=
  record_movement "hot_frontier_update" (Some "HOT") (Some "HOT") subject_refs None false.

(** A mint answers and leaves the artifact at its path, or raises. *)
Definition mint_and_record {A} (mint_fn : result exn (A * option string)) :
    M TierTransitionLedger (A * movement_result) :=
  let! '(mint_result, artifact) := slift mint_fn in
  let! receipt := on_release_minted artifact in
  sret (mint_result, receipt).

(** The entry point of the release script, with its two arguments or without: its exit code and
    the file of the ledger. *)
Definition emit_main (has_args : bool) (artifact : option string) (file : file_state) :
    result exn Z * file_state :=
  if negb has_args then (Ok 2, file) else
  match open_ledger true file with
  | Err e => (Err e, file)
  | Ok led =>
      let '(r, led') := on_release_minted artifact led in
      (rmap (fun m => if emitted m then 0 else 1) r, led_file led')
  end.
End ledger.

(** * The ledger as a chain

    The receipts of a ledger, oldest first, and the identity of the last one: every receipt is
    intact and names the one before it. *)
Section chain.
Context {U : Unicode}.

Definition prior_of (body : dict) : pyval := default PNone (dict_get "prior_ref" body).

Inductive ledger_of : list pyval -> pyval -> Prop :=
| ledger_nil : ledger_of [] PNone
| ledger_snoc l prev env body id :
    ledger_of l prev ->
    dict_get "receipt_body" env = Some (PDict body) ->
    dict_get "receipt_id" env = Some (PStr id) ->
    compute_receipt_id body = Ok id ->
    prior_of body = prev ->
    ledger_of (l ++ [PDict env]) (PStr id).

Lemma ledger_head l h : ledger_of l h -> h = PNone \/ exists id, h = PStr id.
Proof. destruct 1; eauto. Qed.

Lemma same_ref_spec a b : (b = PNone \/ exists s, b = PStr s) -> same_ref a b = true <-> a = b.
Proof.
  intros [->|[s ->]]; destruct a; cbn [same_ref]; try (split; congruence || discriminate).
  rewrite str_eqb_spec. split; congruence.
Qed.

Lemma ledger_snoc_inv l x h : ledger_of (l ++ [x]) h -> exists prev env body id,
  x = PDict env /\ h = PStr id /\ ledger_of l prev /\ dict_get "receipt_body" env = Some (PDict body) /\
  dict_get "receipt_id" env = Some (PStr id) /\ compute_receipt_id body = Ok id /\ prior_of body = prev.
Proof.
  inversion 1 as [E|l' prev env body id Hl Hb Hi Hc Hp E Eh].
  - by destruct l.
  - apply app_inj_tail in E as [-> <-]. eauto 15.
Qed.

Lemma ledger_det l h h' : ledger_of l h -> ledger_of l h' -> h = h'.
Proof.
  destruct l as [|x l _] using rev_ind.
  - intros H H'. inversion H as [|? ? ? ? ? ? ? ? ? ? E]; [|by destruct l].
    inversion H' as [|? ? ? ? ? ? ? ? ? ? E]; [done|by destruct l].
  - intros (p & env & b & id & -> & -> & _ & _ & Hi & _)%ledger_snoc_inv
      (p' & env' & b' & id' & [= <-] & -> & _ & _ & Hi' & _)%ledger_snoc_inv. congruence.
Qed.

Lemma ledger_prefix l k h : ledger_of (l ++ k) h -> exists h', ledger_of l h'.
Proof.
  revert h. induction k as [|x k IH] using rev_ind; intros h; [rewrite app_nil_r; eauto|].
  rewrite app_assoc. intros (p & _ & _ & _ & _ & _ & Hl & _)%ledger_snoc_inv. eauto.
Qed.

Lemma verify_from_exact rest : forall done_ prev i n, ledger_of done_ prev ->
  verify_from i prev rest = Ok (ChainValid n) <->
  n = i + Z.of_nat (length rest) /\ exists h, ledger_of (done_ ++ rest) h.
Proof.
  induction rest as [|x rest IH]; intros done_ prev i n Hd; cbn [verify_from length].
  - rewrite app_nil_r. split.
    + intros H. apply Ok_inj in H. injection H as <-. split; [lia|eauto].
    + intros [-> _]. by rewrite Z.add_0_r.
  - replace (done_ ++ x :: rest) with ((done_ ++ [x]) ++ rest) by by rewrite <- app_assoc.
    assert (forall id env body, x = PDict env -> dict_get "receipt_body" env = Some (PDict body) ->
      dict_get "receipt_id" env = Some (PStr id) -> compute_receipt_id body = Ok id -> prior_of body = prev ->
      ledger_of (done_ ++ [x]) (PStr id)) as Hstep.
    { intros id env body -> Hb Hi Hc Hp. by eapply ledger_snoc. }
    split.
    + destruct x as [| | | | | | |env|]; try discriminate. intros H.
      apply rbind_ok in H as ([id|detail] & Hv & H); [|discriminate].
      apply check_envelope_intact in Hv as (body & Hb & Hi & Hc).
      cbn [index] in H. rewrite Hb in H. cbn [rbind get] in H.
      destruct (same_ref _ prev) eqn:E; cbn [negb] in H; [|discriminate].
      apply same_ref_spec in E; [|by eapply ledger_head].
      apply (IH (done_ ++ [PDict env])) in H as [-> H]; [|by eapply Hstep]. split; [lia|done].
    + intros [-> [h Hh]]. destruct (ledger_prefix _ _ _ Hh) as [h' Hx].
      destruct (ledger_snoc_inv _ _ _ Hx) as (p & env & body & id & -> & -> & Hl & Hb & Hi & Hc & Hp).
      rewrite (ledger_det _ _ _ Hl Hd) in Hp.
      assert (verify_envelope env = Ok (Intact id)) as -> by (apply check_envelope_intact; eauto).
      cbn [rbind index]. rewrite Hb. cbn [rbind get]. unfold prior_of in Hp.
      rewrite (proj2 (same_ref_spec _ _ (ledger_head _ _ Hd)) Hp). cbn [negb].
      apply (IH (done_ ++ [PDict env])); [by eapply Hstep|]. split; [lia|eauto].
Qed.

(** The verifier of the ledger accepts exactly the chains. *)
Theorem verify_chain_exact s n : verify_ledger s = Ok (ChainValid n) <->
  exists l, iter_refs (led_chain s) = Ok l /\ n = Z.of_nat (length l) /\ exists h, ledger_of l h.
Proof.
  unfold verify_ledger. split.
  - intros (l & Hl & H)%rbind_ok. exists l. split; [done|].
    by apply (verify_from_exact l []) in H; [|constructor].
  - intros (l & -> & -> & H). cbn [rbind]. by apply (verify_from_exact l []); [constructor|].
Qed.
End chain.

(** * What a movement does to the ledger *)

Section movements.
Context {U : Unicode}.

Lemma bind_slift {S A B} (r : result exn A) (k : A -> M S B) s :
  sbind (slift r) k s = match r with Ok a => k a s | Err e => (Err e, s) end.
Proof. by destruct r. Qed.

Lemma last_receipt_id_chain l h : ledger_of l h -> last_receipt_id (PList l) = Ok h.
Proof.
  intros H. cbn [last_receipt_id]. destruct H as [|l prev env body id _ _ Hi]; [done|].
  rewrite last_snoc. cbn [index]. by rewrite Hi.
Qed.

Lemma prior_of_body k f t refs p body : make_receipt_body k f t refs p = Ok body ->
  prior_of body = p.
Proof.
  unfold make_receipt_body. destruct (mem_str k _); [|discriminate].
  destruct (is_tier f && is_tier t); [|discriminate]. destruct refs as [|r refs]; [discriminate|].
  intros (u & _ & H)%rbind_ok.
  apply Ok_inj in H as <-. by destruct p.
Qed.

(** The class decides: a movement is receipted when its class requires it, or allows it and it
    is asked for. *)
Definition receipted (cls : receipt_class) (emit_optional : bool) : bool :=
  match cls with REQUIRED => true | OPTIONAL => emit_optional | NO_RECEIPT => false end.

(** What a recorded movement leaves and answers: the chain with the receipt, and the write of
    the whole of it to the file. *)
Definition receipt_env (id : string) (body : dict) : pyval :=
  PDict [("receipt_id", PStr id); ("receipt_body", PDict body)].
Definition recorded (cls : receipt_class) (id : string) : movement_result :=
  {| emitted := true; mv_class := cls; mv_receipt_id := Some id |}.
Definition written (s : TierTransitionLedger) (chain : pyval) (out : movement_result) :
    result exn movement_result * TierTransitionLedger :=
  let '(w, f) := dump_to (led_path s) (ledger_doc chain) (led_file s) in
  (rmap (fun _ => out) w, {| led_path := led_path s; led_chain := chain; led_file := f |}).

Lemma written_chain s chain out : led_chain (snd (written s chain out)) = chain.
Proof. unfold written. by destruct (dump_to _ _ _). Qed.

Lemma written_answer s chain out o : fst (written s chain out) = Ok o -> o = out.
Proof.
  unfold written. destruct (dump_to _ _ _) as [[u|e] f]; cbn [fst rmap]; [|discriminate].
  intros H. by apply Ok_inj in H.
Qed.

(** The run of a movement that is receipted. *)
Lemma record_movement_run m f t refs ev opt s l h cls body id :
  led_chain s = PList l -> ledger_of l h ->
  classify_movement m ev = Ok cls -> receipted cls opt = true ->
  make_receipt_body m f t refs h = Ok body -> compute_receipt_id body = Ok id ->
  record_movement m f t refs ev opt s = written s (PList (l ++ [receipt_env id body])) (recorded cls id).
Proof.
  intros Hl Hh Hc Hr Hb Hi. unfold record_movement. rewrite bind_slift, Hc.
  assert (bool_decide (cls = NO_RECEIPT) = false) as -> by (by destruct cls).
  assert (bool_decide (cls = OPTIONAL) && negb opt = false) as -> by (by destruct cls, opt).
  unfold sbind at 1, sget. cbv beta iota. rewrite Hl, bind_slift, (last_receipt_id_chain l h Hh), bind_slift.
  rewrite Hb, bind_slift, Hi. unfold sbind at 1, append_envelope. rewrite Hl.
  unfold sbind, _flush, written. cbn [led_path led_chain led_file].
  by destruct (dump_to _ _ _) as [[[]|e] f'].
Qed.

(** A movement on a ledger that is a chain leaves a chain: the same one, or the same with one
    receipt more, of the body the movement describes.  It answers emitted exactly in the
    second case, and only for a class that is receipted. *)
Theorem record_movement_chains m f t refs ev opt s l h :
  led_chain s = PList l -> ledger_of l h ->
  let '(r, s') := record_movement m f t refs ev opt s in
  (s' = s /\ (forall o, r = Ok o -> emitted o = false /\
      exists cls, classify_movement m ev = Ok cls /\ receipted cls opt = false)) \/
  (exists cls body id, classify_movement m ev = Ok cls /\ receipted cls opt = true /\
    make_receipt_body m f t refs h = Ok body /\ compute_receipt_id body = Ok id /\
    led_chain s' = PList (l ++ [receipt_env id body]) /\ ledger_of (l ++ [receipt_env id body]) (PStr id) /\
    (forall o, r = Ok o -> o = recorded cls id)).
Proof.
  intros Hl Hh. unfold record_movement. rewrite bind_slift.
  destruct (classify_movement m ev) as [cls|e] eqn:Hc; [|left; split; [done|discriminate]].
  case_bool_decide as H1.
  { left. split; [done|]. intros o Ho. apply Ok_inj in Ho as <-. split; [done|]. exists cls. by subst. }
  destruct (bool_decide (cls = OPTIONAL) && negb opt) eqn:H2.
  { left. split; [done|]. intros o Ho. apply Ok_inj in Ho as <-. split; [done|]. exists cls.
    apply andb_true_iff in H2 as [->%bool_decide_eq_true ->%negb_true_iff]. done. }
  assert (receipted cls opt = true) as Hr by (by destruct cls, opt).
  unfold sbind at 1, sget. cbv beta iota. rewrite Hl, bind_slift, (last_receipt_id_chain l h Hh), bind_slift.
  destruct (make_receipt_body m f t refs h) as [body|e] eqn:Hb; [|left; split; [done|discriminate]].
  rewrite bind_slift.
  destruct (compute_receipt_id body) as [id|e] eqn:Hi; [|left; split; [done|discriminate]].
  pose proof (record_movement_run m f t refs ev opt s l h cls body id Hl Hh Hc Hr Hb Hi) as Hrun.
  unfold record_movement in Hrun. rewrite bind_slift, Hc, bool_decide_false, H2 in Hrun by done.
  unfold sbind at 1, sget in Hrun. cbv beta iota in Hrun.
  rewrite Hl, bind_slift, (last_receipt_id_chain l h Hh), bind_slift, Hb, bind_slift, Hi in Hrun.
  rewrite Hrun. pose proof (written_chain s (PList (l ++ [receipt_env id body])) (recorded cls id)) as Hw.
  pose proof (written_answer s (PList (l ++ [receipt_env id body])) (recorded cls id)) as Ho.
  destruct (written _ _ _) as [r s']. cbn [fst snd] in Hw, Ho.
  right. exists cls, body, id. split_and!; try done.
  eapply ledger_snoc; [exact Hh|done..|by eapply prior_of_body].
Qed.

(** A movement between strata that carries no authority is not recorded. *)
Theorem hot_frontier_not_recorded refs s :
  on_hot_frontier_tick refs s = (Ok (not_emitted NO_RECEIPT), s).
Proof. reflexivity. Qed.
End movements.

(** * The last receipt commits to the whole ledger *)

Section heads.
Context {U : Unicode} {UL : UnicodeLaws U}.

Lemma ck_norm_keys d : plain_keys (map fst d) = true ->
  ck_norm (PDict d) = PDict (sort_by by_utf16 (map (fun kv => (fst kv, ck_norm (snd kv))) d)).
Proof.
  intros [Ha _]%andb_true_iff. cbn [ck_norm]. f_equal. apply map_id_Forall.
  rewrite (sort_by_perm by_utf16). apply Forall_map, Forall_forall. intros kv Hkv.
  unfold nfc_key. cbn [fst snd]. f_equal. apply nfc_ascii. rewrite forallb_forall in Ha.
  apply Ha, in_map. by apply list_elem_of_In.
Qed.

(** Dictionaries with one normal form agree member by member. *)
Lemma ck_norm_member k d1 d2 : plain_keys (map fst d1) = true -> plain_keys (map fst d2) = true ->
  ck_norm (PDict d1) = ck_norm (PDict d2) ->
  option_map ck_norm (dict_get k d1) = option_map ck_norm (dict_get k d2).
Proof.
  intros P1 P2. rewrite !ck_norm_keys by done. intros [= H].
  apply andb_true_iff in P1 as [_ P1%bool_decide_eq_true], P2 as [_ P2%bool_decide_eq_true].
  assert (forall d : dict, NoDup (map fst d) ->
    dict_get k (sort_by by_utf16 (map (fun kv => (fst kv, ck_norm (snd kv))) d)) =
    option_map ck_norm (dict_get k d)) as Hd.
  { intros d Hd. rewrite <- dict_get_map. symmetry. apply dict_get_perm; [by rewrite map_map|].
    symmetry. apply sort_by_perm. }
  rewrite <- !Hd by done. by rewrite H.
Qed.

Lemma strip_ext_get k (d : dict) : k <> "ext" ->
  dict_get k (List.filter (fun kv => negb (str_eqb (fst kv) "ext")) d) = dict_get k d.
Proof.
  intros Hk. induction d as [|[x v] d IH]; [done|]. cbn [List.filter fst dict_get].
  destruct (str_eqb x "ext") eqn:E; cbn [negb dict_get].
  - apply str_eqb_spec in E as ->. assert (str_eqb k "ext" = false) as -> by by apply str_eqb_false. done.
  - by rewrite IH.
Qed.

Lemma strip_ext_plain (d : dict) : plain_keys (map fst d) = true ->
  plain_keys (map fst (List.filter (fun kv => negb (str_eqb (fst kv) "ext")) d)) = true.
Proof.
  unfold plain_keys. rewrite !andb_true_iff, !bool_decide_eq_true, !forallb_forall. intros [Ha Hn]. split.
  - intros x (kv & <- & Hkv)%in_map_iff. apply filter_In in Hkv as [Hkv _]. by apply Ha, in_map.
  - clear Ha. induction d as [|[x v] d IH]; [done|]. cbn [map fst List.filter] in *.
    apply NoDup_cons in Hn as [Hx Hn]. destruct (str_eqb x "ext"); cbn [negb map fst]; [by apply IH|].
    apply NoDup_cons. split; [|by apply IH]. intros Hin. apply Hx.
    rewrite list_elem_of_In in Hin. apply in_map_iff in Hin as (kv & E & Hkv).
    apply filter_In in Hkv as [Hkv _]. rewrite list_elem_of_In, <- E. by apply in_map.
Qed.

(** Bodies whose keys are plain and stay apart when composed. *)
Definition plain_body (b : dict) : bool :=
  plain_keys (map fst b) && pyval_ok (ck_norm (strip_ext (PDict b))).

Lemma body_prior b1 b2 t : plain_body b1 = true -> plain_body b2 = true ->
  canonical_bytes (PDict b1) = Ok t -> canonical_bytes (PDict b2) = Ok t ->
  ck_norm (prior_of b1) = ck_norm (prior_of b2).
Proof.
  intros [P1 O1]%andb_true_iff [P2 O2]%andb_true_iff H1 H2.
  pose proof (canonical_bytes_commit _ _ _ H1 H2 O1 O2) as H. cbn [strip_ext] in H.
  apply (ck_norm_member "prior_ref") in H; [|by apply strip_ext_plain..].
  rewrite !strip_ext_get in H by done. unfold prior_of.
  destruct (dict_get "prior_ref" b1), (dict_get "prior_ref" b2); cbn in H |- *; congruence.
Qed.

Lemma hex_ascii s : is_ascii_str (hex s) = true.
Proof.
  eapply str_forallb_impl; [|apply hex_is_hex]. intros c.
  by destruct c as [[] [] [] [] [] [] [] []].
Qed.

Lemma ledger_head_hex l h : ledger_of l h -> h = PNone \/ exists x, h = PStr (hex x).
Proof.
  destruct 1 as [|l prev env body id _ _ _ Hc _]; [by left|]. right.
  apply body_id_ok in Hc as [_ Hc]. apply domain_hash_ok in Hc as (cb & _ & _ & ->). by eexists.
Qed.

Lemma ledger_head_norm l h : ledger_of l h -> ck_norm h = h.
Proof.
  intros [->|[x ->]]%ledger_head_hex; [done|]. cbn [ck_norm]. f_equal. apply nfc_ascii, hex_ascii.
Qed.

Definition body_of (x : pyval) : dict :=
  match x with PDict env => match dict_get "receipt_body" env with Some (PDict b) => b | _ => [] end | _ => [] end.
Definition receipt_preimage (x : pyval) : string := hash_preimage TIER_TRANSITION_TAG (PDict (body_of x)).
Definition same_receipt (x y : pyval) : Prop :=
  canonical_bytes (PDict (body_of x)) = canonical_bytes (PDict (body_of y)).

(** Two ledgers that end in one receipt identity are the same ledger: they have the same length
    and receipt by receipt the same canonical body. *)
Theorem ledger_head_commits l1 l2 h : ledger_of l1 h -> ledger_of l2 h ->
  (forall x, x ∈ l1 ++ l2 -> plain_body (body_of x) = true) ->
  no_collision (map receipt_preimage (l1 ++ l2)) ->
  Forall2 same_receipt l1 l2.
Proof.
  intros H1. revert l2. induction H1 as [|l1 prev env body id Hl IH Hb Hi Hc Hp]; intros l2 H2 Hok Hnc.
  - inversion H2. constructor.
  - destruct l2 as [|y l2 _] using rev_ind; [inversion H2; by destruct l|].
    apply ledger_snoc_inv in H2 as (prev' & env' & body' & id' & -> & [= <-] & Hl' & Hb' & Hi' & Hc' & Hp').
    set (x := PDict env) in *. set (y := PDict env') in *.
    assert (body_of x = body) as Ex by (unfold x; cbn [body_of]; by rewrite Hb).
    assert (body_of y = body') as Ey by (unfold y; cbn [body_of]; by rewrite Hb').
    assert (x ∈ (l1 ++ [x]) ++ l2 ++ [y]) as Hx by (rewrite !elem_of_app; left; right; left).
    assert (y ∈ (l1 ++ [x]) ++ l2 ++ [y]) as Hy by (rewrite !elem_of_app; right; right; left).
    pose proof (Hok x Hx) as Px. pose proof (Hok y Hy) as Py. rewrite Ex in Px. rewrite Ey in Py.
    apply body_id_ok in Hc as [_ Hc], Hc' as [_ Hc'].
    assert (canonical_bytes (PDict body) = canonical_bytes (PDict body')) as Hbytes.
    { refine (proj2 (domain_hash_commits _ _ _ _ _ Hc Hc' _)). eapply no_collision_mono; [|exact Hnc].
      intros p [->|[->|[]%elem_of_nil]%elem_of_cons]%elem_of_cons; apply list_elem_of_fmap.
      - exists x. split; [|done]. unfold receipt_preimage. by rewrite Ex.
      - exists y. split; [|done]. unfold receipt_preimage. by rewrite Ey. }
    destruct (domain_hash_ok _ _ _ Hc) as (t & Ht & _).
    assert (prev = prev') as <-.
    { rewrite <- (ledger_head_norm _ _ Hl), <- (ledger_head_norm _ _ Hl'), <- Hp, <- Hp'.
      eapply body_prior; [done..|exact Ht|congruence]. }
    apply Forall2_app; [|constructor; [unfold same_receipt; by rewrite Ex, Ey|constructor]].
    apply IH; [done| |].
    + intros z Hz. apply Hok. rewrite !elem_of_app in *. tauto.
    + eapply no_collision_mono; [|exact Hnc]. intros p. rewrite !list_elem_of_fmap.
      intros (z & -> & Hz). exists z. split; [done|]. rewrite !elem_of_app in *. tauto.
Qed.
End heads.

(** * The file of the ledger *)

Section files.

(** A value [json.dump] writes. *)
Definition printable (v : pyval) : bool := is_ok (json_dumps style_default_sorted v).

Lemma printable_list l : printable (PList l) = forallb printable l.
Proof.
  unfold printable. cbn [json_dumps]. rewrite is_ok_bind, is_ok_sequence.
  apply forallb_map_Forall. by apply Forall_forall.
Qed.

Lemma printable_dict d : printable (PDict d) =
  forallb (fun kv => is_ok (dumps_str style_default_sorted (fst kv)) && printable (snd kv)) d.
Proof.
  unfold printable. cbn [json_dumps sort_keys style_default_sorted].
  rewrite is_ok_bind, is_ok_sequence, (sort_by_map _ fst fst), !map_map by done.
  rewrite <- (forallb_perm _ _ _ (sort_by_perm fst d)). apply forallb_map_Forall, Forall_forall.
  intros kv _. unfold dumps_member. cbn [fst snd].
  destruct (dumps_str _ (fst kv)); [|done]. cbn [rbind]. by rewrite is_ok_bind.
Qed.

(** Texts, keys included, in ASCII, and neither floats nor foreign objects. *)
Fixpoint ascii_val (v : pyval) : bool :=
  match v with
  | PStr s => is_ascii_str s
  | PList l => forallb ascii_val l
  | PDict d => forallb (fun kv => is_ascii_str (fst kv) && ascii_val (snd kv)) d
  | PFloat _ | PTuple _ | PObj => false
  | _ => true
  end.

Lemma ascii_escapes s : is_ascii_str s = true -> is_ok (dumps_str style_default_sorted s) = true.
Proof.
  intros H. unfold dumps_str. cbn [ensure_ascii style_default_sorted].
  enough (exists t, esc_ascii s = Some t) as [t ->] by done.
  induction s as [|c s IH]; [by eexists|]. unfold is_ascii_str in *. cbn [str_forallb] in H.
  apply andb_true_iff in H as [Hc [t Ht]%IH]. cbn [esc_ascii]. rewrite Ht.
  assert ((N_of_ascii c <? 128)%N = true) as -> by (by destruct c as [[] [] [] [] [] [] [] []]).
  cbn. eauto.
Qed.

Lemma ascii_printable v : ascii_val v = true -> printable v = true.
Proof.
  induction v as [|[]|z|r|s|l IH|l IH|d IH|] using pyval_ind'; cbn [ascii_val]; try done.
  - intros H. unfold printable. cbn [json_dumps]. by apply ascii_escapes.
  - rewrite printable_list, !forallb_forall. intros H x Hx. rewrite Forall_forall in IH.
    apply IH; [by apply list_elem_of_In|by apply H].
  - rewrite printable_dict, !forallb_forall. intros H kv Hkv. rewrite Forall_forall in IH.
    pose proof (H kv Hkv) as [Hk Hv]%andb_true_iff. rewrite ascii_escapes by done.
    apply IH; [by apply list_elem_of_In|done].
Qed.

Lemma printable_doc l : printable (ledger_doc (PList l)) = forallb printable l.
Proof.
  unfold ledger_doc. rewrite printable_dict, <- printable_list. cbn [forallb fst snd].
  rewrite !ascii_escapes by done. rewrite (ascii_printable (PStr _)) by done. cbn [andb]. apply andb_true_r.
Qed.

(** What the write of a chain leaves in the file, and answers. *)
Lemma written_file s l out : led_path s = true -> forallb printable l = true ->
  written s (PList l) out = (Ok out, {| led_path := true; led_chain := PList l;
    led_file := Holds (canon (ledger_doc (PList l))) |}).
Proof.
  intros Hp Hl. unfold written, dump_to. rewrite Hp. rewrite <- printable_doc in Hl. unfold printable in Hl.
  by destruct (json_dumps _ _).
Qed.

Lemma written_unprintable s l out : led_path s = true -> forallb printable l = false ->
  exists e, written s (PList l) out = (Err e, {| led_path := true; led_chain := PList l; led_file := Unreadable |}).
Proof.
  intros Hp Hl. unfold written, dump_to. rewrite Hp. rewrite <- printable_doc in Hl. unfold printable in Hl.
  destruct (json_dumps _ _); [done|]. by eexists.
Qed.

Lemma written_memory s l out : led_path s = false ->
  written s (PList l) out = (Ok out, {| led_path := false; led_chain := PList l; led_file := led_file s |}).
Proof. intros Hp. unfold written, dump_to. by rewrite Hp. Qed.

(** The file written is opened again. *)
Lemma open_written l : open_ledger true (Holds (canon (ledger_doc (PList l)))) =
  Ok {| led_path := true; led_chain := PList (map canon l); led_file := Holds (canon (ledger_doc (PList l))) |}.
Proof. reflexivity. Qed.
End files.

(** A chain read back from its file is a chain, with the same head. *)
Section read_back.
Context {U : Unicode}.

Lemma dict_get_canon k d : keys_ok (PDict d) = true ->
  dict_get k (sort_by fst (map (fun kv => (fst kv, canon (snd kv))) d)) = option_map canon (dict_get k d).
Proof.
  intros (Hnd%bool_decide_eq_true & _ & _)%keys_ok_dict. rewrite <- dict_get_map. symmetry.
  apply dict_get_perm; [by rewrite map_map|]. symmetry. apply sort_by_perm.
Qed.

Lemma receipt_id_canon body id : keys_ok (PDict body) = true -> compute_receipt_id body = Ok id ->
  compute_receipt_id (sort_by fst (map (fun kv => (fst kv, canon (snd kv))) body)) = Ok id.
Proof.
  unfold compute_receipt_id. intros Hk Hid. pose proof (body_id_ok _ _ _ _ Hid) as [Hn Hd].
  unfold body_id. rewrite (proj2 (mem_str_false _ _)).
  - cbn [negb]. revert Hd. unfold domain_hash. by rewrite <- (canonical_bytes_canon body Hk).
  - rewrite (sort_by_perm fst), map_map. exact Hn.
Qed.

Lemma ledger_canon l h : ledger_of l h -> forallb keys_ok l = true -> ledger_of (map canon l) h.
Proof.
  induction 1 as [|l prev env body id Hl IH Hb Hi Hc Hp]; intros Hk; [constructor|].
  rewrite forallb_app in Hk. apply andb_true_iff in Hk as [Hkl [Hke _]%andb_true_iff].
  assert (keys_ok (PDict body) = true) as Hkb.
  { apply keys_ok_dict in Hke as (_ & _ & Hke). apply (Hke ("receipt_body", PDict body)).
    by apply list_elem_of_In, dict_get_in. }
  rewrite map_app. cbn [map canon]. eapply ledger_snoc; [by apply IH|..].
  - rewrite dict_get_canon by done. by rewrite Hb.
  - rewrite dict_get_canon by done. by rewrite Hi.
  - by apply receipt_id_canon.
  - unfold prior_of in *. rewrite dict_get_canon by done.
    destruct (ledger_head _ _ Hl) as [->|[x ->]]; destruct (dict_get "prior_ref" body); cbn in Hp |- *; by subst.
Qed.

Lemma chain_verifies l h p f : ledger_of l h ->
  verify_ledger {| led_path := p; led_chain := PList l; led_file := f |} = Ok (ChainValid (Z.of_nat (length l))).
Proof. intros Hl. apply verify_chain_exact. exists l. split_and!; [done..|by exists h]. Qed.
End read_back.

(** * Releases are recorded *)

Section releases.
Context {U : Unicode}.

Definition archive_subject (b : string) : pyval :=
  PDict [("ref_type", PStr "smh_archive_ref"); ("domain_tag", PStr SMH_ARCHIVE_TAG);
         ("digest", PStr (sha256_hex (SMH_ARCHIVE_TAG +:+ String nul b)))].

Lemma body_id_total tag self body : is_ascii_str tag = true -> self ∉ map fst body ->
  ck_domain (strip_ext (PDict body)) = true -> exists id, body_id tag self body = Ok id.
Proof.
  intros Ht Hs Hd. unfold body_id. apply mem_str_false in Hs. rewrite Hs. cbn [negb].
  unfold domain_hash. rewrite Ht. unfold canonical_bytes.
  rewrite <- serialize_total in Hd. destruct (_serialize _) as [cb|e]; [|done]. cbn [rbind]. eauto.
Qed.

(** The body of the receipt of a release, and that it can be identified, written and read. *)
Lemma release_body b h : h = PNone \/ (exists x, h = PStr (hex x)) ->
  exists body id, make_receipt_body "deep_export" (Some "COLD") (Some "DEEP") [archive_subject b] h = Ok body /\
    compute_receipt_id body = Ok id /\
    dict_get "movement_kind" body = Some (PStr "deep_export") /\
    dict_get "subject_refs" body = Some (PList [archive_subject b]) /\
    printable (receipt_env id body) = true /\ keys_ok (receipt_env id body) = true.
Proof.
  intros Hh.
  assert (exists body, make_receipt_body "deep_export" (Some "COLD") (Some "DEEP") [archive_subject b] h = Ok body /\
    "receipt_id" ∉ map fst body /\ ck_domain (strip_ext (PDict body)) = true /\
    dict_get "movement_kind" body = Some (PStr "deep_export") /\
    dict_get "subject_refs" body = Some (PList [archive_subject b]) /\
    ascii_val (PDict body) = true /\ keys_ok (PDict body) = true)
    as (body & Hb & Hn & Hd & Hm & Hs & Ha & Hk).
  { destruct Hh as [->|[x ->]]; eexists; (split; [reflexivity|]);
      (split; [apply mem_str_false; reflexivity|]); split_and!; try done;
      unfold archive_subject, sha256_hex; cbn -[hex sha256 is_ascii_str]; by rewrite !hex_ascii. }
  destruct (body_id_total TIER_TRANSITION_TAG "receipt_id" body eq_refl Hn Hd) as [id Hid].
  exists body, id. split_and!; try done.
  - apply ascii_printable. destruct (body_id_ok _ _ _ _ Hid) as [_ Hh'].
    apply domain_hash_ok in Hh' as (cb & _ & _ & ->). cbn [receipt_env ascii_val forallb fst snd] in *.
    unfold receipt_env. cbn [ascii_val forallb fst snd] in *. unfold sha256_hex. by rewrite hex_ascii, Ha.
  - unfold receipt_env. cbn [keys_ok forallb fst snd] in *. by rewrite Hk.
Qed.

(** C36: minting an archive leaves one receipt more in a ledger that is a chain, a deep export of
    exactly these bytes after the receipts that were there, and leaves it in the file of the
    ledger: opened again, that file holds a chain of one receipt more that verifies (the keys
    of every dictionary in the chain being distinct texts, [keys_ok]).  Without a file the
    receipt is kept in memory; and when the chain holds something that is not JSON,
    the mint reports it and the file is left unreadable. *)
Theorem release_recorded b s l h : led_chain s = PList l -> ledger_of l h ->
  let '(r, s') := on_release_minted (Some b) s in
  exists body id,
    let l' := l ++ [receipt_env id body] in
    led_chain s' = PList l' /\ ledger_of l' (PStr id) /\
    dict_get "movement_kind" body = Some (PStr "deep_export") /\
    dict_get "subject_refs" body = Some (PList [archive_subject b]) /\
    (led_path s = false -> r = Ok (recorded REQUIRED id) /\ led_file s' = led_file s) /\
    (led_path s = true -> forallb printable l = true ->
      r = Ok (recorded REQUIRED id) /\ led_file s' = Holds (canon (ledger_doc (PList l'))) /\
      exists led, open_ledger true (led_file s') = Ok led /\ led_chain led = PList (map canon l') /\
        (forallb keys_ok l = true -> verify_ledger led = Ok (ChainValid (Z.of_nat (length l) + 1)))) /\
    (led_path s = true -> forallb printable l = false -> is_ok r = false /\ led_file s' = Unreadable).
Proof.
  intros Hl Hh. destruct (release_body b h (ledger_head_hex _ _ Hh)) as (body & id & Hb & Hi & Hm & Hs & Hp & Hk).
  unfold on_release_minted, record_archive. rewrite bind_slift. cbn [_read_bytes].
  rewrite bind_slift. cbn [smh_archive_ref smh_archive_hash rbind]. fold (archive_subject b).
  rewrite (record_movement_run "deep_export" (Some "COLD") (Some "DEEP") [archive_subject b] None false
    s l h REQUIRED body id Hl Hh eq_refl eq_refl Hb Hi).
  set (l' := l ++ [receipt_env id body]).
  assert (ledger_of l' (PStr id)) as Hl' by (eapply ledger_snoc; [exact Hh|done..|by eapply prior_of_body]).
  assert (forallb printable l' = forallb printable l) as El
    by (unfold l'; rewrite forallb_app; cbn [forallb]; by rewrite Hp, !andb_true_r).
  pose proof (written_chain s (PList l') (recorded REQUIRED id)) as Hw.
  pose proof (written_memory s l' (recorded REQUIRED id)) as Wm.
  pose proof (written_file s l' (recorded REQUIRED id)) as Wf.
  pose proof (written_unprintable s l' (recorded REQUIRED id)) as Wu.
  destruct (written _ _ _) as [r s']. cbn [snd] in Hw. rewrite El in Wf, Wu.
  exists body, id. split_and!; try done.
  - intros E. by injection (Wm E) as -> ->.
  - intros E El'. injection (Wf E El') as -> ->. split_and!; [done..|]. eexists. split; [apply open_written|].
    split; [done|]. intros Hkl. rewrite (chain_verifies _ (PStr id)).
    + unfold l'. rewrite length_map, length_app. cbn [length]. do 2 f_equal. lia.
    + apply ledger_canon; [done|]. unfold l'. rewrite forallb_app. cbn [forallb]. by rewrite Hkl, Hk.
  - intros E El'. destruct (Wu E El') as [e We]. by injection We as -> ->.
Qed.

Theorem mint_without_archive {A} (mint_fn : result exn (A * option string)) s :
  (forall a b, mint_fn <> Ok (a, Some b)) -> snd (mint_and_record mint_fn s) = s /\
  is_ok (fst (mint_and_record mint_fn s)) = false.
Proof.
  intros H. unfold mint_and_record. rewrite bind_slift.
  destruct mint_fn as [[a [b|]]|e]; [by destruct (H a b)|done|done].
Qed.
End releases.

(** * Example: two releases; and limits *)

Definition empty_ledger : TierTransitionLedger :=
  {| led_path := true; led_chain := PList []; led_file := Absent |}.

Lemma release_recorded_witness :
  led_chain empty_ledger = PList [] /\ ledger_of (U:=nfc_id) [] PNone /\
  led_path empty_ledger = true /\ forallb printable [] = true /\ forallb keys_ok [] = true /\
  let '(r, s') := on_release_minted (U:=nfc_id) (Some "v1") empty_ledger in
  exists body id, r = Ok (recorded REQUIRED id) /\
    dict_get "subject_refs" body = Some (PList [archive_subject "v1"]) /\
    exists led, open_ledger true (led_file s') = Ok led /\
      led_chain led = PList [canon (receipt_env id body)] /\ verify_ledger (U:=nfc_id) led = Ok (ChainValid 1).
Proof.
  do 2 (split; [first [reflexivity|constructor]|]). do 3 (split; [reflexivity|]).
  pose proof (release_recorded (U:=nfc_id) "v1" empty_ledger [] PNone eq_refl (ledger_nil (U:=nfc_id))) as H.
  destruct (on_release_minted (Some "v1") empty_ledger) as [r s'].
  destruct H as (body & id & _ & _ & _ & Hs & _ & Hf & _).
  destruct (Hf eq_refl eq_refl) as (Hr & _ & led & Ho & Hc & Hv).
  exists body, id. split; [exact Hr|]. split; [exact Hs|].
  exists led. split; [exact Ho|]. split; [exact Hc|exact (Hv eq_refl)].
Defined.

Definition two_releases : result exn movement_result * TierTransitionLedger :=
  on_release_minted (U:=nfc_id) (Some "v2") (snd (on_release_minted (U:=nfc_id) (Some "v1") empty_ledger)).

Example two_releases_valid :
  verify_ledger (U:=nfc_id) (snd two_releases) = Ok (ChainValid 2) /\
  rmap emitted (fst two_releases) = Ok true /\
  (let* led := open_ledger true (led_file (snd two_releases)) in verify_ledger (U:=nfc_id) led) = Ok (ChainValid 2).
Proof. vm_compute. split_and!; reflexivity. Qed.

(** A receipt with a float in its body makes the verification of the whole ledger raise, where
    any other damage is reported as a corrupt receipt at its place. *)
Example float_receipt_escapes :
  let env := PDict [("receipt_id", PStr "0"); ("receipt_body", PDict [("x", PFloat "1.5")])] in
  verify_ledger (U:=nfc_id) {| led_path := false; led_chain := PList [env]; led_file := Absent |}
  = Err (Exn CanonErrorC "float_present").
Proof. vm_compute. reflexivity. Qed.
