(* ===== verification/Auditing.v ===== *)
(** The read-only audit session ([ugk/storage/audit.py]) over a receipt store and a warrant
    store: what it opens on, its queries, and what it attests of a store written honestly. *)
From S2P Require Import Prelude Json Sha256 Binding BindingM2 Frame Authority Receipt Trace Capability Sqlite Integrity Archives Store StoreFacts StoreVerify Warrant.

(** [AuditSession]: the receipt store, and the warrant store when its file is there. *)
Record AuditSession := {
  _rs : store;
  _ws : option WarrantStore;
}.

Definition LegendNotResolvable (legend_hash : string) : exn :=
  Exn OtherError ("LegendNotResolvable: legend_hash " +:+ substring 0 16 legend_hash).

(** [SELECT DISTINCT legend_hash ... WHERE legend_hash != ''], as a set. *)
Definition _unique_legend_hashes (d : db) : list string :=
  nodup string_dec (List.filter (fun h => negb (str_eqb h "")) (map legend_hash (rows d))).

Section opening.
(** The order in which the set of legend hashes is iterated. *)
Context (set_order : list string -> list string).

Fixpoint check_legends (d : db) (hs : list string) : result exn unit :=
  match hs with
  | [] => Ok tt
  | h :: rest =>
      let* l := resolve_legend d h in
      match l with Unresolved => Err (LegendNotResolvable h) | _ => check_legends d rest end
  end.

(** [open] on a state directory: the receipt database, when its file exists, opened the way a
    writer opens it, and the warrant database, when its file exists. *)
Definition audit_open (path : string) (receipt_db : option db) (warrant_db : option WarrantStore) (e : env) :
    result exn AuditSession :=
  match receipt_db with
  | None => Err (Exn OtherError "FileNotFoundError: no ugk.db found")
  | Some d =>
      let* rs := open_store (Some path) false true d e in
      let* _ := check_legends (view rs) (set_order (_unique_legend_hashes (view rs))) in
      Ok {| _rs := rs; _ws := warrant_db |}
  end.
End opening.

Record attestation := {
  at_stream_hash : string;
  hash_verified : bool;
  at_receipt_count : Z;
  law_hashes : list string;
  legend_hashes : list string;
  current_legend : string;
}.

(** [sorted] of the set of the nonempty values of a field. *)
Definition distinct_sorted (l : list string) : list string :=
  sorted_str (nodup string_dec (List.filter (fun h => negb (str_eqb h "")) l)).

Definition verify_full_chain (a : AuditSession) : result exn bool := verify_stream_hash (view (_rs a)) None.

Definition attest (a : AuditSession) : result exn attestation :=
  let* cur := LEGEND_HASH in
  let* ok := verify_stream_hash (view (_rs a)) None in
  let* rs := all_receipts (view (_rs a)) in
  Ok {| at_stream_hash := stream_hash (view (_rs a)); hash_verified := ok; at_receipt_count := receipt_count (view (_rs a));
        law_hashes := distinct_sorted (map law_hash rs); legend_hashes := distinct_sorted (map legend_hash rs);
        current_legend := cur |}.

(** ** Receipt queries *)

Definition receipts_where (p : Receipt -> bool) (a : AuditSession) : result exn (list Receipt) :=
  let* rs := all_receipts (view (_rs a)) in Ok (List.filter p rs).
Definition receipts_in_session (dkn : string) : AuditSession -> result exn (list Receipt) :=
  receipts_where (fun r => str_eqb (session_dkn r) dkn).
Definition receipts_for_warrant (h : string) : AuditSession -> result exn (list Receipt) :=
  receipts_where (fun r => str_eqb (warrant_id r) h).
Definition receipts_by_law_hash (h : string) : AuditSession -> result exn (list Receipt) :=
  receipts_where (fun r => str_eqb (law_hash r) h).
Definition audit_receipts (a : AuditSession) : result exn (list Receipt) := all_receipts (view (_rs a)).

(** ** Warrant queries: nothing without a warrant store *)

Definition with_warrant_store (q : WarrantStore -> result exn (list DecisionWarrant)) (a : AuditSession) :
    result exn (list DecisionWarrant) :=
  match _ws a with Some w => q w | None => Ok [] end.
Definition warrants_for_invariant (csil : Z) := with_warrant_store (fun w => basis_query w csil).
Definition warrants_for_invariant_and_law (csil : Z) (law : string) :=
  with_warrant_store (fun w => basis_query_for_law w csil law).
Definition warrant_lineage (h : string) := with_warrant_store (fun w => lineage_from w h 100).
Definition audit_warrants := with_warrant_store all_warrants.

(** ** Legends *)

Definition audit_resolve_legend (h : string) (a : AuditSession) : result exn resolved_legend :=
  let* l := resolve_legend (view (_rs a)) h in
  match l with Unresolved => Err (LegendNotResolvable h) | l => Ok l end.

Definition expand_receipt (r : Receipt) : result exn pyval :=
  let* cur := LEGEND_HASH in
  Ok (PDict [("op", PStr (op r)); ("intent", PStr (intent r)); ("jurisdiction", PStr (jurisdiction r));
             ("confidence", PStr (confidence r)); ("authority", PStr (authority r));
             ("timestamp", PFloat (timestamp r)); ("failed", PBool (failed r)); ("law_hash", PStr (law_hash r));
             ("legend_hash", PStr (legend_hash r)); ("warrant_id", PStr (warrant_id r));
             ("h_r", PStr (h_r r)); ("session_dkn", PStr (session_dkn r));
             ("legend_current", PBool (str_eqb (legend_hash r) cur))]).

(** * What the session opens on *)

Section audit_facts.
Context {U : Unicode} {UL : UnicodeLaws U} {E : Ed25519} {G : Engine}.

Definition resolvable (d : db) (h : string) : Prop :=
  exists l, resolve_legend d h = Ok l /\ l <> Unresolved.

Lemma check_legends_ok d hs : check_legends d hs = Ok tt <-> forall h, h ∈ hs -> resolvable d h.
Proof.
  induction hs as [|h hs IH]; cbn [check_legends].
  - split; [|done]. intros _ h Hh. by apply elem_of_nil in Hh.
  - split.
    + intros (l & Hl & H)%rbind_ok x Hx. apply elem_of_cons in Hx as [->|Hx].
      * exists l. split; [done|]. by destruct l.
      * apply IH; [|done]. by destruct l.
    + intros H. destruct (H h) as (l & Hl & Hne); [left|]. rewrite Hl. cbn [rbind].
      assert (check_legends d hs = Ok tt) as Hr by (apply IH; intros x Hx; apply H; by right).
      by destruct l.
Qed.

Lemma unique_legends d h : h ∈ _unique_legend_hashes d <-> h <> "" /\ exists r, r ∈ rows d /\ legend_hash r = h.
Proof.
  unfold _unique_legend_hashes. rewrite list_elem_of_In, nodup_In, filter_In, in_map_iff.
  rewrite negb_true_iff, str_eqb_false. setoid_rewrite list_elem_of_In. naive_solver.
Qed.

(** What opening does to the database: the tables are created and migrated, the rows and the
    archives stay. *)
Lemma open_store_view path d e st : open_store path false true d e = Ok st ->
  view st = set_tables (bootstrap (tables d)) d /\ durable (s_conn st) = view st.
Proof. unfold open_store. cbn [rbind andb]. intros (sh & _ & <-%Ok_inj)%rbind_ok. done. Qed.

(** The session opens exactly on a receipt database in which every legend a row was written
    under can be resolved, in whatever order they are visited. *)
Theorem audit_open_exact set_order path d ws e st : (forall l, Permutation (set_order l) l) ->
  open_store (Some path) false true d e = Ok st ->
  (exists a, audit_open set_order path (Some d) ws e = Ok a) <->
  forall r, r ∈ rows d -> legend_hash r <> "" -> resolvable d (legend_hash r).
Proof.
  intros Hp Hst. unfold audit_open. rewrite Hst. cbn [rbind].
  transitivity (check_legends (view st) (set_order (_unique_legend_hashes (view st))) = Ok tt).
  { destruct (check_legends _ _) as [[]|x]; cbn [rbind]; split; try done; [eauto|by intros [a [=]]]. }
  rewrite check_legends_ok. setoid_rewrite Hp. setoid_rewrite unique_legends.
  destruct (open_store_view _ _ _ _ Hst) as [-> _].
  split; [intros H r Hr Hne; apply H; eauto|]. intros H h (Hne & r & Hr & <-). by apply H.
Qed.

(** Opening a session leaves a database alone when its tables are those of this version. *)
Theorem audit_open_reads_only set_order path d ws e a : bootstrap (tables d) = tables d ->
  audit_open set_order path (Some d) ws e = Ok a -> durable (s_conn (_rs a)) = d.
Proof.
  intros Hb (st & Hst & (u & _ & <-%Ok_inj)%rbind_ok)%rbind_ok.
  cbn [_rs]. destruct (open_store_view _ _ _ _ Hst) as [Hv ->]. rewrite Hv, Hb. by destruct d.
Qed.

(** ** The queries *)

(** A query answers the receipts of the store that match, in their order. *)
Lemma receipts_where_exact p a rs : receipts_where p a = Ok rs <->
  exists l, all_receipts (view (_rs a)) = Ok l /\ rs = List.filter p l.
Proof.
  unfold receipts_where. split.
  - intros (l & Hl & <-%Ok_inj)%rbind_ok. eauto.
  - intros (l & -> & ->). done.
Qed.

(** ** A store written honestly passes its audit *)

Lemma written_legend a s r row : written a s r row ->
  legend_hash row = w_legend_hash a /\ law_hash row = w_law_hash a.
Proof.
  intros [eff p1 ps gr sn pj now cx g _ _ _ Hs Hr].
  apply seal_receipt_sealed in Hs as [k term cap cont br now' body tvh _ _ _ _ _ _ ->].
  unfold row_of in Hr. do 6 (apply rbind_ok in Hr as (? & _ & Hr)). by apply Ok_inj in Hr as <-.
Qed.

Lemma archive_kept row d h : resolve_legend (append_row row d) h = resolve_legend d h.
Proof. done. Qed.

(** C37: composition of the store and the audit: after an honest write on a store that verifies, and
    whose legends resolve, the session opens on the file the write left when the legend of the
    write resolves, and it attests a verified chain of one receipt more that ends in the receipt
    just written. *)
Theorem audit_attests_write set_order path a s r s' ws cur e st :
  (forall l, Permutation (set_order l) l) ->
  write a s = (Ok r, s') -> _txn_depth s = 0 -> chained GENESIS s -> fully_verified (view s) -> readable a r ->
  (forall x, x ∈ rows (view s) -> legend_hash x <> "" -> resolvable (view s) (legend_hash x)) ->
  (w_legend_hash a <> "" -> resolvable (view s) (w_legend_hash a)) ->
  LEGEND_HASH = Ok cur ->
  open_store (Some path) false true (durable (s_conn s')) e = Ok st ->
  exists session att, audit_open set_order path (Some (durable (s_conn s'))) ws e = Ok session /\
    attest session = Ok att /\ hash_verified att = true /\
    at_receipt_count att = receipt_count (view s) + 1 /\ at_stream_hash att = h_r r /\
    verify_full_chain session = Ok true.
Proof.
  intros Hp Hw Hd Hc Hv Hr Hl Hl' Hcur Hst.
  pose proof (honest_write_verifies a s r s' Hw Hc Hv Hr) as Hv'.
  destruct (write_extends_chain a s r s' GENESIS Hw Hc) as (_ & _ & _ & Htip & _ & Hcount & _ & _ & Hdur).
  rewrite (Hdur Hd) in Hst |- *.
  apply write_spec in Hw as (_ & _ & _ & _ & r0 & row & Hwr & _ & _ & _ & _ & Hview).
  destruct (written_legend _ _ _ _ Hwr) as [Hlr _].
  destruct (open_store_view _ _ _ _ Hst) as [Hsv _].
  apply fully_verified_iff in Hv' as (rs & Hrs & Hseg & _).
  assert (verify_stream_hash (view st) None = Ok true) as Hchain.
  { rewrite Hsv. unfold verify_stream_hash. change (all_receipts (set_tables _ _)) with (all_receipts (view s')).
    rewrite Hrs. cbn [rbind]. destruct rs; [done|by rewrite Hseg]. }
  destruct (proj2 (audit_open_exact set_order path (view s') ws e st Hp Hst)) as [session Hopen].
  { rewrite Hview. intros x Hx Hne. unfold resolvable. rewrite archive_kept.
    cbn [append_row set_rows rows] in Hx. apply elem_of_app in Hx as [Hx|Hx]; [by apply Hl|].
    apply list_elem_of_singleton in Hx as ->. rewrite Hlr in Hne |- *. by apply Hl'. }
  exists session. pose proof Hopen as Hs. unfold audit_open in Hs. rewrite Hst in Hs. cbn [rbind] in Hs.
  apply rbind_ok in Hs as (u & _ & <-%Ok_inj).
  eexists. split; [done|]. unfold attest. rewrite Hcur. cbn [rbind _rs]. rewrite Hchain.
  assert (all_receipts (view st) = Ok rs) as -> by by rewrite Hsv.
  cbn [rbind]. split; [reflexivity|].
  cbn [hash_verified at_receipt_count at_stream_hash]. rewrite Hsv, <- Hcount, <- Htip. split_and!; try done.
Qed.
End audit_facts.

(** * Examples, and limits *)

(** The legend hash of this version, computed once. *)
Definition demo_legend : result exn string := Eval vm_compute in LEGEND_HASH.

(** A second write, and the file it leaves opened again, computed once. *)
Definition second_write : result exn Receipt * store := Eval vm_compute in demo_write demo_args demo_store1.
Lemma second_write_run : demo_write demo_args demo_store1 = second_write.
Proof. vm_compute. reflexivity. Qed.
Definition reopened : result exn store :=
  Eval vm_compute in open_store (Some "ugk.db") false true (durable (s_conn (snd second_write))) demo_env.
Lemma reopened_run :
  open_store (Some "ugk.db") false true (durable (s_conn (snd second_write))) demo_env = reopened.
Proof. vm_compute. reflexivity. Qed.
Lemma second_readable : match fst second_write with Ok r => @readable nfc_id demo_args r | Err _ => False end.
Proof. split; vm_compute; reflexivity. Qed.
Lemma reopened_ok : is_ok reopened = true.
Proof. reflexivity. Qed.
Lemma first_ready : chained GENESIS demo_store1 /\ @fully_verified nfc_id (view demo_store1) /\
  Forall (fun x => legend_hash x = "") (rows (view demo_store1)) /\ receipt_count (view demo_store1) = 1.
Proof. split_and!; [split| | |]; vm_compute; repeat constructor. Qed.
Lemma legend_run : LEGEND_HASH = demo_legend.
Proof. vm_compute. reflexivity. Qed.

Lemma audit_attests_write_witness :
  exists r s' session att, demo_write demo_args demo_store1 = (Ok r, s') /\
    audit_open id "ugk.db" (Some (durable (s_conn s'))) None demo_env = Ok session /\
    attest session = Ok att /\ hash_verified att = true /\ at_receipt_count att = 2 /\ at_stream_hash att = h_r r.
Proof.
  pose proof second_write_run as H. pose proof reopened_run as Hst. pose proof second_readable as Hr.
  pose proof reopened_ok as Hok. pose proof legend_run as Hl. destruct first_ready as (Hc & Hv & He & Hn).
  destruct second_write as [[r|e] s']; [|destruct Hr]. destruct reopened as [st|e]; [|discriminate Hok].
  destruct demo_legend as [cur|e] eqn:El; [|discriminate El].
  destruct (@audit_attests_write nfc_id nfc_id_laws ed_demo demo_engine id "ugk.db" demo_args demo_store1 r s'
    None cur demo_env st) as (a & att & H1 & H2 & H3 & H4 & H5 & _);
    [reflexivity|exact H|reflexivity|exact Hc|exact Hv|exact Hr| | |exact Hl|exact Hst|].
  - intros x Hx Hne. destruct Hne. rewrite Forall_forall in He. exact (He x Hx).
  - intros Hne. destruct Hne. reflexivity.
  - exists r, s', a, att. rewrite Hn in H4. split_and!; assumption.
Defined.

(** A session opens its store the way a writer does: on a file without the tables of this version
    it creates them, though a session is to modify no store. *)
Example audit_open_writes_tables :
  match audit_open id "ugk.db" (Some empty_db) None demo_env with
  | Ok a => negb (Nat.eqb (length (tables (durable (s_conn (_rs a))))) (length (tables empty_db)))
  | Err _ => false
  end = true.
Proof. vm_compute. reflexivity. Qed.
